(* ===== verification/_CoqProject ===== *)
-Q . S2P
Prelude.v
Float64.v
FloatOps.v
Text.v
Breaker.v
Limiter.v
HotKey.v
Model.v
State.v
Programs.v
Rely.v
Laws.v
CodecDemo.v
DemoWorld.v
Config.v
Logging.v
Lock.v
Cache.v
Rwdb.v
Mq.v
Es.v
Loader.v
Order.v
Table.v
Auth.v
Profile.v
Analytics.v
Schema.v
Http.v
Swagger.v
Handlers.v
Health.v
System.v
Store.v
Mutex.v
Race.v
Invariant.v
Answers.v
Lifecycle.v
Durable.v
Concurrent.v
EndToEnd.v
