(* ===== verification/Prelude.v ===== *)
(** * High-concurrency framework: a verification library

    The program is an order service in Go: HTTP handlers behind trace, error,
    CORS and token middlewares; an order service that writes orders to MySQL
    under a distributed lock or hands them to Kafka, as a circuit breaker and
    a token bucket decide; a two-level cache with null markers, hot-key
    detection and delayed double deletion in front of a loader; profiles in
    MongoDB, full-text search in Elasticsearch, behaviour logs and reports in
    PostgreSQL, accounts with bcrypt and JWT; a Kafka consumer with retries
    and dead letters; probes, and a [main] that wires everything.  This
    library models that process as executable definitions, one per function,
    and proves what makes its parts and the whole correct.

    ** How a definition reads

    [State.v] holds the process state [Sys]: the breaker, the bucket, the
    detector, the cache, both SQL pools, the order sequence, the semaphores,
    the analytics buffer, the startup flag, and the goroutines started and
    not yet run ([task]).  A method is a computation [M A = Sys -> res A * Sys]
    that returns ([Val]), panics ([Panicked]), or has used up the iterations
    its loop allows ([Unfinished]).  A Go pair of result and error is a pair
    or a sum.  Everything outside [src/] is an operation of the class [Env]
    over an abstract world: clock, random bytes, Redis, ristretto, SQL
    drivers, MongoDB, Elasticsearch, Kafka, bcrypt, JWT, the consumer's
    context, and the order in which [range] visits a map.  JSON texts, floats
    and instants as text are the class [Codec] ([Model.v]); the e-mail rule and the wording of the validator the class
    [Validator] ([Handlers.v]); the constructors of the drivers the class
    [Drivers] ([System.v]).  What theorems rely on of these is stated in
    [Laws.v], [Model.v] and [Auth.v] as classes of documented laws; all hold
    of the concrete world of [DemoWorld.v] and the codec of [CodecDemo.v],
    in which every witness is evaluated.  Go's integers are [Z] with
    [wrap64], [wrapu64] and [wrapu32] written where the code can wrap;
    [float64] is IEEE binary64 ([Float64.v], [FloatOps.v]).

    ** Files

    - [Prelude.v]: integers, durations, record update, list lemmas;
      [Text.v]: [strings], [strconv], [utf8]; [Float64.v], [FloatOps.v].
    - [Breaker.v] (module [CB]): resilience/circuit_breaker.go, the methods
      and the fine-grained interleaving of their atomic accesses.
    - [Limiter.v] ([RL]): resilience/rate_limiter.go.
    - [HotKey.v] ([HK]): cache/hot_key_detector.go.
    - [Model.v]: model/models.go with its JSON forms.
    - [State.v], [Laws.v], [CodecDemo.v], [DemoWorld.v]: the world.
      [Programs.v]: methods cut at their shared accesses, and schedules;
      [Rely.v]: what a cut program promises while others act between its
      accesses.
    - [Config.v]: config/config.go.  [Lock.v]: lock/distributed_lock.go.
    - [Cache.v]: cache/multi_level_cache.go, over any loader.
    - [Rwdb.v]: database/rwdb.go.  [Mq.v] ([Mq], [Mock]): mq/producer.go,
      consumer.go, mock_producer.go and trace/trace.go.
    - [Es.v]: database/elasticsearch.go.  [Loader.v] ([Mongo], [Loader]):
      database/mongo.go and the loader and pools of cmd/server/main.go.
    - [Order.v] ([OrderSvc]): service/order_service.go.
    - [Auth.v] ([Repo], [Auth]): database/user_auth_repo.go and
      service/auth_service.go.  [Profile.v]: service/user_profile_service.go.
    - [Analytics.v] ([PgRepo], [Analytics]): database/postgres.go and
      service/analytics_service.go.  [Schema.v] ([Schema], [Manager]):
      database/schema.go and manager.go.
    - [Http.v]: middleware/*.go over gin's request and response.
    - [Handlers.v]: handler/*.go.  [Health.v]: health/health.go.
    - [Logging.v]: the logger of cmd/server/main.go; [Swagger.v]:
      middleware/swagger.go around the generated pages.
    - [System.v]: cmd/server/main.go: [setup] builds the server, [serve] is
      the chain of a route, [run_task] a goroutine, [initDatabases] the one
      that creates tables and indexes, [consume] a worker round, [shutdown]
      what runs after the signal, [finish] the deferred closings.  [does] is
      one labelled step of the process, an [action] of some part of it on the
      state, [step] the interleaving of all of them, [history] a sequence of
      actions.
    - [Table.v], [Store.v] ([Store]): the orders table and the two cache
      tiers against one finite map; [Race.v] ([Race]): the cache and order
      methods, a locked creation among them, interleaved on one order;
      [Mutex.v] ([Mutex]): the clients of the lock interleaved.
    - [Invariant.v]: the invariant, operation by operation;
      [Answers.v]: through handlers and middlewares to the whole process;
      [Lifecycle.v]: its end.
    - [Durable.v]: no operation of the process, run alone, loses a row of the
      table or lets a tier contradict it; [Concurrent.v]: lookups, creations,
      consumer retries and deletions of all orders, interleaved at their
      accesses; [EndToEnd.v]: through every step of the process and over HTTP.

    ** Interfaces

    The cache is a client of a [DataLoader], and its theorems are proved of
    any; [newDataLoader] is the one [main] wires in.  [OrderTable] ([Table.v]) is what
    the order service needs of SQL: the rows as a map, an upsert, a select
    and when the servers answer ([healthy]).  Its laws [OrderTableLaws] speak of one table
    for the master and its replicas, and of servers that answer throughout:
    they describe databases without replication lag, and the theorems of
    [Store.v] and of the files after it that use them are about such a
    deployment.  [Bystanders] ([Durable.v]) says which
    operations of other services leave the order table and the keys of orders
    alone.  [outage_poisons] shows what happens without the second assumption.

    ** What the theorems show

    - The whole: in every reachable state of a process built by [setup] each
      request gets exactly one answer, the invariant holds, and no goroutine,
      worker or writer panics or hangs ([one_answer], [process_invariant],
      [background_safe]); a request without a token is harmless
      ([unauthenticated_harmless]); a creation answered 200 is recorded
      ([created_means_recorded], over [accepted_recorded]).
    - Orders, one operation after another: the service refines a map from
      numbers to rows ([orders_refine_map]); through any history of the
      process a row that a creation or a consumed message has written stays in
      the table and no earlier one is lost, and failed messages are offered to
      the dead letters ([created_rows_last], [consumed_rows_last]).
    - Orders, with everything interleaved: a lookup always answers, a version
      of its order or, only for an order that had no row at the start, that it
      does not exist ([lookups_genuine]); once a creation has answered and its
      second deletion has run, lookups find the order whatever runs beside
      them ([created_orders_found]), and the same for consumed orders if their
      key is deleted again ([consumed_orders_found]), which the consumer
      itself does not do ([single_deletion_insufficient], a schedule after
      which a stored order is answered as absent).  A second deletion repairs
      whatever an interleaving left in the tiers ([second_deletion_repairs]).
    - The lock: two clients are between [Lock] and [Unlock] together only
      after the first one's lifetime has run out, under every schedule
      ([mutual_exclusion]); [Lock] returns after at most [wait / 50ms + 3]
      attempts, and gives up for time only after its wait ([lock_acquires]).
    - The loops: which settings let the tickers exist, and that each loop
      ends with its channel ([loops_bounds]).
    - The end: shutdown closes every channel once, the writer finishes, main
      returns ([process_ends]).
    - Breaker: legal transitions, invariant under interleaving, recovery, the
      threshold in IEEE arithmetic, refinement of the sequential methods.
    - Limiter and detector: bounds on bursts, waits that end among other
      callers, a sliding window refined by the ring up to one slot and to what
      clean-ups throw away.
    - Cache: acceptable values only, null markers, single flight, both
      deletions, counters.
    - Messages and orders: retries and commits; events and cached orders come
      back as they were sent, identifiers up to [2^53]; order numbers.
    - Accounts: tokens and logins.  Analytics: no accepted entry lost before
      the close; the batch statement.  Schema: splitting scripts.  HTTP:
      panics, gate, origins, types of request bodies, probes.

    Theorems whose comment has no number describe a defect or a detail and
    are kept beside the others.

    ** Loops and their bounds

    A loop without a structural argument has fuel, and a theorem that the
    fuel is enough.  [Lock.lock_fuel] allows one attempt per retry interval
    of the wait and three more ([lock_acquires]); [Mq.retry_loop] runs
    maxRetries+1 times, as the code's counter does ([retry_outcomes]);
    [RL.WaitAcquire] runs over its attempts and the calls others make while it
    has given the mutex up, and needs at most 129 attempts and 128 more for
    each token the others are granted ([wait_terminates]); [Analytics.drain]
    is structural in the entries waiting.

    ** What is one step

    The steps of [System.step] are whole operations that follow one another,
    and so are those of the components unless said otherwise.  Accesses
    interleave in [Breaker.v] (the counters and the window reset), in
    [Mutex.v] (the clients of the lock), in [Race.v] and [Concurrent.v] (the
    order methods over the caches, the table, the locks and Kafka) and, between
    the attempts of a wait, in [Limiter.v]; in [HotKey.v] one access and one
    locked deletion of a clean-up are a step.  A statement that would fail
    under interleaving is made in the files that have it, or says that its
    steps follow one another.  A goroutine runs at any later step, and the
    second deletion of the cache only after its delay.

    ** Not modelled

    Listening and the signals of [main]: they decide when its steps happen.
    The pages the swag tool generates (swagger/swagger.go) are an argument of
    the middleware around them; what zap and lumberjack do with a line is
    theirs, and lines logged by handlers are left out; the tests.  ASCII is
    assumed where the code folds case ([toLower]), trims spaces or compares
    header names, and request bodies are texts.  Cancellation of a request's
    context is part of what a client operation may answer. *)

From stdpp Require Export base tactics numbers list strings gmap relations.
From Stdlib Require Export ZArith Lia.

#[export] Set Default Proof Using "Type".
Open Scope Z_scope.

(** ** Fixed-width integers

    Go's [int], [int64] and [time.Duration] are 64-bit two's complement,
    [uint64] and [uint32] are unsigned; arithmetic wraps silently. *)

Definition wrap64 (z : Z) : Z := (z + 2 ^ 63) mod 2 ^ 64 - 2 ^ 63.
Definition wrapu64 (z : Z) : Z := z mod 2 ^ 64.
Definition wrapu32 (z : Z) : Z := z mod 2 ^ 32.

Definition int64_min : Z := - 2 ^ 63.
Definition int64_max : Z := 2 ^ 63 - 1.
Definition in_int64 (z : Z) : Prop := int64_min <= z <= int64_max.

(** ** Time

    A [time.Time] is an absolute instant in nanoseconds; [time.Now] is
    always an input of the operation that reads the clock.  [Time.Sub]
    saturates at the [Duration] range. *)

Definition Nanosecond : Z := 1.
Definition Millisecond : Z := 1000000.
Definition Second : Z := 1000000000.
Definition Minute : Z := 60 * Second.
Definition Hour : Z := 60 * Minute.

Definition time_sub (t u : Z) : Z := Z.max int64_min (Z.min int64_max (t - u)).

(** [Duration.Milliseconds]: integer division truncating toward zero. *)
Definition dur_milliseconds (d : Z) : Z := Z.quot d Millisecond.

(** [time.Duration(n) * unit] *)
Definition dur_of (n unit : Z) : Z := wrap64 (n * unit).

(** ** Background loops

    [for { select { case <-stopCh: return; case <-ticker.C: body } }]: the
    loop over what its [select] receives.  The first component tells whether
    it has returned; [time.NewTicker] panics on a period that is not
    positive, and nothing recovers a panic of these goroutines. *)

Inductive signal := Tick (now : Z) | Closed.

Section ticker.
Context {S : Type} (body : Z → S → S).

Fixpoint select_loop (l : list signal) (s : S) : bool * S :=
  match l with
  | [] => (false, s)
  | Tick now :: l => select_loop l (body now s)
  | Closed :: _ => (true, s)
  end.

Definition ticker_loop (period : Z) (l : list signal) (s : S) : option (bool * S) :=
  if period <=? 0 then None else Some (select_loop l s).

Lemma select_loop_ends l s : Closed ∈ l → (select_loop l s).1 = true.
Proof.
  intros H. revert s. induction l as [|[now|] l IH]; intros s; [by apply not_elem_of_nil in H| |done].
  apply elem_of_cons in H as [H|H]; [done|]. by apply IH.
Qed.

Lemma select_loop_keeps (P : S → Prop) l s : (∀ now s, P s → P (body now s)) → P s → P (select_loop l s).2.
Proof. intros Hb. revert s. induction l as [|[now|] l IH]; intros s Hs; [done| |done]. by apply IH, Hb. Qed.

Lemma ticker_loop_runs period l s : 0 < period → ticker_loop period l s = Some (select_loop l s).
Proof. intros H. unfold ticker_loop. by destruct (Z.leb_spec period 0); [lia|]. Qed.

Lemma ticker_loop_panics period l s : period <= 0 → ticker_loop period l s = None.
Proof. intros H. unfold ticker_loop. by destruct (Z.leb_spec period 0); [|lia]. Qed.

End ticker.

(** ** Go errors

    Errors are compared by identity ([err == ErrX], sentinels) and by
    their text.  [fmt.Errorf] always builds a fresh value, so a wrapped
    sentinel is no longer identical to it. *)

Inductive error :=
| Sentinel (msg : string)
| Errorf (msg : string).

#[export] Instance error_eq_dec : EqDecision error.
Proof. solve_decision. Defined.

Definition err_text (e : error) : string :=
  match e with Sentinel m | Errorf m => m end.

(** ** Record updates

    [r <| f := v |>] replaces field [f] of [r].  A record declares its eta
    expansion once ([Etable]); the setter of each field is found by
    abstracting that field in it. *)

Class Etable (R : Type) := eta_of : R → R.
Class Setter {R E : Type} (g : R → E) := set_field : (E → E) → R → R.
Arguments set_field {R E} g {_} _ _ /.

Ltac head_of t := lazymatch t with ?f _ => head_of f | _ => t end.

Ltac solve_setter :=
  lazymatch goal with
  | |- @Setter ?R ?E ?g =>
    lazymatch constr:(@eta_of R _) with
    | @eta_of _ ?i =>
    let h := head_of i in
    exact (λ (f : E → E) (r : R), ltac:(
      let b := eval cbv beta delta [h] in (i r) in
      lazymatch eval pattern (g r) in b with
      | ?k _ =>
          let t := eval cbv beta in (k (f (g r))) in
          lazymatch t with b => fail "no such field" | _ => exact t end
      end))
    end
  end.

#[export] Hint Mode Setter - - + : typeclass_instances.
#[export] Hint Extern 1 (@Setter _ _ _) => solve_setter : typeclass_instances.

Notation "r <| g := v |>" := (set_field g (λ _, v) r)
  (at level 1, left associativity, g at next level,
   format "r  <| g  :=  v |>").
Notation "r <| g ::= f |>" := (set_field g f r)
  (at level 1, left associativity, g at next level,
   format "r  <| g  ::=  f |>").

(** ** Generic tactics *)

Create HintDb hcf.
Create Rewrite HintDb hcf_rw.

(** Case analysis on every conditional and match of the goal. *)
Ltac split_cases :=
  repeat (case_match; simplify_eq/=).

(** Apply a lemma whose first premise is an instance. *)
Tactic Notation "by_class" uconstr(lem) := apply lem; [apply _|..].

Ltac inv_clear H := inversion H; clear H; simplify_eq/=.

(** Turn the boolean integer tests of the context into propositions. *)
Ltac zbool :=
  repeat match goal with
  | H : (_ <? _) = true |- _ => apply Z.ltb_lt in H
  | H : (_ <? _) = false |- _ => apply Z.ltb_ge in H
  | H : (_ <=? _) = true |- _ => apply Z.leb_le in H
  | H : (_ <=? _) = false |- _ => apply Z.leb_gt in H
  | H : (_ =? _) = true |- _ => apply Z.eqb_eq in H
  | H : (_ =? _) = false |- _ => apply Z.eqb_neq in H
  end.

(** Linear arithmetic with the int64 bounds. *)
Ltac i64 := unfold in_int64, int64_min, int64_max in *; lia.

(** ** Width lemmas *)

Lemma wrap64_id z : in_int64 z → wrap64 z = z.
Proof.
  unfold in_int64, wrap64, int64_min, int64_max. intros [? ?].
  rewrite Z.mod_small; lia.
Qed.

(** Once past the top. *)
Lemma wrap64_over z : 2 ^ 63 <= z < 3 * 2 ^ 63 → wrap64 z = z - 2 ^ 64.
Proof.
  intros Hz. unfold wrap64. replace (z + 2 ^ 63) with (z - 2 ^ 63 + 1 * 2 ^ 64) by lia.
  rewrite Z.mod_add, Z.mod_small by lia. lia.
Qed.

Lemma wrap64_range z : in_int64 (wrap64 z).
Proof.
  unfold in_int64, wrap64, int64_min, int64_max.
  pose proof (Z.mod_pos_bound (z + 2 ^ 63) (2 ^ 64)). lia.
Qed.

(** Wrapping is a ring homomorphism onto the residues modulo [2^64]. *)
Lemma wrap64_eq_mod a b : a mod 2 ^ 64 = b mod 2 ^ 64 → wrap64 a = wrap64 b.
Proof.
  intros H. unfold wrap64. f_equal.
  rewrite (Z.add_mod a), (Z.add_mod b) by lia. by rewrite H.
Qed.

Lemma wrap64_mod z : wrap64 z mod 2 ^ 64 = z mod 2 ^ 64.
Proof.
  unfold wrap64. rewrite Zminus_mod, Z.mod_mod, <-Zminus_mod by lia.
  f_equal. lia.
Qed.

Lemma wrap64_add_l a b : wrap64 (wrap64 a + b) = wrap64 (a + b).
Proof.
  apply wrap64_eq_mod. rewrite Z.add_mod, wrap64_mod, <-Z.add_mod by lia. done.
Qed.

Lemma wrap64_add_r a b : wrap64 (a + wrap64 b) = wrap64 (a + b).
Proof. rewrite Z.add_comm, wrap64_add_l. f_equal. lia. Qed.

Lemma wrap64_wrap64 a : wrap64 (wrap64 a) = wrap64 a.
Proof. apply wrap64_id, wrap64_range. Qed.

Lemma time_sub_id t u : in_int64 (t - u) → time_sub t u = t - u.
Proof. unfold in_int64, time_sub. lia. Qed.

Lemma time_sub_nonneg t u : u <= t → 0 <= time_sub t u.
Proof. unfold time_sub, int64_min, int64_max. lia. Qed.

Lemma time_sub_range t u : in_int64 (time_sub t u).
Proof. unfold in_int64, time_sub, int64_min, int64_max. lia. Qed.

#[export] Hint Resolve wrap64_range time_sub_range time_sub_nonneg : hcf.
#[export] Hint Rewrite wrap64_add_l wrap64_add_r wrap64_wrap64 : hcf_rw.

(** ** Reachability

    An invariant preserved by every step of a relation holds in every
    state reachable from one where it holds. *)
Lemma rtc_invariant {A} (R : relation A) (I : A → Prop) :
  (∀ x y, I x → R x y → I y) →
  ∀ x y, rtc R x y → I x → I y.
Proof. intros Hstep x y Hr. induction Hr; eauto. Qed.

(** ** List lemmas *)

Fixpoint sumZ (l : list Z) : Z :=
  match l with [] => 0 | x :: l => x + sumZ l end.

Lemma sumZ_app l k : sumZ (l ++ k) = sumZ l + sumZ k.
Proof. induction l; simpl; lia. Qed.

Lemma sumZ_insert (l : list Z) i x y :
  l !! i = Some x → sumZ (<[i := y]> l) = sumZ l - x + y.
Proof.
  revert i. induction l as [|a l IH]; intros [|i] H; simplify_eq/=; [lia|].
  rewrite (IH _ H). lia.
Qed.

Lemma sumZ_replicate n x : sumZ (replicate n x) = Z.of_nat n * x.
Proof. induction n; simpl; lia. Qed.
