(* ===== verification/Float64.v ===== *)
(** * IEEE-754 binary64 as the Go [float64] type

    Arithmetic is the executable [SpecFloat] of the Standard Library at
    precision 53 and exponent bound 1024, rounding to nearest-even.  The
    lemmas show where the code's floats are exact: integers below [2^53]. *)

From S2P Require Export Prelude.
From Stdlib Require Export Floats.SpecFloat.

Abbreviation float64 := spec_float.

Definition f64_prec : Z := 53.
Definition f64_emax : Z := 1024.

Definition f64_add : float64 → float64 → float64 := SFadd f64_prec f64_emax.
Definition f64_sub : float64 → float64 → float64 := SFsub f64_prec f64_emax.
Definition f64_mul : float64 → float64 → float64 := SFmul f64_prec f64_emax.
Definition f64_div : float64 → float64 → float64 := SFdiv f64_prec f64_emax.

(** [float64(z)] for an integer [z]: correctly rounded conversion. *)
Definition f64_of_Z (z : Z) : float64 := binary_normalize f64_prec f64_emax z 0 false.

(** [x >= y], [x > y], [x <= y]: false when an operand is NaN. *)
Definition f64_geb (x y : float64) : bool := SFleb y x.
Definition f64_gtb (x y : float64) : bool := SFltb y x.
Definition f64_leb (x y : float64) : bool := SFleb x y.

(** Conversion of a float to an integer truncates toward zero; the
    result for NaN, infinities and out-of-range values is
    implementation-specific in Go and is not relied on ([None]). *)
Definition f64_trunc (x : float64) : option Z :=
  match x with
  | S754_zero _ => Some 0
  | S754_finite s m e =>
      let a := if 0 <=? e then Z.pos m * 2 ^ e else Z.pos m / 2 ^ (- e) in
      Some (if s then - a else a)
  | _ => None
  end.

(** [Duration.Seconds]: whole seconds plus the fraction, in float64. *)
Definition dur_seconds (d : Z) : float64 :=
  f64_add (f64_of_Z (Z.quot d Second))
          (f64_div (f64_of_Z (Z.rem d Second)) (f64_of_Z Second)).

Definition f64_one : float64 := f64_of_Z 1.
Definition f64_zero : float64 := S754_zero false.

(** ** Rounding: the record of discarded bits

    [rep r N D] says that the mantissa record [r] stands for the exact
    quantity [N/D]: its integer part is [shr_m r] and the round and sticky
    bits place the remainder with respect to one half. *)

Definition rep (mrs : shr_record) (N D : Z) : Prop :=
  let m := shr_m mrs in
  match shr_r mrs, shr_s mrs with
  | false, false => N = m * D
  | false, true => m * D < N ∧ 2 * N < (2 * m + 1) * D
  | true, false => 2 * N = (2 * m + 1) * D
  | true, true => (2 * m + 1) * D < 2 * N ∧ N < (m + 1) * D
  end.

Lemma shr_1_rep mrs N D :
  0 <= shr_m mrs → 0 < D → rep mrs N D →
  0 <= shr_m (shr_1 mrs) ∧ rep (shr_1 mrs) N (2 * D) ∧
  shr_m (shr_1 mrs) = shr_m mrs / 2.
Proof.
  destruct mrs as [m r s]; unfold rep; simpl. intros Hm HD H.
  destruct m as [|[p|p|]|]; [| | | |lia]; simpl.
  - split_and!; [lia| |done]. destruct r, s; simpl in *; lia.
  - rewrite (Pos2Z.inj_xI p) in *. split_and!; [lia| |].
    + destruct r, s; simpl in *; lia.
    + apply Z.div_unique with 1; lia.
  - rewrite (Pos2Z.inj_xO p) in *. split_and!; [lia| |].
    + destruct r, s; simpl in *; lia.
    + apply Z.div_unique with 0; lia.
  - split_and!; [lia| |done]. destruct r, s; simpl in *; lia.
Qed.

Lemma shr_iter_rep p mrs N D :
  0 <= shr_m mrs → 0 < D → rep mrs N D →
  0 <= shr_m (iter_pos shr_1 p mrs) ∧
  rep (iter_pos shr_1 p mrs) N (D * 2 ^ Z.pos p) ∧
  shr_m (iter_pos shr_1 p mrs) = shr_m mrs / 2 ^ Z.pos p.
Proof.
  revert mrs D. induction p as [p IH|p IH|]; intros mrs D Hm HD H;
    cbn [iter_pos]; try pose proof (Z.pow_pos_nonneg 2 (Z.pos p) ltac:(lia) ltac:(lia)).
  - destruct (shr_1_rep _ _ _ Hm HD H) as (H1 & H2 & H3).
    destruct (IH _ (2 * D) H1 ltac:(lia) H2) as (I1 & I2 & I3).
    destruct (IH _ (2 * D * 2 ^ Z.pos p) I1 ltac:(lia) I2) as (J1 & J2 & J3).
    assert (Hp : 2 ^ Z.pos p~1 = 2 * 2 ^ Z.pos p * 2 ^ Z.pos p).
    { replace (Z.pos p~1) with (1 + Z.pos p + Z.pos p) by lia.
      by rewrite !Z.pow_add_r by lia. }
    split_and!; [done| |].
    + rewrite Hp. by replace (D * (2 * 2 ^ Z.pos p * 2 ^ Z.pos p))
        with (2 * D * 2 ^ Z.pos p * 2 ^ Z.pos p) by ring.
    + rewrite J3, I3, H3, Hp, !Z.div_div by nia. f_equal; ring.
  - destruct (IH _ D Hm HD H) as (I1 & I2 & I3).
    destruct (IH _ (D * 2 ^ Z.pos p) I1 ltac:(lia) I2) as (J1 & J2 & J3).
    assert (Hp : 2 ^ Z.pos p~0 = 2 ^ Z.pos p * 2 ^ Z.pos p).
    { replace (Z.pos p~0) with (Z.pos p + Z.pos p) by lia.
      by rewrite Z.pow_add_r by lia. }
    split_and!; [done| |].
    + rewrite Hp. by rewrite Z.mul_assoc.
    + rewrite J3, I3, Hp, !Z.div_div by nia. done.
  - destruct (shr_1_rep _ _ _ Hm HD H) as (H1 & H2 & H3).
    split_and!; [done| |].
    + by rewrite Z.mul_comm.
    + by rewrite H3.
Qed.

Lemma shr_rep mrs e n N D :
  0 <= shr_m mrs → 0 < D → 0 <= n → rep mrs N D →
  ∃ mrs', shr mrs e n = (mrs', e + n) ∧ 0 <= shr_m mrs' ∧
    rep mrs' N (D * 2 ^ n) ∧ shr_m mrs' = shr_m mrs / 2 ^ n.
Proof.
  intros Hm HD Hn H. destruct n as [|p|]; [| |lia]; simpl.
  - exists mrs. rewrite !Z.add_0_r, Z.mul_1_r, Z.div_1_r. done.
  - destruct (shr_iter_rep p mrs N D Hm HD H) as (? & ? & ?). eauto.
Qed.

(** Nearest-even rounding of a record never crosses an integer. *)
Lemma round_ne_spec mrs N D :
  0 <= shr_m mrs → 0 < D → rep mrs N D →
  let m1 := round_nearest_even (shr_m mrs) (loc_of_shr_record mrs) in
  shr_m mrs <= m1 <= shr_m mrs + 1 ∧
  (∀ k, k * D <= N → k <= m1) ∧ (∀ k, N <= k * D → m1 <= k).
Proof.
  intros Hm HD H m1.
  assert (shr_m mrs <= m1 <= shr_m mrs + 1 ∧ shr_m mrs * D <= N ∧
    N < (shr_m mrs + 1) * D ∧ (m1 = shr_m mrs ∨ shr_m mrs * D < N)) as (Hr & Hlo & Hhi & Hc).
  { destruct mrs as [m r s]; unfold rep, m1 in *; simpl in *.
    destruct r, s; simpl in *; try (destruct (Z.even m)); lia. }
  split_and!; [lia..| |].
  - intros k Hk. assert (k < shr_m mrs + 1); [|lia]. nia.
  - intros k Hk. destruct Hc as [->|Hc]; [|assert (shr_m mrs < k); [nia|lia]].
    nia.
Qed.

(** ** Rounding to 53 bits *)

Definition f64_emin : Z := -1074.

(** The float with integer mantissa [m <= 2^53] and exponent [e]. *)
Definition f64_pack (s : bool) (m e : Z) : float64 :=
  if m =? 0 then S754_zero s
  else if m =? 2 ^ 53 then
    (if e + 1 <=? 971 then S754_finite s (Z.to_pos (2 ^ 52)) (e + 1)
     else S754_infinity s)
  else if e <=? 971 then S754_finite s (Z.to_pos m) e else S754_infinity s.

Lemma Zdigits2_log2 m : 0 < m → Zdigits2 m = Z.log2 m + 1.
Proof.
  destruct m as [|p|]; try lia. intros _. simpl.
  induction p as [p IH|p IH|]; simpl in *; [| |done].
  - rewrite Pos2Z.inj_succ, IH. destruct p; simpl; lia.
  - rewrite Pos2Z.inj_succ, IH. destruct p; simpl; lia.
Qed.

Lemma shr_record_of_loc_m m l : shr_m (shr_record_of_loc m l) = m.
Proof. by destruct l as [|[]]. Qed.

Lemma fexp_unfold x : fexp f64_prec f64_emax x = Z.max (x - 53) (-1074).
Proof. done. Qed.

(** Second normalisation step: only a carry to [2^53] shifts. *)
Lemma shr_fexp_rounded m1 e1 :
  0 <= m1 <= 2 ^ 53 → -1074 <= e1 → (e1 = -1074 ∨ 2 ^ 52 <= m1) →
  shr_fexp f64_prec f64_emax m1 e1 loc_Exact =
    if m1 =? 2 ^ 53 then ({| shr_m := 2 ^ 52; shr_r := false; shr_s := false |}, e1 + 1)
    else ({| shr_m := m1; shr_r := false; shr_s := false |}, e1).
Proof.
  intros Hm He Hc. unfold shr_fexp. rewrite fexp_unfold.
  destruct (Z.eqb_spec m1 (2 ^ 53)) as [->|Hne].
  - change (Zdigits2 (2 ^ 53)) with 54.
    replace (Z.max (54 + e1 - 53) (-1074) - e1) with 1 by lia. done.
  - assert (Hd : Zdigits2 m1 <= 53 ∧ (2 ^ 52 <= m1 → Zdigits2 m1 = 53)).
    { destruct (decide (m1 = 0)) as [->|]; [simpl; lia|].
      rewrite Zdigits2_log2 by lia.
      pose proof (Z.log2_lt_pow2 m1 53 ltac:(lia)).
      pose proof (Z.log2_le_pow2 m1 52 ltac:(lia)). lia. }
    replace (Z.max (Zdigits2 m1 + e1 - 53) (-1074) - e1) with 0 by lia. done.
Qed.

Lemma round_aux_spec s m e l N D :
  0 <= m → 0 < D → rep (shr_record_of_loc m l) N D →
  e <= fexp f64_prec f64_emax (Zdigits2 m + e) →
  ∃ m1 e1, binary_round_aux f64_prec f64_emax s m e l = f64_pack s m1 e1 ∧
    e <= e1 ∧ -1074 <= e1 ∧ 0 <= m1 <= 2 ^ 53 ∧
    (e1 = -1074 ∨ 2 ^ 52 * (D * 2 ^ (e1 - e)) <= N) ∧
    (∀ k, k * (D * 2 ^ (e1 - e)) <= N → k <= m1) ∧
    (∀ k, N <= k * (D * 2 ^ (e1 - e)) → m1 <= k).
Proof.
  intros Hm HD Hrep He. unfold binary_round_aux.
  set (e1 := fexp f64_prec f64_emax (Zdigits2 m + e)) in *.
  unfold shr_fexp at 1. fold e1.
  destruct (shr_rep (shr_record_of_loc m l) e (e1 - e) N D) as (mrs & Hs & H0 & Hr & Hq);
    rewrite ?shr_record_of_loc_m; try done; [lia|].
  rewrite Hs. replace (e + (e1 - e)) with e1 by lia.
  rewrite shr_record_of_loc_m in Hq.
  assert (HDp : 0 < D * 2 ^ (e1 - e)) by (apply Z.mul_pos_pos; lia).
  destruct (round_ne_spec mrs N _ H0 HDp Hr) as (Hm1 & Hlo & Hhi).
  set (m1 := round_nearest_even (shr_m mrs) (loc_of_shr_record mrs)) in *.
  assert (Hfl : shr_m mrs * (D * 2 ^ (e1 - e)) <= N).
  { unfold rep in Hr. destruct (shr_r mrs), (shr_s mrs); lia. }
  assert (Hb : -1074 <= e1 ∧ 0 <= m1 <= 2 ^ 53 ∧ (e1 = -1074 ∨ 2 ^ 52 <= shr_m mrs)).
  { unfold e1 in *. rewrite fexp_unfold in *.
    destruct (decide (m = 0)) as [->|Hm0].
    { rewrite Z.div_0_l in Hq by lia. simpl in *. lia. }
    rewrite Zdigits2_log2 in * by lia.
    set (ex := Z.max (Z.log2 m + 1 + e - 53) (-1074)) in *.
    pose proof (Z.log2_spec m ltac:(lia)) as [L1 L2].
    assert (shr_m mrs < 2 ^ 53).
    { rewrite Hq. apply Z.div_lt_upper_bound; [lia|].
      rewrite <-Z.pow_add_r by lia. eapply Z.lt_le_trans; [exact L2|].
      apply Z.pow_le_mono_r; lia. }
    split_and!; [lia..|].
    destruct (decide (ex = -1074)) as [|Hex]; [by left|right].
    rewrite Hq. apply Z.div_le_lower_bound; [lia|].
    rewrite <-Z.pow_add_r by lia. etrans; [|exact L1].
    apply Z.pow_le_mono_r; lia. }
  exists m1, e1. destruct Hb as (Hb1 & Hb2 & Hb3).
  split; [|split_and!; try done; try lia; destruct Hb3; [by left|right; nia]].
  rewrite shr_fexp_rounded by (split_and?; lia). unfold f64_pack.
  change (f64_emax - f64_prec) with 971.
  destruct (Z.eqb_spec m1 (2 ^ 53)) as [->|Hne]; [done|].
  destruct (Z.eqb_spec m1 0) as [->|]; [done|].
  simpl. destruct m1; [done|done|lia].
Qed.

(** ** Values

    Every finite binary64 number is an integer multiple of [2^-1074];
    [f64_val] is that integer, with the infinities placed at the two ends
    [+-2^1024] of the range. *)

(** The scale [2^1074] and the top [2^1024] in that scale; kept folded, so
    that the arithmetic tactics treat them as atoms. *)
Definition f64_unit : Z := 2 ^ 1074.
Definition f64_top : Z := 2 ^ 2098.

Lemma f64_unit_pow : f64_unit = 2 ^ 1074.
Proof. reflexivity. Qed.

Lemma f64_unit_pos : 0 < f64_unit.
Proof. apply Z.pow_pos_nonneg; lia. Qed.

Lemma f64_top_pos : 0 < f64_top.
Proof. apply Z.pow_pos_nonneg; lia. Qed.

Lemma pow_le_top k : k <= 2098 → 2 ^ k <= f64_top.
Proof. intros. by apply Z.pow_le_mono_r. Qed.

Lemma top_le_pow k : 2098 <= k → f64_top <= 2 ^ k.
Proof. intros. by apply Z.pow_le_mono_r. Qed.

Definition f64_sgn (s : bool) (z : Z) : Z := if s then - z else z.

Definition f64_val (x : float64) : Z :=
  match x with
  | S754_finite s m e => f64_sgn s (Z.pos m * 2 ^ (e + 1074))
  | S754_infinity s => f64_sgn s f64_top
  | _ => 0
  end.

(** Canonical finite floats, and canonical floats including infinities. *)
Definition f64_fin (x : float64) : Prop :=
  match x with
  | S754_zero _ => True
  | S754_finite _ m e =>
      -1074 <= e <= 971 ∧ Z.pos m < 2 ^ 53 ∧ (e = -1074 ∨ 2 ^ 52 <= Z.pos m)
  | _ => False
  end.

Definition f64_wf (x : float64) : Prop :=
  f64_fin x ∨ x = S754_infinity true ∨ x = S754_infinity false.

(** [N/D], in units of [2^-1074], rounds to [r]: no representable number
    lies strictly between the exact value and the rounded one. *)
Definition rounds (N D : Z) (r : float64) : Prop :=
  f64_wf r ∧ ∀ z, f64_fin z →
    (f64_val z * D <= N → f64_val z <= f64_val r) ∧
    (N <= f64_val z * D → f64_val r <= f64_val z).

Lemma pow2_split a b : 0 <= a <= b → 2 ^ b = 2 ^ a * 2 ^ (b - a).
Proof. intros H. rewrite <-Z.pow_add_r by lia. f_equal. lia. Qed.

(** Comparing two canonical mantissa/exponent pairs. *)
Lemma canon_lt m1 e1 m2 e2 :
  -1074 <= e1 → m1 <= 2 ^ 53 - 1 → 2 ^ 52 <= m2 → e1 < e2 →
  m1 * 2 ^ (e1 + 1074) < m2 * 2 ^ (e2 + 1074).
Proof.
  intros. rewrite (pow2_split (e1 + 1074) (e2 + 1074)) by lia.
  assert (2 <= 2 ^ (e2 + 1074 - (e1 + 1074))).
  { change 2 with (2 ^ 1) at 1. apply Z.pow_le_mono_r; lia. }
  assert (0 < 2 ^ (e1 + 1074)) by lia.
  set (a := 2 ^ (e1 + 1074)) in *.
  set (b := 2 ^ (e2 + 1074 - (e1 + 1074))) in *.
  assert (m1 * a < 2 ^ 53 * a) by nia.
  assert (2 ^ 53 * a <= m2 * (a * b)); [|lia].
  replace (m2 * (a * b)) with ((m2 * b) * a) by ring.
  apply Z.mul_le_mono_nonneg_r; nia.
Qed.

Lemma f64_fin_bound x : f64_fin x → - f64_top < f64_val x < f64_top.
Proof.
  pose proof f64_top_pos. destruct x as [s| | |s m e]; cbn [f64_fin f64_val]; [lia|done..|].
  intros (He & Hm & _).
  assert (Z.pos m * 2 ^ (e + 1074) < f64_top).
  { eapply Z.lt_le_trans; [|apply (pow_le_top (53 + (971 + 1074))); lia].
    rewrite (Z.pow_add_r 2 53) by lia.
    apply Z.lt_le_trans with (2 ^ 53 * 2 ^ (e + 1074)); [nia|].
    apply Z.mul_le_mono_nonneg_l; [lia|]. apply Z.pow_le_mono_r; lia. }
  assert (0 < Z.pos m * 2 ^ (e + 1074)) by (apply Z.mul_pos_pos; lia).
  destruct s; simpl; lia.
Qed.

Lemma f64_fin_wf x : f64_fin x → f64_wf x.
Proof. by left. Qed.
#[export] Hint Resolve f64_fin_wf : hcf.

(** On non-NaN canonical floats the IEEE comparison is the order of the
    values. *)
Lemma SFcompare_val x y :
  f64_wf x → f64_wf y → SFcompare x y = Some (f64_val x ?= f64_val y).
Proof.
  assert (Hpos : ∀ m1 e1 m2 e2,
    f64_fin (S754_finite false m1 e1) → f64_fin (S754_finite false m2 e2) →
    match e1 ?= e2 with Eq => Pos.compare m1 m2 | c => c end =
    (Z.pos m1 * 2 ^ (e1 + 1074) ?= Z.pos m2 * 2 ^ (e2 + 1074))).
  { intros m1 e1 m2 e2 (E1 & M1 & C1) (E2 & M2 & C2). symmetry.
    destruct (Z.compare_spec e1 e2) as [->|He|He].
    - rewrite <-(Zmult_compare_compat_r (Z.pos m1) (Z.pos m2)); [done|].
      apply Z.lt_gt. lia.
    - apply Z.compare_lt_iff, canon_lt; lia.
    - apply Z.compare_gt_iff, canon_lt; lia. }
  assert (Hp : ∀ m e, f64_fin (S754_finite false m e) →
    0 < Z.pos m * 2 ^ (e + 1074) < f64_top).
  { intros m e H. pose proof (f64_fin_bound _ H) as B. cbn [f64_val f64_sgn] in B.
    destruct H as (? & _). split; [apply Z.mul_pos_pos; lia|lia]. }
  pose proof f64_top_pos.
  intros [Hx|[-> | ->]] [Hy|[-> | ->]]; try done;
    try (destruct x as [s| | |s m e]; try done);
    try (destruct y as [s'| | |s' m' e']; try done);
    try (pose proof (Hp _ _ Hx) as Bx); try (pose proof (Hp _ _ Hy) as By);
    unfold f64_val; cbn [SFcompare f64_sgn].
  all: try (destruct s; cbn [f64_sgn]); try (destruct s'; cbn [f64_sgn]).
  all: try (f_equal; symmetry; first
    [ done | apply Z.compare_lt_iff; lia | apply Z.compare_gt_iff; lia ]).
  - rewrite Z.compare_opp, <-(Hpos m' e' m e) by done.
    rewrite (Z.compare_antisym e e'). f_equal.
    destruct (e ?= e'); simpl; try done. symmetry. apply Pos.compare_antisym.
  - by rewrite <-Hpos.
Qed.

Lemma f64_leb_val x y : f64_wf x → f64_wf y → SFleb x y = (f64_val x <=? f64_val y).
Proof.
  intros Hx Hy. unfold SFleb, Z.leb. rewrite SFcompare_val by done. by case_match.
Qed.

Lemma f64_ltb_val x y : f64_wf x → f64_wf y → SFltb x y = (f64_val x <? f64_val y).
Proof.
  intros Hx Hy. unfold SFltb, Z.ltb. rewrite SFcompare_val by done. by case_match.
Qed.

(** ** The rounding relation *)

Lemma rounds_eq N1 D1 N2 D2 r :
  0 < D1 → 0 < D2 → N1 * D2 = N2 * D1 → rounds N1 D1 r → rounds N2 D2 r.
Proof.
  intros H1 H2 He [Hw Hr]. split; [done|]. intros z Hz.
  destruct (Hr z Hz) as [Ha Hb]. split; intros H; [apply Ha|apply Hb]; nia.
Qed.

(** A representable exact value is its own rounding. *)
Lemma rounds_exact N D r z :
  f64_fin z → f64_val z * D = N → rounds N D r → f64_val r = f64_val z.
Proof. intros Hz He [_ Hr]. destruct (Hr z Hz). lia. Qed.

Lemma rounds_ge N D r z :
  rounds N D r → f64_fin z → f64_val z * D <= N → f64_val z <= f64_val r.
Proof. intros [_ Hr] Hz. apply (Hr z Hz). Qed.

Lemma rounds_le N D r z :
  rounds N D r → f64_fin z → N <= f64_val z * D → f64_val r <= f64_val z.
Proof. intros [_ Hr] Hz. apply (Hr z Hz). Qed.

Lemma SFopp_fin x : f64_fin x → f64_fin (SFopp x).
Proof. by destruct x. Qed.

Lemma SFopp_wf x : f64_wf x → f64_wf (SFopp x).
Proof. intros [H|[-> | ->]]; [left; by apply SFopp_fin|right..]; simpl; auto. Qed.

Lemma SFopp_val x : f64_val (SFopp x) = - f64_val x.
Proof. destruct x as [[]|[]| |[]]; cbn [SFopp f64_val f64_sgn negb]; lia. Qed.

Lemma rounds_opp N D r : rounds N D r → rounds (- N) D (SFopp r).
Proof.
  intros [Hw Hr]. split; [by apply SFopp_wf|]. intros z Hz.
  destruct (Hr _ (SFopp_fin _ Hz)) as [Ha Hb].
  rewrite SFopp_val in *. split; lia.
Qed.
#[export] Hint Resolve SFopp_fin SFopp_wf rounds_opp : hcf.

Lemma rounds_val x : f64_fin x → rounds (f64_val x) 1 x.
Proof. intros H. split; [by left|]. intros; lia. Qed.

(** [f64_pack] has the value of its mantissa and exponent, overflowing to
    infinity. *)
Lemma f64_pack_opp m e : f64_pack true m e = SFopp (f64_pack false m e).
Proof. unfold f64_pack. by repeat case_match. Qed.

Lemma f64_pack_val m e :
  0 <= m <= 2 ^ 53 → -1074 <= e → (e = -1074 ∨ 2 ^ 52 <= m) →
  f64_wf (f64_pack false m e) ∧
  f64_val (f64_pack false m e) = Z.min (m * 2 ^ (e + 1074)) f64_top.
Proof.
  intros Hm He Hc. unfold f64_pack.
  assert (Hbig : ∀ k x, 0 <= k → 2 ^ k <= x → 2098 <= k + (e + 1074) →
    f64_top <= x * 2 ^ (e + 1074)).
  { intros k x Hk Hx Hs. etrans; [apply (top_le_pow (k + (e + 1074))); lia|].
    rewrite Z.pow_add_r by lia. apply Z.mul_le_mono_nonneg_r; lia. }
  destruct (Z.eqb_spec m 0) as [->|Hm0].
  { split; [by left|]. pose proof f64_top_pos. cbn [f64_val]. lia. }
  destruct (Z.eqb_spec m (2 ^ 53)) as [->|Hm1].
  { replace (2 ^ 53 * 2 ^ (e + 1074)) with (2 ^ 52 * 2 ^ (e + 1 + 1074)) by
      (rewrite <-!Z.pow_add_r by lia; f_equal; lia).
    destruct (Z.leb_spec (e + 1) 971).
    - split; [left; simpl; lia|]. rewrite Z.min_l; [done|].
      rewrite <-Z.pow_add_r by lia. apply pow_le_top; lia.
    - split; [by do 2 right|]. rewrite Z.min_r; [done|].
      rewrite <-Z.pow_add_r by lia. apply top_le_pow; lia. }
  destruct (Z.leb_spec e 971).
  - assert (Hf : f64_fin (S754_finite false (Z.to_pos m) e)).
    { simpl. rewrite !Z2Pos.id by lia. lia. }
    split; [by left|]. pose proof (f64_fin_bound _ Hf) as B.
    unfold f64_val, f64_sgn in *. rewrite Z2Pos.id in * by lia. lia.
  - split; [by do 2 right|]. rewrite Z.min_r; [done|].
    apply (Hbig 52); lia.
Qed.

(** A float with a small exponent is below the pack's binade. *)
Lemma fin_below_binade z e1 :
  f64_fin z → -1074 <= e1 →
  (∃ k, f64_val z = k * 2 ^ (e1 + 1074)) ∨ f64_val z < 2 ^ 52 * 2 ^ (e1 + 1074).
Proof.
  intros Hz He. assert (0 < 2 ^ (e1 + 1074)) by lia.
  destruct z as [s| | |[] m e]; simpl in Hz; try done; cbn [f64_val f64_sgn].
  - left. exists 0. lia.
  - right. assert (0 <= Z.pos m * 2 ^ (e + 1074)); lia.
  - destruct (decide (e1 <= e)).
    + left. exists (Z.pos m * 2 ^ (e - e1)). rewrite <-Z.mul_assoc, <-Z.pow_add_r by lia.
      do 2 f_equal. lia.
    + right. apply canon_lt; lia.
Qed.

(** The rounding core, for a nonnegative exact value [N/D * 2^e]. *)
Lemma round_aux_rounds m e l N D K :
  0 <= m → 0 < D → rep (shr_record_of_loc m l) N D →
  e <= fexp f64_prec f64_emax (Zdigits2 m + e) →
  0 <= K → 0 <= e + 1074 + K →
  rounds (N * 2 ^ (e + 1074 + K)) (D * 2 ^ K)
    (binary_round_aux f64_prec f64_emax false m e l).
Proof.
  intros Hm HD Hrep He HK HeK.
  destruct (round_aux_spec false m e l N D Hm HD Hrep He)
    as (m1 & e1 & -> & Hee & He1 & Hm1 & Hnorm & Hlo & Hhi).
  set (U := 2 ^ (e1 - e)) in *. set (V := 2 ^ (e1 + 1074)).
  assert (HU : 0 < U) by (unfold U; lia). assert (HV : 0 < V) by (unfold V; lia).
  assert (HUV : V * 2 ^ K = U * 2 ^ (e + 1074 + K)).
  { unfold U, V. rewrite <-!Z.pow_add_r by lia. f_equal. lia. }
  set (E := 2 ^ (e + 1074 + K)) in *. assert (HE : 0 < E) by (unfold E; lia).
  set (W := 2 ^ K) in *. assert (HW : 0 < W) by (unfold W; lia).
  assert (Hc : e1 = -1074 ∨ 2 ^ 52 <= m1) by (destruct Hnorm; [by left|right; auto]).
  destruct (f64_pack_val m1 e1 Hm1 He1 Hc) as [Hwf Hv]. fold V in Hv.
  split; [done|]. intros z Hz. rewrite Hv.
  assert (Hk : ∀ k, k * V * (D * W) = k * (D * U) * E).
  { intros k. replace (k * V * (D * W)) with (k * D * (V * W)) by ring.
    rewrite HUV. ring. }
  pose proof (f64_fin_bound z Hz) as Bz.
  assert ((∃ k, f64_val z = k * V) ∨ f64_val z < 2 ^ 52 * V ∧ e1 ≠ -1074) as [[k Hkz]|[Hsmall Hne]].
  { destruct (decide (e1 = -1074)) as [He1'|].
    - left. exists (f64_val z). unfold V. rewrite He1'. change (-1074 + 1074) with 0. lia.
    - destruct (fin_below_binade z e1 Hz He1); auto. }
  - rewrite Hkz, Hk in *.
    split; intros H; apply Z.mul_le_mono_pos_r in H; try done.
    + apply Hlo in H. nia.
    + apply Hhi in H. nia.
  - destruct Hc as [|Hc]; [done|]. destruct Hnorm as [|Hnorm]; [done|].
    split; intros H; [nia|exfalso].
    assert (2 ^ 52 * V * (D * W) <= N * E) by (rewrite Hk; nia).
    assert (f64_val z * (D * W) < 2 ^ 52 * V * (D * W)) by
      (apply Z.mul_lt_mono_pos_r; nia). lia.
Qed.
