(* ===== verification/FloatOps.v ===== *)
(** * Correct rounding of the float operations the code uses

    The rounding lemmas of each operation of [Float64], in terms of the
    integer values of its operands, and the exactness facts they give. *)

From S2P Require Export Float64.

Lemma binary_round_aux_sign s m e l :
  0 <= m → e <= fexp f64_prec f64_emax (Zdigits2 m + e) →
  binary_round_aux f64_prec f64_emax s m e l =
  (if s then SFopp else id) (binary_round_aux f64_prec f64_emax false m e l).
Proof.
  intros Hm He.
  assert (Hrep : ∃ N D, 0 < D ∧ rep (shr_record_of_loc m l) N D).
  { destruct l as [|[]];
      [exists m, 1|exists (2 * m + 1), 2|exists (4 * m + 1), 4|exists (4 * m + 3), 4];
      unfold rep; simpl; lia. }
  destruct Hrep as (N & D & HD & Hrep).
  destruct s; [|done]. unfold binary_round_aux.
  destruct (shr_fexp f64_prec f64_emax m e l) as [r1 e1] eqn:E1.
  destruct (shr_fexp _ _ _ e1 loc_Exact) as [r2 e2].
  destruct (shr_m r2); [done| |done]. by destruct (e2 <=? _).
Qed.

Lemma shl_align_spec m e e' :
  let '(mz, ez) := shl_align m e e' in
  ez = Z.min e e' ∧ Z.pos mz = Z.pos m * 2 ^ (e - ez).
Proof.
  unfold shl_align. destruct (e' - e) as [|p|p] eqn:E.
  - replace (e - e) with 0 by lia. lia.
  - replace (e - e) with 0 by lia. lia.
  - split; [lia|]. replace (e - e') with (Z.pos p) by lia.
    clear. induction p as [|p IH] using Pos.peano_ind; [simpl; lia|].
    rewrite Pos.iter_succ, Pos2Z.inj_xO, IH, Pos2Z.inj_succ, Z.pow_succ_r by lia. ring.
Qed.

(** Aligning to the canonical exponent establishes the side condition of
    the rounding core. *)
Lemma align_fexp m e mz ez :
  shl_align m e (fexp f64_prec f64_emax (Z.pos (digits2_pos m) + e)) = (mz, ez) →
  ez <= fexp f64_prec f64_emax (Zdigits2 (Z.pos mz) + ez).
Proof.
  intros H. pose proof (shl_align_spec m e (fexp f64_prec f64_emax (Z.pos (digits2_pos m) + e))) as Hs.
  rewrite H in Hs. destruct Hs as [-> Hs]. clear H. rewrite !fexp_unfold in *.
  change (Z.pos (digits2_pos m)) with (Zdigits2 (Z.pos m)) in *.
  rewrite !Zdigits2_log2 in * by lia.
  rewrite Hs. rewrite Z.log2_mul_pow2 by lia. lia.
Qed.

Lemma rep_exact m : rep (shr_record_of_loc m loc_Exact) m 1.
Proof. unfold rep; simpl; lia. Qed.

Lemma binary_round_rounds m e K :
  0 <= K → 0 <= e + 1074 + K →
  rounds (Z.pos m * 2 ^ (e + 1074 + K)) (2 ^ K)
    (binary_round f64_prec f64_emax false m e).
Proof.
  intros HK He. unfold binary_round.
  destruct (shl_align m e _) as [mz ez] eqn:Hal.
  pose proof (align_fexp _ _ _ _ Hal) as Hf.
  pose proof (shl_align_spec m e (fexp f64_prec f64_emax (Z.pos (digits2_pos m) + e))) as Hs.
  rewrite Hal in Hs. destruct Hs as [Hez Hmz].
  set (K' := Z.max K (- (ez + 1074))).
  eapply (rounds_eq (Z.pos mz * 2 ^ (ez + 1074 + K')) (1 * 2 ^ K')); [lia|lia| |].
  - rewrite Hmz. rewrite !Z.mul_1_l, <-!Z.mul_assoc, <-!Z.pow_add_r by lia.
    do 2 f_equal. lia.
  - apply round_aux_rounds; try apply rep_exact; try done; lia.
Qed.

Lemma binary_normalize_rounds z e K s :
  0 <= K → 0 <= e + 1074 + K →
  rounds (z * 2 ^ (e + 1074 + K)) (2 ^ K) (binary_normalize f64_prec f64_emax z e s).
Proof.
  intros HK He. destruct z as [|p|p]; simpl.
  - eapply (rounds_eq 0 1); [lia..|]. by apply (rounds_val (S754_zero s)).
  - by apply binary_round_rounds.
  - assert (Hr : binary_round f64_prec f64_emax true p e =
      SFopp (binary_round f64_prec f64_emax false p e)).
    { unfold binary_round. destruct (shl_align p e _) as [mz ez] eqn:Hal.
      apply (binary_round_aux_sign true); [lia|]. by eapply align_fexp. }
    rewrite Hr. change (Z.neg p) with (- Z.pos p). rewrite Z.mul_opp_l.
    by apply rounds_opp, binary_round_rounds.
Qed.

(** ** The operations the code uses *)

Lemma f64_of_Z_rounds z : rounds (z * f64_unit) 1 (f64_of_Z z).
Proof. apply (binary_normalize_rounds z 0 0 false); lia. Qed.

Lemma f64_add_rounds x y :
  f64_fin x → f64_fin y → rounds (f64_val x + f64_val y) 1 (f64_add x y).
Proof.
  intros Hx Hy. unfold f64_add, SFadd.
  destruct x as [s| | |s m e]; try done; destruct y as [s'| | |s' m' e']; try done;
    try (rewrite ?Z.add_0_l, ?Z.add_0_r; by apply rounds_val).
  - by destruct s, s'; apply (rounds_val (S754_zero _)).
  - pose proof (shl_align_spec m e (Z.min e e')) as H1.
    pose proof (shl_align_spec m' e' (Z.min e e')) as H2.
    destruct (shl_align m e _) as [a ea], (shl_align m' e' _) as [b eb].
    destruct H1 as [-> H1], H2 as [-> H2]. simpl.
    rewrite H1, H2. simpl in Hx, Hy.
    eapply rounds_eq; [..|apply (binary_normalize_rounds _ (Z.min e e') 0 false); lia]; try lia.
    unfold cond_Zopp, f64_val, f64_sgn.
    rewrite Z.add_0_r, (pow2_split (Z.min e e' + 1074) (e + 1074)),
      (pow2_split (Z.min e e' + 1074) (e' + 1074)) by lia.
    replace (e - Z.min e (Z.min e e')) with (e + 1074 - (Z.min e e' + 1074)) by lia.
    replace (e' - Z.min e' (Z.min e e')) with (e' + 1074 - (Z.min e e' + 1074)) by lia.
    destruct s, s'; ring.
Qed.

Lemma f64_sub_opp x y :
  f64_fin y → (∀ s, x ≠ S754_zero s) → f64_sub x y = f64_add x (SFopp y).
Proof.
  intros Hy Hz. unfold f64_sub, f64_add. destruct x as [s| | |s m e]; [by destruct (Hz s)|..];
    destruct y as [s'| | |s' m' e']; try done; simpl.
  f_equal. destruct s'; simpl; lia.
Qed.

Lemma f64_sub_rounds x y :
  f64_fin x → f64_fin y → rounds (f64_val x - f64_val y) 1 (f64_sub x y).
Proof.
  intros Hx Hy. destruct x as [s| | |s m e] eqn:Ex; try done.
  - destruct y as [s'| | |s' m' e']; try done; unfold f64_sub, SFsub.
    + by destruct s, s'; apply (rounds_val (S754_zero _)).
    + change (f64_val (S754_zero s)) with 0. rewrite Z.sub_0_l.
      by apply (rounds_opp _ _ (S754_finite s' m' e')), rounds_val.
  - rewrite f64_sub_opp by done. rewrite <-Z.add_opp_r, <-SFopp_val.
    apply f64_add_rounds; [done|by apply SFopp_fin].
Qed.

(** Products of canonical mantissas are already below their exponent. *)
Lemma f64_mul_rounds x y :
  f64_fin x → f64_fin y → rounds (f64_val x * f64_val y) f64_unit (f64_mul x y).
Proof.
  intros Hx Hy. unfold f64_mul, SFmul.
  pose proof f64_unit_pos.
  assert (Hz : ∀ s, rounds 0 f64_unit (S754_zero s)).
  { intros s. eapply (rounds_eq 0 1); [lia..|]. apply (rounds_val (S754_zero s)). done. }
  destruct x as [s| | |s m e]; try done; destruct y as [s'| | |s' m' e']; try done;
    cbn [f64_val]; rewrite ?Z.mul_0_l, ?Z.mul_0_r; try apply Hz.
  destruct Hx as (He & Hm & Hc), Hy as (He' & Hm' & Hc').
  assert (Hf : e + e' <= fexp f64_prec f64_emax (Zdigits2 (Z.pos (m * m')) + (e + e'))).
  { rewrite fexp_unfold, Zdigits2_log2 by lia.
    destruct (decide (e + e' <= -1074)); [lia|].
    enough (52 <= Z.log2 (Z.pos (m * m'))) by lia.
    apply Z.log2_le_pow2; [lia|]. rewrite Pos2Z.inj_mul. nia. }
  rewrite binary_round_aux_sign by (done || lia).
  assert (Hp : rounds (Z.pos m * 2 ^ (e + 1074) * (Z.pos m' * 2 ^ (e' + 1074))) f64_unit
    (binary_round_aux f64_prec f64_emax false (Z.pos (m * m')) (e + e') loc_Exact)).
  { eapply (rounds_eq (Z.pos (m * m') * 2 ^ (e + e' + 1074 + 1074)) (1 * f64_unit));
      [lia|lia| |apply (round_aux_rounds _ _ _ _ 1 1074); try apply rep_exact; try done; lia].
    rewrite Pos2Z.inj_mul.
    replace (e + e' + 1074 + 1074) with ((e + 1074) + (e' + 1074)) by lia.
    rewrite (Z.pow_add_r 2 (e + 1074)) by lia. ring. }
  cbn [f64_val f64_sgn]. destruct s, s'; cbn [xorb f64_sgn]; unfold id.
  - by rewrite Z.mul_opp_opp.
  - rewrite Z.mul_opp_l. by apply rounds_opp.
  - rewrite Z.mul_opp_r. by apply rounds_opp.
  - done.
Qed.

Lemma new_location_rep q r m2 :
  0 < m2 → 0 <= r < m2 → rep (shr_record_of_loc q (new_location m2 r)) (q * m2 + r) m2.
Proof.
  intros Hm Hr. unfold new_location, new_location_even, new_location_odd.
  destruct (Z.even m2) eqn:Ev; destruct (Z.eqb_spec r 0) as [->|Hr0];
    unfold rep; simpl; try lia.
  - destruct (Z.compare_spec (2 * r) m2); simpl; lia.
  - assert (Z.odd m2 = true) as [k Hk]%Z.odd_spec.
    { by rewrite <-Z.negb_even, Ev. }
    destruct (Z.compare_spec (2 * r + 1) m2); simpl; lia.
Qed.

Lemma log2_div_lower a b : 0 < b → b <= a → Z.log2 a - Z.log2 b - 1 <= Z.log2 (a / b).
Proof.
  intros Hb Hab. assert (0 <= Z.log2 b <= Z.log2 a).
  { split; [apply Z.log2_nonneg|by apply Z.log2_le_mono]. }
  destruct (decide (Z.log2 a - Z.log2 b - 1 < 0)).
  { pose proof (Z.log2_nonneg (a / b)). lia. }
  assert (1 <= a / b) by (apply Z.div_le_lower_bound; lia).
  apply Z.log2_le_pow2; [lia|]. apply Z.div_le_lower_bound; [done|].
  pose proof (Z.log2_spec a ltac:(lia)) as [La _].
  pose proof (Z.log2_spec b ltac:(lia)) as [_ Lb].
  apply Z.le_trans with (2 ^ Z.log2 a); [|done].
  rewrite (pow2_split (Z.succ (Z.log2 b)) (Z.log2 a)) by lia.
  replace (Z.log2 a - Z.succ (Z.log2 b)) with (Z.log2 a - Z.log2 b - 1) by lia. nia.
Qed.

(** The exponent a division chooses is fine enough for its quotient. *)
Lemma div_exponent m m' e e' e2 :
  0 < m → 0 < m' →
  e2 = Z.min (Z.max (Z.log2 m + 1 + e - (Z.log2 m' + 1 + e') - 53) (-1074)) (e - e') →
  e2 <= fexp f64_prec f64_emax (Zdigits2 (m * 2 ^ (e - e' - e2) / m') + e2).
Proof.
  intros Hm Hm' He2. set (mm := m * 2 ^ (e - e' - e2)). assert (0 < mm) by (apply Z.mul_pos_pos; lia).
  rewrite fexp_unfold. destruct (decide (mm < m')) as [Hlt|Hge].
  - assert (Z.log2 mm <= Z.log2 m') as Hl by (apply Z.log2_le_mono; lia).
    unfold mm in Hl. rewrite Z.log2_mul_pow2 in Hl by lia. rewrite Z.div_small by lia. simpl. lia.
  - pose proof (log2_div_lower mm m' ltac:(lia) ltac:(lia)) as Hl.
    assert (1 <= mm / m') by (apply Z.div_le_lower_bound; lia).
    rewrite Zdigits2_log2 by lia. unfold mm in Hl at 1. rewrite Z.log2_mul_pow2 in Hl by lia. lia.
Qed.

Lemma f64_div_rounds x y :
  f64_fin x → f64_fin y → 0 < f64_val y →
  rounds (f64_val x * f64_unit) (f64_val y) (f64_div x y).
Proof.
  intros Hx Hy Hpos. unfold f64_div, SFdiv.
  destruct y as [s'| | |[] m' e']; try done; try (cbn [f64_val f64_sgn] in Hpos; lia).
  destruct x as [s| | |s m e]; try done.
  { eapply (rounds_eq 0 1); [lia|exact Hpos|by cbn [f64_val]|by apply (rounds_val (S754_zero _))]. }
  destruct Hx as (He & Hm & Hc), Hy as (He' & Hm' & Hc').
  unfold SFdiv_core_binary. rewrite !fexp_unfold.
  set (e2 := Z.min _ (e - e')).
  assert (He2 : e2 = Z.min (Z.max (Z.log2 (Z.pos m) + 1 + e - (Z.log2 (Z.pos m') + 1 + e') - 53)
    (-1074)) (e - e')) by (unfold e2; by rewrite !Zdigits2_log2 by lia).
  clearbody e2.
  assert (Hmm : match e - e' - e2 with
    | 0 => Z.pos m | Z.pos _ => Z.shiftl (Z.pos m) (e - e' - e2) | Z.neg _ => 0 end
    = Z.pos m * 2 ^ (e - e' - e2)).
  { destruct (e - e' - e2) eqn:Es; [lia| |lia]. by rewrite Z.shiftl_mul_pow2 by lia. }
  rewrite Hmm. clear Hmm. set (mm := Z.pos m * 2 ^ (e - e' - e2)).
  assert (0 < mm) by (apply Z.mul_pos_pos; lia).
  pose proof (Z.div_mod mm (Z.pos m') ltac:(lia)) as Hdm.
  pose proof (Z.mod_pos_bound mm (Z.pos m') ltac:(lia)) as Hmb.
  unfold Z.div, Z.modulo in *.
  destruct (Z.div_eucl mm (Z.pos m')) as [q r] eqn:Eq.
  assert (Hq : q = mm / Z.pos m') by (unfold Z.div; by rewrite Eq).
  assert (0 <= q) by (rewrite Hq; apply Z.div_pos; lia).
  assert (Hf : e2 <= fexp f64_prec f64_emax (Zdigits2 q + e2))
    by (rewrite Hq; by apply (div_exponent (Z.pos m) (Z.pos m') e e')).
  rewrite binary_round_aux_sign by done.
  set (K := Z.max 0 (- (e2 + 1074))).
  assert (Hr : rounds (Z.pos m * 2 ^ (e + 1074) * f64_unit) (Z.pos m' * 2 ^ (e' + 1074))
    (binary_round_aux f64_prec f64_emax false q e2 (new_location (Z.pos m') r))).
  { eapply (rounds_eq ((q * Z.pos m' + r) * 2 ^ (e2 + 1074 + K)) (Z.pos m' * 2 ^ K));
      [apply Z.mul_pos_pos; lia|exact Hpos| |
       apply round_aux_rounds; try done; try apply new_location_rep; lia].
    replace (q * Z.pos m' + r) with mm by lia. unfold mm.
    transitivity (Z.pos m * Z.pos m' * (2 ^ (e - e' - e2) * 2 ^ (e2 + 1074 + K) * 2 ^ (e' + 1074)));
      [ring|].
    transitivity (Z.pos m * Z.pos m' * (2 ^ (e + 1074) * f64_unit * 2 ^ K)); [|ring].
    f_equal. rewrite f64_unit_pow, <-!Z.pow_add_r by lia. f_equal. lia. }
  cbn [f64_val f64_sgn]. destruct s; cbn [xorb f64_sgn].
  - rewrite Z.mul_opp_l. by apply rounds_opp.
  - done.
Qed.

(** ** Exact cases *)

Lemma f64_wf_fin x : f64_wf x → - f64_top < f64_val x < f64_top → f64_fin x.
Proof. intros [H|[-> | ->]]; [done|cbn [f64_val f64_sgn]; lia..]. Qed.

(** Integers of magnitude up to [2^53], scaled by a power of two that keeps
    them in range, are representable. *)
Lemma f64_representable z k :
  Z.abs z <= 2 ^ 53 → 0 <= k <= 2044 → ∃ x, f64_fin x ∧ f64_val x = z * 2 ^ k.
Proof.
  intros Hz Hk.
  assert (Hpos : ∀ p, Z.pos p < 2 ^ 53 → ∃ x, f64_fin x ∧ f64_val x = Z.pos p * 2 ^ k).
  { intros p Hp. set (j := Z.min (52 - Z.log2 (Z.pos p)) k).
    assert (Hl : 0 <= Z.log2 (Z.pos p) <= 52).
    { split; [apply Z.log2_nonneg|]. assert (Z.log2 (Z.pos p) < 53); [|lia].
      apply Z.log2_lt_pow2; lia. }
    pose proof (Z.log2_spec (Z.pos p) ltac:(lia)) as [L1 L2].
    assert (Hm : Z.pos p * 2 ^ j < 2 ^ 53 ∧ (k <= 52 - Z.log2 (Z.pos p) ∨ 2 ^ 52 <= Z.pos p * 2 ^ j)).
    { split.
      - apply Z.lt_le_trans with (2 ^ Z.succ (Z.log2 (Z.pos p)) * 2 ^ j); [nia|].
        rewrite <-Z.pow_add_r by lia. apply Z.pow_le_mono_r; lia.
      - destruct (decide (k <= 52 - Z.log2 (Z.pos p))); [by left|right].
        apply Z.le_trans with (2 ^ Z.log2 (Z.pos p) * 2 ^ j); [|nia].
        rewrite <-Z.pow_add_r by lia. apply Z.pow_le_mono_r; lia. }
    assert (0 < Z.pos p * 2 ^ j) by (apply Z.mul_pos_pos; lia).
    exists (S754_finite false (Z.to_pos (Z.pos p * 2 ^ j)) (k - j - 1074)).
    cbn [f64_fin f64_val f64_sgn]. rewrite Z2Pos.id by done. split; [lia|].
    rewrite <-Z.mul_assoc, <-Z.pow_add_r by lia. do 2 f_equal. lia. }
  assert (Hnn : ∀ z, 0 <= z <= 2 ^ 53 → ∃ x, f64_fin x ∧ f64_val x = z * 2 ^ k).
  { intros y Hy. destruct (decide (y = 2 ^ 53)) as [->|].
    - exists (S754_finite false (Z.to_pos (2 ^ 52)) (k + 1 - 1074)).
      cbn [f64_fin f64_val f64_sgn]. split; [simpl; lia|].
      rewrite Z2Pos.id, <-!Z.pow_add_r by lia. f_equal. lia.
    - destruct y as [|p|p]; [by exists f64_zero|apply Hpos; lia|lia]. }
  destruct (decide (0 <= z)); [apply Hnn; lia|].
  destruct (Hnn (- z) ltac:(lia)) as (x & Hx & Hv).
  exists (SFopp x). split; [by apply SFopp_fin|]. rewrite SFopp_val, Hv. lia.
Qed.

Lemma f64_of_Z_exact z :
  Z.abs z <= 2 ^ 53 → f64_fin (f64_of_Z z) ∧ f64_val (f64_of_Z z) = z * f64_unit.
Proof.
  intros Hz. destruct (f64_representable z 1074 Hz ltac:(lia)) as (x & Hx & Hv).
  fold f64_unit in Hv.
  pose proof (f64_of_Z_rounds z) as Hr.
  assert (He : f64_val (f64_of_Z z) = f64_val x) by
    (apply (rounds_exact (z * f64_unit) 1); [done|lia|done]).
  split; [|lia]. apply f64_wf_fin; [apply Hr|]. rewrite He. by apply f64_fin_bound.
Qed.

Lemma f64_of_Z_fin z : Z.abs z <= 2 ^ 64 → f64_fin (f64_of_Z z).
Proof.
  intros Hz. pose proof (f64_of_Z_rounds z) as [Hw Hr].
  destruct (f64_representable (2 ^ 52) (12 + 1074)) as (x & Hx & Hv); [lia..|].
  destruct (Hr x Hx) as [_ Hhi], (Hr (SFopp x) (SFopp_fin x Hx)) as [Hlo _].
  rewrite Z.pow_add_r in Hv by lia. fold f64_unit in Hv.
  rewrite SFopp_val, Hv in *. pose proof f64_unit_pos.
  apply f64_wf_fin; [done|]. pose proof (f64_fin_bound x Hx). rewrite Hv in *.
  assert (z * f64_unit <= 2 ^ 64 * f64_unit) by nia.
  assert (- (2 ^ 64 * f64_unit) <= z * f64_unit) by nia. lia.
Qed.

(** A result bounded by finite floats is finite. *)
Lemma rounds_fin N D r lo hi :
  rounds N D r → f64_fin lo → f64_fin hi →
  f64_val lo * D <= N → N <= f64_val hi * D →
  f64_fin r ∧ f64_val lo <= f64_val r <= f64_val hi.
Proof.
  intros Hr Hlo Hhi H1 H2.
  pose proof (rounds_ge _ _ _ _ Hr Hlo H1). pose proof (rounds_le _ _ _ _ Hr Hhi H2).
  pose proof (f64_fin_bound _ Hlo). pose proof (f64_fin_bound _ Hhi).
  split; [|lia]. apply f64_wf_fin; [apply Hr|lia].
Qed.

(** A power of two in range, as an upper or lower bound. *)
Lemma f64_pow2 k : -1074 <= k <= 970 → ∃ x, f64_fin x ∧ f64_val x = 2 ^ (k + 1074).
Proof.
  intros Hk. destruct (f64_representable 1 (k + 1074)) as (x & Hx & Hv); [lia..|].
  exists x. split; [done|]. by rewrite Hv, Z.mul_1_l.
Qed.

(** ** Durations in seconds *)

(** Seconds are counted on a grid of [2^31] to the unit, a little finer than
    half a nanosecond. *)
Definition f64_grid : Z := 2 ^ 1043.

Lemma f64_unit_grid : f64_unit = 2 ^ 31 * f64_grid.
Proof. reflexivity. Qed.

Lemma f64_grid_pos : 0 < f64_grid.
Proof. apply Z.pow_pos_nonneg; lia. Qed.

(** [f64_of_Z] of a bound used below, with its value in units. *)
Lemma f64_int z : Z.abs z <= 2 ^ 53 → ∃ x, f64_fin x ∧ f64_val x = z * f64_unit.
Proof. intros H. exists (f64_of_Z z). by apply f64_of_Z_exact. Qed.

(** The grid's points up to a unit are floats. *)
Lemma f64_on_grid k : 0 <= k <= 2 ^ 31 → ∃ x, f64_fin x ∧ f64_val x = k * f64_grid.
Proof. intros H. destruct (f64_representable k 1043) as (x & F & V); [lia..|]. by exists x. Qed.

(** The seconds of a nonnegative duration are finite, exact at zero, and up
    to a second not below two points of the grid per nanosecond. *)
Lemma dur_seconds_spec d :
  0 <= d <= int64_max →
  f64_fin (dur_seconds d) ∧ 0 <= f64_val (dur_seconds d) <= 2 ^ 34 * f64_unit ∧
  (d = 0 → f64_val (dur_seconds d) = 0) ∧
  (∀ k, 0 <= k <= 2 ^ 31 → k <= 2 * d → k * f64_grid <= f64_val (dur_seconds d)).
Proof.
  intros Hd. unfold dur_seconds.
  pose proof f64_unit_pos. pose proof f64_grid_pos. pose proof f64_unit_grid as Hgrid.
  assert (Hsec : 0 <= Z.quot d Second <= 10000000000 ∧ 0 <= Z.rem d Second < Second ∧
    d = Second * Z.quot d Second + Z.rem d Second).
  { unfold Second, int64_max in *. rewrite Z.quot_div_nonneg, Z.rem_mod_nonneg by lia.
    pose proof (Z.div_mod d 1000000000 ltac:(lia)).
    pose proof (Z.mod_pos_bound d 1000000000 ltac:(lia)). lia. }
  destruct Hsec as (Hs & Hn & Hdn).
  set (sec := Z.quot d Second) in *. set (ns := Z.rem d Second) in *. clearbody sec ns.
  destruct (f64_of_Z_exact sec) as [Fs Vs]; [lia|].
  destruct (f64_of_Z_exact ns) as [Fn Vn]; [unfold Second in *; lia|].
  destruct (f64_of_Z_exact Second) as [F9 V9]; [unfold Second; lia|].
  destruct (f64_int 0) as (z & Fz & Vz); [lia|]. destruct (f64_int 1) as (o & Fo & Vo); [lia|].
  destruct (f64_int (2 ^ 34)) as (b & Fb & Vb); [lia|].
  assert (Hq : rounds (f64_val (f64_of_Z ns) * f64_unit) (f64_val (f64_of_Z Second))
    (f64_div (f64_of_Z ns) (f64_of_Z Second))).
  { apply f64_div_rounds; [done..|]. rewrite V9. unfold Second. lia. }
  rewrite Vn, V9 in Hq. set (q := f64_div _ _) in *.
  assert (Hq' : rounds (ns * f64_unit) Second q).
  { eapply rounds_eq; [..|exact Hq]; unfold Second in *; lia || ring. }
  destruct (rounds_fin _ _ _ z o Hq' Fz Fo) as [Fq Bq]; [unfold Second in *; nia..|].
  pose proof (f64_add_rounds _ _ Fs Fq) as Ha. rewrite Vs in Ha.
  destruct (rounds_fin _ _ _ z b Ha Fz Fb) as [Fa Ba]; [nia..|].
  split_and!; [done|lia|lia| |].
  - intros ->. rewrite Z.mul_0_l in Vz. rewrite <-Vz.
    assert (sec = 0 ∧ ns = 0) as [-> ->] by (unfold Second in *; lia).
    eapply rounds_exact; [done| |exact Ha].
    enough (f64_val q = f64_val z) by lia. eapply rounds_exact; [done| |exact Hq']. lia.
  - intros k Hk Hkd. destruct (f64_on_grid k Hk) as (e & Fe & Ve).
    rewrite <-Ve. eapply rounds_ge; [exact Ha|done|]. rewrite Ve.
    destruct (decide (sec = 0)) as [->|]; [|nia].
    enough (k * f64_grid <= f64_val q) by lia. rewrite <-Ve.
    eapply rounds_ge; [exact Hq'|done|]. rewrite Ve, Hgrid.
    unfold Second in *. nia.
Qed.

(** Subtracting one from a float in [1, 2^53] is exact. *)
Lemma f64_decr x :
  f64_fin x → f64_unit <= f64_val x <= 2 ^ 53 * f64_unit →
  f64_fin (f64_sub x f64_one) ∧ f64_val (f64_sub x f64_one) = f64_val x - f64_unit.
Proof.
  intros Fx Hx. destruct (f64_of_Z_exact 1) as [F1 V1]; [lia|]. fold f64_one in F1, V1.
  pose proof f64_unit_pos as Hu.
  assert (∃ z, f64_fin z ∧ f64_val z = f64_val x - f64_unit) as (z & Fz & Vz).
  { destruct x as [s| | |s m e]; [simpl in Hx; lia|simpl in Fx; done..|].
    destruct s; [simpl in Hx; pose proof (Z.pow_nonneg 2 (e + 1074)); lia|].
    destruct Fx as (He & Hm & Hc). cbn [f64_val f64_sgn] in *.
    destruct (Z_le_gt_dec e 0) as [Hle|Hgt].
    - assert (Hs : f64_unit = 2 ^ (- e) * 2 ^ (e + 1074)).
      { rewrite f64_unit_pow, <-Z.pow_add_r by lia. f_equal. lia. }
      pose proof (Z.pow_pos_nonneg 2 (e + 1074) ltac:(lia) ltac:(lia)).
      pose proof (Z.pow_pos_nonneg 2 (- e) ltac:(lia) ltac:(lia)).
      destruct (f64_representable (Z.pos m - 2 ^ (- e)) (e + 1074)) as (w & Fw & Vw); [nia|lia|].
      exists w. split; [done|]. rewrite Vw, Hs. ring.
    - rewrite Z.pow_add_r in * by lia. rewrite <-f64_unit_pow in *.
      destruct (f64_int (Z.pos m * 2 ^ e - 1)) as (w & Fw & Vw).
      { pose proof (Z.pow_pos_nonneg 2 e ltac:(lia) ltac:(lia)). nia. }
      exists w. split; [done|]. rewrite Vw. ring. }
  pose proof (f64_sub_rounds x f64_one Fx F1) as Hr. rewrite V1, Z.mul_1_l in Hr.
  assert (Hv : f64_val (f64_sub x f64_one) = f64_val x - f64_unit).
  { rewrite <-Vz. eapply rounds_exact; [exact Fz| |exact Hr]. lia. }
  split; [|done]. apply f64_wf_fin; [apply Hr|]. rewrite Hv, <-Vz. by apply f64_fin_bound.
Qed.

(** Converting a nonnegative float to an integer rounds down. *)
Lemma f64_trunc_floor x :
  f64_fin x → 0 <= f64_val x → f64_trunc x = Some (f64_val x / f64_unit).
Proof.
  intros Fx Hx. pose proof f64_unit_pos as Hu.
  destruct x as [s| | |s m e]; [done|simpl in Fx; done..|].
  destruct Fx as (He & Hm & Hc). cbn [f64_val f64_sgn f64_trunc] in *.
  pose proof (Z.pow_pos_nonneg 2 (e + 1074) ltac:(lia) ltac:(lia)).
  destruct s; [cbn [f64_sgn] in Hx; nia|]. cbn [f64_sgn]. f_equal.
  destruct (Z.leb_spec 0 e).
  - rewrite Z.pow_add_r, <-f64_unit_pow, Z.mul_assoc, Z.div_mul by lia. done.
  - assert (Hs : f64_unit = 2 ^ (- e) * 2 ^ (e + 1074)).
    { rewrite f64_unit_pow, <-Z.pow_add_r by lia. f_equal. lia. }
    rewrite Hs, Z.div_mul_cancel_r; [done|apply Z.pow_nonzero; lia|lia].
Qed.

(** The operations stay folded in the clients' proofs. *)
#[global] Arguments f64_add : simpl never.
#[global] Arguments f64_sub : simpl never.
#[global] Arguments f64_mul : simpl never.
#[global] Arguments f64_div : simpl never.
#[global] Arguments f64_of_Z : simpl never.
#[global] Arguments f64_trunc : simpl never.
#[global] Arguments f64_val : simpl never.
#[global] Arguments f64_geb : simpl never.
#[global] Arguments f64_gtb : simpl never.
#[global] Arguments f64_leb : simpl never.
