(* ===== verification/Text.v ===== *)
(** * Text: what the program uses of [strings], [strconv], [fmt] and [unicode/utf8]

    Decimal printing and parsing of integers, zero padding, prefix and
    substring tests, ASCII case folding and the validity of UTF-8. *)

From S2P Require Export Prelude.
From Stdlib Require Export Ascii String.
#[export] Set Default Proof Using "Type".

Open Scope string_scope.
Open Scope Z_scope.

Arguments String.append : simpl never.

Lemma append_nil_l s : "" +:+ s = s.
Proof. done. Qed.

Lemma append_cons c s t : String c s +:+ t = String c (s +:+ t).
Proof. done. Qed.

Lemma append_nil_r s : s +:+ "" = s.
Proof. induction s; [done|]. by rewrite append_cons, IHs. Qed.

Lemma append_assoc s t u : (s +:+ t) +:+ u = s +:+ (t +:+ u).
Proof. induction s; [done|]. by rewrite !append_cons, IHs. Qed.

Lemma length_append s t : String.length (s +:+ t) = (String.length s + String.length t)%nat.
Proof. induction s; [done|]. rewrite append_cons. simpl. by rewrite IHs. Qed.

Lemma append_inj s1 t1 s2 t2 :
  String.length t1 = String.length t2 → s1 +:+ t1 = s2 +:+ t2 → s1 = s2 ∧ t1 = t2.
Proof.
  intros Hl. revert s2. induction s1 as [|c s1 IH]; intros [|c' s2]; rewrite ?append_nil_l, ?append_cons.
  - done.
  - intros ->. exfalso. rewrite append_cons in Hl || idtac. simpl in Hl. rewrite length_append in Hl. lia.
  - intros <-. exfalso. simpl in Hl. rewrite length_append in Hl. lia.
  - intros [= -> H]. destruct (IH s2 H) as [-> ->]. done.
Qed.

(** [len(s)] and the slice [s[:n]], [s[n:]] within bounds. *)
Definition len (s : string) : Z := Z.of_nat (String.length s).

Fixpoint str_take (n : nat) (s : string) : string :=
  match n, s with S n, String c s => String c (str_take n s) | _, _ => "" end.

Fixpoint str_drop (n : nat) (s : string) : string :=
  match n, s with S n, String _ s => str_drop n s | _, s => s end.

(** [strings.HasPrefix] *)
Fixpoint hasPrefix (p s : string) : bool :=
  match p, s with
  | "", _ => true
  | String a p, String b s => bool_decide (a = b) && hasPrefix p s
  | _, _ => false
  end.

Lemma str_take_length n s : (String.length (str_take n s) <= n)%nat.
Proof. revert s. induction n as [|n IH]; intros [|c s]; simpl; try lia. specialize (IH s). lia. Qed.

Lemma str_take_append n s t : String.length s = n → str_take n (s +:+ t) = s.
Proof. intros <-. induction s; [done|]. rewrite append_cons. simpl. by rewrite IHs. Qed.

Lemma str_drop_append n s t : String.length s = n → str_drop n (s +:+ t) = t.
Proof. intros <-. induction s; [done|]. rewrite append_cons. simpl. done. Qed.

(** [strings.Contains] *)
Fixpoint contains (sub s : string) : bool :=
  hasPrefix sub s || match s with String _ s => contains sub s | EmptyString => false end.

Lemma hasPrefix_append p s : hasPrefix p (p +:+ s) = true.
Proof.
  induction p; [done|]. rewrite append_cons. simpl. rewrite bool_decide_true by done. done.
Qed.

Lemma hasPrefix_spec p s : hasPrefix p s = true → s = p +:+ str_drop (String.length p) s.
Proof.
  revert s. induction p as [|a p IH]; intros s H; [done|]. destruct s as [|b s]; [done|].
  simpl in H. apply andb_true_iff in H as [Hb H]. apply bool_decide_eq_true in Hb as ->.
  rewrite append_cons. simpl. f_equal. by apply IH.
Qed.

(** ** Decimal integers *)

Definition digit (d : Z) : ascii := ascii_of_N (48 + Z.to_N d).

Fixpoint digits (fuel : nat) (n : Z) : string :=
  match fuel with
  | O => ""
  | S fuel =>
      if n <? 10 then String (digit n) ""
      else digits fuel (n / 10) +:+ String (digit (n mod 10)) ""
  end.

(** [%d] of an unsigned value, and of a signed one. *)
Definition show_N (n : Z) : string := digits (S (Z.to_nat (Z.log2 n))) n.
Definition show_Z (z : Z) : string := if z <? 0 then "-" +:+ show_N (- z) else show_N z.

(** [%0wd] of an unsigned value. *)
Fixpoint zeros (n : nat) : string := match n with O => "" | S n => String "0" (zeros n) end.
Definition pad0 (w : nat) (s : string) : string := zeros (w - String.length s) +:+ s.

Definition digit_val (c : ascii) : option Z :=
  let n := Z.of_N (N_of_ascii c) in
  if (48 <=? n) && (n <=? 57) then Some (n - 48) else None.

Fixpoint parse_go (s : string) (acc : Z) : option Z :=
  match s with
  | "" => Some acc
  | String c s => d ← digit_val c; parse_go s (acc * 10 + d)
  end.

(** [strconv.ParseUint(s, 10, 64)] *)
Definition parse_uint (s : string) : option Z :=
  match s with
  | "" => None
  | _ => n ← parse_go s 0; if n <? 2 ^ 64 then Some n else None
  end.

Lemma digit_val_digit d : 0 <= d < 10 → digit_val (digit d) = Some d.
Proof.
  intros Hd. assert (d = 0 ∨ d = 1 ∨ d = 2 ∨ d = 3 ∨ d = 4 ∨ d = 5 ∨ d = 6 ∨ d = 7 ∨ d = 8 ∨ d = 9)
    as H by lia. by repeat destruct H as [-> | H]; subst.
Qed.

Lemma parse_go_app s t acc : parse_go (s +:+ t) acc = (a ← parse_go s acc; parse_go t a).
Proof.
  revert acc. induction s as [|c s IH]; intros acc; [done|]. rewrite append_cons. simpl.
  destruct (digit_val c); simpl; [apply IH|done].
Qed.

Lemma digits_parse fuel n : 0 <= n < 2 ^ Z.of_nat fuel → parse_go (digits fuel n) 0 = Some n.
Proof.
  revert n. induction fuel as [|fuel IH]; intros n Hn; [simpl in *; f_equal; lia|].
  cbn [digits]. destruct (Z.ltb_spec n 10).
  - simpl. rewrite digit_val_digit by lia. done.
  - rewrite parse_go_app, IH.
    + simpl. pose proof (Z.mod_pos_bound n 10). rewrite digit_val_digit by lia. simpl. f_equal.
      pose proof (Z.div_mod n 10). lia.
    + rewrite Nat2Z.inj_succ, Z.pow_succ_r in Hn by lia. split; [apply Z.div_pos; lia|].
      apply Z.div_lt_upper_bound; lia.
Qed.

Lemma show_N_parse_go n : 0 <= n → parse_go (show_N n) 0 = Some n.
Proof.
  intros Hn. unfold show_N. apply digits_parse. split; [done|].
  rewrite Nat2Z.inj_succ, Z2Nat.id by apply Z.log2_nonneg.
  destruct (decide (n = 0)) as [->|]; [done|]. apply Z.log2_spec. lia.
Qed.

Lemma digits_nonempty fuel n : digits (S fuel) n ≠ "".
Proof. cbn [digits]. destruct (n <? 10); [done|]. by destruct (digits fuel (n / 10)). Qed.

Lemma show_N_nonempty n : show_N n ≠ "".
Proof. apply digits_nonempty. Qed.

(** Printing and parsing an unsigned 64-bit value are inverse. *)
Lemma parse_go_nonneg s acc n : 0 <= acc → parse_go s acc = Some n → 0 <= n.
Proof.
  revert acc. induction s as [|c s IH]; intros acc Ha; cbn [parse_go]; [intros [= <-]; done|].
  unfold digit_val. destruct (Z.leb_spec 48 (Z.of_N (N_of_ascii c))); [|done]. destruct (_ <=? 57); [|done].
  cbn. apply IH. lia.
Qed.

Lemma parse_uint_range s n : parse_uint s = Some n → 0 <= n < 2 ^ 64.
Proof.
  unfold parse_uint. destruct s as [|c s]; [done|]. destruct (parse_go (String c s) 0) as [m|] eqn:E; [|done].
  cbn. destruct (Z.ltb_spec m (2 ^ 64)); [|done]. intros [= <-]. apply parse_go_nonneg in E; lia.
Qed.

Lemma parse_uint_show n : 0 <= n < 2 ^ 64 → parse_uint (show_N n) = Some n.
Proof.
  intros Hn. unfold parse_uint. pose proof (show_N_nonempty n).
  destruct (show_N n) eqn:E; [done|]. rewrite <-E, show_N_parse_go by lia. simpl.
  destruct (Z.ltb_spec n (2 ^ 64)); [done|lia].
Qed.

Lemma show_N_inj n m : 0 <= n → 0 <= m → show_N n = show_N m → n = m.
Proof.
  intros Hn Hm H. pose proof (show_N_parse_go n Hn) as H1. pose proof (show_N_parse_go m Hm) as H2.
  rewrite H in H1. congruence.
Qed.

Lemma digits_length fuel n : (String.length (digits fuel n) <= fuel)%nat.
Proof.
  revert n. induction fuel as [|fuel IH]; intros n; simpl; [lia|]. destruct (n <? 10); simpl; [lia|].
  rewrite length_append. simpl. specialize (IH (n / 10)). lia.
Qed.

(** At most [w] digits below [10^w]. *)
Lemma digits_width w fuel n : 0 <= n < 10 ^ Z.of_nat w → (0 < w)%nat → (String.length (digits fuel n) <= w)%nat.
Proof.
  revert fuel n. induction w as [|w IH]; intros fuel n Hn Hw; [lia|].
  destruct fuel as [|fuel]; simpl; [lia|]. destruct (Z.ltb_spec n 10); simpl; [lia|].
  rewrite length_append. simpl.
  rewrite Nat2Z.inj_succ, Z.pow_succ_r in Hn by lia.
  destruct w as [|w]; [simpl in Hn; lia|].
  assert (String.length (digits fuel (n / 10)) <= S w)%nat; [|lia].
  apply IH; [|lia]. split; [apply Z.div_pos; lia|apply Z.div_lt_upper_bound; lia].
Qed.

Lemma zeros_length n : String.length (zeros n) = n.
Proof. induction n; simpl; congruence. Qed.

Lemma pad0_length w n :
  0 <= n < 10 ^ Z.of_nat w → (0 < w)%nat → String.length (pad0 w (show_N n)) = w.
Proof.
  intros Hn Hw. unfold pad0. rewrite length_append, zeros_length.
  pose proof (digits_width w (S (Z.to_nat (Z.log2 n))) n Hn Hw). unfold show_N. lia.
Qed.

Lemma zeros_parse k acc : acc = 0 → parse_go (zeros k) acc = Some 0.
Proof. intros ->. induction k; [done|]. simpl. done. Qed.

Lemma pad0_parse w n : 0 <= n → parse_go (pad0 w (show_N n)) 0 = Some n.
Proof. intros Hn. unfold pad0. rewrite parse_go_app, zeros_parse by done. simpl. by apply show_N_parse_go. Qed.

Lemma pad0_inj w n m : 0 <= n → 0 <= m → pad0 w (show_N n) = pad0 w (show_N m) → n = m.
Proof.
  intros Hn Hm H. pose proof (pad0_parse w n Hn) as H1. pose proof (pad0_parse w m Hm) as H2. congruence.
Qed.

(** ** ASCII case and UTF-8 *)

Definition lower_ascii (c : ascii) : ascii :=
  let n := N_of_ascii c in
  if ((65 <=? n) && (n <=? 90))%N then ascii_of_N (n + 32) else c.

Fixpoint toLower (s : string) : string :=
  match s with "" => "" | String c s => String (lower_ascii c) (toLower s) end.

(** A continuation byte, and a byte within bounds. *)
Definition byte_in (lo hi : Z) (c : ascii) : bool :=
  let n := Z.of_N (N_of_ascii c) in (lo <=? n) && (n <=? hi).
Definition is_cont : ascii → bool := byte_in 128 191.

(** [utf8.ValidString] *)
Fixpoint utf8_valid (s : string) : bool :=
  match s with
  | "" => true
  | String a s =>
      if byte_in 0 127 a then utf8_valid s
      else match s with
      | String b s1 =>
          if byte_in 194 223 a then is_cont b && utf8_valid s1
          else match s1 with
          | String c s2 =>
              if byte_in 224 239 a then
                (if byte_in 224 224 a then byte_in 160 191 b
                 else if byte_in 237 237 a then byte_in 128 159 b else is_cont b)
                && is_cont c && utf8_valid s2
              else match s2 with
              | String d s3 =>
                  byte_in 240 244 a &&
                  (if byte_in 240 240 a then byte_in 144 191 b
                   else if byte_in 244 244 a then byte_in 128 143 b else is_cont b)
                  && is_cont c && is_cont d && utf8_valid s3
              | "" => false
              end
          | "" => false
          end
      | "" => false
      end
  end.

(** [strings.Join] *)
Fixpoint join (sep : string) (l : list string) : string :=
  match l with
  | [] => ""
  | [s] => s
  | s :: l => s +:+ sep +:+ join sep l
  end.

Fixpoint is_ascii (s : string) : bool :=
  match s with "" => true | String a s => byte_in 0 127 a && is_ascii s end.

Lemma is_ascii_utf8 s : is_ascii s = true → utf8_valid s = true.
Proof.
  induction s as [|a s IH]; [done|]. simpl. intros [Ha Hs]%andb_true_iff. rewrite Ha. by apply IH.
Qed.

Lemma is_ascii_app s t : is_ascii (s +:+ t) = is_ascii s && is_ascii t.
Proof. induction s; [done|]. rewrite append_cons. simpl. rewrite IHs. by rewrite andb_assoc. Qed.

Lemma digit_ascii d : 0 <= d < 10 → byte_in 0 127 (digit d) = true.
Proof.
  intros Hd. assert (d = 0 ∨ d = 1 ∨ d = 2 ∨ d = 3 ∨ d = 4 ∨ d = 5 ∨ d = 6 ∨ d = 7 ∨ d = 8 ∨ d = 9)
    as H by lia. by repeat destruct H as [-> | H]; subst.
Qed.

Lemma digits_ascii fuel n : 0 <= n → is_ascii (digits fuel n) = true.
Proof.
  revert n. induction fuel as [|fuel IH]; intros n Hn; [done|]. cbn [digits].
  destruct (Z.ltb_spec n 10).
  - cbn [is_ascii]. by rewrite digit_ascii by lia.
  - rewrite is_ascii_app, IH by (apply Z.div_pos; lia). cbn [is_ascii].
    by rewrite digit_ascii by (apply Z.mod_pos_bound; lia).
Qed.

Lemma show_N_ascii n : 0 <= n → is_ascii (show_N n) = true.
Proof. apply digits_ascii. Qed.

Lemma show_N_utf8 n : 0 <= n → utf8_valid (show_N n) = true.
Proof. intros. by apply is_ascii_utf8, show_N_ascii. Qed.

Lemma show_Z_utf8 z : utf8_valid (show_Z z) = true.
Proof.
  unfold show_Z. apply is_ascii_utf8. destruct (Z.ltb_spec z 0); [|by apply show_N_ascii].
  rewrite is_ascii_app, show_N_ascii by lia. done.
Qed.

(** [%d] of a signed value is unambiguous. *)
Lemma show_N_no_sign n : 0 <= n → ∀ s, show_N n ≠ String "-" s.
Proof.
  intros Hn s E. pose proof (show_N_parse_go n Hn) as H. rewrite E in H. done.
Qed.

#[global] Arguments show_N : simpl never.
#[global] Arguments show_Z : simpl never.
#[global] Arguments parse_uint : simpl never.
#[global] Arguments pad0 : simpl never.
#[global] Arguments utf8_valid : simpl never.

(** ** Spaces, runes and fields *)

(** [strings.TrimSpace] on the ASCII spaces. *)
Definition is_space (c : ascii) : bool := bool_decide (c = " "%char) || byte_in 9 13 c.

Fixpoint trim_left (s : string) : string :=
  match s with String c s' => if is_space c then trim_left s' else s | EmptyString => EmptyString end.

(** Drop the spaces at the end. *)
Fixpoint trim_right (s : string) : string :=
  match s with
  | EmptyString => EmptyString
  | String c s =>
      let t := trim_right s in
      if bool_decide (t = "") && is_space c then EmptyString else String c t
  end.

Definition TrimSpace (s : string) : string := trim_right (trim_left s).

(** [utf8.RuneCountInString] of a UTF-8 text. *)
Fixpoint rune_count (s : string) : Z :=
  match s with EmptyString => 0 | String c s => (if is_cont c then 0 else 1) + rune_count s end.

(** [strings.SplitN(s, sep, 2)] for a single character: the parts around its
    first occurrence. *)
Fixpoint cut (sep : ascii) (s : string) : option (string * string) :=
  match s with
  | EmptyString => None
  | String c s =>
      if bool_decide (c = sep) then Some (EmptyString, s)
      else match cut sep s with Some (a, b) => Some (String c a, b) | None => None end
  end.

(** ** Replacing

    [strings.HasSuffix], and [strings.ReplaceAll] of a text that is not
    empty; [skip]: characters of an occurrence still to be dropped. *)
Fixpoint hasSuffix (suf s : string) : bool :=
  bool_decide (s = suf) || match s with String _ s => hasSuffix suf s | EmptyString => false end.

Fixpoint replace_go (old new : string) (skip : nat) (s : string) : string :=
  match s with
  | EmptyString => EmptyString
  | String c s' =>
      match skip with
      | S skip => replace_go old new skip s'
      | O =>
          if hasPrefix old s then new +:+ replace_go old new (String.length old - 1) s'
          else String c (replace_go old new 0 s')
      end
  end.

Definition ReplaceAll (s old new : string) : string := replace_go old new 0 s.

Fixpoint has (c : ascii) (s : string) : bool :=
  match s with EmptyString => false | String b s => bool_decide (b = c) || has c s end.

(** A text between two marks [c], and a text without marks that holds a
    character the marked one does not: no occurrence of the marked text can
    reach into the other. *)
Section replacing.
Context (c x : ascii) (old new : string).
Context (Hc : has c new = false) (Hx : has x new = true).
#[local] Set Default Proof Using "Type".

Lemma marked_over m t : has x (m +:+ String c "") = false → hasPrefix (m +:+ String c "") (new +:+ t) = false.
Proof using Hc Hx.
  revert m. induction new as [|b r IH]; intros m Hm; [done|]. cbn [has] in Hc, Hx.
  apply orb_false_iff in Hc as [Hb Hc']. apply bool_decide_eq_false in Hb. rewrite append_cons.
  destruct m as [|a m]; [rewrite append_nil_l; cbn [hasPrefix]; by rewrite bool_decide_false|].
  rewrite append_cons in *. cbn [hasPrefix has] in *. apply orb_false_iff in Hm as [Ha Hm]. apply bool_decide_eq_false in Ha.
  destruct (bool_decide_reflect (a = b)) as [->|]; [|done]. rewrite bool_decide_false in Hx by done. cbn [andb orb] in *.
  by apply IH.
Qed.

Lemma marked_back m s :
  has x (m +:+ String c "") = false →
  hasPrefix (m +:+ String c "") (replace_go old new 0 s) = true → hasPrefix (m +:+ String c "") s = true.
Proof using Hc Hx.
  revert m. induction s as [|b s IH]; intros m Hm; [done|]. cbn [replace_go].
  destruct (hasPrefix old (String b s)); [by rewrite marked_over|]. destruct m as [|a m]; [done|].
  rewrite append_cons in *. cbn [hasPrefix has] in *. apply orb_false_iff in Hm as [_ Hm].
  intros [H1 H2]%andb_true_iff. rewrite H1. by apply IH.
Qed.

Lemma marked_app m t : contains (String c m) (new +:+ t) = contains (String c m) t.
Proof using Hc.
  clear Hx. induction new as [|b r IH]; [done|]. cbn [has] in Hc. apply orb_false_iff in Hc as [Hb Hc'].
  apply bool_decide_eq_false in Hb. rewrite append_cons. cbn [contains hasPrefix]. rewrite bool_decide_false by done. cbn [andb orb]. by apply IH.
Qed.

Lemma replace_contains m skip s :
  has x (String c m +:+ String c "") = false →
  contains (String c m +:+ String c "") (replace_go old new skip s) = true → contains (String c m +:+ String c "") s = true.
Proof using Hc Hx.
  intros Hm. rewrite append_cons. revert skip. induction s as [|b s IH]; intros skip; [done|]. cbn [replace_go].
  assert (Hs : ∀ skip, contains (String c (m +:+ String c "")) (replace_go old new skip s) = true →
    contains (String c (m +:+ String c "")) (String b s) = true).
  { intros k Hk. apply IH in Hk. change (contains ?q (String b s)) with (hasPrefix q (String b s) || contains q s).
    rewrite Hk. apply orb_true_r. }
  destruct skip as [|skip]; [|by apply Hs]. pose proof (marked_back (String c m) (String b s) Hm) as Hb. cbn [replace_go] in Hb.
  rewrite append_cons in Hb. destruct (hasPrefix old (String b s)); [rewrite marked_app; apply Hs|].
  change (contains ?q (String b ?t)) with (hasPrefix q (String b t) || contains q t) at 1.
  intros [H|H]%orb_true_iff; [|by eapply Hs]. apply Hb in H.
  change (contains ?q (String b s)) with (hasPrefix q (String b s) || contains q s). by rewrite H.
Qed.

End replacing.

(** No occurrence is left. *)
Lemma replace_none c x m new skip s :
  let old := String c m +:+ String c "" in
  has c new = false → has x new = true → has x old = false → contains old (replace_go old new skip s) = false.
Proof.
  intros old Hc Hx Ho. revert skip. induction s as [|b s IH]; intros skip; [done|]. cbn [replace_go].
  destruct skip as [|skip]; [|apply IH]. destruct (hasPrefix old (String b s)) eqn:E.
  - unfold old at 1. rewrite append_cons, marked_app by done. rewrite <-append_cons. apply IH.
  - change (contains old (String b ?t)) with (hasPrefix old (String b t) || contains old t). rewrite IH, orb_false_r.
    apply not_true_is_false. intros H. pose proof (marked_back c x old new Hc Hx (String c m) (String b s) Ho) as Hb.
    cbn [replace_go] in Hb. fold old in Hb. rewrite E in Hb. by specialize (Hb H).
Qed.

Lemma replace_absent s old new : contains old s = false → ReplaceAll s old new = s.
Proof.
  unfold ReplaceAll. induction s as [|b s IH]; [done|]. cbn [contains]. intros [Hp Hs]%orb_false_iff.
  cbn [replace_go]. rewrite Hp. f_equal. by apply IH.
Qed.
