(* ===== verification/Breaker.v ===== *)
(** * Circuit breaker ([internal/resilience/circuit_breaker.go])

    The three-state breaker: its record, one definition per method and per
    body of its two background loops, and a fine-grained semantics in which
    the atomic counter operations of concurrent callers, the window reset
    and the state ticker interleave. *)

From S2P Require Export FloatOps.

Module CB.

(** [type State int32] with its three constants. *)
Definition State : Type := Z.
Definition StateClosed : State := 0.
Definition StateOpen : State := 1.
Definition StateHalfOpen : State := 2.

Definition State_String (s : State) : string :=
  if s =? StateClosed then "CLOSED"
  else if s =? StateOpen then "OPEN"
  else if s =? StateHalfOpen then "HALF_OPEN"
  else "UNKNOWN".

Record CircuitBreaker := mkCB {
  cb_state : State;
  cb_maxRequests : Z;
  cb_interval : Z;
  cb_timeout : Z;
  cb_failureRate : float64;
  cb_slowCallMs : Z;
  cb_successCount : Z;
  cb_failureCount : Z;
  cb_slowCount : Z;
  cb_totalCount : Z;
  cb_halfOpenCount : Z;
  cb_lastStateChange : Z;
  cb_lastFailureTime : Z;
  cb_stopped : bool;  (* [stopCh] is closed *)
  cb_name : string
}.

#[export] Instance eta_CircuitBreaker : Etable CircuitBreaker := λ r,
  mkCB (cb_state r) (cb_maxRequests r) (cb_interval r) (cb_timeout r)
    (cb_failureRate r) (cb_slowCallMs r) (cb_successCount r) (cb_failureCount r)
    (cb_slowCount r) (cb_totalCount r) (cb_halfOpenCount r)
    (cb_lastStateChange r) (cb_lastFailureTime r) (cb_stopped r) (cb_name r).

Definition NewCircuitBreaker (name : string)
    (maxRequests intervalSec timeoutSec : Z) (failureThreshold : float64)
    (slowCallMs now : Z) : CircuitBreaker :=
  {| cb_state := StateClosed;
     cb_maxRequests := maxRequests;
     cb_interval := dur_of intervalSec Second;
     cb_timeout := dur_of timeoutSec Second;
     cb_failureRate := failureThreshold;
     cb_slowCallMs := slowCallMs;
     cb_successCount := 0; cb_failureCount := 0; cb_slowCount := 0;
     cb_totalCount := 0; cb_halfOpenCount := 0;
     cb_lastStateChange := now;
     cb_lastFailureTime := 0;
     cb_stopped := false;
     cb_name := name |}.

(** [close(cb.stopCh)]: closing a closed channel panics. *)
Definition Stop (cb : CircuitBreaker) : option CircuitBreaker :=
  if cb_stopped cb then None else Some (cb <| cb_stopped := true |>).

Definition Allow (now : Z) (cb : CircuitBreaker) : bool :=
  if cb_state cb =? StateClosed then true
  else if cb_state cb =? StateOpen then
    cb_timeout cb <? time_sub now (cb_lastStateChange cb)
  else if cb_state cb =? StateHalfOpen then
    cb_halfOpenCount cb <? cb_maxRequests cb
  else true.

Definition transitionTo (now : Z) (newState : State) (cb : CircuitBreaker) :=
  cb <| cb_state := newState |>
     <| cb_lastStateChange := now |>
     <| cb_halfOpenCount := 0 |>.

(** The atomic counter increments. *)
Definition add_success (cb : CircuitBreaker) :=
  cb <| cb_successCount := wrap64 (cb_successCount cb + 1) |>.
Definition add_failure (cb : CircuitBreaker) :=
  cb <| cb_failureCount := wrap64 (cb_failureCount cb + 1) |>.
Definition add_slow (cb : CircuitBreaker) :=
  cb <| cb_slowCount := wrap64 (cb_slowCount cb + 1) |>.
Definition add_total (cb : CircuitBreaker) :=
  cb <| cb_totalCount := wrap64 (cb_totalCount cb + 1) |>.

(** The critical section of [RecordSuccess]. *)
Definition success_locked (now : Z) (cb : CircuitBreaker) : CircuitBreaker :=
  if cb_state cb =? StateHalfOpen then
    let cb := cb <| cb_halfOpenCount := wrap64 (cb_halfOpenCount cb + 1) |> in
    if cb_maxRequests cb <=? cb_halfOpenCount cb
    then transitionTo now StateClosed cb else cb
  else cb.

Definition RecordSuccess (duration now : Z) (cb : CircuitBreaker) : CircuitBreaker :=
  let cb := add_total (add_success cb) in
  let cb := if cb_slowCallMs cb <? dur_milliseconds duration then add_slow cb else cb in
  success_locked now cb.

(** The two critical sections of [RecordFailure]. *)
Definition stamp_failure (now : Z) (cb : CircuitBreaker) : CircuitBreaker :=
  cb <| cb_lastFailureTime := now |>.
Definition failure_locked (now : Z) (cb : CircuitBreaker) : CircuitBreaker :=
  if cb_state cb =? StateHalfOpen then transitionTo now StateOpen cb else cb.

Definition RecordFailure (now1 now2 : Z) (cb : CircuitBreaker) : CircuitBreaker :=
  failure_locked now2 (stamp_failure now1 (add_total (add_failure cb))).

Definition GetState (cb : CircuitBreaker) : string := State_String (cb_state cb).

(** The arithmetic of [currentFailureRate] on the values it loaded. *)
Definition failure_rate (failures total : Z) : float64 :=
  if total =? 0 then f64_zero else f64_div (f64_of_Z failures) (f64_of_Z total).

Definition currentFailureRate (cb : CircuitBreaker) : float64 :=
  failure_rate (cb_failureCount cb) (cb_totalCount cb).

Record MetricsMap := mkMetrics {
  m_name : string; m_state : string;
  m_success_count : Z; m_failure_count : Z; m_slow_count : Z; m_total_count : Z;
  m_failure_rate : float64
}.

Definition Metrics (cb : CircuitBreaker) : MetricsMap :=
  {| m_name := cb_name cb; m_state := State_String (cb_state cb);
     m_success_count := cb_successCount cb; m_failure_count := cb_failureCount cb;
     m_slow_count := cb_slowCount cb; m_total_count := cb_totalCount cb;
     m_failure_rate := currentFailureRate cb |}.

(** [windowResetLoop], one tick: four separate atomic stores. *)
Definition reset_success (cb : CircuitBreaker) := cb <| cb_successCount := 0 |>.
Definition reset_failure (cb : CircuitBreaker) := cb <| cb_failureCount := 0 |>.
Definition reset_slow (cb : CircuitBreaker) := cb <| cb_slowCount := 0 |>.
Definition reset_total (cb : CircuitBreaker) := cb <| cb_totalCount := 0 |>.

Definition windowResetTick (cb : CircuitBreaker) : CircuitBreaker :=
  reset_total (reset_slow (reset_failure (reset_success cb))).

(** [stateTransitionLoop], one tick.  [tick_closed] decides from the rate
    and total the loop loaded, [tick_open] from the clock. *)
Definition tick_closed (now : Z) (rate : float64) (total : Z) (cb : CircuitBreaker) :=
  if (0 <? total) && f64_geb rate (cb_failureRate cb)
  then transitionTo now StateOpen cb else cb.

Definition tick_open (now : Z) (cb : CircuitBreaker) : CircuitBreaker :=
  if cb_timeout cb <? time_sub now (cb_lastStateChange cb)
  then transitionTo now StateHalfOpen cb else cb.

Definition stateTransitionTick (now : Z) (cb : CircuitBreaker) : CircuitBreaker :=
  if cb_state cb =? StateClosed then
    tick_closed now (currentFailureRate cb) (cb_totalCount cb) cb
  else if cb_state cb =? StateOpen then tick_open now cb
  else cb.

(** The two loops [NewCircuitBreaker] starts; [Stop] then waits for both, a
    second each at most, and returns whatever they do. *)
Definition windowResetLoop (events : list signal) (cb : CircuitBreaker) : option (bool * CircuitBreaker) :=
  ticker_loop (λ _, windowResetTick) (cb_interval cb) events cb.

Definition stateTransitionLoop (events : list signal) (cb : CircuitBreaker) : option (bool * CircuitBreaker) :=
  ticker_loop stateTransitionTick (1 * Second) events cb.

(** ** Interleaved semantics

    The counters are updated outside the mutex, so between any two of the
    accesses below other goroutines may run.  The state ticker holds the
    mutex from [TickLock] to [TickDecide] and keeps what it has loaded in
    its program counter; the critical sections of the callers need the
    mutex and are disabled meanwhile. *)

Inductive tick_pc :=
| TIdle                                   (* mutex free *)
| TLocked                                 (* locked, CLOSED branch entered *)
| TTotal (total : Z)                      (* currentFailureRate loaded total *)
| TRate (rate : float64)                  (* ... and computed the rate *)
| TLoaded (rate : float64) (total : Z)    (* total loaded again *)
| TWait.                                  (* locked, not CLOSED *)

Inductive action :=
| AddSuccess | AddFailure | AddSlow | AddTotal
| SuccessLocked (now : Z) | StampFailure (now : Z) | FailureLocked (now : Z)
| ResetSuccess | ResetFailure | ResetSlow | ResetTotal
| TickLock | TickLoadTotal | TickLoadFailure | TickReloadTotal | TickDecide (now : Z).

Definition sys : Type := CircuitBreaker * tick_pc.

Definition act (a : action) (s : sys) : option sys :=
  let '(cb, pc) := s in
  match a, pc with
  | AddSuccess, _ => Some (add_success cb, pc)
  | AddFailure, _ => Some (add_failure cb, pc)
  | AddSlow, _ => Some (add_slow cb, pc)
  | AddTotal, _ => Some (add_total cb, pc)
  | SuccessLocked now, TIdle => Some (success_locked now cb, TIdle)
  | StampFailure now, TIdle => Some (stamp_failure now cb, TIdle)
  | FailureLocked now, TIdle => Some (failure_locked now cb, TIdle)
  | ResetSuccess, _ => Some (reset_success cb, pc)
  | ResetFailure, _ => Some (reset_failure cb, pc)
  | ResetSlow, _ => Some (reset_slow cb, pc)
  | ResetTotal, _ => Some (reset_total cb, pc)
  | TickLock, TIdle =>
      Some (cb, if cb_state cb =? StateClosed then TLocked else TWait)
  | TickLoadTotal, TLocked => Some (cb, TTotal (cb_totalCount cb))
  | TickLoadFailure, TTotal total =>
      Some (cb, TRate (failure_rate (cb_failureCount cb) total))
  | TickReloadTotal, TRate rate => Some (cb, TLoaded rate (cb_totalCount cb))
  | TickDecide now, TLoaded rate total => Some (tick_closed now rate total cb, TIdle)
  | TickDecide now, TWait =>
      Some (if cb_state cb =? StateOpen then tick_open now cb else cb, TIdle)
  | _, _ => None
  end.

Fixpoint run (l : list action) (s : sys) : option sys :=
  match l with
  | [] => Some s
  | a :: l => s' ← act a s; run l s'
  end.

Definition step (s s' : sys) : Prop := ∃ a, act a s = Some s'.

(** The methods as sequences of accesses. *)
Definition prog_RecordSuccess (duration now : Z) (cb : CircuitBreaker) : list action :=
  [AddSuccess; AddTotal] ++
  (if cb_slowCallMs cb <? dur_milliseconds duration then [AddSlow] else []) ++
  [SuccessLocked now].
Definition prog_RecordFailure (now1 now2 : Z) : list action :=
  [AddFailure; AddTotal; StampFailure now1; FailureLocked now2].
Definition prog_windowReset : list action :=
  [ResetSuccess; ResetFailure; ResetSlow; ResetTotal].
Definition prog_tick (now : Z) (cb : CircuitBreaker) : list action :=
  if cb_state cb =? StateClosed
  then [TickLock; TickLoadTotal; TickLoadFailure; TickReloadTotal; TickDecide now]
  else [TickLock; TickDecide now].

(** ** The invariant *)

(** The breaker's fields are consistent, whatever interleaving runs. *)
Definition cb_ok (cb : CircuitBreaker) : Prop :=
  cb_maxRequests cb <= int64_max ∧
  (cb_state cb = StateClosed ∨ cb_state cb = StateOpen ∨ cb_state cb = StateHalfOpen) ∧
  (cb_state cb = StateHalfOpen →
     0 <= cb_halfOpenCount cb < Z.max 1 (cb_maxRequests cb)) ∧
  (cb_state cb ≠ StateHalfOpen → cb_halfOpenCount cb = 0).

(** What the ticker knows while it holds the mutex. *)
Definition pc_ok (cb : CircuitBreaker) (pc : tick_pc) : Prop :=
  match pc with
  | TIdle => True
  | TWait => cb_state cb ≠ StateClosed
  | _ => cb_state cb = StateClosed
  end.

Definition sys_ok (s : sys) : Prop := cb_ok s.1 ∧ pc_ok s.1 s.2.

Lemma New_ok name mr i t thr slow now :
  mr <= int64_max → cb_ok (NewCircuitBreaker name mr i t thr slow now).
Proof. unfold cb_ok, StateClosed, StateHalfOpen; simpl. intros. split_and!; auto; lia. Qed.

Ltac cb_unfold :=
  unfold sys_ok, cb_ok, pc_ok, success_locked, failure_locked, stamp_failure,
    tick_closed, tick_open, transitionTo, add_success, add_failure, add_slow, add_total,
    reset_success, reset_failure, reset_slow, reset_total,
    StateClosed, StateOpen, StateHalfOpen in *; simpl in *.

(** Case analysis on the enabled action. *)
Ltac act_cases a pc H :=
  destruct a, pc; simpl in H; try discriminate H; injection H as <- <-.

Lemma halfOpen_incr cb :
  cb_ok cb → cb_state cb = StateHalfOpen →
  wrap64 (cb_halfOpenCount cb + 1) = cb_halfOpenCount cb + 1.
Proof.
  intros (Hm & _ & Hh & _) Hs. specialize (Hh Hs).
  apply wrap64_id. unfold in_int64, int64_min, int64_max in *. lia.
Qed.

Lemma success_locked_ok now cb : cb_ok cb → cb_ok (success_locked now cb).
Proof.
  intros Hok. unfold success_locked.
  destruct (Z.eqb_spec (cb_state cb) StateHalfOpen) as [Hs|]; [|done]. simpl.
  rewrite (halfOpen_incr cb) by done. destruct Hok as (? & ? & Hh & ?). specialize (Hh Hs).
  destruct (Z.leb_spec (cb_maxRequests cb) (cb_halfOpenCount cb + 1)).
  - cb_unfold. split_and!; auto; lia.
  - cb_unfold. split_and!; auto; lia.
Qed.

Lemma act_ok a s s' : sys_ok s → act a s = Some s' → sys_ok s'.
Proof.
  destruct s as [cb pc], s' as [cb' pc']. intros [Hok Hpc] H. simpl in *.
  act_cases a pc H; try (split; [by apply success_locked_ok|done]);
    cb_unfold; destruct Hok as (? & ? & ? & ?);
    repeat case_match; zbool; simpl in *; split_and!; intros; lia || tauto || congruence.
Qed.

Lemma reach_ok s s' : rtc step s s' → sys_ok s → sys_ok s'.
Proof. apply rtc_invariant. intros x y Hx [a Ha]. by eapply act_ok. Qed.

(** ** Which step may change the state, and how *)

(** The state changes an action is allowed to make. *)
Definition edge (a : action) (cb cb' : CircuitBreaker) : Prop :=
  match a with
  | SuccessLocked _ =>
      cb_state cb = StateHalfOpen ∧ cb_state cb' = StateClosed ∧
      cb_maxRequests cb <= cb_halfOpenCount cb + 1
  | FailureLocked _ => cb_state cb = StateHalfOpen ∧ cb_state cb' = StateOpen
  | TickDecide now =>
      (cb_state cb = StateClosed ∧ cb_state cb' = StateOpen) ∨
      (cb_state cb = StateOpen ∧ cb_state cb' = StateHalfOpen ∧
       cb_timeout cb < time_sub now (cb_lastStateChange cb))
  | _ => False
  end.

(** The instant an action records as the state change. *)
Definition action_time (a : action) : option Z :=
  match a with
  | SuccessLocked now | FailureLocked now | TickDecide now => Some now
  | _ => None
  end.

Lemma act_edge a cb pc cb' pc' :
  sys_ok (cb, pc) → act a (cb, pc) = Some (cb', pc') →
  cb_state cb' ≠ cb_state cb →
  edge a cb cb' ∧ action_time a = Some (cb_lastStateChange cb').
Proof.
  intros [Hok Hpc] H. simpl in Hok, Hpc.
  act_cases a pc H; try (cb_unfold; by intros []).
  - unfold success_locked.
    destruct (Z.eqb_spec (cb_state cb) StateHalfOpen) as [Hs|]; [|done]. simpl.
    rewrite (halfOpen_incr cb) by done.
    destruct (Z.leb_spec (cb_maxRequests cb) (cb_halfOpenCount cb + 1)); [|done]. done.
  - cb_unfold. repeat case_match; zbool; simpl; done.
  - cb_unfold. repeat case_match; zbool; simpl; auto; done.
  - cb_unfold. repeat case_match; zbool; simpl; auto; done.
Qed.

(** ** Recovery *)

Definition record_successes (l : list (Z * Z)) (cb : CircuitBreaker) : CircuitBreaker :=
  fold_left (λ cb '(d, now), RecordSuccess d now cb) l cb.

(** The counter updates of [RecordSuccess] leave the state machine alone. *)
Lemma RecordSuccess_state d now cb :
  ∃ cb0, RecordSuccess d now cb = success_locked now cb0 ∧
    cb_state cb0 = cb_state cb ∧ cb_halfOpenCount cb0 = cb_halfOpenCount cb ∧
    cb_maxRequests cb0 = cb_maxRequests cb ∧ cb_failureCount cb0 = cb_failureCount cb ∧
    cb_failureRate cb0 = cb_failureRate cb ∧
    cb_totalCount cb0 = wrap64 (cb_totalCount cb + 1).
Proof.
  unfold RecordSuccess. eexists. split; [done|]. by case_match.
Qed.

Lemma success_half_open d now cb :
  cb_state cb = StateHalfOpen → 0 <= cb_halfOpenCount cb →
  cb_halfOpenCount cb + 1 < cb_maxRequests cb → cb_maxRequests cb <= int64_max →
  let cb' := RecordSuccess d now cb in
  cb_state cb' = StateHalfOpen ∧ cb_halfOpenCount cb' = cb_halfOpenCount cb + 1 ∧
  cb_maxRequests cb' = cb_maxRequests cb.
Proof.
  intros Hs H0 Hlt Hm cb'. unfold cb'.
  destruct (RecordSuccess_state d now cb) as (cb0 & -> & H1 & H2 & H3 & _).
  unfold success_locked. rewrite H1, Hs, Z.eqb_refl. simpl. rewrite H2, H3.
  rewrite wrap64_id by (unfold in_int64, int64_min, int64_max in *; lia).
  destruct (Z.leb_spec (cb_maxRequests cb) (cb_halfOpenCount cb + 1)); [lia|].
  simpl. by rewrite H1.
Qed.

Lemma success_closes d now cb :
  cb_state cb = StateHalfOpen → 0 <= cb_halfOpenCount cb →
  cb_maxRequests cb = cb_halfOpenCount cb + 1 → cb_maxRequests cb <= int64_max →
  let cb' := RecordSuccess d now cb in
  cb_state cb' = StateClosed ∧ cb_halfOpenCount cb' = 0 ∧ cb_lastStateChange cb' = now.
Proof.
  intros Hs H0 Hlt Hm cb'. unfold cb'.
  destruct (RecordSuccess_state d now cb) as (cb0 & -> & H1 & H2 & H3 & _).
  unfold success_locked. rewrite H1, Hs, Z.eqb_refl. simpl. rewrite H2, H3.
  rewrite wrap64_id by (unfold in_int64, int64_min, int64_max in *; lia).
  destruct (Z.leb_spec (cb_maxRequests cb) (cb_halfOpenCount cb + 1)); [done|lia].
Qed.

Lemma record_successes_half_open l cb :
  cb_state cb = StateHalfOpen → 0 <= cb_halfOpenCount cb → cb_maxRequests cb <= int64_max →
  cb_halfOpenCount cb + Z.of_nat (length l) < cb_maxRequests cb →
  let cb' := record_successes l cb in
  cb_state cb' = StateHalfOpen ∧
  cb_halfOpenCount cb' = cb_halfOpenCount cb + Z.of_nat (length l) ∧
  cb_maxRequests cb' = cb_maxRequests cb.
Proof.
  revert cb. induction l as [|[d now] l IH]; intros cb Hs H0 Hm Hl; simpl in *.
  - split_and!; [done|lia|done].
  - destruct (success_half_open d now cb) as (S1 & S2 & S3); try done; [lia|].
    destruct (IH (RecordSuccess d now cb)) as (I1 & I2 & I3); rewrite ?S2, ?S3; try done; [lia..|].
    split_and!; [done|lia|congruence].
Qed.

Lemma record_successes_snoc l d now cb :
  record_successes (l ++ [(d, now)]) cb = RecordSuccess d now (record_successes l cb).
Proof. unfold record_successes. by rewrite fold_left_app. Qed.

Lemma tick_half_opens now cb :
  cb_state cb = StateOpen → cb_timeout cb < time_sub now (cb_lastStateChange cb) →
  stateTransitionTick now cb = transitionTo now StateHalfOpen cb.
Proof.
  intros Hs Ht. unfold stateTransitionTick, tick_open. rewrite Hs. simpl.
  apply Z.ltb_lt in Ht. by rewrite Ht.
Qed.

(** ** The opening decision *)

Lemma failure_rate_rounds f t :
  0 <= f <= 2 ^ 53 → 0 < t <= 2 ^ 53 → rounds (f * f64_unit) t (failure_rate f t).
Proof.
  intros Hf Ht. unfold failure_rate. destruct (Z.eqb_spec t 0); [lia|].
  destruct (f64_of_Z_exact f) as [Ff Vf]; [lia|].
  destruct (f64_of_Z_exact t) as [Ft Vt]; [lia|].
  pose proof f64_unit_pos.
  eapply rounds_eq; [..|apply f64_div_rounds]; try done; rewrite ?Vt, ?Vf; nia.
Qed.

(** 0.5, the configured default threshold, and its predecessor. *)
Definition f64_half : float64 := f64_div (f64_of_Z 1) (f64_of_Z 2).

Definition f64_step : Z := 2 ^ 1020.

Lemma f64_unit_step : f64_unit = 2 ^ 54 * f64_step.
Proof. reflexivity. Qed.

Lemma f64_step_pos : 0 < f64_step.
Proof. apply Z.pow_pos_nonneg; lia. Qed.

Lemma f64_half_fin : f64_fin f64_half ∧ f64_val f64_half = 2 ^ 53 * f64_step.
Proof. split; [vm_compute; intuition congruence|by vm_compute]. Qed.

Lemma f64_half_pred : ∃ x, f64_fin x ∧ f64_val x = (2 ^ 53 - 1) * f64_step.
Proof. apply (f64_representable (2 ^ 53 - 1) 1020); lia. Qed.

Lemma half_decision f t :
  0 <= f <= 2 ^ 53 → 0 < t <= 2 ^ 53 →
  f64_geb (failure_rate f t) f64_half = (t <=? 2 * f).
Proof.
  intros Hf Ht. pose proof (failure_rate_rounds f t Hf Ht) as Hr.
  destruct f64_half_fin as [Fh Vh]. destruct f64_half_pred as (x & Fx & Vx).
  pose proof f64_step_pos. rewrite f64_unit_step in Hr.
  unfold f64_geb. rewrite f64_leb_val; [|by left|apply Hr]. rewrite Vh.
  destruct (Z.leb_spec t (2 * f)).
  - apply Z.leb_le. rewrite <-Vh. eapply rounds_ge; [done..|]. rewrite Vh. nia.
  - apply Z.leb_gt. apply Z.le_lt_trans with (f64_val x); [|rewrite Vx; lia].
    eapply rounds_le; [done..|]. rewrite Vx. nia.
Qed.

(** [n] half-open successes, [n = maxRequests], close the breaker. *)
Lemma record_successes_close l now cb :
  1 <= cb_maxRequests cb <= int64_max → Z.of_nat (length l) = cb_maxRequests cb →
  cb_state (record_successes l (transitionTo now StateHalfOpen cb)) = StateClosed.
Proof.
  intros Hm Hl. destruct l as [|[d n] l _] using rev_ind; [simpl in *; lia|].
  rewrite length_app in Hl. simpl in Hl. rewrite record_successes_snoc.
  destruct (record_successes_half_open l (transitionTo now StateHalfOpen cb))
    as (R1 & R2 & R3); try (simpl; done || lia).
  apply success_closes; rewrite ?R1, ?R2, ?R3; simpl; done || lia.
Qed.

(** Successes only add to the total. *)
Lemma record_successes_counters l cb :
  0 <= cb_totalCount cb → cb_totalCount cb + Z.of_nat (length l) <= 2 ^ 53 →
  cb_failureCount (record_successes l cb) = cb_failureCount cb ∧
  cb_failureRate (record_successes l cb) = cb_failureRate cb ∧
  cb_totalCount (record_successes l cb) = cb_totalCount cb + Z.of_nat (length l).
Proof.
  revert cb. induction l as [|[d n] l IH]; intros cb H0 Hb; simpl in *; [split_and!; done || lia|].
  destruct (RecordSuccess_state d n cb) as (c & Hc & _ & _ & _ & H1 & H2 & H3).
  rewrite wrap64_id in H3 by (unfold in_int64, int64_min, int64_max; lia).
  assert (E : cb_failureCount (RecordSuccess d n cb) = cb_failureCount cb ∧
    cb_failureRate (RecordSuccess d n cb) = cb_failureRate cb ∧
    cb_totalCount (RecordSuccess d n cb) = cb_totalCount cb + 1).
  { rewrite Hc. unfold success_locked. by repeat case_match. }
  destruct E as (E1 & E2 & E3). unfold record_successes in *. simpl.
  destruct (IH (RecordSuccess d n cb)) as (I1 & I2 & I3); rewrite ?E3 in *; try lia.
  rewrite I1, I2, I3. split_and!; [done..|lia].
Qed.

(** The tick of a closed breaker, threshold 0.5. *)
Lemma half_tick now cb :
  cb_state cb = StateClosed → cb_failureRate cb = f64_half →
  0 <= cb_failureCount cb <= 2 ^ 53 → 0 <= cb_totalCount cb <= 2 ^ 53 →
  stateTransitionTick now cb =
    if (0 <? cb_totalCount cb) && (cb_totalCount cb <=? 2 * cb_failureCount cb)
    then transitionTo now StateOpen cb else cb.
Proof.
  intros Hs Hr Hf Ht. unfold stateTransitionTick, tick_closed. rewrite Hs, Hr. simpl.
  destruct (Z.ltb_spec 0 (cb_totalCount cb)); simpl; [|done].
  unfold currentFailureRate. by rewrite half_decision by lia.
Qed.

Lemma run_rtc l s s' : run l s = Some s' → rtc step s s'.
Proof.
  revert s. induction l as [|a l IH]; intros s H; simpl in H; [by simplify_eq|].
  destruct (act a s) as [s1|] eqn:Ha; [|done]. simpl in H.
  eapply rtc_l; [by exists a|by apply IH].
Qed.

(** The breaker with the repository's default configuration. *)
Definition demo : CircuitBreaker := NewCircuitBreaker "cdcdx-cb" 5 60 30 f64_half 1000 0.

(** ** Properties *)

(** C17: From a new breaker, under every interleaving of concurrent callers,
    window resets and the state ticker, the breaker changes state only along
    the four edges of the three-state machine (a probe success closes only
    after [maxRequests] of them, the ticker half-opens only after the
    timeout), each change resets the probe count and is stamped with its
    instant. *)
Theorem transitions_legal name mr i t thr slow now0 cb pc a cb' pc' :
  mr <= int64_max →
  rtc step (NewCircuitBreaker name mr i t thr slow now0, TIdle) (cb, pc) →
  act a (cb, pc) = Some (cb', pc') →
  cb_state cb' ≠ cb_state cb →
  edge a cb cb' ∧ cb_halfOpenCount cb' = 0 ∧
  action_time a = Some (cb_lastStateChange cb').
Proof.
  intros Hm Hr Ha Hne.
  assert (Hok : sys_ok (cb, pc)).
  { eapply reach_ok; [done|]. split; [by apply New_ok|done]. }
  destruct (act_edge _ _ _ _ _ Hok Ha Hne) as [He Ht]. split_and!; [done| |done].
  clear Ht. act_cases a pc Ha; simpl in He; try done; cb_unfold; repeat case_match; done.
Qed.


(** C34: Recovery: once the timeout has elapsed the next tick half-opens an
    open breaker; then exactly the [maxRequests]-th recorded success closes
    it, and a failure recorded before that reopens it. *)
Theorem recovery now cb :
  cb_state cb = StateOpen → cb_timeout cb < time_sub now (cb_lastStateChange cb) →
  1 <= cb_maxRequests cb <= int64_max →
  let cb1 := stateTransitionTick now cb in
  cb_state cb1 = StateHalfOpen ∧ cb_lastStateChange cb1 = now ∧
  ∀ l, Z.of_nat (length l) < cb_maxRequests cb →
    cb_state (record_successes l cb1) = StateHalfOpen ∧
    (∀ n1 n2, cb_state (RecordFailure n1 n2 (record_successes l cb1)) = StateOpen) ∧
    (Z.of_nat (length l) + 1 = cb_maxRequests cb →
     ∀ d n, cb_state (record_successes (l ++ [(d, n)]) cb1) = StateClosed).
Proof.
  intros Hs Ht Hm cb1. unfold cb1. rewrite tick_half_opens by done.
  split_and!; [done..|]. intros l Hl.
  destruct (record_successes_half_open l (transitionTo now StateHalfOpen cb))
    as (R1 & R2 & R3); try (simpl; done || lia).
  split_and!; [done| |].
  - intros n1 n2. unfold RecordFailure, failure_locked. simpl. by rewrite R1.
  - intros He d n. rewrite record_successes_snoc.
    apply success_closes; rewrite ?R1, ?R2, ?R3; simpl; done || lia.
Qed.

(** C35: With the default threshold 0.5, the tick of a closed breaker opens it
    exactly when some request was recorded and at least half of them failed:
    the IEEE division and comparison lose nothing for counters up to 2^53. *)
Theorem default_threshold_opens now cb :
  cb_state cb = StateClosed → cb_failureRate cb = f64_half →
  0 <= cb_failureCount cb <= 2 ^ 53 → 0 <= cb_totalCount cb <= 2 ^ 53 →
  cb_state (stateTransitionTick now cb) = StateOpen ↔
  0 < cb_totalCount cb ∧ cb_totalCount cb <= 2 * cb_failureCount cb.
Proof.
  intros Hs Hr Hf Ht. rewrite half_tick by done.
  destruct (Z.ltb_spec 0 (cb_totalCount cb)), (Z.leb_spec (cb_totalCount cb) (2 * cb_failureCount cb));
    simpl; rewrite ?Hs; split; done || lia.
Qed.

(** For every threshold the rounded failure rate never hides a failure
    ratio at or above it, is 0 without failures, and stays within [0, 1]
    while failures do not exceed the total. *)
Theorem failure_rate_faithful f t thr :
  0 <= f <= t → 0 < t <= 2 ^ 53 → f64_fin thr →
  (f64_val thr * t <= f * f64_unit → f64_geb (failure_rate f t) thr = true) ∧
  (f = 0 → f64_val (failure_rate f t) = 0) ∧
  f64_leb f64_zero (failure_rate f t) = true ∧
  f64_leb (failure_rate f t) f64_one = true.
Proof.
  intros Hf Ht Hthr. pose proof (failure_rate_rounds f t ltac:(lia) Ht) as Hr.
  destruct (f64_of_Z_exact 1) as [F1 V1]; [lia|].
  pose proof f64_unit_pos.
  assert (F0 : f64_fin f64_zero) by done. assert (V0 : f64_val f64_zero = 0) by done.
  unfold f64_geb, f64_leb. rewrite !f64_leb_val by (try (by left); apply Hr).
  rewrite !Z.leb_le. split_and!.
  - intros Hge. by eapply rounds_ge.
  - intros ->. rewrite <-V0. eapply rounds_exact; [done| |done]. lia.
  - eapply rounds_ge; [done..|]. lia.
  - eapply rounds_le; [done..|]. fold f64_one in V1. rewrite V1. nia.
Qed.

(** Run without interference, the access sequences of [RecordSuccess],
    [RecordFailure], the window reset and the state ticker compute exactly
    the sequential methods. *)
Theorem methods_refine cb d now now' :
  run (prog_RecordSuccess d now cb) (cb, TIdle) = Some (RecordSuccess d now cb, TIdle) ∧
  run (prog_RecordFailure now now') (cb, TIdle) = Some (RecordFailure now now' cb, TIdle) ∧
  run prog_windowReset (cb, TIdle) = Some (windowResetTick cb, TIdle) ∧
  run (prog_tick now cb) (cb, TIdle) = Some (stateTransitionTick now cb, TIdle).
Proof.
  split_and!; try done.
  - unfold prog_RecordSuccess, RecordSuccess.
    change (cb_slowCallMs (add_total (add_success cb))) with (cb_slowCallMs cb).
    by case_match.
  - unfold prog_tick, stateTransitionTick, currentFailureRate.
    destruct (Z.eqb_spec (cb_state cb) StateClosed) as [Hs|Hs]; simpl.
    + by rewrite Hs.
    + apply Z.eqb_neq in Hs. by rewrite Hs.
Qed.

(** Recovery does not clear the window: if at least half of the requests
    recorded when the breaker half-opened, counting the [maxRequests] probes
    that will succeed, are failures, then the tick after a fully successful
    recovery opens the breaker again although no request failed since. *)
Theorem recovery_reopens now now' l cb :
  cb_state cb = StateOpen → cb_timeout cb < time_sub now (cb_lastStateChange cb) →
  1 <= cb_maxRequests cb → Z.of_nat (length l) = cb_maxRequests cb →
  cb_failureRate cb = f64_half →
  0 <= cb_failureCount cb <= 2 ^ 53 → 0 <= cb_totalCount cb →
  cb_totalCount cb + cb_maxRequests cb <= 2 ^ 53 →
  cb_totalCount cb + cb_maxRequests cb <= 2 * cb_failureCount cb →
  let cb2 := record_successes l (stateTransitionTick now cb) in
  cb_state cb2 = StateClosed ∧
  cb_state (stateTransitionTick now' cb2) = StateOpen.
Proof.
  intros Hs Ht Hm Hl Hr Hf H0 Hb Hfail cb2.
  unfold cb2. rewrite tick_half_opens by done.
  assert (Hst : cb_state (record_successes l (transitionTo now StateHalfOpen cb)) = StateClosed).
  { apply record_successes_close; [unfold int64_max; lia|done]. }
  split; [done|].
  destruct (record_successes_counters l (transitionTo now StateHalfOpen cb)) as (C1 & C2 & C3);
    try (simpl; lia). simpl in C1, C2, C3.
  rewrite half_tick; rewrite ?C1, ?C2, ?C3; try done; try lia.
  replace (0 <? _) with true by (symmetry; apply Z.ltb_lt; lia).
  replace (_ <=? _) with true by (symmetry; apply Z.leb_le; lia). done.
Qed.

(** The window reset is four separate stores, so a failure recorded
    between two of them can leave more failures than requests: a reachable
    state has a failure rate of 2. *)
Theorem reset_race_rate_above_one :
  ∃ cb, rtc step (demo, TIdle) (cb, TIdle) ∧
    cb_totalCount cb < cb_failureCount cb ∧
    currentFailureRate cb = f64_of_Z 2.
Proof.
  eexists. split; [|split].
  - apply (run_rtc [ResetSuccess; ResetFailure; AddFailure; AddTotal; ResetSlow; ResetTotal;
      AddFailure; AddTotal]). reflexivity.
  - simpl. vm_compute. reflexivity.
  - vm_compute. reflexivity.
Qed.

(** ** Witnesses *)

Lemma transitions_legal_witness :
  let cb := add_total (add_failure demo) in
  let cb' := tick_closed 5 (failure_rate 1 1) 1 cb in
  edge (TickDecide 5) cb cb' ∧ cb_halfOpenCount cb' = 0 ∧
  action_time (TickDecide 5) = Some (cb_lastStateChange cb').
Proof.
  apply (transitions_legal "cdcdx-cb" 5 60 30 f64_half 1000 0
    (add_total (add_failure demo)) (TLoaded (failure_rate 1 1) 1) (TickDecide 5) _ TIdle).
  - unfold int64_max. lia.
  - apply (run_rtc [AddFailure; AddTotal; TickLock; TickLoadTotal; TickLoadFailure; TickReloadTotal]).
    reflexivity.
  - reflexivity.
  - vm_compute. discriminate.
Defined.


Definition demo_open : CircuitBreaker := transitionTo 0 StateOpen demo.

Lemma recovery_witness :
  cb_state (stateTransitionTick (31 * Second) demo_open) = StateHalfOpen.
Proof.
  refine (proj1 (recovery (31 * Second) demo_open _ _ _));
    [reflexivity|vm_compute; reflexivity|vm_compute; split; discriminate].
Defined.

Lemma default_threshold_opens_witness :
  cb_state (stateTransitionTick 7 (add_total (add_failure demo))) = StateOpen.
Proof.
  apply (default_threshold_opens 7 (add_total (add_failure demo)));
    [reflexivity|reflexivity|vm_compute; split; discriminate|vm_compute; split; discriminate|].
  split; [vm_compute; reflexivity|vm_compute; discriminate].
Defined.

Lemma failure_rate_faithful_witness : f64_geb (failure_rate 3 4) f64_half = true.
Proof.
  refine (proj1 (failure_rate_faithful 3 4 f64_half _ _ _) _);
    [lia|lia|apply f64_half_fin|vm_compute; discriminate].
Defined.

(** Six failures opened the breaker; five probes succeed; it reopens. *)
Definition demo_failed : CircuitBreaker :=
  Nat.iter 6 (RecordFailure 1 1) demo <| cb_state := StateOpen |>.

Lemma recovery_reopens_witness :
  let cb2 := record_successes (replicate 5 (0, 2)) (stateTransitionTick (31 * Second) demo_failed) in
  cb_state cb2 = StateClosed ∧ cb_state (stateTransitionTick 3 cb2) = StateOpen.
Proof.
  apply (recovery_reopens (31 * Second) 3 (replicate 5 (0, 2)) demo_failed);
    vm_compute; try split; try reflexivity; discriminate.
Defined.

End CB.
