(* ===== verification/Limiter.v ===== *)
(** * Token-bucket write limiter ([internal/resilience/rate_limiter.go])

    The bucket keeps a fractional token count in float64.  Every method
    reads the clock under the mutex, so a method is one atomic step with the
    reading as its argument; [WaitAcquire] gives the mutex up while it waits,
    so it is a loop over its successive attempts with the calls the other
    goroutines make between them. *)

From S2P Require Export FloatOps.

Module RL.

Record WriteRateLimiter := mkRL {
  capacity : Z;
  refillRate : Z;
  tokens : float64;
  lastRefill : Z
}.

#[export] Instance eta_WriteRateLimiter : Etable WriteRateLimiter := λ r,
  mkRL (capacity r) (refillRate r) (tokens r) (lastRefill r).

Definition NewWriteRateLimiter (capacity refillRate now : Z) : WriteRateLimiter :=
  {| capacity := capacity; refillRate := refillRate;
     tokens := f64_of_Z capacity; lastRefill := now |}.

Definition refill (now : Z) (rl : WriteRateLimiter) : WriteRateLimiter :=
  let elapsed := dur_seconds (time_sub now (lastRefill rl)) in
  let t := f64_add (tokens rl) (f64_mul elapsed (f64_of_Z (refillRate rl))) in
  let t := if f64_gtb t (f64_of_Z (capacity rl)) then f64_of_Z (capacity rl) else t in
  rl <| tokens := t |> <| lastRefill := now |>.

(** The locked body shared by [TryAcquire] and an attempt of [WaitAcquire]. *)
Definition TryAcquire (now : Z) (rl : WriteRateLimiter) : bool * WriteRateLimiter :=
  let rl := refill now rl in
  if f64_geb (tokens rl) f64_one
  then (true, rl <| tokens := f64_sub (tokens rl) f64_one |>)
  else (false, rl).

(** [Tokens]: the float is truncated to an int. *)
Definition Tokens (now : Z) (rl : WriteRateLimiter) : option Z * WriteRateLimiter :=
  let rl := refill now rl in (f64_trunc (tokens rl), rl).

(** What other goroutines call: an attempt of another [WaitAcquire] is the
    same locked body as a [TryAcquire]. *)
Inductive call := CTry (now : Z) | CTokens (now : Z).

Definition call_time (c : call) : Z := match c with CTry now | CTokens now => now end.

Definition do_call (c : call) (rl : WriteRateLimiter) : WriteRateLimiter :=
  match c with CTry now => (TryAcquire now rl).2 | CTokens now => (Tokens now rl).2 end.

Fixpoint history (l : list call) (rl : WriteRateLimiter) : WriteRateLimiter :=
  match l with [] => rl | c :: l => history l (do_call c rl) end.

(** One attempt of [WaitAcquire]: the clock reading of its refill and, when
    the attempt fails and the mutex is given up, what others call until the
    wait ends, and whether it ended by [ctx.Done] (with the context's error)
    rather than by the 10 ms timer. *)
Record attempt := mkAttempt { at_now : Z; at_others : list call; at_done : option string }.

(** [None]: still waiting after the given attempts. *)
Fixpoint WaitAcquire (l : list attempt) (rl : WriteRateLimiter)
    : option (option error) * WriteRateLimiter :=
  match l with
  | [] => (None, rl)
  | a :: l =>
      let '(ok, rl) := TryAcquire (at_now a) rl in
      if ok then (Some None, rl)
      else let rl := history (at_others a) rl in
           match at_done a with
           | Some e => (Some (Some (Errorf ("rate limiter: " ++ e))), rl)
           | None => WaitAcquire l rl
           end
  end.

(** [n] calls of [TryAcquire] at the same instant: how many are granted. *)
Fixpoint burst (n : nat) (now : Z) (rl : WriteRateLimiter) : Z * WriteRateLimiter :=
  match n with
  | O => (0, rl)
  | S n =>
      let '(ok, rl) := TryAcquire now rl in
      let '(k, rl) := burst n now rl in
      ((if ok : bool then 1 else 0) + k, rl)
  end.

(** ** The bucket invariant *)

Definition wf (rl : WriteRateLimiter) : Prop :=
  1 <= capacity rl <= 2 ^ 53 ∧ 0 <= refillRate rl <= 2 ^ 53 ∧
  f64_fin (tokens rl) ∧ 0 <= f64_val (tokens rl) <= capacity rl * f64_unit.

(** The remaining fields are configuration. *)
Definition same_config (rl rl' : WriteRateLimiter) : Prop :=
  capacity rl' = capacity rl ∧ refillRate rl' = refillRate rl.

Lemma New_wf c r now : 1 <= c <= 2 ^ 53 → 0 <= r <= 2 ^ 53 → wf (NewWriteRateLimiter c r now).
Proof.
  intros Hc Hr. destruct (f64_of_Z_exact c) as [F V]; [lia|]. pose proof f64_unit_pos.
  unfold wf; simpl. rewrite V. split_and!; [lia..|done|nia|lia].
Qed.

(** The amount a refill adds before clamping. *)
Lemma refill_amount now rl :
  wf rl → lastRefill rl <= now →
  let p := f64_mul (dur_seconds (time_sub now (lastRefill rl))) (f64_of_Z (refillRate rl)) in
  f64_fin p ∧ 0 <= f64_val p <= 2 ^ 87 * f64_unit ∧
  (now = lastRefill rl → f64_val p = 0) ∧
  (∀ k, 1 <= refillRate rl → 0 <= k <= 2 ^ 31 → k <= 2 * (now - lastRefill rl) → k * f64_grid <= f64_val p).
Proof.
  intros (Hc & Hr & _) Hnow p. pose proof f64_unit_pos.
  destruct (dur_seconds_spec (time_sub now (lastRefill rl))) as (Fe & Be & Ze & Te).
  { pose proof (time_sub_range now (lastRefill rl)) as [_ ?].
    pose proof (time_sub_nonneg _ _ Hnow). lia. }
  destruct (f64_of_Z_exact (refillRate rl)) as [Fr Vr]; [lia|].
  pose proof (f64_mul_rounds _ _ Fe Fr) as Hm. fold p in Hm. rewrite Vr in Hm.
  set (e := f64_val (dur_seconds _)) in *.
  assert (Hm' : rounds (e * refillRate rl) 1 p).
  { eapply rounds_eq; [..|exact Hm]; lia || ring. }
  destruct (f64_int 0) as (z & Fz & Vz); [lia|]. rewrite Z.mul_0_l in Vz.
  destruct (f64_representable 1 (87 + 1074)) as (b & Fb & Vb); [lia..|].
  rewrite Z.pow_add_r in Vb by lia. fold f64_unit in Vb.
  destruct (rounds_fin _ _ _ z b Hm' Fz Fb) as [Fp Bp]; [nia..|].
  split_and!; [done|lia|lia| |].
  - intros ->. rewrite <-Vz. eapply rounds_exact; [done| |exact Hm'].
    rewrite Ze; [lia|]. unfold time_sub, int64_min, int64_max. lia.
  - intros k H1 Hk Ht. destruct (f64_on_grid k Hk) as (w & Fw & Vw). rewrite <-Vw.
    eapply rounds_ge; [exact Hm'|done|]. rewrite Vw.
    assert (k * f64_grid <= e); [|nia]. apply Te; [done|].
    unfold time_sub, int64_min, int64_max in *. lia.
Qed.

Lemma refill_spec now rl :
  wf rl → lastRefill rl <= now →
  let rl' := refill now rl in
  wf rl' ∧ same_config rl rl' ∧ lastRefill rl' = now ∧
  f64_val (tokens rl) <= f64_val (tokens rl') ∧
  (now = lastRefill rl → f64_val (tokens rl') = f64_val (tokens rl)) ∧
  (∀ k, 1 <= refillRate rl → k * f64_grid <= f64_val (tokens rl) →
    Z.min (k + 2 * (now - lastRefill rl)) (2 ^ 31) * f64_grid <= f64_val (tokens rl')).
Proof.
  intros Hwf Hnow. destruct (refill_amount now rl Hwf Hnow) as (Fp & Bp & Zp & Tp).
  unfold refill, same_config. set (p := f64_mul _ _) in *. simpl.
  destruct Hwf as (Hc & Hr & Ft & Bt). pose proof f64_unit_pos.
  pose proof (f64_add_rounds _ _ Ft Fp) as Ha.
  destruct (f64_of_Z_exact (capacity rl)) as [Fc Vc]; [lia|].
  destruct (f64_representable 1 (88 + 1074)) as (b & Fb & Vb); [lia..|].
  rewrite Z.pow_add_r in Vb by lia. fold f64_unit in Vb.
  destruct (rounds_fin _ _ _ _ b Ha Ft Fb) as [Fa Ba]; [lia|nia|].
  set (t := f64_add (tokens rl) p) in *.
  unfold f64_gtb. rewrite f64_ltb_val by (by left). rewrite Vc.
  pose proof f64_unit_grid. pose proof f64_grid_pos.
  assert (Hk : ∀ k, 1 <= refillRate rl → k * f64_grid <= f64_val (tokens rl) →
    Z.min (k + 2 * (now - lastRefill rl)) (2 ^ 31) * f64_grid <= f64_val t).
  { intros k Hr1 Hle. set (m := Z.min _ _).
    destruct (decide (m <= Z.max k 0)) as [Hm|Hm]; [nia|].
    destruct (f64_on_grid m ltac:(lia)) as (w & Fw & Vw). rewrite <-Vw. eapply rounds_ge; [exact Ha|done|].
    specialize (Tp (m - Z.max k 0) Hr1 ltac:(lia) ltac:(lia)). nia. }
  destruct (Z.ltb_spec (capacity rl * f64_unit) (f64_val t)); unfold wf; simpl.
  - rewrite Vc. split_and!; first [lia|exact Fc|reflexivity|nia|idtac].
    intros ->. specialize (Zp eq_refl).
    assert (f64_val t = f64_val (tokens rl)); [|lia].
    eapply rounds_exact; [done| |exact Ha]. lia.
  - split_and!; first [lia|exact Fa|reflexivity|exact Hk|idtac].
    intros ->. specialize (Zp eq_refl). eapply rounds_exact; [done| |exact Ha]. lia.
Qed.

(** ** Acquiring *)

Lemma div_sub_unit a u : 0 < u → (a - u) / u = a / u - 1.
Proof. intros H. replace (a - u) with (a + (-1) * u) by ring. rewrite Z.div_add; lia. Qed.

Lemma acquire_split now rl :
  wf rl → lastRefill rl <= now →
  f64_geb (tokens (refill now rl)) f64_one = (f64_unit <=? f64_val (tokens (refill now rl))).
Proof.
  intros Hwf Hnow. destruct (refill_spec now rl Hwf Hnow) as ((_ & _ & Ft & _) & _).
  destruct (f64_of_Z_exact 1) as [F1 V1]; [lia|]. fold f64_one in F1, V1.
  unfold f64_geb. rewrite f64_leb_val by (by left). by rewrite V1, Z.mul_1_l.
Qed.

(** A call grants exactly when the refilled bucket holds a whole token, and
    then takes exactly one. *)
Lemma TryAcquire_spec now rl :
  wf rl → lastRefill rl <= now →
  let '(ok, rl') := TryAcquire now rl in
  wf rl' ∧ same_config rl rl' ∧ lastRefill rl' = now ∧
  ok = (f64_unit <=? f64_val (tokens (refill now rl))) ∧
  f64_val (tokens rl') =
    f64_val (tokens (refill now rl)) - (if ok then f64_unit else 0).
Proof.
  intros Hwf Hnow. destruct (refill_spec now rl Hwf Hnow) as ((Hc & Hr & Ft & Bt) & Hs & Hl & _).
  unfold TryAcquire. rewrite acquire_split by done. unfold same_config, wf in *.
  set (r1 := refill now rl) in *. clearbody r1. simpl. destruct Hs as [Hs1 Hs2].
  destruct (Z.leb_spec f64_unit (f64_val (tokens r1))) as [Hge|Hlt].
  - destruct (f64_decr (tokens r1) Ft) as [Fd Vd].
    { split; [done|]. pose proof f64_unit_pos. nia. }
    pose proof f64_unit_pos.
    simpl. rewrite Vd. split_and!; first [assumption|lia|reflexivity].
  - split_and!; first [assumption|lia|reflexivity].
Qed.

(** Further calls at one instant refill nothing. *)
Lemma burst_at n now rl :
  wf rl → lastRefill rl = now →
  let '(k, rl') := burst n now rl in
  k = Z.min (Z.of_nat n) (f64_val (tokens rl) / f64_unit) ∧ wf rl' ∧ same_config rl rl' ∧
  f64_val (tokens rl') = f64_val (tokens rl) - k * f64_unit.
Proof.
  revert rl. induction n as [|n IH]; intros rl Hwf Hnow; simpl; pose proof f64_unit_pos as Hu.
  - pose proof Hwf as (_ & _ & _ & Hb).
    assert (0 <= f64_val (tokens rl) / f64_unit) by (apply Z.div_pos; lia).
    split; [lia|]. split; [exact Hwf|]. split; [by split|lia].
  - destruct (refill_spec now rl Hwf ltac:(lia)) as (_ & _ & _ & _ & He & _).
    specialize (He (eq_sym Hnow)).
    pose proof (TryAcquire_spec now rl Hwf ltac:(lia)) as HT.
    destruct (TryAcquire now rl) as [ok rl1]. destruct HT as (W1 & [S1 S1'] & L1 & -> & V1).
    rewrite He in V1. specialize (IH rl1 W1 L1). rewrite He.
    destruct (burst n now rl1) as [k rl2]. destruct IH as (-> & W2 & [S2 S2'] & V2).
    rewrite V1 in V2. rewrite V1.
    pose proof Hwf as (_ & _ & _ & Hb).
    destruct (Z.leb_spec f64_unit (f64_val (tokens rl))) as [Hge|Hlt].
    + rewrite div_sub_unit in * by lia.
      assert (1 <= f64_val (tokens rl) / f64_unit) by (apply Z.div_le_lower_bound; lia).
      split; [lia|]. split; [exact W2|]. split; [split; congruence|]. rewrite V2. lia.
    + rewrite Z.sub_0_r in *. rewrite Z.div_small in * by lia.
      split; [lia|]. split; [exact W2|]. split; [split; congruence|lia].
Qed.

(** ** Histories and waiting *)

(** Nondecreasing readings. *)
Fixpoint monotone_from (t : Z) (l : list Z) : Prop :=
  match l with [] => True | u :: l => t <= u ∧ monotone_from u l end.

Fixpoint end_time (t : Z) (l : list Z) : Z :=
  match l with [] => t | u :: l => end_time u l end.

Lemma do_call_spec c rl :
  wf rl → lastRefill rl <= call_time c →
  wf (do_call c rl) ∧ same_config rl (do_call c rl) ∧ lastRefill (do_call c rl) = call_time c.
Proof.
  intros Hwf Hc. destruct c as [now|now]; cbn [do_call call_time] in *.
  - pose proof (TryAcquire_spec now rl Hwf Hc) as HT. destruct (TryAcquire now rl) as [ok rl'].
    destruct HT as (W & S & L & _). by split.
  - unfold Tokens. cbn [snd]. destruct (refill_spec now rl Hwf Hc) as (W & S & L & _). by split.
Qed.

Lemma history_spec l rl :
  wf rl → monotone_from (lastRefill rl) (map call_time l) →
  wf (history l rl) ∧ same_config rl (history l rl) ∧
  lastRefill (history l rl) = end_time (lastRefill rl) (map call_time l).
Proof.
  revert rl. induction l as [|c l IH]; intros rl Hwf Hm; [by split|].
  destruct Hm as [Hc Hm]. cbn [history map]. destruct (do_call_spec c rl Hwf Hc) as (W & [S S'] & L).
  rewrite <-L in Hm. destruct (IH _ W Hm) as (W' & [T T'] & L'). split; [done|].
  split; [split; congruence|]. by rewrite L', L.
Qed.

(** At one instant, whatever the bucket holds. *)
Lemma burst_spec n now rl :
  wf rl → lastRefill rl <= now →
  (burst n now rl).1 = Z.min (Z.of_nat n) (f64_val (tokens (refill now rl)) / f64_unit).
Proof.
  intros Hwf Hnow. destruct (refill_spec now rl Hwf Hnow) as (W & _ & L & _).
  destruct n as [|n].
  { cbn [burst fst]. destruct W as (_ & _ & _ & Hb). pose proof f64_unit_pos.
    assert (0 <= f64_val (tokens (refill now rl)) / f64_unit) by (apply Z.div_pos; lia). lia. }
  cbn [burst]. pose proof (TryAcquire_spec now rl Hwf Hnow) as HT.
  destruct (TryAcquire now rl) as [ok rl1]. destruct HT as (W1 & S1 & L1 & -> & V1).
  pose proof (burst_at n now rl1 W1 L1) as HB1. destruct (burst n now rl1) as [k rl2].
  destruct HB1 as (-> & _). cbn [fst]. rewrite V1. pose proof f64_unit_pos.
  pose proof W as (_ & _ & _ & Hb).
  destruct (Z.leb_spec f64_unit (f64_val (tokens (refill now rl)))).
  - rewrite div_sub_unit by lia.
    assert (1 <= f64_val (tokens (refill now rl)) / f64_unit) by (apply Z.div_le_lower_bound; lia).
    lia.
  - rewrite Z.sub_0_r, Z.div_small by lia. lia.
Qed.

(** ** Waiting among others *)

(** The tokens granted to a history of calls. *)
Definition grant (c : call) (rl : WriteRateLimiter) : Z :=
  match c with CTry now => if (TryAcquire now rl).1 then 1 else 0 | CTokens _ => 0 end.

Fixpoint grants (l : list call) (rl : WriteRateLimiter) : Z :=
  match l with [] => 0 | c :: l => grant c rl + grants l (do_call c rl) end.

Lemma grants_nonneg l rl : 0 <= grants l rl.
Proof.
  revert rl. induction l as [|c l IH]; intros rl; cbn [grants]; [done|]. specialize (IH (do_call c rl)).
  assert (0 <= grant c rl) by (destruct c; simpl; [by destruct (TryAcquire _ _).1|done]). lia.
Qed.

Lemma do_call_grows c rl k :
  wf rl → lastRefill rl <= call_time c → 1 <= refillRate rl → k * f64_grid <= f64_val (tokens rl) →
  (Z.min (k + 2 * (call_time c - lastRefill rl)) (2 ^ 31) - 2 ^ 31 * grant c rl) * f64_grid
    <= f64_val (tokens (do_call c rl)).
Proof.
  intros Hwf Hc Hr Hk. destruct (refill_spec _ rl Hwf Hc) as (_ & _ & _ & _ & _ & Hg). specialize (Hg k Hr Hk).
  pose proof f64_unit_grid. destruct c as [now|now]; cbn [do_call call_time grant] in *.
  - pose proof (TryAcquire_spec now rl Hwf Hc) as HT. destruct (TryAcquire now rl) as [ok rl'].
    destruct HT as (_ & _ & _ & _ & V). cbn [fst snd]. destruct ok; lia.
  - unfold Tokens. cbn [snd]. lia.
Qed.

(** Refills only add. *)
Lemma history_keeps l rl :
  wf rl → monotone_from (lastRefill rl) (map call_time l) →
  f64_val (tokens rl) - grants l rl * f64_unit <= f64_val (tokens (history l rl)).
Proof.
  revert rl. induction l as [|c l IH]; intros rl Hwf Hm; [cbn; lia|].
  cbn [history map grants monotone_from] in *. destruct Hm as [Hc Hm].
  destruct (do_call_spec c rl Hwf Hc) as (W & _ & L). rewrite <-L in Hm. specialize (IH _ W Hm).
  destruct (refill_spec _ rl Hwf Hc) as (_ & _ & _ & Hmono & _). destruct c as [now|now]; cbn [do_call grant call_time] in *.
  - pose proof (TryAcquire_spec now rl Hwf Hc) as HT. destruct (TryAcquire now rl) as [ok rl'].
    destruct HT as (_ & _ & _ & _ & V). cbn [fst snd] in *. destruct ok; lia.
  - unfold Tokens in *. cbn [snd] in *. lia.
Qed.

(** What the others leave: the seconds passed, up to a token, less what they
    were granted. *)
Lemma history_grows l rl k :
  wf rl → monotone_from (lastRefill rl) (map call_time l) → 1 <= refillRate rl → k * f64_grid <= f64_val (tokens rl) →
  (Z.min (k + 2 * (end_time (lastRefill rl) (map call_time l) - lastRefill rl)) (2 ^ 31) - 2 ^ 31 * grants l rl)
    * f64_grid <= f64_val (tokens (history l rl)).
Proof.
  pose proof f64_grid_pos. revert rl k. induction l as [|c l IH]; intros rl k Hwf Hm Hr Hk; [cbn; nia|].
  cbn [history map grants end_time monotone_from] in *. destruct Hm as [Hc Hm].
  destruct (do_call_spec c rl Hwf Hc) as (W & [S S'] & L). pose proof (do_call_grows c rl k Hwf Hc Hr Hk) as Hk'.
  rewrite <-L in Hm. specialize (IH _ _ W Hm ltac:(congruence) Hk'). rewrite L in IH.
  etransitivity; [|exact IH]. apply Z.mul_le_mono_nonneg_r; [lia|].
  assert (0 <= grant c rl) by (destruct c; simpl; [by destruct (TryAcquire _ _).1|done]).
  assert (∀ l t, monotone_from t l → t <= end_time t l) as Hend.
  { clear. induction l as [|u l IH]; intros t; simpl; [lia|]. intros [? H]. specialize (IH _ H). lia. }
  rewrite L in Hm. specialize (Hend _ _ Hm). destruct (decide (grant c rl = 0)) as [->|]; [lia|].
  assert (1 <= grant c rl) by lia. lia.
Qed.

(** The readings of a waiting call: nondecreasing with the others', and its
    attempts at least the timer's 10 ms apart. *)
Fixpoint waits (t : Z) (l : list attempt) : Prop :=
  match l with
  | [] => True
  | a :: l =>
      t <= at_now a ∧ monotone_from (at_now a) (map call_time (at_others a)) ∧
      match l with [] => True | b :: _ => at_now a + 10 * Millisecond <= at_now b end ∧
      waits (end_time (at_now a) (map call_time (at_others a))) l
  end.

(** The tokens the others were granted while the call waited. *)
Fixpoint taken (l : list attempt) (rl : WriteRateLimiter) : Z :=
  match l with
  | [] => 0
  | a :: l =>
      let '(ok, rl) := TryAcquire (at_now a) rl in
      if ok then 0
      else grants (at_others a) rl + match at_done a with Some _ => 0 | None => taken l (history (at_others a) rl) end
  end.

(** From a failed attempt that left [k] parts of 128, with the others' calls
    [o] before the next. *)
Lemma wait_progress l : ∀ o rl k,
  wf rl → 1 <= refillRate rl → k <= 127 → k * (2 ^ 24 * f64_grid) <= f64_val (tokens rl) →
  monotone_from (lastRefill rl) (map call_time o) →
  match l with [] => True | b :: _ => lastRefill rl + 10 * Millisecond <= at_now b end →
  waits (end_time (lastRefill rl) (map call_time o)) l → Forall (λ a, at_done a = None) l →
  128 * (1 + grants o rl + taken l (history o rl)) - k <= Z.of_nat (length l) →
  (WaitAcquire l (history o rl)).1 = Some None.
Proof.
  induction l as [|a l IH]; intros o rl k Hwf Hr Hk Ht Ho Hfirst Hw Hd Hl; pose proof (grants_nonneg o rl) as Hg0.
  { cbn [length taken] in Hl. lia. }
  destruct Hw as (Ha & Hoa & Hgap & Hw). apply Forall_cons in Hd as [Hda Hd].
  destruct (history_spec o rl Hwf Ho) as (W & [S S'] & L).
  pose proof (history_grows o rl (k * 2 ^ 24) Hwf Ho Hr ltac:(lia)) as Hgrow.
  set (r := history o rl) in *. rewrite <-L in Ha. pose proof f64_grid_pos. pose proof f64_unit_grid.
  destruct (refill_spec _ r W Ha) as (_ & _ & _ & _ & _ & Hk'). specialize (Hk' _ ltac:(lia) Hgrow).
  pose proof (TryAcquire_spec _ r W Ha) as HT. cbn [WaitAcquire taken] in *. rewrite L in *.
  destruct (TryAcquire (at_now a) r) as [ok rl1]. destruct HT as (W1 & [S1 S1'] & L1 & -> & V1).
  destruct (Z.leb_spec f64_unit (f64_val (tokens (refill (at_now a) r)))) as [|Hlt]; [done|].
  rewrite Hda in *. rewrite Z.sub_0_r in V1.
  assert (Hnext : (k + 1 - 128 * grants o rl) * (2 ^ 24 * f64_grid) <= f64_val (tokens rl1)).
  { rewrite V1. etransitivity; [|exact Hk']. rewrite Z.mul_assoc. apply Z.mul_le_mono_nonneg_r; [lia|].
    unfold Millisecond in *. lia. }
  apply (IH (at_others a) rl1 (k + 1 - 128 * grants o rl)); [exact W1|lia| |exact Hnext| | | |exact Hd|simpl in Hl; lia].
  - nia.
  - by rewrite L1.
  - by rewrite L1.
  - by rewrite L1.
Qed.

(** ** Properties *)

(** C30: Burst bound: after any history of calls with nondecreasing clock
    readings, [k] calls of [TryAcquire] at one instant grant exactly the
    smaller of [k] and what [Tokens] reports there, which is at most the
    capacity; an untouched bucket grants exactly its capacity. *)
Theorem burst_bound c r now0 l now k :
  1 <= c <= 2 ^ 53 → 0 <= r <= 2 ^ 53 →
  monotone_from now0 (map call_time l) → end_time now0 (map call_time l) <= now →
  let rl := history l (NewWriteRateLimiter c r now0) in
  ∃ t, (Tokens now rl).1 = Some t ∧ 0 <= t <= c ∧
    (burst k now rl).1 = Z.min (Z.of_nat k) t ∧ (l = [] → t = c).
Proof.
  intros Hc Hr Hm Hnow rl. pose proof f64_unit_pos as Hu.
  destruct (history_spec l (NewWriteRateLimiter c r now0) (New_wf c r now0 Hc Hr) Hm)
    as (W & [Sc Sr] & L). fold rl in W, Sc, Sr, L. cbn [lastRefill capacity NewWriteRateLimiter] in *.
  rewrite <-L in Hnow. destruct (refill_spec now rl W Hnow) as (W' & [Tc _] & _ & Hmono & _).
  pose proof W' as (_ & _ & Ft & Hb). rewrite Tc, Sc in Hb.
  exists (f64_val (tokens (refill now rl)) / f64_unit). unfold Tokens. cbn [fst].
  rewrite f64_trunc_floor by (done || lia). split; [done|].
  split; [split; [apply Z.div_pos; lia|]|].
  { transitivity (c * f64_unit / f64_unit); [|rewrite Z.div_mul; lia]. apply Z.div_le_mono; lia. }
  split; [by apply burst_spec|]. intros ->.
  assert (Hv : f64_val (tokens rl) = c * f64_unit) by (apply f64_of_Z_exact; lia).
  replace (f64_val _) with (c * f64_unit) by lia. apply Z.div_mul. lia.
Qed.

(** C32: [WaitAcquire] terminates among other callers: on a bucket with
    capacity and refill rate at least 1, after any history of calls, a wait
    whose context is never done gets its token by attempt [1 + 128 * (1 + g)],
    where [g] is the number of tokens the other goroutines are granted while
    it waits, whatever they call and however their calls fall between its
    attempts; clock readings are nondecreasing, and consecutive attempts of
    the wait at least the timer's 10 ms apart. *)
Theorem wait_terminates c r now0 hist l :
  1 <= c <= 2 ^ 53 → 1 <= r <= 2 ^ 53 →
  monotone_from now0 (map call_time hist) → waits (end_time now0 (map call_time hist)) l →
  Forall (λ a, at_done a = None) l →
  let rl := history hist (NewWriteRateLimiter c r now0) in
  1 + 128 * (1 + taken l rl) <= Z.of_nat (length l) →
  (WaitAcquire l rl).1 = Some None.
Proof.
  intros Hc Hr Hm Hw Hd rl Hl.
  destruct (history_spec hist (NewWriteRateLimiter c r now0) (New_wf c r now0 Hc ltac:(lia)) Hm) as (W & [_ S] & L).
  fold rl in W, S, L. cbn [lastRefill refillRate NewWriteRateLimiter] in *. clearbody rl.
  destruct l as [|a l]; [cbn in Hl; lia|]. destruct Hw as (Ha & Hoa & Hgap & Hw). rewrite <-L in Ha.
  apply Forall_cons in Hd as [Hda Hd]. pose proof (TryAcquire_spec _ rl W Ha) as HT. cbn [WaitAcquire taken] in *.
  destruct (TryAcquire (at_now a) rl) as [ok rl1]. destruct HT as (W1 & [_ S1] & L1 & _ & _). destruct ok; [done|].
  rewrite Hda in *. rewrite <-L1 in *. pose proof W1 as (_ & _ & _ & Hb).
  apply (wait_progress l (at_others a) rl1 0); [exact W1|lia|lia|lia|exact Hoa|exact Hgap|exact Hw|exact Hd|].
  cbn [length] in Hl. lia.
Qed.

(** A wait ends either with a token taken at the instant of one of its
    attempts, or, only when the context was done, with the context's error
    wrapped and no token gone but what the others were granted; with the
    bucket still well formed. *)
Theorem wait_result l rl :
  wf rl → waits (lastRefill rl) l →
  let '(o, rl') := WaitAcquire l rl in
  wf rl' ∧ same_config rl rl' ∧
  match o with
  | Some None => ∃ a, a ∈ l ∧ lastRefill rl' = at_now a
  | Some (Some e) => ∃ a m, a ∈ l ∧ at_done a = Some m ∧ e = Errorf ("rate limiter: " ++ m) ∧
      f64_val (tokens rl) - taken l rl * f64_unit <= f64_val (tokens rl')
  | None => Forall (λ a, at_done a = None) l ∧ f64_val (tokens rl) - taken l rl * f64_unit <= f64_val (tokens rl')
  end.
Proof.
  revert rl. induction l as [|a l IH]; intros rl Hwf Hm.
  { split; [exact Hwf|]. split; [by split|]. split; [constructor|cbn [taken]; lia]. }
  destruct Hm as (Ha & Ho & _ & Hm). cbn [WaitAcquire taken].
  destruct (refill_spec _ rl Hwf Ha) as (_ & _ & _ & Hmono & _).
  pose proof (TryAcquire_spec _ rl Hwf Ha) as HT.
  destruct (TryAcquire (at_now a) rl) as [ok rl1]. destruct HT as (W1 & [S1 S1'] & L1 & _ & V1).
  destruct ok.
  { split; [exact W1|]. split; [by split|]. exists a. split; [left|done]. }
  rewrite <-L1 in Ho, Hm. destruct (history_spec _ _ W1 Ho) as (W2 & [S2 S2'] & L2).
  pose proof (history_keeps _ _ W1 Ho) as Hkeep. destruct (at_done a) as [m|] eqn:Hda.
  { split; [exact W2|]. split; [split; congruence|]. exists a, m. split_and!; [left|done|done|lia]. }
  rewrite <-L2 in Hm. specialize (IH _ W2 Hm). destruct (WaitAcquire l _) as [o rl2].
  destruct IH as (W3 & [T T'] & Hr). split; [exact W3|]. split; [split; congruence|].
  destruct o as [[e|]|].
  - destruct Hr as (b & m & Hb & ? & ? & ?). exists b, m. split_and!; [by right|done|done|lia].
  - destruct Hr as (b & ? & ?). exists b. split; [by right|done].
  - destruct Hr as [? ?]. split; [by constructor|lia].
Qed.

(** ** Witnesses *)

(** 100 tokens, two taken at 0, then a burst half a second later. *)
Lemma burst_bound_witness :
  ∃ t, (Tokens 500 (history [CTry 0; CTry 0] (NewWriteRateLimiter 100 10 0))).1 = Some t ∧
    (burst 3 500 (history [CTry 0; CTry 0] (NewWriteRateLimiter 100 10 0))).1 = Z.min 3 t.
Proof.
  destruct (burst_bound 100 10 0 [CTry 0; CTry 0] 500 3) as (t & H1 & _ & H2 & _);
    [lia|lia|simpl; lia|simpl; lia|].
  exists t. split; [exact H1|exact H2].
Defined.

(** A bucket of one token, taken at the start; while the call waits, another
    takes the token that a second has refilled, just before the waiting
    call's next attempt. *)
Definition demo_attempts : list attempt :=
  map (λ i, mkAttempt (Z.of_nat i * 10 * Millisecond) (if decide (i = 99%nat) then [CTry (998 * Millisecond); CTry (1008 * Millisecond)] else [])
              None) (seq 1 99) ++
  map (λ i, mkAttempt (Z.of_nat i * 10 * Millisecond + 8 * Millisecond) [] None) (seq 100 158).

Lemma wait_terminates_witness :
  (WaitAcquire demo_attempts (history [CTry 5] (NewWriteRateLimiter 1 1 0))).1 = Some None ∧
  taken demo_attempts (history [CTry 5] (NewWriteRateLimiter 1 1 0)) = 1.
Proof.
  split; [|by vm_compute].
  apply (wait_terminates 1 1 0 [CTry 5] demo_attempts); [lia|lia|simpl; lia| | |vm_compute; discriminate].
  - vm_compute. repeat split; discriminate.
  - vm_compute. repeat constructor.
Defined.

Definition demo_empty : WriteRateLimiter := (NewWriteRateLimiter 1 1 0) <| tokens := f64_zero |>.

Lemma wait_result_witness :
  let '(_, rl') := WaitAcquire [mkAttempt 0 [CTokens 4] (Some "context canceled")] demo_empty in
  wf rl' ∧ same_config demo_empty rl'.
Proof.
  pose proof (wait_result [mkAttempt 0 [CTokens 4] (Some "context canceled")] demo_empty) as H.
  destruct (WaitAcquire _ demo_empty) as [o rl']. destruct H as (H1 & H2 & _).
  - unfold wf. simpl. pose proof f64_unit_pos.
    split; [lia|]. split; [lia|]. split; [exact I|]. split; [vm_compute; discriminate|].
    change (f64_val f64_zero) with 0. lia.
  - simpl. lia.
  - split; [exact H1|exact H2].
Defined.

End RL.
