(* ===== verification/HotKey.v ===== *)
(** * Hot-key detector ([internal/cache/hot_key_detector.go])

    A ring of per-slot counters for each key, and the detector that owns the
    rings.  A ring is reached through a pointer ([ringLoc]) that a goroutine
    keeps after releasing the detector's lock, so the rings live in a store
    of their own and the detector maps keys to pointers. *)

From S2P Require Export Prelude.

Module HK.

Record slotRing := mkRing {
  counters : list Z;
  slotIdx : Z;
  lastTick : Z
}.

#[export] Instance eta_slotRing : Etable slotRing := λ r,
  mkRing (counters r) (slotIdx r) (lastTick r).

(** [make([]int64, slots)] panics on a negative length. *)
Definition newSlotRing (slots now : Z) : option slotRing :=
  if slots <? 0 then None
  else Some {| counters := replicate (Z.to_nat slots) 0; slotIdx := 0; lastTick := now |}.

Definition ring_len (sr : slotRing) : Z := Z.of_nat (length (counters sr)).

(** The body of the loop of [advance]. *)
Definition advance_slot (sr : slotRing) : slotRing :=
  let idx := Z.rem (slotIdx sr + 1) (ring_len sr) in
  {| counters := <[Z.to_nat idx := 0]> (counters sr); slotIdx := idx; lastTick := lastTick sr |}.

(** [None]: division by a zero interval. *)
Definition advance (slotInterval now : Z) (sr : slotRing) : option slotRing :=
  let elapsed := time_sub now (lastTick sr) in
  if slotInterval =? 0 then None
  else
    let steps := wrap64 (Z.quot elapsed slotInterval) in
    if steps <=? 0 then Some sr
    else
      let steps := if ring_len sr <? steps then ring_len sr else steps in
      Some ((Nat.iter (Z.to_nat steps) advance_slot sr) <| lastTick := now |>).

(** [None]: index out of range. *)
Definition inc (sr : slotRing) : option slotRing :=
  c ← counters sr !! Z.to_nat (slotIdx sr);
  Some (sr <| counters := <[Z.to_nat (slotIdx sr) := wrap64 (c + 1)]> (counters sr) |>).

Definition sum (sr : slotRing) : Z :=
  fold_left (λ total v, wrap64 (total + v)) (counters sr) 0.

(** ** The detector *)

Definition ringLoc : Type := positive.

Record HotKeyDetector := mkHKD {
  rings : gmap ringLoc slotRing;      (* every ring allocated so far *)
  keyCounters : gmap string ringLoc;
  threshold : Z;
  windowSize : Z;
  slots : Z;
  hotKeys : gset string;              (* the map holds only [true] *)
  stopped : bool                      (* [stopCh] is closed *)
}.

#[export] Instance eta_HotKeyDetector : Etable HotKeyDetector := λ r,
  mkHKD (rings r) (keyCounters r) (threshold r) (windowSize r) (slots r) (hotKeys r) (stopped r).

Definition NewHotKeyDetector (windowSeconds slots threshold : Z) : HotKeyDetector :=
  {| rings := ∅; keyCounters := ∅; threshold := threshold;
     windowSize := dur_of windowSeconds Second; slots := slots;
     hotKeys := ∅; stopped := false |}.

Definition Stop (h : HotKeyDetector) : option HotKeyDetector :=
  if stopped h then None else Some (h <| stopped := true |>).

(** [h.windowSize / time.Duration(h.slots)] *)
Definition slotInterval (h : HotKeyDetector) : option Z :=
  if slots h =? 0 then None else Some (wrap64 (Z.quot (windowSize h) (slots h))).

(** The double-checked creation under the write lock. *)
Definition getOrCreate (key : string) (now : Z) (h : HotKeyDetector)
    : option (ringLoc * HotKeyDetector) :=
  match keyCounters h !! key with
  | Some l => Some (l, h)
  | None =>
      sr ← newSlotRing (slots h) now;
      let l := fresh (dom (rings h)) in
      Some (l, h <| rings ::= <[l := sr]> |> <| keyCounters ::= <[key := l]> |>)
  end.

(** Run a method of the ring at a pointer. *)
Definition with_ring (l : ringLoc) (f : slotRing → option slotRing) (h : HotKeyDetector)
    : option HotKeyDetector :=
  sr ← rings h !! l; sr' ← f sr; Some (h <| rings ::= <[l := sr']> |>).

Definition markHot (key : string) (h : HotKeyDetector) : HotKeyDetector :=
  h <| hotKeys ::= union {[key]} |>.

(** The counting half of [RecordAccess], on the pointer it obtained. *)
Definition countAccess (key : string) (l : ringLoc) (interval now : Z) (h : HotKeyDetector)
    : option (bool * HotKeyDetector) :=
  h ← with_ring l (advance interval now) h;
  h ← with_ring l inc h;
  sr ← rings h !! l;
  let isHot := threshold h <? sum sr in
  Some (isHot, if isHot then markHot key h else h).

(** [now1] is read when a ring is created, [now2] by [advance]. *)
Definition RecordAccess (key : string) (now1 now2 : Z) (h : HotKeyDetector)
    : option (bool * HotKeyDetector) :=
  interval ← slotInterval h;
  '(l, h) ← getOrCreate key now1 h;
  countAccess key l interval now2 h.

Definition IsHot (key : string) (h : HotKeyDetector) : bool := bool_decide (key ∈ hotKeys h).

Definition GetHotKeys (h : HotKeyDetector) : list string := elements (hotKeys h).

(** [sr.sum() <= h.threshold/10] *)
Definition is_cold (h : HotKeyDetector) (l : ringLoc) : bool :=
  match rings h !! l with
  | Some sr => sum sr <=? Z.quot (threshold h) 10
  | None => false
  end.

(** The two phases of [cleanup]: collect under the read lock, then re-check
    and delete under the write lock. *)
Definition cleanup_collect (h : HotKeyDetector) : list string :=
  (map_to_list (keyCounters h)).*1 ≫= λ key,
    match keyCounters h !! key with
    | Some l => if is_cold h l then [key] else []
    | None => []
    end.

Definition cleanup_delete1 (h : HotKeyDetector) (key : string) : HotKeyDetector :=
  match keyCounters h !! key with
  | Some l =>
      if is_cold h l
      then h <| keyCounters ::= delete key |> <| hotKeys ::= (λ s, s ∖ {[key]}) |>
      else h
  | None => h
  end.

Definition cleanup_delete (toDelete : list string) (h : HotKeyDetector) : HotKeyDetector :=
  fold_left cleanup_delete1 toDelete h.

Definition cleanup (h : HotKeyDetector) : HotKeyDetector :=
  let toDelete := cleanup_collect h in
  if bool_decide (toDelete = []) then h else cleanup_delete toDelete h.

Definition cleanupLoop (events : list signal) (h : HotKeyDetector) : option (bool * HotKeyDetector) :=
  ticker_loop (λ _, cleanup) (wrap64 (windowSize h * 2)) events h.

(** ** The ring as a shift register *)

(** Slot counts by age, the current slot first. *)
Definition view (sr : slotRing) : list Z :=
  let i := S (Z.to_nat (slotIdx sr)) in
  rev (take i (counters sr)) ++ rev (drop i (counters sr)).

Definition ring_wf (sr : slotRing) : Prop := 0 <= slotIdx sr < ring_len sr.

Lemma view_length sr : length (view sr) = length (counters sr).
Proof. unfold view. rewrite length_app, !length_rev, length_take, length_drop. lia. Qed.

Lemma sumZ_rev l : sumZ (rev l) = sumZ l.
Proof. induction l; simpl; [done|]. rewrite sumZ_app. simpl. lia. Qed.

Lemma view_sum sr : sumZ (view sr) = sumZ (counters sr).
Proof.
  unfold view. rewrite sumZ_app, !sumZ_rev, <-sumZ_app. by rewrite take_drop.
Qed.

Lemma sum_view sr : sum sr = wrap64 (sumZ (view sr)).
Proof.
  rewrite view_sum. unfold sum.
  assert (H : ∀ l a, fold_left (λ t v, wrap64 (t + v)) l (wrap64 a) = wrap64 (a + sumZ l)).
  { induction l as [|x l IH]; intros a; simpl; [f_equal; lia|].
    rewrite wrap64_add_l, IH. f_equal. lia. }
  apply (H _ 0).
Qed.

(** The counters around the current slot. *)
Lemma ring_split sr :
  ring_wf sr → ∃ A x B, counters sr = A ++ x :: B ∧ Z.to_nat (slotIdx sr) = length A ∧
    view sr = x :: rev A ++ rev B.
Proof.
  unfold ring_wf, ring_len. intros H.
  destruct (lookup_lt_is_Some_2 (counters sr) (Z.to_nat (slotIdx sr))) as [x Hx]; [lia|].
  exists (take (Z.to_nat (slotIdx sr)) (counters sr)), x, (drop (S (Z.to_nat (slotIdx sr))) (counters sr)).
  split_and!; [by rewrite take_drop_middle|rewrite length_take; lia|].
  unfold view. by rewrite (take_S_r _ _ x), rev_app_distr.
Qed.

Lemma advance_slot_view sr :
  ring_wf sr →
  ring_wf (advance_slot sr) ∧ lastTick (advance_slot sr) = lastTick sr ∧
  view (advance_slot sr) = take (length (counters sr)) (0 :: view sr) ∧
  length (counters (advance_slot sr)) = length (counters sr).
Proof.
  intros Hwf. destruct (ring_split sr Hwf) as (A & x & B & Hc & Hi & Hv).
  unfold ring_wf, ring_len in Hwf. rewrite Hv, Hc.
  assert (Hlen : ring_len sr = Z.of_nat (length A) + 1 + Z.of_nat (length B)).
  { unfold ring_len. rewrite Hc, length_app. simpl. lia. }
  unfold advance_slot. rewrite Hlen. unfold ring_wf, ring_len, view. simpl.
  rewrite !length_insert, Hc. destruct B as [|b B].
  - simpl in *.
    replace (slotIdx sr + 1) with (Z.of_nat (length A) + 1 + 0) by lia.
    rewrite Z.rem_same by lia. simpl. split_and!; [lia|rewrite length_app; simpl; lia|done| |done].
    destruct A as [|a A]; simpl; [done|]. f_equal.
    rewrite drop_0, rev_app_distr, length_app, app_nil_r. simpl. rewrite Nat.add_1_r. simpl.
    f_equal. rewrite take_app_le by (rewrite length_rev; lia).
    rewrite firstn_all2; [done|rewrite length_rev; lia].
  - rewrite Z.rem_small by (simpl in *; lia).
    split_and!; [lia|rewrite length_app; simpl; lia|done| |done].
    replace (Z.to_nat (slotIdx sr + 1)) with (length A + 1)%nat by lia.
    rewrite insert_app_r. simpl.
    replace (S (length A + 1)) with (length (A ++ [x; 0])) by (rewrite length_app; simpl; lia).
    replace (A ++ x :: 0 :: B) with ((A ++ [x; 0]) ++ B) by (by rewrite <-app_assoc).
    rewrite take_app_length, drop_app_length, rev_app_distr. simpl.
    rewrite length_app. simpl. f_equal.
    replace (length A + S (S (length B)))%nat with (S (length (rev A ++ rev B) + 1)).
    2:{ rewrite length_app, !length_rev. lia. }
    simpl. f_equal. rewrite Nat.add_1_r. simpl. f_equal. rewrite app_assoc.
    by rewrite take_app_length.
Qed.

#[local] Arguments advance_slot : simpl never.
#[local] Arguments view : simpl never.

(** [k] slots forward: the view shifts by [k] zeros. *)
Lemma advance_iter_view k sr :
  ring_wf sr →
  let sr' := Nat.iter k advance_slot sr in
  ring_wf sr' ∧ lastTick sr' = lastTick sr ∧
  view sr' = take (length (counters sr)) (replicate k 0 ++ view sr) ∧
  length (counters sr') = length (counters sr).
Proof.
  intros Hwf sr'. subst sr'. induction k as [|k IH]; [simpl|rewrite Nat.iter_succ].
  - split_and!; try done. by rewrite firstn_all2 by (rewrite view_length; lia).
  - destruct IH as (W & L & V & N).
    destruct (advance_slot_view _ W) as (W' & L' & V' & N'). split_and!; [done|by rewrite L'| |by rewrite N'].
    rewrite V', N, V. destruct (length (counters sr)) as [|n]; [done|]. simpl. f_equal.
    rewrite firstn_firstn. f_equal. lia.
Qed.

Lemma inc_view sr :
  ring_wf sr → ∃ sr', inc sr = Some sr' ∧ ring_wf sr' ∧ lastTick sr' = lastTick sr ∧
    length (counters sr') = length (counters sr) ∧
    ∃ x v, view sr = x :: v ∧ view sr' = wrap64 (x + 1) :: v.
Proof.
  intros Hwf. destruct (ring_split sr Hwf) as (A & x & B & Hc & Hi & Hv).
  unfold inc. rewrite Hc, Hi, list_lookup_middle by done. simpl. eexists. split; [done|].
  rewrite Hv. unfold ring_wf, ring_len, view. simpl. rewrite Hi, length_insert.
  rewrite insert_app_r_alt, Nat.sub_diag by lia. simpl. split_and!.
  - unfold ring_wf, ring_len in Hwf. lia.
  - unfold ring_wf, ring_len in Hwf. rewrite Hc in Hwf. lia.
  - done.
  - done.
  - exists x, (rev A ++ rev B). split; [done|].
    replace (A ++ wrap64 (x + 1) :: B) with ((A ++ [wrap64 (x + 1)]) ++ B) by (by rewrite <-app_assoc).
    replace (S (length A)) with (length (A ++ [wrap64 (x + 1)])) by (rewrite length_app; simpl; lia).
    by rewrite take_app_length, drop_app_length, rev_app_distr.
Qed.

(** The number of slots [advance] moves. *)
Definition steps (interval now : Z) (sr : slotRing) : Z :=
  Z.min (ring_len sr) (Z.quot (time_sub now (lastTick sr)) interval).

Lemma advance_spec interval now sr :
  ring_wf sr → 0 < interval → lastTick sr <= now →
  ∃ sr', advance interval now sr = Some sr' ∧ ring_wf sr' ∧
    length (counters sr') = length (counters sr) ∧
    let k := steps interval now sr in
    0 <= k ∧ lastTick sr' = (if k =? 0 then lastTick sr else now) ∧
    view sr' = take (length (counters sr)) (replicate (Z.to_nat k) 0 ++ view sr).
Proof.
  intros Hwf Hi Hnow. unfold advance, steps.
  pose proof (time_sub_nonneg _ _ Hnow) as H0. pose proof (time_sub_range now (lastTick sr)) as H1.
  set (e := time_sub now (lastTick sr)) in *.
  assert (Hq : 0 <= e ÷ interval <= e).
  { rewrite Z.quot_div_nonneg by lia. split; [apply Z.div_pos; lia|].
    apply Z.div_le_upper_bound; nia. }
  rewrite wrap64_id by i64.
  destruct (Z.eqb_spec interval 0); [lia|]. unfold ring_wf in Hwf.
  destruct (Z.leb_spec (e ÷ interval) 0).
  - replace (Z.min (ring_len sr) (e ÷ interval)) with 0 by lia. eexists. split; [done|].
    split_and!; try done. simpl. by rewrite firstn_all2 by (rewrite view_length; lia).
  - destruct (advance_iter_view (Z.to_nat (Z.min (ring_len sr) (e ÷ interval))) sr Hwf)
      as (W & L & V & N).
    replace (if _ <? _ then _ else _) with (Z.min (ring_len sr) (e ÷ interval))
      by (destruct (Z.ltb_spec (ring_len sr) (e ÷ interval)); lia).
    eexists. split; [done|]. split; [exact W|]. split; [exact N|]. cbn zeta.
    split; [lia|]. split; [|exact V].
    destruct (Z.eqb_spec (Z.min (ring_len sr) (e ÷ interval)) 0); [lia|done].
Qed.

(** ** A detector that can be used

    With slots and a whole interval, and a well-formed ring for each key,
    an access cannot fail, whatever the clock shows. *)

Definition usable (h : HotKeyDetector) : Prop :=
  0 < slots h ∧ wrap64 (Z.quot (windowSize h) (slots h)) ≠ 0 ∧
  ∀ key l, keyCounters h !! key = Some l → ∃ sr, rings h !! l = Some sr ∧ ring_wf sr.

Lemma New_usable windowSeconds slots threshold :
  0 < slots → wrap64 (Z.quot (dur_of windowSeconds Second) slots) ≠ 0 →
  usable (NewHotKeyDetector windowSeconds slots threshold).
Proof. intros. split; [done|]. split; [done|]. intros key l. cbn. by rewrite lookup_empty. Qed.

Lemma advance_wf interval now sr :
  ring_wf sr → interval ≠ 0 → ∃ sr', advance interval now sr = Some sr' ∧ ring_wf sr'.
Proof.
  intros Hwf Hi. unfold advance. destruct (Z.eqb_spec interval 0); [done|]. cbv zeta.
  destruct (_ <=? 0); [by eexists|]. eexists. split; [reflexivity|].
  set (k := Z.to_nat _). by destruct (advance_iter_view k sr Hwf) as (W & _).
Qed.

(** Storing a well-formed ring. *)
Lemma usable_insert h l sr : usable h → ring_wf sr → usable (h <| rings ::= <[l := sr]> |>).
Proof.
  intros (H1 & H2 & H3) Hsr. split; [done|]. split; [done|]. intros key l' Hk. cbn in *.
  destruct (decide (l' = l)) as [->|Hne]; [exists sr; by rewrite lookup_insert_eq|].
  rewrite lookup_insert_ne by done. by eapply H3.
Qed.

Lemma with_ring_usable l f h sr :
  usable h → rings h !! l = Some sr → ring_wf sr → (∃ sr', f sr = Some sr' ∧ ring_wf sr') →
  ∃ h' sr', with_ring l f h = Some h' ∧ usable h' ∧ rings h' !! l = Some sr' ∧ ring_wf sr'.
Proof.
  intros Hu Hr Hwf (sr' & Ef & Hwf'). unfold with_ring. rewrite Hr. cbn. rewrite Ef. cbn.
  eexists _, sr'. split; [reflexivity|]. split; [by apply usable_insert|].
  split; [apply lookup_insert_eq|done].
Qed.

Lemma getOrCreate_usable key now h :
  usable h → ∃ l h1 sr, getOrCreate key now h = Some (l, h1) ∧ usable h1 ∧ slots h1 = slots h ∧
    windowSize h1 = windowSize h ∧ rings h1 !! l = Some sr ∧ ring_wf sr.
Proof.
  intros Hu. pose proof Hu as (H1 & H2 & H3). unfold getOrCreate.
  destruct (keyCounters h !! key) as [l|] eqn:E; [destruct (H3 _ _ E) as (sr & ? & ?); by exists l, h, sr|].
  unfold newSlotRing. destruct (Z.ltb_spec (slots h) 0); [lia|]. cbn.
  set (sr := {| counters := _ |}). set (l := fresh _).
  assert (Hsr : ring_wf sr) by (unfold ring_wf, ring_len; cbn; rewrite length_replicate; lia).
  eexists l, _, sr. split; [reflexivity|]. split; [|cbn; by rewrite lookup_insert_eq].
  destruct (usable_insert h l sr Hu Hsr) as (U1 & U2 & U3). split; [done|]. split; [done|].
  intros k l' Hk. cbn in *. apply lookup_insert_Some in Hk as [[_ <-]|[_ Hk]]; [|by eapply U3].
  exists sr. by rewrite lookup_insert_eq.
Qed.

Lemma RecordAccess_usable key now1 now2 h :
  usable h → ∃ b h', RecordAccess key now1 now2 h = Some (b, h') ∧ usable h'.
Proof.
  intros Hu. pose proof Hu as (H1 & H2 & _). unfold RecordAccess, slotInterval.
  destruct (Z.eqb_spec (slots h) 0); [lia|]. cbn.
  destruct (getOrCreate_usable key now1 h Hu) as (l & h1 & sr & -> & Hu1 & E1 & E2 & Hr & Hwf). cbn.
  destruct (with_ring_usable l (advance (wrap64 (windowSize h ÷ slots h)) now2) h1 sr) as (h2 & sr2 & E & Hu2 & Hr2 & Hwf2);
    [done..|by apply advance_wf|].
  unfold countAccess. rewrite E. cbn.
  destruct (with_ring_usable l inc h2 sr2) as (h3 & sr3 & -> & Hu3 & Hr3 & _);
    [done..|destruct (inc_view sr2 Hwf2) as (sr3 & ? & ? & _); by exists sr3|].
  cbn. rewrite Hr3. cbn. eexists _, _. split; [reflexivity|].
  destruct (_ <? _); [|exact Hu3]. destruct Hu3 as (U1 & U2 & U3). by split.
Qed.

(** ** The window, in terms of access times

    [G] lists, slot by slot, the access times that slot still counts; each
    access was made at most one interval after the tick that opened its
    slot, and a tick moves between one and two intervals per slot. *)

Definition slot_ok (interval L : Z) (j t : Z) : Prop :=
  ∃ b, b <= t < b + interval ∧ j * interval <= L - b <= 2 * j * interval.

Definition ghost_ok (interval : Z) (sr : slotRing) (G : list (list Z)) : Prop :=
  map (λ l, Z.of_nat (length l)) G = view sr ∧
  ∀ j l t, G !! j = Some l → t ∈ l → slot_ok interval (lastTick sr) (Z.of_nat j) t.

(** No longer counted: at least [n] slots behind. *)
Definition lost_ok (interval : Z) (sr : slotRing) (t : Z) : Prop :=
  ∃ b, b <= t < b + interval ∧ ring_len sr * interval <= lastTick sr - b.

Lemma lost_mono interval sr sr' t :
  ring_len sr' = ring_len sr → lastTick sr <= lastTick sr' →
  lost_ok interval sr t → lost_ok interval sr' t.
Proof. intros Hl Ht (b & ? & ?). exists b. rewrite Hl. split; [done|lia]. Qed.

Lemma quot_bounds e i : 0 <= e → 0 < i → (e ÷ i) * i <= e < (e ÷ i + 1) * i.
Proof.
  intros. rewrite Z.quot_div_nonneg by lia.
  pose proof (Z.mul_div_le e i). pose proof (Z.mul_succ_div_gt e i). lia.
Qed.

Lemma advance_ghost interval now sr G :
  ring_wf sr → 0 < interval → lastTick sr <= now → now - lastTick sr <= int64_max →
  ghost_ok interval sr G →
  ∃ sr' G' lost, advance interval now sr = Some sr' ∧ ring_wf sr' ∧
    ring_len sr' = ring_len sr ∧ lastTick sr <= lastTick sr' <= now ∧ now < lastTick sr' + interval ∧
    ghost_ok interval sr' G' ∧ concat G ≡ₚ concat G' ++ lost ∧ Forall (lost_ok interval sr') lost.
Proof.
  intros Hwf Hi Hnow Hrange [HG Hslots].
  destruct (advance_spec interval now sr Hwf Hi Hnow) as (sr' & Ha & W & N & H0 & L & V).
  cbn zeta in H0, L, V. remember (steps interval now sr) as k eqn:Ek.
  assert (Hts : time_sub now (lastTick sr) = now - lastTick sr).
  { apply time_sub_id. i64. }
  unfold steps in Ek. rewrite Hts in Ek.
  pose proof (quot_bounds (now - lastTick sr) interval ltac:(lia) Hi) as Hq.
  assert (HGl : length G = length (counters sr)).
  { rewrite <-view_length, <-HG. by rewrite length_map. }
  assert (HR : ring_len sr' = ring_len sr) by (unfold ring_len; by rewrite N).
  exists sr', (take (length (counters sr)) (replicate (Z.to_nat k) [] ++ G)),
    (concat (drop (length (counters sr)) (replicate (Z.to_nat k) [] ++ G))).
  assert (Hk : k = 0 → (now - lastTick sr) ÷ interval = 0) by (unfold ring_wf in Hwf; lia).
  assert (Hold : ∀ i l t, (replicate (Z.to_nat k) [] ++ G) !! i = Some l → t ∈ l →
    ∃ j, Z.of_nat i = k + Z.of_nat j ∧ G !! j = Some l).
  { intros i l t Hl Hin. apply lookup_app_Some in Hl as [Hl|[Hle Hl]].
    - apply lookup_replicate in Hl as [-> _]. by apply elem_of_nil in Hin.
    - rewrite length_replicate in *. exists (i - Z.to_nat k)%nat. split; [lia|done]. }
  split; [done|]. split; [done|]. split; [done|]. split; [|split; [|split; [split|split]]].
  - rewrite L. destruct (k =? 0); lia.
  - rewrite L. destruct (Z.eqb_spec k 0) as [E|]; [|lia]. rewrite (Hk E) in Hq. lia.
  - rewrite V, <-firstn_map, map_app, HG. f_equal. f_equal. clear. induction (Z.to_nat k); simpl; [done|by f_equal].
  - intros i l t Hl Hin. apply lookup_take_Some in Hl as [Hl Hlt].
    destruct (Hold i l t Hl Hin) as (j & Hj & HGj).
    destruct (Hslots j l t HGj Hin) as (b & Hb & Hb').
    exists b. split; [done|]. rewrite L, Hj. destruct (Z.eqb_spec k 0) as [E|]; [nia|].
    assert (k <= (now - lastTick sr) ÷ interval) by lia.
    assert (k = (now - lastTick sr) ÷ interval) as ->; [|nia]. unfold ring_len in *. lia.
  - rewrite <-concat_app, take_drop, concat_app.
    assert (concat (replicate (Z.to_nat k) (@nil Z)) = []) as ->; [|done].
    clear. induction (Z.to_nat k); simpl; congruence.
  - apply Forall_forall. intros t Hin. apply list_elem_of_In, in_concat in Hin as (l & Hl & Hin).
    apply list_elem_of_In in Hl, Hin. apply list_elem_of_lookup in Hl as [i Hl].
    rewrite lookup_drop in Hl. destruct (Hold _ l t Hl Hin) as (j & Hj & HGj).
    destruct (Hslots j l t HGj Hin) as (b & Hb & Hb').
    exists b. split; [done|]. rewrite HR, L. unfold ring_len in *.
    destruct (Z.eqb_spec k 0) as [E|]; [apply lookup_lt_Some in HGj; lia|].
    destruct (Z.le_gt_cases ((now - lastTick sr) ÷ interval) (Z.of_nat (length (counters sr))));
      nia.
Qed.

(** An access: advance, then count. *)
Definition ring_access (interval now : Z) (sr : slotRing) : option slotRing :=
  sr ← advance interval now sr; inc sr.

(** The ring has counted the accesses [ts], up to the slots it dropped. *)
Definition ring_inv (interval n : Z) (ts : list Z) (sr : slotRing) : Prop :=
  ring_wf sr ∧ ring_len sr = n ∧
  ∃ G lost, ghost_ok interval sr G ∧ ts ≡ₚ concat G ++ lost ∧ Forall (lost_ok interval sr) lost.

Lemma rev_replicate {A} (x : A) m : rev (replicate m x) = replicate m x.
Proof. induction m as [|m IH]; [done|]. simpl. by rewrite IH, <-replicate_cons_app. Qed.

Lemma new_ring_inv interval n t0 :
  1 <= n → ∃ sr, newSlotRing n t0 = Some sr ∧ lastTick sr = t0 ∧ ring_inv interval n [] sr.
Proof.
  intros Hn. unfold newSlotRing. destruct (Z.ltb_spec n 0); [lia|]. eexists.
  split; [done|]. split; [done|]. unfold ring_inv, ring_wf, ring_len; simpl.
  rewrite length_replicate. split; [lia|]. split; [lia|].
  exists (replicate (Z.to_nat n) []), []. split; [split|split; [|done]].
  - unfold view. simpl. change (Pos.to_nat 1) with 1%nat.
    destruct (Z.to_nat n) as [|m] eqn:E; [lia|]. simpl. f_equal. rewrite drop_0. clear.
    rewrite rev_replicate. by induction m; simpl; f_equal.
  - intros j l t Hl Hin. apply lookup_replicate in Hl as [-> _]. by apply elem_of_nil in Hin.
  - rewrite app_nil_r. clear. by induction (Z.to_nat n).
Qed.

Lemma ghost_total interval sr G : ghost_ok interval sr G → sumZ (view sr) = Z.of_nat (length (concat G)).
Proof.
  intros [<- _]. induction G as [|g G IH]; simpl; [done|]. rewrite length_app, IH. lia.
Qed.

Lemma ring_access_inv interval n ts t sr :
  ring_inv interval n ts sr → 0 < interval → lastTick sr <= t → t - lastTick sr <= int64_max →
  Z.of_nat (length ts) < int64_max →
  ∃ sr', ring_access interval t sr = Some sr' ∧ ring_inv interval n (ts ++ [t]) sr' ∧
    lastTick sr <= lastTick sr' <= t ∧ t < lastTick sr' + interval.
Proof.
  intros (Hwf & Hn & G & lost & HG & Hp & Hl) Hi Ht Hr Hlen.
  destruct (advance_ghost interval t sr G Hwf Hi Ht Hr HG)
    as (sr1 & G1 & lost1 & Ha & W1 & N1 & T1 & T1' & HG1 & Hp1 & Hl1).
  destruct (inc_view sr1 W1) as (sr2 & Hinc & W2 & T2 & N2 & x & v & Hv & Hv').
  exists sr2. unfold ring_access. rewrite Ha. simpl. rewrite Hinc.
  split; [done|]. rewrite T2. split; [|lia]. split; [done|].
  assert (HN2 : ring_len sr2 = ring_len sr1) by (unfold ring_len; by rewrite N2).
  split; [congruence|]. pose proof HG1 as [Hm Hs]. rewrite Hv in Hm.
  destruct G1 as [|g G1]; [done|]. simpl in Hm. injection Hm as Hx Hm.
  exists ((g ++ [t]) :: G1), (lost1 ++ lost). split; [split|split].
  - simpl. rewrite Hv', Hm, length_app. f_equal. simpl. rewrite <-Hx.
    rewrite Hp, Hp1 in Hlen. simpl in Hlen. rewrite !length_app in Hlen. rewrite wrap64_id by i64. lia.
  - rewrite T2. intros [|j] l u Hlu Hin; simpl in Hlu; [|by apply (Hs (S j) l u)].
    injection Hlu as <-. apply elem_of_app in Hin as [Hin|Hin]; [by apply (Hs 0%nat g u)|].
    apply list_elem_of_singleton in Hin as ->. exists (lastTick sr1). lia.
  - rewrite Hp, Hp1. simpl. rewrite <-!app_assoc. f_equiv.
    rewrite (app_assoc lost1), (app_assoc (concat G1)). apply Permutation_app_comm.
  - apply Forall_app. split.
    + eapply Forall_impl; [exact Hl1|]. intros u. apply lost_mono; [done|lia].
    + eapply Forall_impl; [exact Hl|]. intros u. apply lost_mono; [congruence|lia].
Qed.

(** How many of [ts] are at most [age] old at [now]. *)
Definition recent (now age : Z) (ts : list Z) : Z :=
  Z.of_nat (length (filter (λ t, now - t <= age) ts)).

Lemma filter_all {A} (P : A → Prop) `{!∀ x, Decision (P x)} l : Forall P l → filter P l = l.
Proof. induction 1; [done|]. rewrite filter_cons_True by done. by f_equal. Qed.

Lemma filter_none {A} (P : A → Prop) `{!∀ x, Decision (P x)} l : Forall (λ x, ¬ P x) l → filter P l = [].
Proof. induction 1; [done|]. by rewrite filter_cons_False. Qed.

(** The sum counts every access of the last [n-1] intervals and none older
    than [2n-1] intervals. *)
Lemma ring_sum_bounds interval n ts now sr :
  ring_inv interval n ts sr → 0 < interval → 1 <= n → lastTick sr <= now < lastTick sr + interval →
  Z.of_nat (length ts) <= int64_max →
  recent now ((n - 1) * interval) ts <= sum sr <= recent now ((2 * n - 1) * interval - 1) ts.
Proof.
  intros (Hwf & Hn & G & lost & HG & Hp & Hl) Hi Hn1 Hnow Hlen.
  assert (Hc : (length (concat G) <= length ts)%nat) by (rewrite Hp, length_app; lia).
  rewrite sum_view, (ghost_total _ _ _ HG), wrap64_id by i64.
  unfold recent. rewrite Hp, !filter_app, !length_app. destruct HG as [Hm Hs]. split.
  - rewrite (filter_none _ lost); [|eapply Forall_impl; [exact Hl|]].
    + pose proof (length_filter (λ t, now - t <= (n - 1) * interval) (concat G)). simpl. lia.
    + intros t (b & ? & ?). rewrite Hn in *. nia.
  - rewrite (filter_all _ (concat G)); [lia|]. apply Forall_forall. intros t Hin.
    apply list_elem_of_In, in_concat in Hin as (l & Hg & Hin).
    apply list_elem_of_In in Hg, Hin. apply list_elem_of_lookup in Hg as [j Hg].
    destruct (Hs j l t Hg Hin) as (b & ? & ?).
    assert (Z.of_nat j < n); [|nia].
    apply lookup_lt_Some in Hg. rewrite <-Hn. unfold ring_len. rewrite <-view_length, <-Hm, length_map. lia.
Qed.

(** ** Cleanup *)

(** Counters are private to their key and allocated. *)
Definition hk_wf (h : HotKeyDetector) : Prop :=
  (∀ k k' loc, keyCounters h !! k = Some loc → keyCounters h !! k' = Some loc → k = k') ∧
  ∀ k loc, keyCounters h !! k = Some loc → is_Some (rings h !! loc).

Definition cold_key (h : HotKeyDetector) (key : string) : bool :=
  match keyCounters h !! key with Some l => is_cold h l | None => false end.

Lemma elem_of_collect h key : key ∈ cleanup_collect h ↔ cold_key h key = true.
Proof.
  unfold cleanup_collect, cold_key. rewrite list_elem_of_bind. split.
  - intros (k & Hk & _). destruct (keyCounters h !! k) as [l|] eqn:E; [|by apply elem_of_nil in Hk].
    destruct (is_cold h l) eqn:Ec; [|by apply elem_of_nil in Hk].
    apply list_elem_of_singleton in Hk as ->. by rewrite E.
  - intros Hc. destruct (keyCounters h !! key) as [l|] eqn:E; [|done]. exists key.
    rewrite E, Hc. split; [by left|]. apply list_elem_of_fmap. exists (key, l).
    split; [done|]. by apply elem_of_map_to_list.
Qed.

Lemma cleanup_delete1_spec h key :
  let h' := cleanup_delete1 h key in
  rings h' = rings h ∧ threshold h' = threshold h ∧
  (∀ k, keyCounters h' !! k = if decide (k = key) then (if cold_key h key then None else keyCounters h !! k)
                             else keyCounters h !! k) ∧
  (∀ k, k ∈ hotKeys h' ↔ k ∈ hotKeys h ∧ ¬ (k = key ∧ cold_key h key = true)).
Proof.
  unfold cleanup_delete1, cold_key. destruct (keyCounters h !! key) as [l|] eqn:E.
  - destruct (is_cold h l) eqn:Ec; simpl.
    + split_and!; [done..| |set_solver]. intros k. case_decide as Hk.
      * subst. apply lookup_delete_eq.
      * by apply lookup_delete_ne.
    + split_and!; [done..| |naive_solver]. intros k. by case_decide.
  - simpl. split_and!; [done..| |naive_solver]. intros k. by case_decide.
Qed.

Lemma cold_key_same h h' k :
  rings h' = rings h → threshold h' = threshold h → keyCounters h' !! k = keyCounters h !! k →
  cold_key h' k = cold_key h k.
Proof. unfold cold_key, is_cold. by intros -> -> ->. Qed.

Lemma cleanup_delete_spec l h :
  let h' := cleanup_delete l h in
  rings h' = rings h ∧ threshold h' = threshold h ∧
  (∀ k, keyCounters h' !! k = if decide (k ∈ l ∧ cold_key h k = true) then None else keyCounters h !! k) ∧
  (∀ k, k ∈ hotKeys h' ↔ k ∈ hotKeys h ∧ ¬ (k ∈ l ∧ cold_key h k = true)).
Proof.
  revert h. induction l as [|key l IH]; intros h h'; subst h'.
  - split_and!; [done..| |set_solver]. intros k. case_decide as Hk; [set_solver|done].
  - cbn [cleanup_delete fold_left]. fold (cleanup_delete l (cleanup_delete1 h key)).
    destruct (cleanup_delete1_spec h key) as (R1 & T1 & K1 & S1).
    destruct (IH (cleanup_delete1 h key)) as (R & T & K & S). split_and!; [congruence..| |].
    + intros k. rewrite K. pose proof (cold_key_same h _ k R1 T1) as Hc. pose proof (K1 k) as K1k.
      destruct (decide (k = key)) as [->|Hne].
      * destruct (cold_key h key) eqn:Ec; [|rewrite Hc by done; rewrite K1k].
        -- rewrite K1k. rewrite (decide_True (P := key ∈ key :: l ∧ _)) by (split; [left|done]).
           by case_decide.
        -- rewrite !decide_False by naive_solver. done.
      * rewrite Hc, K1k by done. apply decide_ext. set_solver.
    + intros k. rewrite S, S1. pose proof (cold_key_same h _ k R1 T1) as Hc. pose proof (K1 k) as K1k.
      destruct (decide (k = key)) as [->|Hne]; [|rewrite Hc by done; set_solver].
      destruct (cold_key h key) eqn:Ec; [set_solver|]. rewrite Hc by done. set_solver.
Qed.

Lemma cleanup_spec h :
  let h' := cleanup h in
  rings h' = rings h ∧ threshold h' = threshold h ∧
  (∀ k, keyCounters h' !! k = if cold_key h k then None else keyCounters h !! k) ∧
  (∀ k, k ∈ hotKeys h' ↔ k ∈ hotKeys h ∧ cold_key h k = false).
Proof.
  unfold cleanup. destruct (cleanup_delete_spec (cleanup_collect h) h) as (R & T & K & S).
  assert (Hc : ∀ k, (k ∈ cleanup_collect h ∧ cold_key h k = true) ↔ cold_key h k = true).
  { intros k. rewrite elem_of_collect. tauto. }
  case_bool_decide as Hnil.
  - assert (Hcold : ∀ k, cold_key h k = false).
    { intros k. apply not_true_is_false. rewrite <-elem_of_collect, Hnil. apply not_elem_of_nil. }
    split_and!; [done..|intros k; by rewrite Hcold|intros k; rewrite Hcold; tauto].
  - split_and!; [done..| |].
    + intros k. rewrite K, (decide_ext _ _ _ _ (Hc k)). by destruct (cold_key h k).
    + intros k. rewrite S, Hc. by destruct (cold_key h k); intuition congruence.
Qed.

(** The configuration is left alone. *)
Lemma cleanup_delete_config l h :
  slots (cleanup_delete l h) = slots h ∧ windowSize (cleanup_delete l h) = windowSize h.
Proof.
  revert h. induction l as [|k l IH]; intros h; [done|]. destruct (IH (cleanup_delete1 h k)) as [E1 E2].
  unfold cleanup_delete in *. cbn [fold_left]. rewrite E1, E2. unfold cleanup_delete1. by repeat case_match.
Qed.

(** ** The detector's histories

    Accesses, and clean-ups between them: the write-locked phase of one, with
    whatever keys its read-locked phase had collected by then. *)

Record access := mkAccess { ac_key : string; ac_now1 : Z; ac_now2 : Z }.

Inductive hk_event := Accessed (a : access) | Swept (collected : list string).

Fixpoint record_all (l : list hk_event) (h : HotKeyDetector) : option HotKeyDetector :=
  match l with
  | [] => Some h
  | Accessed a :: l => '(_, h) ← RecordAccess (ac_key a) (ac_now1 a) (ac_now2 a) h; record_all l h
  | Swept collected :: l => record_all l (cleanup_delete collected h)
  end.

(** A whole clean-up is one of them. *)
Lemma cleanup_swept h : cleanup h = cleanup_delete (cleanup_collect h) h.
Proof. unfold cleanup. case_bool_decide as E; [by rewrite E|done]. Qed.

(** Nondecreasing clock readings within the range of a [Duration]. *)
Fixpoint ordered (t0 t : Z) (l : list hk_event) : Prop :=
  match l with
  | [] => True
  | Accessed a :: l => t <= ac_now1 a <= ac_now2 a ∧ ac_now2 a - t0 <= int64_max ∧ ordered t0 (ac_now2 a) l
  | Swept _ :: l => ordered t0 t l
  end.

Fixpoint last_time (t : Z) (l : list hk_event) : Z :=
  match l with [] => t | Accessed a :: l => last_time (ac_now2 a) l | Swept _ :: l => last_time t l end.

(** The instants at which [key] was counted. *)
Fixpoint times (key : string) (l : list hk_event) : list Z :=
  match l with
  | [] => []
  | Accessed a :: l => (if decide (ac_key a = key) then [ac_now2 a] else []) ++ times key l
  | Swept _ :: l => times key l
  end.

(** The clean-ups that had collected [key] after it was accessed within the
    last [age]: each of them may have thrown accesses of that time away. *)
Definition swept (key : string) (l : list hk_event) : Z :=
  sumZ (map (λ e, match e with Swept collected => if decide (key ∈ collected) then 1 else 0 | _ => 0 end) l).

Fixpoint forgetting (key : string) (now age : Z) (l : list hk_event) : Z :=
  match l with
  | [] => 0
  | Accessed a :: l =>
      if decide (ac_key a = key ∧ now - ac_now2 a <= age) then swept key l else forgetting key now age l
  | Swept _ :: l => forgetting key now age l
  end.

Lemma times_app key l l' : times key (l ++ l') = times key l ++ times key l'.
Proof. induction l as [|[a|c] l IH]; cbn; [done| |done]. by rewrite IH, app_assoc. Qed.

Lemma times_length key l : (length (times key l) <= length l)%nat.
Proof. induction l as [|[a|c] l IH]; cbn; [done| |lia]. rewrite length_app. case_decide; cbn; lia. Qed.

Lemma recent_app now age l l' : recent now age (l ++ l') = recent now age l + recent now age l'.
Proof. unfold recent. rewrite filter_app, length_app. lia. Qed.

Lemma recent_nonneg now age l : 0 <= recent now age l.
Proof. unfold recent. lia. Qed.

(** Later, fewer are recent. *)
Lemma recent_later now now' age l : now <= now' → recent now' age l <= recent now age l.
Proof.
  intros H. unfold recent. induction l as [|t l IH]; [done|]. rewrite !filter_cons. repeat case_decide; cbn; lia.
Qed.

Lemma swept_snoc key l e : swept key (l ++ [e]) = swept key l + swept key [e].
Proof. unfold swept. by rewrite map_app, sumZ_app. Qed.

Lemma forgetting_access key now age l a : forgetting key now age (l ++ [Accessed a]) = forgetting key now age l.
Proof.
  induction l as [|[b|c] l IH]; cbn [app forgetting]; [by case_decide| |done].
  case_decide; [|done]. rewrite swept_snoc. unfold swept at 2. cbn. lia.
Qed.

Lemma forgetting_sweep key now age l c :
  forgetting key now age (l ++ [Swept c]) =
    forgetting key now age l + (if decide (key ∈ c ∧ 0 < recent now age (times key l)) then 1 else 0).
Proof.
  induction l as [|[b|c'] l IH]; cbn [app forgetting times]; [| |exact IH].
  { rewrite decide_False; [done|]. intros [_ H]. by unfold recent in H. }
  rewrite recent_app. pose proof (recent_nonneg now age (times key l)).
  assert (recent now age (if decide (ac_key b = key) then [ac_now2 b] else []) =
    if decide (ac_key b = key ∧ now - ac_now2 b <= age) then 1 else 0) as ->.
  { unfold recent. destruct (decide (ac_key b = key)); [rewrite filter_cons|]; cbn [filter list_filter];
      repeat case_decide; cbn; tauto || lia. }
  destruct (decide (ac_key b = key ∧ now - ac_now2 b <= age)) as [Hk|Hk]; [|by rewrite IH].
  rewrite swept_snoc. f_equal. unfold swept. cbn.
  destruct (decide (key ∈ c)); [rewrite decide_True by (split; [done|lia]); lia|by rewrite decide_False by tauto].
Qed.

Section detector.
#[local] Set Default Proof Using "All".
Context (n interval thr t0 : Z) (Hn : 1 <= n) (Hi : 0 < interval).

#[local] Abbreviation window := ((n - 1) * interval).

(** The most a clean-up throws away of a key. *)
Definition cold : Z := Z.max 0 (Z.quot thr 10).

(** A ring that has counted the accesses [kept], the last at [u]. *)
Definition ring_kept (now : Z) (kept : list Z) (sr : slotRing) : Prop :=
  ring_inv interval n kept sr ∧ t0 <= lastTick sr <= now ∧
  (kept = [] ∨ ∃ u, u <= now ∧ lastTick sr <= u < lastTick sr + interval).

(** The counters of a key after the history [l], last read at [now]: of the
    accesses made, those [gone] went with a ring that was thrown away. *)
Definition key_inv (now : Z) (l : list hk_event) (h : HotKeyDetector) (key : string) : Prop :=
  ∃ gone kept, times key l = gone ++ kept ∧
    (∀ T, now <= T → recent T window gone <= forgetting key T window l * cold) ∧
    match keyCounters h !! key with
    | None => kept = []
    | Some loc => ∃ sr, rings h !! loc = Some sr ∧ ring_kept now kept sr
    end.

Definition det_inv (now : Z) (l : list hk_event) (h : HotKeyDetector) : Prop :=
  slotInterval h = Some interval ∧ slots h = n ∧ threshold h = thr ∧
  (∀ key, key_inv now l h key) ∧
  (∀ k k' loc, keyCounters h !! k = Some loc → keyCounters h !! k' = Some loc → k = k').

Lemma ring_kept_later now now' kept sr : now <= now' → ring_kept now kept sr → ring_kept now' kept sr.
Proof.
  intros H (H1 & H2 & H3). split; [done|]. split; [lia|]. destruct H3 as [|(u & ? & ?)]; [by left|right]. exists u. lia.
Qed.

(** What was kept and is recent is in the ring's sum. *)
Lemma ring_kept_sum now T kept sr :
  ring_kept now kept sr → now <= T → Z.of_nat (length kept) <= int64_max → recent T window kept <= Z.max 0 (sum sr).
Proof.
  intros (H1 & _ & [->|(u & Hu & Hlt)]) HT Hlen; [unfold recent; cbn; lia|].
  destruct (ring_sum_bounds _ _ _ u _ H1 Hi Hn Hlt Hlen) as [B _]. pose proof (recent_later u T window kept). lia.
Qed.

Lemma key_inv_later now now' l h key : now <= now' → key_inv now l h key → key_inv now' l h key.
Proof.
  intros H (gone & kept & H1 & H2 & H3). exists gone, kept. split; [done|]. split; [intros; apply H2; lia|].
  destruct (keyCounters h !! key); [|done]. destruct H3 as (sr & ? & ?). exists sr. split; [done|]. by eapply ring_kept_later.
Qed.

(** A found or created counter belongs to the key alone. *)
Lemma getOrCreate_inv key now now1 l h :
  det_inv now l h → now <= now1 → t0 <= now1 →
  ∃ loc h', getOrCreate key now1 h = Some (loc, h') ∧
    keyCounters h' !! key = Some loc ∧ hotKeys h' = hotKeys h ∧ det_inv now1 l h'.
Proof.
  intros (H1 & H2 & H3 & Hk & Hinj) Hnow Ht0. unfold getOrCreate.
  destruct (keyCounters h !! key) as [loc|] eqn:E.
  { exists loc, h. split_and?; try done. unfold det_inv. split_and?; try done. intros k. by apply (key_inv_later now). }
  rewrite H2. destruct (new_ring_inv interval n now1 Hn) as (sr & -> & Ht & Hsr). simpl.
  set (loc := fresh (dom (rings h))).
  assert (Hf : rings h !! loc = None) by (apply not_elem_of_dom, is_fresh).
  assert (Hnew : ∀ k, keyCounters h !! k ≠ Some loc).
  { intros k Hkl. destruct (Hk k) as (gone & kept & _ & _ & Hx). rewrite Hkl in Hx. destruct Hx as (? & ? & _). congruence. }
  eexists loc, _. split; [done|]. simpl. rewrite lookup_insert_eq. split_and?; [done..|].
  unfold det_inv. split_and?; try done; simpl.
  - intros k. destruct (key_inv_later now now1 l h k Hnow (Hk k)) as (gone & kept & G1 & G2 & G3).
    exists gone, kept. split; [done|]. split; [done|]. simpl. destruct (decide (k = key)) as [->|Hne].
    + rewrite lookup_insert_eq. rewrite E in G3. subst kept. exists sr. rewrite lookup_insert_eq. split; [done|].
      split; [done|]. split; [lia|by left].
    + rewrite lookup_insert_ne by done. destruct (keyCounters h !! k) eqn:Ek; [|done].
      destruct G3 as (sr' & ? & ?). exists sr'. rewrite lookup_insert_ne by congruence. done.
  - intros k k' loc' E1 E2. clearbody loc.
    apply lookup_insert_Some in E1 as [[<- <-]|[N1 E1]], E2 as [[<- E2]|[N2 E2]];
      [done|by apply Hnew in E2|subst loc'; by apply Hnew in E1|by apply (Hinj k k' loc')].
Qed.

(** What the answer of an access reports: the sum of a ring that has counted
    it, and all but what is gone. *)
Definition reports (key : string) (now : Z) (l : list hk_event) (b : bool) : Prop :=
  ∃ sr gone kept, times key l = gone ++ kept ∧ ring_inv interval n (kept ++ [now]) sr ∧
    lastTick sr <= now < lastTick sr + interval ∧ b = (thr <? sum sr) ∧
    recent now window gone <= forgetting key now window l * cold.

Lemma countAccess_inv key loc now1 now2 l h :
  det_inv now1 l h → keyCounters h !! key = Some loc → now1 <= now2 → now2 - t0 <= int64_max →
  Z.of_nat (length l) < int64_max →
  ∃ b h', countAccess key loc interval now2 h = Some (b, h') ∧
    det_inv now2 (l ++ [Accessed (mkAccess key now1 now2)]) h' ∧ reports key now2 l b ∧
    hotKeys h' = (if b then {[key]} ∪ hotKeys h else hotKeys h).
Proof.
  intros (H1 & H2 & H3 & Hk & Hinj) Hkey Hnow Hr Hlen.
  destruct (Hk key) as (gone & kept & Ets & Hgone & Hself). rewrite Hkey in Hself.
  destruct Hself as (sr & Hs & Hsr & Ht & _).
  assert (Hkl : Z.of_nat (length kept) < int64_max).
  { pose proof (times_length key l) as Hl. rewrite Ets, length_app in Hl. lia. }
  destruct (ring_access_inv interval n kept now2 sr Hsr Hi) as (sr' & Ha & Hsr' & T1 & T2); [lia|lia|lia|].
  unfold ring_access in Ha. destruct (advance interval now2 sr) as [sr1|] eqn:Eadv; [|done].
  simpl in Ha. unfold countAccess, with_ring. rewrite Hs. simpl. rewrite Eadv. simpl.
  rewrite lookup_insert_eq. simpl. rewrite Ha. simpl. rewrite insert_insert_eq, lookup_insert_eq. simpl.
  exists (threshold h <? sum sr'). eexists. split; [done|]. split; [|split; [|by destruct (threshold h <? sum sr')]].
  2:{ exists sr', gone, kept. split; [done|]. split; [done|]. split; [lia|]. split; [by rewrite H3|]. apply Hgone. lia. }
  assert (Hgoal : det_inv now2 (l ++ [Accessed (mkAccess key now1 now2)]) (h <| rings ::= <[loc := sr']> |>)).
  { unfold det_inv. split_and?; try done. intros k. destruct (decide (key = k)) as [<-|Hne].
    - exists gone, (kept ++ [now2]). rewrite times_app, Ets, <-app_assoc. cbn. rewrite decide_True by done.
      split; [done|]. split; [intros T HT; rewrite forgetting_access; apply Hgone; lia|]. rewrite Hkey. exists sr'.
      rewrite lookup_insert_eq. split; [done|]. split; [done|]. split; [lia|]. right. exists now2. lia.
    - destruct (key_inv_later now1 now2 l h k Hnow (Hk k)) as (gone' & kept' & G1 & G2 & G3). exists gone', kept'.
      rewrite times_app. cbn. rewrite decide_False, app_nil_r by done. split; [done|].
      split; [intros T HT; rewrite forgetting_access; by apply G2|].
      destruct (keyCounters h !! k) as [loc'|] eqn:Ek; [|done]. destruct G3 as (s & ? & ?). exists s.
      rewrite lookup_insert_ne by (intros <-; apply Hne; by eapply Hinj). done. }
  destruct (threshold h <? sum sr'); [|exact Hgoal].
  destruct Hgoal as (? & ? & ? & G1 & G2). unfold det_inv. by split_and?.
Qed.

Lemma RecordAccess_inv a now l h :
  det_inv now l h → now <= ac_now1 a <= ac_now2 a → t0 <= now → ac_now2 a - t0 <= int64_max →
  Z.of_nat (length l) < int64_max →
  ∃ b h', RecordAccess (ac_key a) (ac_now1 a) (ac_now2 a) h = Some (b, h') ∧
    det_inv (ac_now2 a) (l ++ [Accessed a]) h' ∧ reports (ac_key a) (ac_now2 a) l b ∧
    hotKeys h' = (if b then {[ac_key a]} ∪ hotKeys h else hotKeys h).
Proof.
  intros Hd Hnow Ht0 Hr Hlen. unfold RecordAccess. rewrite (proj1 Hd). simpl.
  destruct (getOrCreate_inv (ac_key a) now (ac_now1 a) l h Hd) as (loc & h1 & -> & Hk & Hhot & Hd1); [lia|lia|]. simpl.
  destruct (countAccess_inv (ac_key a) loc (ac_now1 a) (ac_now2 a) l h1 Hd1 Hk) as (b & h' & Hc & Hd' & Hb & Hh); [lia..|].
  exists b, h'. rewrite <-Hhot. by destruct a as [k n1 n2].
Qed.

(** A clean-up throws away rings with at most [cold] on them. *)
Lemma cleanup_inv collected now l h :
  det_inv now l h → Z.of_nat (length l) <= int64_max → det_inv now (l ++ [Swept collected]) (cleanup_delete collected h).
Proof.
  intros (H1 & H2 & H3 & Hk & Hinj) Hlen. destruct (cleanup_delete_spec collected h) as (R & T & K & _).
  destruct (cleanup_delete_config collected h) as [C1 C2]. split; [unfold slotInterval; by rewrite C1, C2|].
  split; [congruence|]. split; [congruence|]. split.
  - intros key. destruct (Hk key) as (gone & kept & Ets & Hgone & Hself).
    assert (Hmono : ∀ T, forgetting key T window l * cold <= forgetting key T window (l ++ [Swept collected]) * cold).
    { intros T'. rewrite forgetting_sweep. unfold cold. case_decide; lia. }
    unfold key_inv. rewrite K. case_decide as Hx.
    + destruct Hx as [Hin Hcold]. unfold cold_key, is_cold in Hcold. destruct (keyCounters h !! key) as [loc|] eqn:Ek; [|done].
      destruct Hself as (sr & Hs & Hkept). rewrite Hs in Hcold. apply Z.leb_le in Hcold. rewrite H3 in Hcold.
      exists (gone ++ kept), []. rewrite times_app, Ets. cbn. rewrite !app_nil_r. split; [done|]. split; [|done].
      intros T' HT. rewrite recent_app, forgetting_sweep, Ets, recent_app. specialize (Hgone T' HT).
      pose proof (recent_nonneg T' window kept). pose proof (recent_nonneg T' window gone).
      assert (Hb : recent T' window kept <= cold).
      { pose proof (times_length key l) as Hl. rewrite Ets, length_app in Hl.
        pose proof (ring_kept_sum now T' kept sr Hkept HT ltac:(lia)). unfold cold. lia. }
      case_decide as Hd; [lia|]. assert (recent T' window kept = 0); [|lia].
      destruct (decide (0 < recent T' window kept)); [|lia]. exfalso. apply Hd. split; [done|lia].
    + exists gone, kept. rewrite times_app. cbn. rewrite app_nil_r, R. split; [done|]. split; [|done].
      intros T' HT. specialize (Hgone T' HT). specialize (Hmono T'). lia.
  - intros k k' loc. rewrite !K. repeat case_decide; try done. apply Hinj.
Qed.

Lemma record_all_inv l : ∀ h0 now hist,
  det_inv now hist h0 → ordered t0 now l → t0 <= now →
  Z.of_nat (length hist + length l) <= int64_max →
  ∃ h, record_all l h0 = Some h ∧ det_inv (last_time now l) (hist ++ l) h ∧ t0 <= last_time now l.
Proof.
  induction l as [|[a|c] l IH]; intros h0 now hist Hd Ho Ht Hlen; simpl.
  - exists h0. by rewrite app_nil_r.
  - destruct Ho as (H1 & H2 & Ho). simpl in Hlen.
    destruct (RecordAccess_inv a now hist h0 Hd H1 Ht H2) as (b & h1 & -> & Hd1 & _); [lia|].
    simpl. destruct (IH h1 (ac_now2 a) (hist ++ [Accessed a]) Hd1 Ho) as (h & Hh & Hd2 & Ht2);
      [lia|rewrite length_app; simpl; lia|].
    exists h. rewrite <-app_assoc in Hd2. done.
  - simpl in Hlen. pose proof (cleanup_inv c now hist h0 Hd ltac:(lia)) as Hd1.
    destruct (IH _ now (hist ++ [Swept c]) Hd1 Ho Ht) as (h & Hh & Hd2 & Ht2); [rewrite length_app; simpl; lia|].
    exists h. rewrite <-app_assoc in Hd2. done.
Qed.

End detector.

(** What other goroutines do while a key is left alone. *)
Inductive idle_step (key : string) (h : HotKeyDetector) : HotKeyDetector → Prop :=
| idle_cleanup : idle_step key h (cleanup h)
| idle_access k now1 now2 b h' :
    k ≠ key → RecordAccess k now1 now2 h = Some (b, h') → idle_step key h h'.

(** An idle key that is hot, over a tenth of the threshold by its last count. *)
Definition hot_idle (key : string) (h : HotKeyDetector) : Prop :=
  hk_wf h ∧ key ∈ hotKeys h ∧ ∃ loc sr,
    keyCounters h !! key = Some loc ∧ rings h !! loc = Some sr ∧ Z.quot (threshold h) 10 < sum sr.

Lemma with_ring_Some l f h h' :
  with_ring l f h = Some h' → ∃ sr, h' = h <| rings ::= <[l := sr]> |>.
Proof.
  unfold with_ring. destruct (rings h !! l) as [sr|]; [|done]. simpl.
  destruct (f sr) as [sr'|]; [|done]. simpl. intros [= <-]. by exists sr'.
Qed.

(** Only [Stop] closes the channel. *)
Lemma RecordAccess_stopped key now1 now2 h b h' :
  RecordAccess key now1 now2 h = Some (b, h') → stopped h' = stopped h.
Proof.
  unfold RecordAccess. destruct (slotInterval h) as [interval|]; [|done]. simpl.
  destruct (getOrCreate key now1 h) as [[l h1]|] eqn:E1; [|done]. simpl. unfold countAccess.
  destruct (with_ring l (advance interval now2) h1) as [h2|] eqn:E2; [|done]. simpl.
  destruct (with_ring l inc h2) as [h3|] eqn:E3; [|done]. simpl.
  destruct (rings h3 !! l) as [sr|]; [|done]. simpl. intros [= _ <-].
  apply with_ring_Some in E2 as [s2 ->]. apply with_ring_Some in E3 as [s3 ->].
  assert (E : stopped h1 = stopped h).
  { unfold getOrCreate in E1. destruct (keyCounters h !! key); [by injection E1 as _ <-|].
    destruct (newSlotRing (slots h) now1); [|done]. by injection E1 as _ <-. }
  rewrite <-E. by destruct (_ <? _).
Qed.

Lemma cleanup_usable h : usable h → usable (cleanup h).
Proof.
  intros Hu. destruct (cleanup_spec h) as (R & _ & K & _).
  assert (Hs : slots (cleanup h) = slots h ∧ windowSize (cleanup h) = windowSize h)
    by (rewrite cleanup_swept; apply cleanup_delete_config).
  destruct Hu as (H1 & H2 & H3), Hs as [E1 E2]. split; [by rewrite E1|]. split; [by rewrite E1, E2|].
  intros key l. rewrite K, R. destruct (cold_key h key); [done|]. apply H3.
Qed.

Lemma cleanup_stopped h : stopped (cleanup h) = stopped h.
Proof.
  assert (Hd : ∀ l h, stopped (cleanup_delete l h) = stopped h).
  { induction l as [|k l IH]; intros h'; [done|]. etransitivity; [apply IH|]. unfold cleanup_delete1. by repeat case_match. }
  unfold cleanup. case_bool_decide; [done|apply Hd].
Qed.

(** Obtaining one key's counter leaves every other key's alone. *)
Lemma getOrCreate_frame k now h l h1 key loc sr :
  hk_wf h → getOrCreate k now h = Some (l, h1) → k ≠ key →
  keyCounters h !! key = Some loc → rings h !! loc = Some sr →
  hk_wf h1 ∧ hotKeys h1 = hotKeys h ∧ threshold h1 = threshold h ∧
  keyCounters h1 !! key = Some loc ∧ rings h1 !! loc = Some sr ∧ l ≠ loc.
Proof.
  intros [Hinj Hall] Eg Hne Hk Hr. unfold getOrCreate in Eg.
  destruct (keyCounters h !! k) as [lk|] eqn:Ek.
  { injection Eg as <- <-. split_and!; try done. intros ->. apply Hne. by eapply Hinj. }
  destruct (newSlotRing (slots h) now) as [nr|]; [|done]. simpl in Eg.
  injection Eg as <- <-. set (l := fresh (dom (rings h))).
  assert (Hf : rings h !! l = None) by (apply not_elem_of_dom, is_fresh).
  assert (Hnew : ∀ q, keyCounters h !! q ≠ Some l).
  { intros q Hq. destruct (Hall q l Hq) as [? ?]. congruence. }
  clearbody l. simpl. split; [split|split_and!]; try done; simpl.
  - intros q q' loc' E1 E2.
    apply lookup_insert_Some in E1 as [[<- <-]|[N1 E1]], E2 as [[<- E2]|[N2 E2]];
      [done|by apply Hnew in E2|subst loc'; by apply Hnew in E1|by apply (Hinj q q' loc')].
  - intros q loc' E1. apply lookup_insert_Some in E1 as [[<- <-]|[N1 E1]].
    + rewrite lookup_insert_eq. by eexists.
    + rewrite lookup_insert_ne by (intros <-; by apply Hnew in E1). by eapply Hall.
  - by rewrite lookup_insert_ne.
  - by rewrite lookup_insert_ne by congruence.
  - congruence.
Qed.

Lemma idle_step_hot key h h' : idle_step key h h' → hot_idle key h → hot_idle key h'.
Proof.
  intros Hs ((Hinj & Hall) & Hhot & loc & sr & Hk & Hr & Hsum). destruct Hs as [|k now1 now2 b h' Hne Hrec].
  - destruct (cleanup_spec h) as (R & T & K & S).
    assert (Hc : cold_key h key = false).
    { unfold cold_key, is_cold. rewrite Hk, Hr. apply Z.leb_gt. lia. }
    split; [split|split].
    + intros k k' l. rewrite !K. repeat case_match; try done. apply Hinj.
    + intros k l. rewrite K, R. case_match; [done|]. apply Hall.
    + by rewrite S.
    + exists loc, sr. by rewrite K, R, T, Hc.
  - unfold RecordAccess in Hrec. destruct (slotInterval h) as [i|]; [|done]. simpl in Hrec.
    destruct (getOrCreate k now1 h) as [[l h1]|] eqn:Eg; [|done]. simpl in Hrec.
    destruct (getOrCreate_frame _ _ _ _ _ key loc sr (conj Hinj Hall) Eg Hne Hk Hr)
      as ([Hinj1 Hall1] & Hh1 & T1 & K1 & R1 & Hl).
    unfold countAccess in Hrec. destruct (with_ring l (advance i now2) h1) as [h2|] eqn:E2; [|done].
    simpl in Hrec. destruct (with_ring l inc h2) as [h3|] eqn:E3; [|done]. simpl in Hrec.
    apply with_ring_Some in E2 as [s2 ->]. apply with_ring_Some in E3 as [s3 ->]. simpl in Hrec.
    rewrite insert_insert_eq, lookup_insert_eq in Hrec. simpl in Hrec. injection Hrec as _ <-.
    set (h4 := if _ <? _ then _ else _).
    assert (H4 : rings h4 = <[l := s3]> (rings h1) ∧ keyCounters h4 = keyCounters h1 ∧
      threshold h4 = threshold h1 ∧ hotKeys h1 ⊆ hotKeys h4).
    { subst h4. destruct (threshold h1 <? sum s3); simpl; rewrite ?insert_insert_eq; split_and!; try done; set_solver. }
    clearbody h4. destruct H4 as (R4 & K4 & T4 & S4). split; [split|split].
    + by rewrite K4.
    + intros q loc'. rewrite K4, R4. intros Hq. destruct (decide (loc' = l)) as [->|].
      * rewrite lookup_insert_eq. by eexists.
      * rewrite lookup_insert_ne by done. by eapply Hall1.
    + apply S4. by rewrite Hh1.
    + exists loc, sr. rewrite K4, R4, T4, T1, lookup_insert_ne by done. done.
Qed.

Lemma new_det_inv w s thr interval t0 :
  slotInterval (NewHotKeyDetector w s thr) = Some interval →
  det_inv s interval thr t0 t0 [] (NewHotKeyDetector w s thr).
Proof.
  intros H. unfold det_inv. split_and?; try done. intros key. exists [], []. split; [done|]. split; [|done].
  intros T _. unfold recent. cbn. lia.
Qed.

(** ** Properties *)

(** C14: Detection is right up to one slot and to what clean-ups throw away:
    after any history of accesses with nondecreasing clock readings on a new
    detector, with clean-ups of any collected keys between them, an access is
    answered, never a panic.  It is reported hot when the key was accessed
    within the last [slots - 1] intervals more than [threshold] times, plus a
    tenth of the threshold for each clean-up that had collected the key after
    an access of that time; not hot when it was accessed at most [threshold]
    times within the last [2 slots - 1] intervals; [IsHot] remembers a hot
    answer and leaves the other keys' flags.  Each access is one step here,
    and so is each clean-up's locked deletion. *)
Theorem hot_detection w s thr interval t0 l a :
  1 <= s → 0 < interval → slotInterval (NewHotKeyDetector w s thr) = Some interval →
  ordered t0 t0 (l ++ [Accessed a]) → Z.of_nat (length l) < int64_max →
  ∃ h b h', record_all l (NewHotKeyDetector w s thr) = Some h ∧
    RecordAccess (ac_key a) (ac_now1 a) (ac_now2 a) h = Some (b, h') ∧
    let ts := times (ac_key a) (l ++ [Accessed a]) in
    let window := (s - 1) * interval in
    (thr + forgetting (ac_key a) (ac_now2 a) window l * Z.max 0 (Z.quot thr 10) < recent (ac_now2 a) window ts → b = true) ∧
    (recent (ac_now2 a) ((2 * s - 1) * interval - 1) ts <= thr → b = false) ∧
    ∀ k, IsHot k h' = (bool_decide (k = ac_key a) && b) || IsHot k h.
Proof.
  intros Hs Hi Hint Ho Hlen.
  assert (Hsplit : ∀ l t, ordered t0 t (l ++ [Accessed a]) → ordered t0 t l ∧
    last_time t l <= ac_now1 a <= ac_now2 a ∧ ac_now2 a - t0 <= int64_max).
  { clear. induction l as [|[b|c] l IH]; intros t; simpl; [tauto| |apply IH].
    intros (? & ? & H). destruct (IH _ H) as (? & ? & ?). tauto. }
  destruct (Hsplit l t0 Ho) as (Ho1 & Ha & Hr).
  destruct (record_all_inv s interval thr t0 Hs Hi l _ t0 [] (new_det_inv w s thr interval t0 Hint) Ho1)
    as (h & Hh & Hd & Ht); [lia|simpl; lia|].
  destruct (RecordAccess_inv s interval thr t0 Hs Hi a _ l h Hd Ha Ht Hr Hlen)
    as (b & h' & Hrec & _ & (sr & gone & kept & Ets & Hsr & Hlt & Hb & Hgone) & Hhot).
  exists h, b, h'. split; [done|]. split; [done|]. cbv zeta.
  rewrite times_app, Ets. cbn. rewrite decide_True, <-app_assoc by done. cbn.
  destruct (ring_sum_bounds _ _ _ _ _ Hsr Hi Hs Hlt) as [B1 B2].
  { pose proof (times_length (ac_key a) l) as Hl. rewrite Ets, length_app in Hl. rewrite length_app. simpl. lia. }
  rewrite !(recent_app _ _ gone). pose proof (recent_nonneg (ac_now2 a) ((2 * s - 1) * interval - 1) gone).
  unfold cold in Hgone. subst b. split; [|split].
  - intros H'. apply Z.ltb_lt. lia.
  - intros H'. apply Z.ltb_ge. lia.
  - intros k. unfold IsHot. rewrite Hhot. destruct (thr <? sum sr).
    + rewrite andb_true_r, <-bool_decide_or. apply bool_decide_ext. set_solver.
    + by rewrite andb_false_r.
Qed.

(** [cleanup] removes exactly the keys whose stored sum is at most a
    tenth of the threshold, together with their hot flag, and nothing else:
    the unlocked collection phase loses no cold key and the re-check deletes
    no other. *)
Theorem cleanup_exact h :
  ∀ key, IsHot key (cleanup h) = IsHot key h && negb (cold_key h key) ∧
    keyCounters (cleanup h) !! key = (if cold_key h key then None else keyCounters h !! key).
Proof.
  intros key. destruct (cleanup_spec h) as (_ & _ & K & S). split; [|apply K].
  unfold IsHot. rewrite (bool_decide_ext _ _ (S key)). destruct (cold_key h key).
  - rewrite andb_false_r. apply bool_decide_eq_false. naive_solver.
  - rewrite andb_true_r. apply bool_decide_ext. tauto.
Qed.

(** Hotness never decays on its own: [cleanup] reads a ring without
    advancing it, so once a key is hot and its traffic stops, no number of
    cleanups and no traffic on other keys ever clears its hot flag. *)
Theorem hot_key_never_expires key h h' :
  hk_wf h → IsHot key h = true →
  (∃ loc sr, keyCounters h !! key = Some loc ∧ rings h !! loc = Some sr ∧
     Z.quot (threshold h) 10 < sum sr) →
  rtc (idle_step key) h h' → IsHot key h' = true.
Proof.
  intros Hwf Hhot Hsum Hr. apply bool_decide_eq_true in Hhot.
  assert (H : hot_idle key h') by
    (eapply (rtc_invariant (idle_step key) (hot_idle key)); [eauto using idle_step_hot|done|by split]).
  apply bool_decide_eq_true, H.
Qed.

(** ** Witnesses *)

(** Threshold 20: two accesses, a clean-up that throws them away, and 22 more,
    of which the last is reported hot. *)
Definition demo_accesses : list hk_event :=
  replicate 2 (Accessed (mkAccess "order:1" (2 * Second) (2 * Second))) ++
  Swept ["order:1"] :: replicate 21 (Accessed (mkAccess "order:1" (3 * Second) (3 * Second))).

Lemma hot_detection_witness :
  ∃ h h', record_all demo_accesses (NewHotKeyDetector 10 5 20) = Some h ∧
    RecordAccess "order:1" (3 * Second) (3 * Second) h = Some (true, h').
Proof.
  destruct (hot_detection 10 5 20 (2 * Second) 0 demo_accesses
    (mkAccess "order:1" (3 * Second) (3 * Second))) as (h & b & h' & H1 & H2 & H3 & _).
  - lia.
  - unfold Second. lia.
  - reflexivity.
  - vm_compute. repeat split; discriminate.
  - vm_compute. reflexivity.
  - exists h, h'. rewrite H3 in H2; [|vm_compute; reflexivity]. split; [exact H1|exact H2].
Defined.

(** A key accessed 21 times within one slot, threshold 20. *)
Definition demo_hot : HotKeyDetector :=
  default (NewHotKeyDetector 10 5 20)
    (record_all (replicate 21 (Accessed (mkAccess "k" 0 0))) (NewHotKeyDetector 10 5 20)).

Lemma hot_key_never_expires_witness : IsHot "k" (cleanup (cleanup demo_hot)) = true.
Proof.
  apply (hot_key_never_expires "k" demo_hot).
  - assert (E : keyCounters demo_hot = {[ "k" := 1%positive ]}) by (vm_compute; reflexivity).
    split; intros k.
    + intros k' loc. rewrite E. intros H1 H2.
      apply lookup_singleton_Some in H1 as [<- _]. by apply lookup_singleton_Some in H2 as [<- _].
    + intros loc. rewrite E. intros [<- <-]%lookup_singleton_Some. vm_compute. by eexists.
  - vm_compute. reflexivity.
  - exists 1%positive. eexists. split; [vm_compute; reflexivity|].
    split; [vm_compute; reflexivity|vm_compute; reflexivity].
  - eapply rtc_l; [apply idle_cleanup|]. eapply rtc_l; [apply idle_cleanup|]. apply rtc_refl.
Defined.

End HK.
