(* ===== verification/Model.v ===== *)
(** * Data model and its JSON forms ([internal/model/models.go])

    The structs with their JSON tags, JSON values as a syntax tree, and the
    encoding and decoding of structs and of [interface{}] values against
    that tree.  The texts of floats, of instants and of whole documents
    belong to the codec class. *)

From S2P Require Export FloatOps Text.

(** ** JSON documents and dynamic values *)

Inductive json :=
| JNull
| JBool (b : bool)
| JNum (lit : string)
| JStr (s : string)
| JArr (l : list json)
| JObj (l : list (string * json)).

(** [model.Order] *)
Record Order := mkOrder {
  o_ID : Z; o_UserID : Z; o_OrderNo : string; o_Amount : float64;
  o_Status : string; o_CreatedAt : Z; o_UpdatedAt : Z
}.

#[export] Instance eta_Order : Etable Order := λ r,
  mkOrder (o_ID r) (o_UserID r) (o_OrderNo r) (o_Amount r) (o_Status r) (o_CreatedAt r) (o_UpdatedAt r).

(** [model.CreateOrderRequest] *)
Record CreateOrderRequest := mkCreateOrderRequest { cor_UserID : Z; cor_Amount : float64 }.

(** [model.UserProfile]; a nil slice of tags and an empty one are told apart. *)
Record UserProfile := mkProfile {
  p_ID : Z; p_UserID : Z; p_Nickname : string; p_Avatar : string; p_Email : string;
  p_Phone : string; p_Bio : string; p_Tags : option (list string);
  p_CreatedAt : Z; p_UpdatedAt : Z
}.

#[export] Instance eta_UserProfile : Etable UserProfile := λ r,
  mkProfile (p_ID r) (p_UserID r) (p_Nickname r) (p_Avatar r) (p_Email r) (p_Phone r)
    (p_Bio r) (p_Tags r) (p_CreatedAt r) (p_UpdatedAt r).

(** The dynamic types an [interface{}] of this program holds. *)
Inductive gval :=
| VNil
| VStr (s : string)
| VNum (f : float64)
| VBool (b : bool)
| VArr (l : list gval)
| VMap (l : list (string * gval))     (* map[string]interface{}, sorted by key *)
| VOrder (o : Order)                  (* *model.Order *)
| VProfile (p : UserProfile).         (* *model.UserProfile *)

(** [model.BusinessEvent] *)
Record BusinessEvent := mkEvent {
  e_EventID : string; e_EventType : string; e_Timestamp : Z; e_TraceID : string; e_Payload : gval
}.

#[export] Instance eta_BusinessEvent : Etable BusinessEvent := λ r,
  mkEvent (e_EventID r) (e_EventType r) (e_Timestamp r) (e_TraceID r) (e_Payload r).

(** [model.ApiResponse] *)
Record ApiResponse (D : Type) := mkResp {
  r_Code : Z; r_Message : string; r_Data : option D; r_TraceID : string
}.
Arguments mkResp {D}.
Arguments r_Code {D}.
Arguments r_Message {D}.
Arguments r_Data {D}.
Arguments r_TraceID {D}.

(** The authentication models. *)
Record User := mkUser {
  u_ID : Z; u_Username : string; u_PasswordHash : string; u_Email : string; u_Phone : string;
  u_Status : Z; u_LastLoginAt : option string; u_CreatedAt : string; u_UpdatedAt : string
}.

Record RegisterRequest := mkRegister {
  rr_Username : string; rr_Password : string; rr_Email : string; rr_Phone : string
}.

Record LoginRequest := mkLogin { lr_Username : string; lr_Password : string }.

Record TokenResponse := mkToken {
  t_AccessToken : string; t_TokenType : string; t_ExpiresIn : Z; t_UserID : Z; t_Username : string
}.

(** ** The codec

    The text of a float ([strconv.FormatFloat] as [encoding/json] uses it),
    of an instant (RFC 3339 with nanoseconds) and of a document; their laws
    are the documented ones of those packages, stated apart. *)

Definition f64_finite (f : float64) : bool :=
  match f with S754_zero _ | S754_finite _ _ _ => true | _ => false end.

Class Codec := {
  float_format : float64 → string;
  float_parse : string → option float64;
  time_format : Z → string;
  time_parse : string → option Z;
  time_valid : Z → bool;                (* the year has four digits *)
  time_rfc3339 : Z → string;            (* RFC 3339 without nanoseconds *)
  date_utc : Z → string;                (* the day, in UTC *)
  date_local : Z → string;              (* the day, in the local time zone *)
  date_parse : string → option Z;       (* the start of a day, in UTC *)
  add_days : Z → Z → Z;                 (* [AddDate(0, 0, n)], local time zone *)
  json_text : json → string;
  json_parse : string → option json;
  json_first : string → option json     (* the first value of a stream, the rest unread *)
}.

(** Strings are UTF-8 and the names of objects too. *)
Fixpoint json_wf (j : json) : bool :=
  match j with
  | JNull | JBool _ => true
  | JNum lit => utf8_valid lit
  | JStr s => utf8_valid s
  | JArr l => forallb json_wf l
  | JObj l => forallb (λ '(k, v), utf8_valid k && json_wf v) l
  end.

Class CodecLaws `{Codec} := {
  float_roundtrip : ∀ f, f64_finite f = true → float_parse (float_format f) = Some f;
  float_parse_int : ∀ n, 0 <= n < 2 ^ 64 → float_parse (show_N n) = Some (f64_of_Z n);
  float_format_int : ∀ n, 0 <= n <= 2 ^ 53 → float_format (f64_of_Z n) = show_N n;
  float_format_utf8 : ∀ f, utf8_valid (float_format f) = true;
  time_roundtrip : ∀ t, time_valid t = true → time_parse (time_format t) = Some t;
  time_format_utf8 : ∀ t, utf8_valid (time_format t) = true;
  json_roundtrip : ∀ j, json_wf j = true → json_parse (json_text j) = Some j;
  json_first_roundtrip : ∀ j, json_wf j = true → json_first (json_text j) = Some j;
  json_parse_bare : json_parse "__NULL__" = None;   (* a bare word is no document *)
  date_local_text : ∀ t, has "_"%char (date_local t) = false ∧ has "-"%char (date_local t) = true
}.

(** ** Encoding

    [None]: [json.Marshal] fails (NaN, infinities, years beyond 9999). *)

Definition is_some {A} (o : option A) : bool := match o with Some _ => true | None => false end.

(** [map] for a function that can fail. *)
Fixpoint mapM_list {A B} (f : A → option B) (l : list A) : option (list B) :=
  match l with
  | [] => Some []
  | x :: l => y ← f x; k ← mapM_list f l; Some (y :: k)
  end.

Section encode.
Context `{Codec}.

Definition enc_float (f : float64) : option json :=
  if f64_finite f then Some (JNum (float_format f)) else None.
Definition enc_uint (n : Z) : json := JNum (show_N n).
Definition enc_int (n : Z) : json := JNum (show_Z n).
Definition enc_time (t : Z) : option json :=
  if time_valid t then Some (JStr (time_format t)) else None.

Definition enc_order (o : Order) : option json :=
  amount ← enc_float (o_Amount o);
  created ← enc_time (o_CreatedAt o);
  updated ← enc_time (o_UpdatedAt o);
  Some (JObj [("id", enc_uint (o_ID o)); ("user_id", enc_uint (o_UserID o));
    ("order_no", JStr (o_OrderNo o)); ("amount", amount); ("status", JStr (o_Status o));
    ("created_at", created); ("updated_at", updated)]).

(** [omitempty] drops the empty string and the empty or nil slice. *)
Definition omit_str (k s : string) : list (string * json) :=
  if bool_decide (s = "") then [] else [(k, JStr s)].
Definition omit_tags (k : string) (l : option (list string)) : list (string * json) :=
  match l with
  | None | Some [] => []
  | Some l => [(k, JArr (map JStr l))]
  end.

Definition enc_profile (p : UserProfile) : option json :=
  created ← enc_time (p_CreatedAt p);
  updated ← enc_time (p_UpdatedAt p);
  Some (JObj ([("id", enc_uint (p_ID p)); ("user_id", enc_uint (p_UserID p));
    ("nickname", JStr (p_Nickname p)); ("avatar", JStr (p_Avatar p));
    ("email", JStr (p_Email p)); ("phone", JStr (p_Phone p))]
    ++ omit_str "bio" (p_Bio p) ++ omit_tags "tags" (p_Tags p) ++
    [("created_at", created); ("updated_at", updated)])).

Fixpoint enc_val (v : gval) : option json :=
  match v with
  | VNil => Some JNull
  | VStr s => Some (JStr s)
  | VNum f => enc_float f
  | VBool b => Some (JBool b)
  | VArr l => l ← mapM_list enc_val l; Some (JArr l)
  | VMap l => l ← mapM_list (λ '(k, v), j ← enc_val v; Some (k, j)) l; Some (JObj l)
  | VOrder o => enc_order o
  | VProfile p => enc_profile p
  end.

Definition enc_event (e : BusinessEvent) : option json :=
  payload ← enc_val (e_Payload e);
  Some (JObj [("event_id", JStr (e_EventID e)); ("event_type", JStr (e_EventType e));
    ("timestamp", enc_int (e_Timestamp e)); ("trace_id", JStr (e_TraceID e)); ("payload", payload)]).

(** ** Decoding

    A struct is decoded field by field in document order; names match
    without regard to ASCII case.  A value of the wrong kind leaves its
    field alone and is reported at the end, an unreadable instant stops the
    decoding; [null] is ignored. *)

Inductive field_res (S : Type) :=
| FOk (s : S)
| FSaved (msg : string)      (* UnmarshalTypeError *)
| FAbort (msg : string).
Arguments FOk {S}.
Arguments FSaved {S}.
Arguments FAbort {S}.

Fixpoint dec_fields {S} (field : string → json → S → field_res S)
    (l : list (string * json)) (s : S) (saved : option error) : S * option error :=
  match l with
  | [] => (s, saved)
  | (k, j) :: l =>
      match j with
      | JNull => dec_fields field l s saved
      | _ =>
          match field (toLower k) j s with
          | FOk s => dec_fields field l s saved
          | FSaved msg =>
              dec_fields field l s (match saved with None => Some (Errorf msg) | Some e => Some e end)
          | FAbort msg => (s, Some (Errorf msg))
          end
      end
  end.

Definition dec_struct {S} (name : string) (field : string → json → S → field_res S) (j : json) (s : S)
    : S * option error :=
  match j with
  | JNull => (s, None)
  | JObj l => dec_fields field l s None
  | _ => (s, Some (Errorf ("json: cannot unmarshal value into Go value of type " +:+ name)))
  end.

Definition type_error (field kind : string) : string :=
  "json: cannot unmarshal value into Go struct field " +:+ field +:+ " of type " +:+ kind.

Definition dec_uint {S} (field : string) (j : json) (put : Z → S) : field_res S :=
  match j with
  | JNum lit => match parse_uint lit with Some n => FOk (put n) | None => FSaved (type_error field "uint64") end
  | _ => FSaved (type_error field "uint64")
  end.

Definition parse_int (s : string) : option Z :=
  match s with
  | String "-" s => n ← parse_uint s; if n <=? 2 ^ 63 then Some (- n) else None
  | _ => n ← parse_uint s; if n <? 2 ^ 63 then Some n else None
  end.

Definition dec_int {S} (field : string) (j : json) (put : Z → S) : field_res S :=
  match j with
  | JNum lit => match parse_int lit with Some n => FOk (put n) | None => FSaved (type_error field "int64") end
  | _ => FSaved (type_error field "int64")
  end.

Definition dec_str {S} (field : string) (j : json) (put : string → S) : field_res S :=
  match j with JStr s => FOk (put s) | _ => FSaved (type_error field "string") end.

Definition dec_float {S} (field : string) (j : json) (put : float64 → S) : field_res S :=
  match j with
  | JNum lit => match float_parse lit with Some f => FOk (put f) | None => FSaved (type_error field "float64") end
  | _ => FSaved (type_error field "float64")
  end.

Definition dec_time {S} (j : json) (put : Z → S) : field_res S :=
  match j with
  | JStr s => match time_parse s with Some t => FOk (put t) | None => FAbort ("parsing time " +:+ s) end
  | _ => FAbort "Time.UnmarshalJSON: input is not a JSON string"
  end.

Definition order_field (k : string) (j : json) (o : Order) : field_res Order :=
  if bool_decide (k = "id") then dec_uint "Order.id" j (λ n, o <| o_ID := n |>)
  else if bool_decide (k = "user_id") then dec_uint "Order.user_id" j (λ n, o <| o_UserID := n |>)
  else if bool_decide (k = "order_no") then dec_str "Order.order_no" j (λ s, o <| o_OrderNo := s |>)
  else if bool_decide (k = "amount") then dec_float "Order.amount" j (λ f, o <| o_Amount := f |>)
  else if bool_decide (k = "status") then dec_str "Order.status" j (λ s, o <| o_Status := s |>)
  else if bool_decide (k = "created_at") then dec_time j (λ t, o <| o_CreatedAt := t |>)
  else if bool_decide (k = "updated_at") then dec_time j (λ t, o <| o_UpdatedAt := t |>)
  else FOk o.

Definition zero_time : Z := -62135596800 * Second.
Definition zero_Order : Order := mkOrder 0 0 "" f64_zero "" zero_time zero_time.
Definition zero_Profile : UserProfile :=
  mkProfile 0 0 "" "" "" "" "" None zero_time zero_time.

Definition dec_order (j : json) : Order * option error := dec_struct "model.Order" order_field j zero_Order.

Definition dec_tags {S} (j : json) (put : option (list string) → S) : field_res S :=
  match j with
  | JArr l =>
      match mapM_list (λ j, match j with JStr s => Some s | JNull => Some "" | _ => None end) l with
      | Some l => FOk (put (Some l))
      | None => FSaved (type_error "UserProfile.tags" "string")
      end
  | _ => FSaved (type_error "UserProfile.tags" "[]string")
  end.

Definition profile_field (k : string) (j : json) (p : UserProfile) : field_res UserProfile :=
  if bool_decide (k = "id") then dec_uint "UserProfile.id" j (λ n, p <| p_ID := n |>)
  else if bool_decide (k = "user_id") then dec_uint "UserProfile.user_id" j (λ n, p <| p_UserID := n |>)
  else if bool_decide (k = "nickname") then dec_str "UserProfile.nickname" j (λ s, p <| p_Nickname := s |>)
  else if bool_decide (k = "avatar") then dec_str "UserProfile.avatar" j (λ s, p <| p_Avatar := s |>)
  else if bool_decide (k = "email") then dec_str "UserProfile.email" j (λ s, p <| p_Email := s |>)
  else if bool_decide (k = "phone") then dec_str "UserProfile.phone" j (λ s, p <| p_Phone := s |>)
  else if bool_decide (k = "bio") then dec_str "UserProfile.bio" j (λ s, p <| p_Bio := s |>)
  else if bool_decide (k = "tags") then dec_tags j (λ l, p <| p_Tags := l |>)
  else if bool_decide (k = "created_at") then dec_time j (λ t, p <| p_CreatedAt := t |>)
  else if bool_decide (k = "updated_at") then dec_time j (λ t, p <| p_UpdatedAt := t |>)
  else FOk p.

Definition dec_profile (j : json) : UserProfile * option error :=
  dec_struct "model.UserProfile" profile_field j zero_Profile.

(** Decoding into an [interface{}]; insertion into a map replaces. *)
Fixpoint map_put (k : string) (v : gval) (l : list (string * gval)) : list (string * gval) :=
  match l with
  | [] => [(k, v)]
  | (k', v') :: l' =>
      match String.compare k k' with
      | Lt => (k, v) :: l
      | Eq => (k, v) :: l'
      | Gt => (k', v') :: map_put k v l'
      end
  end.

(** [None]: a number outside the range of float64. *)
Fixpoint dec_val (j : json) : option gval :=
  match j with
  | JNull => Some VNil
  | JBool b => Some (VBool b)
  | JNum lit => f ← float_parse lit; Some (VNum f)
  | JStr s => Some (VStr s)
  | JArr l => l ← mapM_list dec_val l; Some (VArr l)
  | JObj l =>
      l ← mapM_list (λ '(k, j), v ← dec_val j; Some (k, v)) l;
      Some (VMap (fold_left (λ m '(k, v), map_put k v m) l []))
  end.

Definition event_field (k : string) (j : json) (e : BusinessEvent) : field_res BusinessEvent :=
  if bool_decide (k = "event_id") then dec_str "BusinessEvent.event_id" j (λ s, e <| e_EventID := s |>)
  else if bool_decide (k = "event_type") then dec_str "BusinessEvent.event_type" j (λ s, e <| e_EventType := s |>)
  else if bool_decide (k = "timestamp") then dec_int "BusinessEvent.timestamp" j (λ n, e <| e_Timestamp := n |>)
  else if bool_decide (k = "trace_id") then dec_str "BusinessEvent.trace_id" j (λ s, e <| e_TraceID := s |>)
  else if bool_decide (k = "payload") then
    match dec_val j with
    | Some v => FOk (e <| e_Payload := v |>)
    | None => FSaved (type_error "BusinessEvent.payload" "float64")
    end
  else FOk e.

Definition zero_Event : BusinessEvent := mkEvent "" "" 0 "" VNil.

Definition dec_event (j : json) : BusinessEvent * option error :=
  dec_struct "model.BusinessEvent" event_field j zero_Event.

(** [json.Marshal] and [json.Unmarshal] on texts. *)
Definition Marshal (v : gval) : option string := json_text <$> enc_val v.
Definition MarshalEvent (e : BusinessEvent) : option string := json_text <$> enc_event e.

Definition syntax_error : error := Errorf "invalid character looking for beginning of value".

Definition Unmarshal {S} (dec : json → S * option error) (zero : S) (s : string) : S * option error :=
  match json_parse s with Some j => dec j | None => (zero, Some syntax_error) end.

(** [json.NewDecoder(r).Decode] *)
Definition Decode {S} (dec : json → S * option error) (zero : S) (s : string) : S * option error :=
  match json_first s with Some j => dec j | None => (zero, Some syntax_error) end.

(** [UserProfile.MarshalBinary] and [UnmarshalBinary]. *)
Definition MarshalBinary (p : UserProfile) : option string := Marshal (VProfile p).
Definition UnmarshalBinary (s : string) : UserProfile * option error := Unmarshal dec_profile zero_Profile s.

End encode.

Arguments FOk {S}.
Arguments FSaved {S}.
Arguments FAbort {S}.

(** ** Invariants of decoded values *)

Section decoded.
Context {S : Type} (P : S → Prop).

Definition keeps (f : field_res S) : Prop := match f with FOk s => P s | _ => True end.

Lemma dec_fields_keeps field l s saved :
  (∀ k j s, P s → keeps (field k j s)) → P s → P (dec_fields field l s saved).1.
Proof.
  intros Hf. revert s saved. induction l as [|[k j] l IH]; intros s saved Hs; [done|]. cbn [dec_fields].
  assert (H : P (match field (toLower k) j s with
    | FOk s => dec_fields field l s saved
    | FSaved msg => dec_fields field l s (match saved with None => Some (Errorf msg) | Some e => Some e end)
    | FAbort msg => (s, Some (Errorf msg)) end).1).
  { specialize (Hf (toLower k) j s Hs). destruct (field (toLower k) j s); [by apply IH|by apply IH|done]. }
  destruct j; [by apply IH|exact H..].
Qed.

Lemma dec_struct_keeps name field j s :
  (∀ k j s, P s → keeps (field k j s)) → P s → P (dec_struct name field j s).1.
Proof. intros Hf Hs. destruct j; try done. by apply dec_fields_keeps. Qed.

Lemma dec_uint_keeps field j put : (∀ n, 0 <= n < 2 ^ 64 → P (put n)) → keeps (dec_uint field j put).
Proof.
  intros Hp. destruct j as [| |lit| | |]; try done. cbn. destruct (parse_uint lit) eqn:E; [|done].
  by apply Hp, parse_uint_range with lit.
Qed.

Lemma dec_str_keeps field j put : (∀ s, P (put s)) → keeps (dec_str field j put).
Proof. intros Hp. destruct j; cbn; auto. Qed.

Lemma dec_float_keeps `{Codec} field j put : (∀ f, P (put f)) → keeps (dec_float field j put).
Proof. intros Hp. destruct j; try done. cbn. destruct (float_parse _); cbn; auto. Qed.

Lemma dec_time_keeps `{Codec} j put : (∀ t, P (put t)) → keeps (dec_time j put).
Proof. intros Hp. destruct j; try done. cbn. destruct (time_parse _); cbn; auto. Qed.

Lemma dec_tags_keeps j put : (∀ l, P (put l)) → keeps (dec_tags j put).
Proof. intros Hp. unfold dec_tags. repeat case_match; cbn; auto. Qed.

Lemma Decode_keeps `{Codec} (dec : json → S * option error) zero text :
  (∀ j, P (dec j).1) → P zero → P (Decode dec zero text).1.
Proof. intros Hd Hz. unfold Decode. destruct (json_first text); auto. Qed.

End decoded.

(** ** Round trips *)

(** Evaluate the decoding of a document with known keys. *)
Ltac jcompute :=
  cbv -[parse_uint parse_int show_N show_Z float_parse float_format time_parse time_format
    f64_of_Z utf8_valid f64_finite time_valid f64_zero json_text json_parse json_first].

(** Values that a well-typed, storable order or event holds. *)
Section roundtrip.
#[local] Set Default Proof Using "All".
Context `{CodecLaws}.

Definition order_wf (o : Order) : Prop :=
  0 <= o_ID o < 2 ^ 64 ∧ 0 <= o_UserID o < 2 ^ 64 ∧ f64_finite (o_Amount o) = true ∧
  time_valid (o_CreatedAt o) = true ∧ time_valid (o_UpdatedAt o) = true ∧
  utf8_valid (o_OrderNo o) = true ∧ utf8_valid (o_Status o) = true.

(** The document of an order. *)
Definition order_json (o : Order) : json :=
  JObj [("id", enc_uint (o_ID o)); ("user_id", enc_uint (o_UserID o));
    ("order_no", JStr (o_OrderNo o)); ("amount", JNum (float_format (o_Amount o)));
    ("status", JStr (o_Status o)); ("created_at", JStr (time_format (o_CreatedAt o)));
    ("updated_at", JStr (time_format (o_UpdatedAt o)))].

Lemma enc_order_wf o : order_wf o → enc_order o = Some (order_json o).
Proof.
  intros (_ & _ & Ha & Hc & Hu & _). unfold enc_order, enc_float, enc_time. by rewrite Ha, Hc, Hu.
Qed.

Lemma order_json_wf o : order_wf o → json_wf (order_json o) = true.
Proof.
  intros (Hi & Hu & _ & _ & _ & Hno & Hs). simpl.
  by rewrite !show_N_utf8, float_format_utf8, !time_format_utf8, Hno, Hs by lia.
Qed.

Lemma dec_order_json o : order_wf o → dec_order (order_json o) = (o, None).
Proof.
  intros (Hi & Hu & Ha & Hc & Hup & _). jcompute.
  rewrite !parse_uint_show, float_roundtrip, !time_roundtrip by done. by destruct o.
Qed.

(** The same document decoded without a type: a map of dynamic values. *)
Definition order_map (o : Order) : gval :=
  VMap [("amount", VNum (o_Amount o)); ("created_at", VStr (time_format (o_CreatedAt o)));
    ("id", VNum (f64_of_Z (o_ID o))); ("order_no", VStr (o_OrderNo o));
    ("status", VStr (o_Status o)); ("updated_at", VStr (time_format (o_UpdatedAt o)));
    ("user_id", VNum (f64_of_Z (o_UserID o)))].

Lemma dec_val_order o : order_wf o → dec_val (order_json o) = Some (order_map o).
Proof.
  intros (Hi & Hu & Ha & _). jcompute. by rewrite !float_parse_int, float_roundtrip by done.
Qed.

Lemma parse_int_show n : 0 <= n < 2 ^ 63 → parse_int (show_Z n) = Some n.
Proof.
  intros Hn. unfold show_Z. destruct (Z.ltb_spec n 0); [lia|]. unfold parse_int.
  pose proof (show_N_no_sign n) as Hs. pose proof (parse_uint_show n) as Hp.
  assert (Hu : parse_uint (show_N n) = Some n) by (apply Hp; lia).
  assert (Hlt : (n <? 2 ^ 63) = true) by lia.
  destruct (show_N n) as [|c t] eqn:E; [by rewrite Hu; cbn; rewrite Hlt|].
  assert (Hc : c ≠ "-"%char) by (intros ->; by apply (Hs ltac:(lia) t)).
  destruct c as [[] [] [] [] [] [] [] []]; try done; by rewrite Hu; cbn; rewrite Hlt.
Qed.

(** What the identifiers become on their way through float64. *)
Definition via_float (n : Z) : option Z := parse_uint (float_format (f64_of_Z n)).

Lemma via_float_exact n : 0 <= n <= 2 ^ 53 → via_float n = Some n.
Proof. intros Hn. unfold via_float. rewrite float_format_int, parse_uint_show by lia. done. Qed.

Lemma f64_of_Z_finite n : 0 <= n < 2 ^ 64 → f64_finite (f64_of_Z n) = true.
Proof.
  intros Hn. assert (F : f64_fin (f64_of_Z n)) by (apply f64_of_Z_fin; lia).
  by destruct (f64_of_Z n).
Qed.

(** Encoding that map and decoding the result into an order. *)
Lemma order_map_roundtrip o :
  order_wf o → ∃ j, enc_val (order_map o) = Some j ∧ json_wf j = true ∧
    ∀ i u, via_float (o_ID o) = Some i → via_float (o_UserID o) = Some u →
      dec_order j = (o <| o_ID := i |> <| o_UserID := u |>, None).
Proof.
  intros (Hi & Hu & Ha & Hc & Hup & Hno & Hs). destruct o; simpl in *. eexists. split; [|split].
  - unfold order_map. jcompute.  rewrite Ha, !f64_of_Z_finite by done. reflexivity.
  - cbn. by rewrite !float_format_utf8, !time_format_utf8, Hno, Hs.
  - intros i u E1 E2. unfold via_float in *. jcompute.
    by rewrite float_roundtrip, !time_roundtrip, E1, E2 by done.
Qed.

End roundtrip.
