(* ===== verification/State.v ===== *)
(** * The process: its outside world, its state and its effects

    Third-party clients (go-redis, ristretto, database/sql drivers, the
    MongoDB driver, the Elasticsearch and Kafka clients, JWT and bcrypt) are
    the operations of one class over an abstract world; the clock and
    [crypto/rand] are operations of the same world.  [Sys] gathers every
    mutable object the services share.  A method is a computation in the
    monad [M]: it passes [Sys] along and returns or panics; a goroutine it
    starts is recorded in [s_tasks] and runs later through its own
    definition.  Logging is not modelled. *)

From S2P Require Export Model Breaker Limiter HotKey.

(** ** Results of the clients *)

(** go-redis: a value, [redis.Nil], or another error. *)
Inductive rres (A : Type) := ROk (a : A) | RNil | RErr (msg : string).
Arguments ROk {A}.
Arguments RNil {A}.
Arguments RErr {A}.

(** A column value and an argument of a statement. *)
Inductive sqlval := SInt (z : Z) | SStr (s : string) | SFloat (f : float64) | STime (t : Z) | SNull.

(** [Row.Scan] before conversion: a row, [sql.ErrNoRows], another error. *)
Inductive row_res := RowOk (l : list sqlval) | RowNone | RowErr (msg : string).

Inductive mongo_res := MOk (p : UserProfile) | MNone | MErr (msg : string).

Record kafka_message := mkMsg {
  k_Key : string; k_Value : string; k_Headers : list (string * string)
}.

Record JwtClaims := mkClaims { jc_user_id : option float64; jc_username : option string }.

(** ** The world *)

Class Env := {
  W : Type;
  clk_now : W → Z * W;
  clk_sleep : Z → W → W;
  rand_read : nat → W → string * W;
  map_order : list string → W → list string * W;   (* how [range] visits a map *)
  (* go-redis; a client error says nothing about what the server did *)
  redis_get : string → W → rres string * W;
  redis_set : string → string → Z → W → rres unit * W;
  redis_setnx : string → string → Z → W → rres bool * W;
  redis_del : string → W → rres Z * W;
  redis_eval : string → string → string → W → rres Z * W;  (* script, key, argument *)
  redis_publish : string → string → W → rres Z * W;
  redis_ping : W → option string * W;
  (* ristretto *)
  l1_get : string → W → option gval * W;
  l1_set : string → gval → Z → Z → W → W;                  (* key, value, cost, ttl *)
  l1_wait : W → W;
  l1_del : string → W → W;
  (* database/sql on a pool *)
  conn : Type;
  sql_exec : conn → string → list sqlval → W → (string + (string + Z)) * W; (* error, or LastInsertId *)
  sql_query_row : conn → string → list sqlval → W → row_res * W;
  sql_query : conn → string → list sqlval → W → (string + list (list sqlval) * option string) * W;
  sql_ping : conn → W → option string * W;
  sql_close : conn → W → W;
  (* MongoDB *)
  mongo_find : Z → W → mongo_res * W;
  mongo_upsert : UserProfile → W → option string * W;
  (* Elasticsearch *)
  es_index : string → string → string → W → option string * W;
  es_search : string → string → W → (string + string) * W;
  (* Kafka *)
  kafka_write : string → kafka_message → W → option string * W;
  kafka_dial : string → W → option string * W;
  kafka_fetch : W → (string + kafka_message) * W;
  kafka_commit : kafka_message → W → option string * W;
  (* x/time/rate: an error when the context is done *)
  rate_wait : W → option string * W;
  (* the consumer's context: done already, or done before a timer fires *)
  ctx_err : W → option string * W;
  ctx_wait : Z → W → option string * W;
  (* bcrypt and JWT *)
  bcrypt_hash : string → W → (string + string) * W;
  bcrypt_compare : string → string → bool;
  jwt_sign : string → Z → string → Z → Z → string + string; (* secret, user_id, username, iat, exp *)
  jwt_parse : string → string → Z → option JwtClaims;        (* secret, token, now *)
  (* the conversion of a float outside the range of uint64, left open by Go *)
  f64_uint64_out : float64 → Z
}.

(** ** The shared objects *)

(** [database.RWDB] *)
Record RWDB `{Env} := mkRWDB { master : option conn; replicas : list conn; nextIdx : Z }.

#[export] Instance eta_RWDB `{Env} : Etable RWDB := λ r, mkRWDB _ (master r) (replicas r) (nextIdx r).

(** [cache.MultiLevelCache]; the L1 and the Redis server are in the world,
    the detector is an object of its own. *)
Record MultiLevelCache := mkMLC {
  mc_l2 : bool;              (* l2 ≠ nil *)
  mc_hotKeys : bool;         (* hotKeys ≠ nil *)
  l1BaseTTL : Z;
  l2BaseTTL : Z;
  jitterPct : float64;
  nullTTL : Z;
  lockKeyPrefix : string;
  lockTTL : Z;
  lockRetryWait : Z;
  l1Hits : Z;
  l2Hits : Z;
  misses : Z;
  l1Total : Z;
  evictionCh : Z;            (* notifications waiting in the channel *)
  mc_closed : bool
}.

#[export] Instance eta_MultiLevelCache : Etable MultiLevelCache := λ r,
  mkMLC (mc_l2 r) (mc_hotKeys r) (l1BaseTTL r) (l2BaseTTL r) (jitterPct r) (nullTTL r)
    (lockKeyPrefix r) (lockTTL r) (lockRetryWait r) (l1Hits r) (l2Hits r) (misses r) (l1Total r)
    (evictionCh r) (mc_closed r).

(** [mq.EventProducer] *)
Record EventProducer := mkProducer {
  ep_brokers : list string; ep_topic : string; ep_dlqTopic : string; ep_maxRetries : Z
}.

(** [database.BehaviorEntry] *)
Record BehaviorEntry := mkEntry { be_UserID : Z; be_EventType : string; be_EventData : string }.

(** A goroutine started and not yet run. *)
Inductive task :=
| TSecondDelete (delayMs : Z) (key : string)
| TIndexOrder (o : Order)
| TIndexProfile (p : UserProfile)
| TSend (ep : EventProducer) (traceID key : string) (e : BusinessEvent)
| TUpdateLastLogin (userID : Z)
| TLogBatch (l : list BehaviorEntry).

Record Sys `{Env} := mkSys {
  s_w : W;
  s_cb : CB.CircuitBreaker;
  s_rl : RL.WriteRateLimiter;
  s_hk : HK.HotKeyDetector;
  s_mc : MultiLevelCache;
  s_mysql : option RWDB;
  s_pg : option RWDB;
  s_orderSeq : Z;            (* package variable orderSeq *)
  s_orderRandID : string;    (* package variable orderRandID, 8 bytes *)
  s_orderSem : Z;            (* slots taken in OrderService.esSemaphore *)
  s_profileSem : Z;          (* slots taken in UserProfileService.esSemaphore *)
  s_buf : list BehaviorEntry; (* AnalyticsService.bufCh *)
  s_flush : bool;            (* a signal waits in AnalyticsService.flushCh *)
  s_started : bool;          (* HealthChecker.startupCompleted *)
  s_tasks : list task
}.

#[export] Instance eta_Sys `{Env} : Etable Sys := λ r,
  mkSys _ (s_w r) (s_cb r) (s_rl r) (s_hk r) (s_mc r) (s_mysql r) (s_pg r) (s_orderSeq r)
    (s_orderRandID r) (s_orderSem r) (s_profileSem r) (s_buf r) (s_flush r) (s_started r) (s_tasks r).

(** ** The monad *)

(** [Unfinished]: a loop of the method used up the iterations its definition
    allows; the loops' own theorems show when that cannot happen. *)
Inductive res (A : Type) := Val (a : A) | Panicked (msg : string) | Unfinished.
Arguments Val {A}.
Arguments Panicked {A}.
Arguments Unfinished {A}.

Definition M `{Env} (A : Type) : Type := Sys → res A * Sys.

#[export] Instance M_ret `{Env} : MRet M := λ A a s, (Val a, s).
#[export] Instance M_bind `{Env} : MBind M := λ A B f m s,
  match m s with
  | (Val a, s) => f a s
  | (Panicked e, s) => (Panicked e, s)
  | (Unfinished, s) => (Unfinished, s)
  end.

Section prims.
Context `{Env}.

Definition panic {A} (msg : string) : M A := λ s, (Panicked msg, s).
Definition unfinished {A} : M A := λ s, (Unfinished, s).
Definition gets {A} (f : Sys → A) : M A := λ s, (Val (f s), s).
Definition modify (f : Sys → Sys) : M unit := λ s, (Val tt, f s).

(** An operation of the world. *)
Definition world {A} (op : W → A * W) : M A := λ s,
  let '(a, w) := op (s_w s) in (Val a, s <| s_w := w |>).
Definition world_ (op : W → W) : M unit := λ s, (Val tt, s <| s_w ::= op |>).

Definition Now : M Z := world clk_now.
Definition Sleep (d : Z) : M unit := world_ (clk_sleep d).

(** [for k, v := range m] over a map: the entries in the order of the visit. *)
Definition range {A} (m : gmap string A) : M (list (string * A)) :=
  keys ← world (map_order (elements (dom m)));
  mret (omap (λ k, (k,.) <$> m !! k) keys).

(** [go func() {...}()] *)
Definition go (t : task) : M unit := modify (λ s, s <| s_tasks ::= (λ l, l ++ [t]) |>).

(** [defer d()]: runs when [m] returns and when it panics. *)
Definition deferred {A} (d : M unit) (m : M A) : M A := λ s,
  match m s with
  | (Unfinished, s) => (Unfinished, s)
  | (r, s) =>
      match d s with
      | (Val _, s) => (r, s)
      | (Panicked e, s) => (Panicked e, s)
      | (Unfinished, s) => (Unfinished, s)
      end
  end.

(** The rest of a method that may return early. *)
Definition when (b : bool) (m : M unit) : M unit := if b then m else mret tt.

Lemma bind_run {A B} (m : M A) (f : A → M B) s :
  (m ≫= f) s = match m s with
    | (Val a, s) => f a s | (Panicked e, s) => (Panicked e, s) | (Unfinished, s) => (Unfinished, s)
    end.
Proof. done. Qed.

Lemma ret_run {A} (a : A) s : (mret a : M A) s = (Val a, s).
Proof. done. Qed.

Lemma world_run {A} (op : W → A * W) s :
  world op s = (Val (op (s_w s)).1, s <| s_w := (op (s_w s)).2 |>).
Proof. unfold world. by destruct (op (s_w s)). Qed.

Lemma world__run (op : W → W) s : world_ op s = (Val tt, s <| s_w := op (s_w s) |>).
Proof. done. Qed.

Lemma s_w_set s w : s_w (s <| s_w := w |>) = w.
Proof. done. Qed.

Lemma s_w_set_set s w w' : s <| s_w := w |> <| s_w := w' |> = s <| s_w := w' |>.
Proof. done. Qed.

(** What a computation that returns went through. *)
Lemma bind_inv {A B} (m : M A) (f : A → M B) s r s' :
  (m ≫= f) s = (Val r, s') → ∃ a s1, m s = (Val a, s1) ∧ f a s1 = (Val r, s').
Proof. rewrite bind_run. destruct (m s) as [[a| |] s1]; [eauto|done..]. Qed.

Lemma deferred_inv {A} d (m : M A) s r s' :
  deferred d m s = (Val r, s') → ∃ s1, m s = (Val r, s1) ∧ (d s1).2 = s'.
Proof.
  unfold deferred. destruct (m s) as [[a| |] s1]; intros Hd; [|by destruct (d s1) as [[]?]|done].
  destruct (d s1) as [[u| |] s2] eqn:E; simplify_eq. exists s1. by rewrite E.
Qed.

End prims.

#[export] Hint Rewrite @bind_run @ret_run @world_run @world__run @s_w_set @s_w_set_set : hcf_rw.

(** ** Invariant triples

    [triple I Q m]: from a state satisfying [I] the method ends, returning
    or panicking, in a state satisfying [I], and what it returns satisfies
    [Q]. *)

Section triples.
Context `{Env} (I : Sys → Prop).

Definition triple {A} (Q : A → Prop) (m : M A) : Prop :=
  ∀ s, I s → I (m s).2 ∧ match (m s).1 with Val a => Q a | _ => True end.

Lemma triple_bind {A B} (Q : A → Prop) (R : B → Prop) (m : M A) (f : A → M B) :
  triple Q m → (∀ a, Q a → triple R (f a)) → triple R (m ≫= f).
Proof.
  intros Hm Hf s Hs. rewrite bind_run. destruct (Hm s Hs) as [Hs' Ha].
  destruct (m s) as [[a| |] s']; cbn in *; [by apply Hf|done|done].
Qed.

Lemma triple_ret {A} (Q : A → Prop) (a : A) : Q a → triple Q (mret a).
Proof. by intros Ha s Hs. Qed.

Lemma triple_panic {A} (Q : A → Prop) msg : triple Q (panic msg).
Proof. by intros s Hs. Qed.

Lemma triple_unfinished {A} (Q : A → Prop) : triple Q unfinished.
Proof. by intros s Hs. Qed.

Lemma triple_gets {A} (Q : A → Prop) (f : Sys → A) : (∀ s, I s → Q (f s)) → triple Q (gets f).
Proof. intros Hf s Hs. split; [done|]. by apply Hf. Qed.

Lemma triple_modify (Q : unit → Prop) f : (∀ s, I s → I (f s)) → Q tt → triple Q (modify f).
Proof. intros Hf HQ s Hs. split; [by apply Hf|done]. Qed.

Lemma triple_when (Q : unit → Prop) b m : Q tt → triple Q m → triple Q (when b m).
Proof. destruct b; [done|]. intros HQ _. by apply triple_ret. Qed.

Lemma triple_deferred {A} (Q : A → Prop) d (m : M A) :
  triple (λ _, True) d → triple Q m → triple Q (deferred d m).
Proof.
  intros Hd Hm s Hs. unfold deferred. destruct (Hm s Hs) as [Hs' Ha].
  destruct (m s) as [r s1]. cbn in *. destruct (Hd s1 Hs') as [Hs2 _].
  destruct (d s1) as [r2 s2]. cbn in *. by destruct r, r2.
Qed.

Lemma triple_conseq {A} (Q Q' : A → Prop) m : (∀ a, Q a → Q' a) → triple Q m → triple Q' m.
Proof.
  intros HQ Hm s Hs. destruct (Hm s Hs) as [? Ha]. split; [done|]. destruct (m s).1; auto.
Qed.

End triples.
