(* ===== verification/Programs.v ===== *)
(** * Methods cut at their shared accesses

    A program is what is left of a method: its next access to the shared
    state, and what follows for each answer.  [run] executes it without
    interruption, [step1] makes its next access, and [interleave] runs any
    number of threads under any schedule.  What every access keeps, every
    interleaving keeps ([interleave_guarded]). *)

From S2P Require Export State.

Module Programs.

(** ** Programs *)

Inductive prog `{Env} : Set → Type :=
| Done {A : Set} (a : A) : prog A
| Crash {A : Set} (msg : string) : prog A                                    (* a panic went through *)
| Act {A B : Set} (op : M B) (k : B → prog A) : prog A                       (* one shared access *)
| Deferred {A B : Set} (d : M unit) (p : prog B) (k : B → prog A) : prog A.  (* defer d(); p *)

Section programs.
Context `{EN : Env}.

Definition act {B : Set} (op : M B) : prog B := Act op Done.

Fixpoint pbind {A B : Set} (p : prog A) (f : A → prog B) : prog B :=
  match p in prog A return (A → prog B) → prog B with
  | Done a => λ f, f a
  | Crash e => λ _, Crash e
  | Act op k => λ f, Act op (λ b, pbind (k b) f)
  | Deferred d q k => λ f, Deferred d q (λ b, pbind (k b) f)
  end f.

Definition pwhen (b : bool) (p : prog unit) : prog unit := if b then p else Done tt.
Definition pdeferred {A : Set} (d : M unit) (p : prog A) : prog A := Deferred d p Done.

(** Without interruption. *)
Fixpoint run {A : Set} (p : prog A) : M A :=
  match p in prog A return M A with
  | Done a => mret a
  | Crash e => panic e
  | Act op k => b ← op; run (k b)
  | Deferred d q k => b ← deferred d (run q); run (k b)
  end.

(** A body that has ended, one way or the other, leaves its deferred call. *)
Definition leave {A B : Set} (d : M unit) (p : prog B) (k : B → prog A) : option (prog A) :=
  match p in prog B return (B → prog A) → option (prog A) with
  | Done b => λ k, Some (Act d (λ _, k b))
  | Crash e => λ _, Some (Act d (λ _, Crash e))
  | _ => λ _, None
  end k.

(** The next access; a finished program stays. *)
Fixpoint step1 {A : Set} (p : prog A) (s : Sys) : prog A * Sys :=
  match p in prog A return prog A * Sys with
  | Done a => (Done a, s)
  | Crash e => (Crash e, s)
  | Act op k =>
      match op s with
      | (Val b, s') => (k b, s')
      | (Panicked e, s') => (Crash e, s')
      | (Unfinished, s') => (Act op k, s')
      end
  | Deferred d q k =>
      match leave d q k with
      | Some p' => (p', s)
      | None => let '(q', s') := step1 q s in (Deferred d q' k, s')
      end
  end.

(** Threads of any result, and a schedule: whose turn it is. *)
Inductive thread : Type :=
| Th {A : Set} (p : prog A).

Definition turn (th : thread) (s : Sys) : thread * Sys :=
  match th with Th p => let '(p', s') := step1 p s in (Th p', s') end.

Fixpoint interleave (sched : list nat) (ths : list thread) (s : Sys) : list thread * Sys :=
  match sched with
  | [] => (ths, s)
  | i :: sched =>
      match ths !! i with
      | Some th => let '(th', s') := turn th s in interleave sched (<[i := th']> ths) s'
      | None => interleave sched ths s
      end
  end.

Definition finished (th : thread) : bool :=
  match th with Th p => match p with Done _ | Crash _ => true | _ => false end end.

(** ** Programs and the methods they cut up *)

Definition runs {A : Set} (p : prog A) (m : M A) : Prop := ∀ s, run p s = m s.

Lemma runs_act {A : Set} (m : M A) : runs (act m) m.
Proof. intros s. cbn. rewrite bind_run. by destruct (m s) as [[a|e|] s']. Qed.

Lemma runs_ret {A : Set} (a : A) : runs (Done a) (mret a).
Proof. done. Qed.

Lemma run_bind {A B : Set} (p : prog A) (f : A → prog B) s : run (pbind p f) s = (run p ≫= (λ a, run (f a))) s.
Proof.
  revert B f s. induction p as [A a|A e|A C op k IH|A C d q _ k IH]; intros B f s; cbn.
  - done.
  - done.
  - rewrite !bind_run. destruct (op s) as [[b|e|] s']; [|done..]. rewrite <-bind_run. apply IH.
  - rewrite !bind_run. destruct (deferred d (run q) s) as [[b|e|] s']; [|done..]. rewrite <-bind_run. apply IH.
Qed.

Lemma runs_bind {A B : Set} (p : prog A) (f : A → prog B) m g :
  runs p m → (∀ a, runs (f a) (g a)) → runs (pbind p f) (m ≫= g).
Proof.
  intros Hp Hf s. rewrite run_bind, !bind_run, Hp. destruct (m s) as [[a|e|] s']; [apply Hf|done..].
Qed.

Lemma runs_when b p m : runs p m → runs (pwhen b p) (when b m).
Proof. destruct b; [done|]. intros _. apply runs_ret. Qed.

Lemma runs_deferred {A : Set} d (p : prog A) m : runs p m → runs (pdeferred d p) (deferred d m).
Proof.
  intros Hp s. cbn. rewrite bind_run. unfold deferred. rewrite Hp. destruct (m s) as [[a|e|] s1]; [| |done].
  - by destruct (d s1) as [[u|e'|] s2].
  - by destruct (d s1) as [[u|e'|] s2].
Qed.

(** ** What every access keeps, every interleaving keeps *)

Section safety.
Context (I : Sys → Prop).

Definition holds {B : Type} (op : M B) : Prop := ∀ s, I s → I (op s).2.

Fixpoint guarded {A : Set} (p : prog A) : Prop :=
  match p with
  | Done _ | Crash _ => True
  | Act op k => ∀ s, I s → I (op s).2 ∧ match (op s).1 with Val b => guarded (k b) | _ => True end
  | Deferred d q k => holds d ∧ guarded q ∧ ∀ b, guarded (k b)
  end.

Lemma guarded_bind {A B : Set} (p : prog A) (f : A → prog B) :
  guarded p → (∀ a, guarded (f a)) → guarded (pbind p f).
Proof.
  intros Hp Hf. induction p as [A a|A e|A C op k IH|A C d q _ k IH]; cbn in *; [apply Hf|done|..].
  - intros s Hs. destruct (Hp s Hs) as [H1 H2]. split; [done|]. destruct (op s).1; auto.
  - destruct Hp as (H1 & H2 & H3). split; [done|]. split; [done|]. intros b. apply IH; [apply H3|apply Hf].
Qed.

Lemma guarded_act {A : Set} (op : M A) : holds op → guarded (act op).
Proof. intros Ho s Hs. split; [by apply Ho|]. by destruct (op s).1. Qed.
(** What an access answers may be relied on afterwards. *)
Lemma guarded_act_bind {A B : Set} (Q : A → Prop) (op : M A) (f : A → prog B) :
  State.triple I Q op → (∀ a, Q a → guarded (f a)) → guarded (pbind (act op) f).
Proof. intros Ho Hf s Hs. destruct (Ho s Hs) as [H1 H2]. split; [done|]. destruct (op s).1; [by apply Hf|done|done]. Qed.
Lemma guarded_ret {A : Set} (a : A) : guarded (Done a).
Proof. done. Qed.
Lemma guarded_when b p : guarded p → guarded (pwhen b p).
Proof. by destruct b. Qed.
Lemma guarded_deferred {A : Set} d (p : prog A) : holds d → guarded p → guarded (pdeferred d p).
Proof. by intros. Qed.

Lemma leave_guarded {A B : Set} d (p : prog B) (k : B → prog A) p' :
  holds d → (∀ b, guarded (k b)) → leave d p k = Some p' → guarded p'.
Proof.
  intros Hd Hk. destruct p; cbn; intros [= <-]; cbn; (intros s Hs; split; [by apply Hd|]); by destruct (d s).1.
Qed.

Lemma step1_guarded {A : Set} (p : prog A) s :
  guarded p → I s → guarded (step1 p s).1 ∧ I (step1 p s).2.
Proof.
  revert s. induction p as [A a|A e|A C op k IH|A C d q IHq k IH]; intros s Hp Hs; cbn in *; [done|done|..].
  - pose proof (Hp s Hs) as [H1 H2]. by destruct (op s) as [[b|e|] s'].
  - destruct Hp as (H1 & H2 & H3). destruct (leave d q k) as [p'|] eqn:E.
    + split; [by eapply leave_guarded|done].
    + destruct (IHq s H2 Hs) as [H4 H5]. by destruct (step1 q s).
Qed.

Definition th_guarded (th : thread) : Prop := match th with Th p => guarded p end.

Lemma interleave_guarded sched ths s :
  Forall th_guarded ths → I s →
  Forall th_guarded (interleave sched ths s).1 ∧ I (interleave sched ths s).2.
Proof.
  revert ths s. induction sched as [|i sched IH]; intros ths s Hths Hs; [done|]. cbn [interleave].
  destruct (ths !! i) as [[A p]|] eqn:E; [|by apply IH].
  pose proof (Forall_lookup_1 _ _ _ _ Hths E) as Hp. destruct (step1_guarded p s Hp Hs) as [H1 H2].
  cbn [turn]. destruct (step1 p s) as [p' s']. apply IH; [|done]. by apply Forall_insert.
Qed.

End safety.

(** Run alone, a program gets as far as its method. *)
Fixpoint drive {A : Set} (n : nat) (p : prog A) (s : Sys) : prog A * Sys :=
  match n with O => (p, s) | S n => let '(p', s') := step1 p s in drive n p' s' end.

Lemma drive_add {A : Set} n m (p : prog A) s :
  drive (n + m) p s = let '(p', s') := drive n p s in drive m p' s'.
Proof. revert p s. induction n as [|n IH]; intros p s; [done|]. cbn. destruct (step1 p s). apply IH. Qed.

Lemma drive_done {A : Set} n (a : A) s : drive n (Done a) s = (Done a, s).
Proof. induction n; [done|]. cbn. done. Qed.
Lemma drive_crash {A : Set} n e s : drive n (@Crash _ A e) s = (Crash e, s).
Proof. induction n; [done|]. cbn. done. Qed.

(** The body of a deferred call is driven to its end. *)
Lemma drive_deferred {A B : Set} n d (q : prog B) (k : B → prog A) s b s' :
  drive n q s = (Done b, s') → ∃ m, drive m (Deferred d q k) s = (Deferred d (Done b) k, s').
Proof.
  revert q s. induction n as [|n IH]; intros q s E; [injection E as -> ->; by exists O|].
  destruct (leave d q k) as [p'|] eqn:El.
  - assert (Hd : q = Done b ∧ s = s').
    { destruct q as [C c|C e|C D op kk|C D dd qq kk]; [..|done|done].
      - rewrite (drive_done (S n)) in E. apply pair_equal_spec in E as [E ->]. by rewrite E.
      - rewrite (drive_crash (S n)) in E. discriminate E. }
    destruct Hd as [-> ->]. by exists O.
  - cbn [drive] in E. destruct (step1 q s) as [q1 s1] eqn:E1. destruct (IH q1 s1 E) as [m Hm].
    exists (S m). cbn [drive step1]. by rewrite El, E1.
Qed.

Lemma drive_run {A : Set} (p : prog A) s a s' :
  run p s = (Val a, s') → ∃ n, drive n p s = (Done a, s').
Proof.
  revert s a s'. induction p as [A a0|A e|A B op k IH|A B d q IHq k IH]; intros s a s' E; cbn in E.
  - injection E as <- <-. by exists O.
  - done.
  - apply bind_inv in E as (b & s1 & E1 & E). destruct (IH b s1 a s' E) as [n Hn]. exists (S n). cbn. by rewrite E1.
  - apply bind_inv in E as (b & s1 & E1 & E). destruct (IH b s1 a s' E) as [n Hn].
    unfold deferred in E1. destruct (run q s) as [[b'|e|] s0] eqn:Eq; [|by destruct (d s0) as [[u|e'|] s2]|done].
    destruct (d s0) as [[u|e'|] s2] eqn:Ed; [|done|done]. injection E1 as -> ->.
    destruct (IHq s b s0 Eq) as [m Hm]. destruct (drive_deferred m d q k s b s0 Hm) as [m' Hm'].
    exists (m' + S (S n))%nat. rewrite drive_add, Hm'. cbn. by rewrite Ed.
Qed.

Lemma interleave_alone {A : Set} n (p : prog A) s p' s' :
  drive n p s = (p', s') → interleave (replicate n 0%nat) [Th p] s = ([Th p'], s').
Proof.
  revert p s. induction n as [|n IH]; intros p s E; [by injection E as -> ->|]. cbn in *.
  destruct (step1 p s) as [p1 s1]. by apply IH.
Qed.

Lemma runs_alone {A : Set} (p : prog A) (m : M A) s a s' :
  runs p m → m s = (Val a, s') → ∃ n, interleave (replicate n 0%nat) [Th p] s = ([Th (Done a)], s').
Proof.
  intros Hp E. rewrite <-Hp in E. destruct (drive_run p s a s' E) as [n Hn]. exists n. by apply interleave_alone.
Qed.

End programs.

(** What follows a program, in the style of the monad's notation. *)
Notation "x <~ p ; q" := (pbind p (λ x, q))
  (at level 20, p at level 100, q at level 200, only parsing).
Notation "' x <~ p ; q" := (pbind p (λ x, q))
  (at level 20, x pattern, p at level 100, q at level 200, only parsing).

End Programs.
