(* ===== verification/Rely.v ===== *)
(** * Programs among others that may move the shared state

    What a thread promises when other threads run between its accesses.  The
    shared state is known up to a world: [I t s] ties the state to the world
    [t], [rely] says how the others may move the world between two accesses,
    [guar] how one access may move it.  [ensures p Q t]: started at [t], the
    program [p] never panics, keeps to the guarantee, and what it answers
    satisfies [Q] in the world it answers in. *)

From S2P Require Export Programs.
From Stdlib Require Import Eqdep.

Module Rely.
Import Programs.

Section rely.
Context `{EN : Env} {T : Type} (I : T → Sys → Prop) (guar : relation T).

Section promises.
Context (rely : relation T) (stuck : Prop).

(** One access, made once the others have moved the world.  An access whose
    loop used up its bound may be made again where [stuck] allows it. *)
Definition answers {B : Type} (op : M B) (Q : T → B → Prop) (t : T) : Prop :=
  ∀ t1 s, rely t t1 → I t1 s → ∃ t2, guar t1 t2 ∧ I t2 (op s).2 ∧
    match (op s).1 with Val b => Q t2 b | Panicked _ => False | Unfinished => stuck end.

Fixpoint ensures {A : Set} (p : prog A) : (T → A → Prop) → T → Prop :=
  match p in prog A return (T → A → Prop) → T → Prop with
  | Done a => λ Q t, Q t a
  | Crash _ => λ _ _, False
  | Act op k => λ Q, answers op (λ t b, ensures (k b) Q t)
  | Deferred d q k => λ Q, ensures q (λ t b, answers d (λ t _, ensures (k b) Q t) t)
  end.

(** What a thread of any result promises. *)
Definition th_ensures (t : T) (th : thread) : Prop :=
  match th with Th p => ensures p (λ _ _, True) t end.

Lemma answers_wand {B : Type} (op : M B) (Q Q' : T → B → Prop) t :
  (∀ t b, Q t b → Q' t b) → answers op Q t → answers op Q' t.
Proof.
  intros HQ Ho t1 s Hr Hs. destruct (Ho t1 s Hr Hs) as (t2 & Hg & Hs' & Ha). exists t2. split; [done|].
  split; [done|]. destruct (op s).1; auto.
Qed.

Lemma ensures_wand {A : Set} (p : prog A) (Q Q' : T → A → Prop) t :
  (∀ t a, Q t a → Q' t a) → ensures p Q t → ensures p Q' t.
Proof.
  revert Q Q' t. induction p as [A a|A e|A B op k IH|A B d q IHq k IH]; intros Q Q' t HQ; cbn [ensures]; [apply HQ|done|..].
  - apply answers_wand. intros t' b. by apply IH.
  - apply IHq. intros t' b. apply answers_wand. intros t2 _. by apply IH.
Qed.

Lemma ensures_bind {A B : Set} (p : prog A) (f : A → prog B) (Q : T → B → Prop) t :
  ensures p (λ t a, ensures (f a) Q t) t → ensures (pbind p f) Q t.
Proof.
  revert B f Q t. induction p as [A a|A e|A C op k IH|A C d q _ k IH]; intros B f Q t; cbn [ensures pbind]; [done|done|..].
  - apply answers_wand. intros t' b. apply IH.
  - apply ensures_wand. intros t' b. apply answers_wand. intros t2 _. apply IH.
Qed.

Lemma ensures_act {A : Set} (op : M A) Q t : answers op Q t → ensures (act op) Q t.
Proof. done. Qed.
Lemma ensures_ret {A : Set} (a : A) (Q : T → A → Prop) t : Q t a → ensures (Done a) Q t.
Proof. done. Qed.
Lemma ensures_when b p t : ensures p (λ _ _, True) t → ensures (pwhen b p) (λ _ _, True) t.
Proof. by destruct b. Qed.

Context `{RP : !PreOrder rely}.
#[local] Set Default Proof Using "All".

(** What was promised still is once the others have moved the world. *)
Lemma answers_mono {B : Type} (op : M B) Q t t' : rely t t' → answers op Q t → answers op Q t'.
Proof. intros Hr Ho t1 s Hr1. apply Ho. by etrans. Qed.

Lemma ensures_mono {A : Set} (p : prog A) Q t t' :
  (∀ t t' a, Q t a → rely t t' → Q t' a) → rely t t' → ensures p Q t → ensures p Q t'.
Proof.
  revert Q t t'. induction p as [A a|A e|A B op k IH|A B d q IHq k IH]; intros Q t t' HQ Hr; cbn [ensures].
  - intros H. by eapply HQ.
  - done.
  - by apply answers_mono.
  - apply IHq; [|done]. intros t1 t2 b H Hr2. by eapply answers_mono.
Qed.

(** A deferred call: its body, then the call. *)
Lemma ensures_deferred {A : Set} d (p : prog A) Q t :
  (∀ t t' a, Q t a → rely t t' → Q t' a) → (∀ t1 t2, guar t1 t2 → rely t1 t2) →
  (∀ t, answers d (λ _ _, True) t) → ensures p Q t → ensures (pdeferred d p) Q t.
Proof.
  intros HQ Hg Hd. unfold pdeferred. cbn [ensures]. apply ensures_wand. intros t' a Ha t1 s Hr Hs.
  destruct (Hd t' t1 s Hr Hs) as (t2 & G & H2 & Hv). exists t2. split; [done|]. split; [done|].
  destruct (d s).1; [|done..]. cbn. eapply HQ; [exact Ha|]. etrans; [exact Hr|by apply Hg].
Qed.

(** Where the answer is given is where the others and the program led. *)
Lemma ensures_reach {A : Set} (p : prog A) Q t :
  (∀ t1 t2, guar t1 t2 → rely t1 t2) → ensures p Q t → ensures p (λ t' a, rely t t' ∧ Q t' a) t.
Proof.
  intros Hg. revert Q t. induction p as [A a|A e|A B op k IH|A B d q IHq k IH]; intros Q t; cbn [ensures].
  - intros HQ. by split.
  - done.
  - intros Ho t1 s Hr Hs. destruct (Ho t1 s Hr Hs) as (t2 & G & H2 & Ha). exists t2. split; [done|]. split; [done|].
    destruct (op s).1 as [b|e|]; [|done..]. apply IH in Ha. revert Ha. apply ensures_wand. intros t3 a [H3 HQ].
    split; [|done]. etrans; [exact Hr|]. etrans; [by apply Hg|exact H3].
  - intros Hq. apply IHq in Hq. revert Hq. apply ensures_wand. intros t1 b [Hr1 Hd] t2 s Hr Hs.
    destruct (Hd t2 s Hr Hs) as (t3 & G & H3 & Ha). exists t3. split; [done|]. split; [done|].
    destruct (d s).1 as [u|e|]; [|done..]. apply IH in Ha. revert Ha. apply ensures_wand. intros t4 a [H4 HQ].
    split; [|done]. etrans; [exact Hr1|]. etrans; [exact Hr|]. etrans; [by apply Hg|exact H4].
Qed.

Lemma ensures_seq {A B : Set} (p : prog A) (f : A → prog B) P Q t :
  (∀ t1 t2, guar t1 t2 → rely t1 t2) → ensures p P t → (∀ t' a, rely t t' → P t' a → ensures (f a) Q t') →
  ensures (pbind p f) Q t.
Proof.
  intros Hg Hp Hf. apply ensures_bind. eapply ensures_wand; [|by apply ensures_reach; [|exact Hp]].
  intros t' a [Hr HP]. by apply Hf.
Qed.

End promises.

(** Fewer moves of the others are relied upon as well; and what is never
    stuck is not stuck. *)
Lemma answers_rely {B : Type} (r r' : relation T) (st st' : Prop) (op : M B) Q t :
  (∀ t t', r' t t' → r t t') → (st → st') → answers r st op Q t → answers r' st' op Q t.
Proof.
  intros Hr Hst Ho t1 s H1 Hs. destruct (Ho t1 s (Hr _ _ H1) Hs) as (t2 & G & H2 & Ha). exists t2. split; [done|].
  split; [done|]. destruct (op s).1; auto.
Qed.

Lemma ensures_rely {A : Set} (r r' : relation T) (st st' : Prop) (p : prog A) Q t :
  (∀ t t', r' t t' → r t t') → (st → st') → ensures r st p Q t → ensures r' st' p Q t.
Proof.
  intros Hr Hst. revert Q t. induction p as [A a|A e|A B op k IH|A B d q IHq k IH]; intros Q t; cbn [ensures]; [done|done|..].
  - intros H. apply (answers_rely r r' st); [done..|]. revert H. apply answers_wand. intros t' b. apply IH.
  - intros H. apply IHq in H. revert H. apply ensures_wand. intros t' b H. apply (answers_rely r r' st); [done..|].
    revert H. apply answers_wand. intros t2 _. apply IH.
Qed.

(** ** Steps and schedules *)

Section steps.
Context (rely : relation T) (stuck : Prop) `{RP : !PreOrder rely} `{GP : !PreOrder guar}.
Context (guar_rely : ∀ t t', guar t t' → rely t t').
#[local] Set Default Proof Using "All".

Lemma step1_ensures {A : Set} (p : prog A) Q t s :
  (∀ t t' a, Q t a → rely t t' → Q t' a) → ensures rely stuck p Q t → I t s →
  ∃ t', guar t t' ∧ I t' (step1 p s).2 ∧ ensures rely stuck (step1 p s).1 Q t'.
Proof.
  revert Q t s. induction p as [A a|A e|A B op k IH|A B d q IHq k IH]; intros Q t s HQ Hp Hs; cbn [step1].
  - by exists t.
  - done.
  - destruct (Hp t s (reflexivity t) Hs) as (t2 & G & H2 & Ha). exists t2. split; [done|].
    destruct (op s) as [[b|e|] s'] eqn:E; cbn in *; [done|done|]. split; [done|].
    change (ensures rely stuck (Act op k) Q t2). eapply ensures_mono; [apply _|exact HQ|by apply guar_rely|exact Hp].
  - cbn [ensures] in Hp. destruct (leave d q k) as [p'|] eqn:El.
    + exists t. split; [done|]. split; [done|].
      destruct q as [C c|C e|C D op kk|C D dd qq kk]; [|done..]. injection El as <-. exact Hp.
    + destruct (IHq (λ t b, answers rely stuck d (λ t _, ensures rely stuck (k b) Q t) t) t s) as (t' & G & H1 & H2);
        [|exact Hp|exact Hs|].
      { intros t1 t2 b H1 H2. eapply answers_mono; [apply _|exact H2|exact H1]. }
      destruct (step1 q s) as [q' s']. by exists t'.
Qed.

(** Left alone, a program that is never stuck gets to its answer. *)
Lemma ensures_ends {A : Set} (p : prog A) Q t s :
  ¬ stuck → ensures rely stuck p Q t → I t s →
  ∃ n a t' s', drive n p s = (Done a, s') ∧ guar t t' ∧ I t' s' ∧ Q t' a.
Proof.
  intros Hst. revert Q t s. induction p as [A a|A e|A B op k IH|A B d q IHq k IH]; intros Q t s Hp Hs.
  - by exists O, a, t, s.
  - done.
  - destruct (Hp t s (reflexivity t) Hs) as (t2 & G & H2 & Ha).
    destruct (op s) as [[b|e|] s1] eqn:E; cbn in *; [|done|done].
    destruct (IH b Q t2 s1 Ha H2) as (n & a & t' & s' & En & G' & H'). exists (S n), a, t', s'. cbn. rewrite E.
    split; [done|]. split; [by etrans|done].
  - destruct (IHq _ t s Hp Hs) as (n & b & t1 & s1 & En & G & H1 & Hd).
    destruct (drive_deferred n d q k s b s1 En) as [m Em].
    destruct (Hd t1 s1 (reflexivity t1) H1) as (t2 & G2 & H2 & Ha).
    destruct (d s1) as [[u|e|] s2] eqn:Ed; cbn in *; [|done|done].
    destruct (IH b Q t2 s2 Ha H2) as (n3 & a & t' & s' & E3 & G3 & H').
    exists (m + S (S n3))%nat, a, t', s'. rewrite drive_add, Em. cbn. rewrite Ed. split; [done|].
    split; [|done]. etrans; [exact G|]. by etrans.
Qed.

End steps.

Section schedules.
Context (rely : relation T) (stuck : Prop) `{RP : !PreOrder rely} `{GP : !PreOrder guar}.
Context (guar_rely : ∀ t t', guar t t' → rely t t').
#[local] Set Default Proof Using "All".

(** One thread with its own promise among threads that keep theirs. *)
Lemma interleave_at sched ths s t i {A : Set} (p : prog A) Q :
  (∀ t t' a, Q t a → rely t t' → Q t' a) →
  ths !! i = Some (Th p) → ensures rely stuck p Q t → Forall (th_ensures guar True t) ths → I t s →
  let '(ths', s') := interleave sched ths s in
  ∃ t' p', guar t t' ∧ I t' s' ∧ ths' !! i = Some (Th p') ∧ ensures rely stuck p' Q t' ∧ Forall (th_ensures guar True t') ths'.
Proof.
  intros HQ. revert ths s t p. induction sched as [|j sched IH]; intros ths s t p Hi Hp Hths Hs; cbn [interleave].
  { by exists t, p. }
  assert (Hmove : ∀ t1, guar t t1 → Forall (th_ensures guar True t1) ths).
  { intros t1 G. eapply Forall_impl; [exact Hths|]. intros [C r]. apply ensures_mono; [apply _|done..]. }
  destruct (decide (j = i)) as [->|Hne].
  - rewrite Hi. cbn [turn]. destruct (step1_ensures rely stuck guar_rely p Q t s HQ Hp Hs) as (t1 & G & H1 & H2).
    destruct (step1 p s) as [p1 s1]. cbn [fst snd] in *. specialize (IH (<[i:=Th p1]> ths) s1 t1 p1).
    destruct (interleave sched _ s1) as [ths' s2]. destruct IH as (t2 & p2 & G2 & H'); [..|exists t2, p2; split; [by etrans|done]].
    + apply list_lookup_insert_eq. by eapply lookup_lt_Some.
    + done.
    + apply Forall_insert; [by apply Hmove|]. eapply ensures_rely; [exact guar_rely|done|]. eapply ensures_wand; [|exact H2]. done.
    + done.
  - destruct (ths !! j) as [[B q]|] eqn:Ej; [|by eapply IH]. cbn [turn].
    assert (Hq : ensures guar True q (λ _ _, True) t) by exact (Forall_lookup_1 _ _ _ _ Hths Ej).
    destruct (step1_ensures guar True (λ _ _ H, H) q (λ _ _, True) t s ltac:(done) Hq Hs) as (t1 & G & H1 & H2).
    destruct (step1 q s) as [q1 s1]. cbn [fst snd] in *. specialize (IH (<[j:=Th q1]> ths) s1 t1 p).
    destruct (interleave sched _ s1) as [ths' s2]. destruct IH as (t2 & p2 & G2 & H'); [..|exists t2, p2; split; [by etrans|done]].
    + by rewrite list_lookup_insert_ne.
    + eapply ensures_mono; [apply _|exact HQ|by apply guar_rely|exact Hp].
    + apply Forall_insert; [by apply Hmove|done].
    + done.
Qed.

(** Without regard to one of them. *)
Lemma interleave_all sched ths s t :
  Forall (th_ensures guar True t) ths → I t s →
  let '(ths', s') := interleave sched ths s in ∃ t', guar t t' ∧ I t' s' ∧ Forall (th_ensures guar True t') ths'.
Proof.
  revert ths s t. induction sched as [|j sched IH]; intros ths s t Hths Hs; cbn [interleave]; [by exists t|].
  destruct (ths !! j) as [[B q]|] eqn:Ej; [|by eapply IH]. cbn [turn].
  assert (Hq : ensures guar True q (λ _ _, True) t) by exact (Forall_lookup_1 _ _ _ _ Hths Ej).
  destruct (step1_ensures guar True (λ _ _ H, H) q (λ _ _, True) t s ltac:(done) Hq Hs) as (t1 & G & H1 & H2).
  destruct (step1 q s) as [q1 s1]. cbn [fst snd] in *. specialize (IH (<[j:=Th q1]> ths) s1 t1).
  destruct (interleave sched _ s1) as [ths' s2]. destruct IH as (t2 & G2 & H'); [|done|exists t2; split; [by etrans|done]].
  apply Forall_insert; [|done]. eapply Forall_impl; [exact Hths|]. intros [C r]. apply ensures_mono; [apply _|done..].
Qed.

End schedules.
End rely.

Lemma interleave_length `{EN : Env} sched ths s : length (interleave sched ths s).1 = length ths.
Proof.
  revert ths s. induction sched as [|j sched IH]; intros ths s; cbn [interleave]; [done|].
  destruct (ths !! j) as [th|]; [|apply IH]. destruct (turn th s) as [th' s']. by rewrite IH, length_insert.
Qed.

(** A thread driven alone among the others. *)
Lemma interleave_only `{EN : Env} n i ths {A : Set} (p p' : prog A) s s' :
  ths !! i = Some (Th p) → drive n p s = (p', s') → interleave (replicate n i) ths s = (<[i := Th p']> ths, s').
Proof.
  revert ths p s. induction n as [|n IH]; intros ths p s Hi E; cbn in E |- *.
  { injection E as -> ->. by rewrite list_insert_id. }
  rewrite Hi. cbn. destruct (step1 p s) as [p1 s1]. rewrite (IH _ p1 s1); [by rewrite list_insert_insert_eq| |done].
  apply list_lookup_insert_eq. by eapply lookup_lt_Some.
Qed.

(** A thread holds one program. *)
Lemma Th_inj `{EN : Env} {A : Set} (p q : prog A) : Th p = Th q → p = q.
Proof. intros E. injection E as E. exact (inj_pair2 _ _ _ _ _ E). Qed.

End Rely.
