(* ===== verification/Laws.v ===== *)
(** * What the program relies on of its world

    The documented behaviour of Redis, ristretto and the clock, as laws over
    logical views of the world: the entries of the Redis server with their
    expiry instants, the entries the L1 may still answer with, and the
    instant.  Both caches are lossy: an entry may vanish, never change. *)

From S2P Require Export State.

(** The Lua script of [DistributedLock.Unlock], as the source spells it. *)
Definition chr (n : nat) : string := String (ascii_of_nat n) EmptyString.
Definition nl_tabs (n : nat) : string := chr 10 +:+ Nat.iter n (λ s, chr 9 +:+ s) EmptyString.
Definition quoted (s : string) : string := chr 34 +:+ s +:+ chr 34.

Definition unlockScript : string :=
  nl_tabs 2 +:+ "if redis.call(" +:+ quoted "GET" +:+ ", KEYS[1]) == ARGV[1] then" +:+
  nl_tabs 3 +:+ "return redis.call(" +:+ quoted "DEL" +:+ ", KEYS[1])" +:+
  nl_tabs 2 +:+ "else" +:+ nl_tabs 3 +:+ "return 0" +:+ nl_tabs 2 +:+ "end" +:+ nl_tabs 1.

Class Views `{Env} := {
  w_time : W → Z;
  r_entry : W → string → option (string * Z);   (* value and expiry instant *)
  l1_view : W → string → option gval
}.

Section views.
Context `{Views}.

Definition r_view (w : W) (k : string) : option string := fst <$> r_entry w k.

(** The entry is as before, or it has expired. *)
Definition only_expiry (w w' : W) (k : string) : Prop :=
  r_entry w' k = r_entry w k ∨
  ∃ v e, r_entry w k = Some (v, e) ∧ r_entry w' k = None ∧ e <= w_time w'.

(** The entry was written with the given lifetime, and may have expired. *)
Definition written (w w' : W) (k v : string) (ttl : Z) : Prop :=
  ∃ e, w_time w + ttl <= e ∧
    (r_entry w' k = Some (v, e) ∨ (r_entry w' k = None ∧ e <= w_time w')).

(** The key is free, or its entry runs out on the way. *)
Definition free (w w' : W) (k : string) : Prop := ∀ x e, r_entry w k = Some (x, e) → e <= w_time w'.

Definition redis_frame (w w' : W) : Prop := ∀ k, only_expiry w w' k.
Definition redis_frame_but (k : string) (w w' : W) : Prop := ∀ k', k' ≠ k → only_expiry w w' k'.

Definition l1_shrinks (w w' : W) (k : string) : Prop := l1_view w' k = l1_view w k ∨ l1_view w' k = None.
Definition l1_frame (w w' : W) : Prop := ∀ k, l1_shrinks w w' k.

End views.

(** Redis, as go-redis reports it: a client error leaves open whether the
    server executed the command. *)
Class RedisLaws `{Views} := {
  redis_get_time k w : w_time w <= w_time (redis_get k w).2;
  redis_get_frame k w : redis_frame w (redis_get k w).2;
  redis_get_val k w v : (redis_get k w).1 = ROk v → r_view w k = Some v;
  redis_set_time k v ttl w : w_time w <= w_time (redis_set k v ttl w).2;
  redis_set_frame k v ttl w : redis_frame_but k w (redis_set k v ttl w).2;
  redis_set_key k v ttl w :
    written w (redis_set k v ttl w).2 k v ttl ∨
    ((redis_set k v ttl w).1 ≠ ROk tt ∧ only_expiry w (redis_set k v ttl w).2 k);
  redis_setnx_time k v ttl w : w_time w <= w_time (redis_setnx k v ttl w).2;
  redis_setnx_frame k v ttl w : redis_frame_but k w (redis_setnx k v ttl w).2;
  redis_setnx_key k v ttl w :
    match (redis_setnx k v ttl w).1 with
    | ROk true =>
        free w (redis_setnx k v ttl w).2 k ∧ written w (redis_setnx k v ttl w).2 k v ttl
    | ROk false => only_expiry w (redis_setnx k v ttl w).2 k
    | _ => only_expiry w (redis_setnx k v ttl w).2 k ∨
        free w (redis_setnx k v ttl w).2 k ∧ written w (redis_setnx k v ttl w).2 k v ttl
    end;
  redis_del_time k w : w_time w <= w_time (redis_del k w).2;
  redis_del_frame k w : redis_frame_but k w (redis_del k w).2;
  redis_del_key k w :
    r_entry (redis_del k w).2 k = None ∨
    ((∀ n, (redis_del k w).1 ≠ ROk n) ∧ only_expiry w (redis_del k w).2 k);
  redis_eval_time k v w : w_time w <= w_time (redis_eval unlockScript k v w).2;
  redis_eval_frame k v w : redis_frame_but k w (redis_eval unlockScript k v w).2;
  redis_eval_key k v w :
    (r_view w k = Some v ∧ r_entry (redis_eval unlockScript k v w).2 k = None) ∨
    (((∀ n, (redis_eval unlockScript k v w).1 ≠ ROk n) ∨ r_view w k ≠ Some v) ∧
     only_expiry w (redis_eval unlockScript k v w).2 k)
}.

(** Ristretto: only the value last set may be answered, and never after a
    deletion; any entry may be dropped. *)
Class L1Laws `{Views} := {
  l1_get_val k w v : (l1_get k w).1 = Some v → l1_view w k = Some v;
  l1_get_frame k w : l1_frame w (l1_get k w).2;
  l1_set_frame k v c ttl w k' : k' ≠ k → l1_shrinks w (l1_set k v c ttl w) k';
  l1_set_key k v c ttl w :
    l1_view (l1_set k v c ttl w) k = Some v ∨ l1_view (l1_set k v c ttl w) k = None;
  l1_wait_frame w : l1_frame w (l1_wait w);
  l1_del_frame k w : l1_frame w (l1_del k w);
  l1_del_key k w : l1_view (l1_del k w) k = None
}.

(** The clock advances, by at least its argument in [time.Sleep], and does
    not go back while random bytes are read. *)
Class ClockLaws `{Views} := {
  clk_now_time w : w_time w <= (clk_now w).1 ∧ (clk_now w).1 <= w_time (clk_now w).2;
  clk_sleep_time d w : w_time w + d <= w_time (clk_sleep d w);
  rand_read_time n w : w_time w <= w_time (rand_read n w).2
}.

(** [range] visits every entry of a map once. *)
Class MapLaws `{Env} := { map_order_perm l w : (map_order l w).1 ≡ₚ l }.

Lemma range_perm `{MapLaws} {A} (m : gmap string A) s l s' :
  range m s = (Val l, s') → l ≡ₚ map_to_list m.
Proof.
  unfold range. rewrite bind_run, world_run, ret_run. intros [= <- _]. rewrite map_order_perm.
  apply NoDup_Permutation.
  - assert (Hd : NoDup (elements (dom m))) by apply NoDup_elements.
    induction Hd as [|k ks Hk _ IH]; cbn; [constructor|]. destruct (m !! k); cbn; [|done].
    constructor; [|done]. rewrite list_elem_of_omap. intros (k' & Hk' & E). destruct (m !! k'); [|done].
    cbn in E. by injection E as -> ->.
  - apply NoDup_map_to_list.
  - intros [k a]. rewrite list_elem_of_omap, elem_of_map_to_list. split.
    + intros (k' & _ & E). destruct (m !! k') eqn:Ek; [|done]. cbn in E. by injection E as -> ->.
    + intros E. exists k. rewrite E. split; [|done]. apply elem_of_elements, elem_of_dom. by exists a.
Qed.

(** The two caches do not touch each other, and neither the clock nor the
    random source touches them. *)
Class FrameLaws `{Views} := {
  l1_get_redis k w : redis_frame w (l1_get k w).2;
  l1_set_redis k v c ttl w : redis_frame w (l1_set k v c ttl w);
  l1_wait_redis w : redis_frame w (l1_wait w);
  l1_del_redis k w : redis_frame w (l1_del k w);
  redis_get_l1 k w : l1_frame w (redis_get k w).2;
  redis_set_l1 k v ttl w : l1_frame w (redis_set k v ttl w).2;
  redis_setnx_l1 k v ttl w : l1_frame w (redis_setnx k v ttl w).2;
  redis_del_l1 k w : l1_frame w (redis_del k w).2;
  clk_now_frames w : redis_frame w (clk_now w).2 ∧ l1_frame w (clk_now w).2;
  clk_sleep_frames d w : redis_frame w (clk_sleep d w) ∧ l1_frame w (clk_sleep d w);
  rand_frames n w : redis_frame w (rand_read n w).2 ∧ l1_frame w (rand_read n w).2
}.

(** The calls of the order service to the other servers touch no cache. *)
Class ServiceFrames `{Views} := {
  redis_eval_l1 q k v w : l1_frame w (redis_eval q k v w).2;
  sql_exec_frames c q args w : redis_frame w (sql_exec c q args w).2 ∧ l1_frame w (sql_exec c q args w).2;
  sql_row_frames c q args w : redis_frame w (sql_query_row c q args w).2 ∧ l1_frame w (sql_query_row c q args w).2;
  kafka_write_frames t m w : redis_frame w (kafka_write t m w).2 ∧ l1_frame w (kafka_write t m w).2;
  es_index_frames i d b w : redis_frame w (es_index i d b w).2 ∧ l1_frame w (es_index i d b w).2
}.

(** A property of the outside that neither the caches, nor the clock, nor
    the random source can change. *)
Class Kept `{Env} (P : W → Prop) := {
  kept_now w : P w → P (clk_now w).2;
  kept_sleep d w : P w → P (clk_sleep d w);
  kept_rand n w : P w → P (rand_read n w).2;
  kept_redis_get k w : P w → P (redis_get k w).2;
  kept_redis_set k v ttl w : P w → P (redis_set k v ttl w).2;
  kept_redis_setnx k v ttl w : P w → P (redis_setnx k v ttl w).2;
  kept_redis_del k w : P w → P (redis_del k w).2;
  kept_redis_eval q k v w : P w → P (redis_eval q k v w).2;
  kept_l1_get k w : P w → P (l1_get k w).2;
  kept_l1_set k v c ttl w : P w → P (l1_set k v c ttl w);
  kept_l1_wait w : P w → P (l1_wait w);
  kept_l1_del k w : P w → P (l1_del k w)
}.

#[export] Instance kept_true `{Env} : Kept (λ _, True).
Proof. by split. Qed.

(** What the outside has taken in: statements executed by a master and
    messages accepted by Kafka.  Nothing is ever taken back. *)
Class Journal `{Env} := {
  executed : W → conn → string → list sqlval → Prop;
  delivered : W → string → kafka_message → Prop
}.

Definition journal_le `{Journal} (w w' : W) : Prop :=
  (∀ c q args, executed w c q args → executed w' c q args) ∧
  (∀ t m, delivered w t m → delivered w' t m).

#[export] Instance journal_le_preorder `{Journal} : PreOrder journal_le.
Proof. split; [by split|]. intros x y z [] []. split; auto. Qed.

Class JournalLaws `{Journal} := {
  clk_now_journal w : journal_le w (clk_now w).2;
  clk_sleep_journal d w : journal_le w (clk_sleep d w);
  rand_journal n w : journal_le w (rand_read n w).2;
  redis_get_journal k w : journal_le w (redis_get k w).2;
  redis_set_journal k v ttl w : journal_le w (redis_set k v ttl w).2;
  redis_setnx_journal k v ttl w : journal_le w (redis_setnx k v ttl w).2;
  redis_del_journal k w : journal_le w (redis_del k w).2;
  redis_eval_journal q k v w : journal_le w (redis_eval q k v w).2;
  l1_set_journal k v c ttl w : journal_le w (l1_set k v c ttl w);
  l1_wait_journal w : journal_le w (l1_wait w);
  l1_del_journal k w : journal_le w (l1_del k w);
  sql_exec_journal c q args w : journal_le w (sql_exec c q args w).2;
  sql_exec_done c q args w id : (sql_exec c q args w).1 = inr id → executed (sql_exec c q args w).2 c q args;
  kafka_write_journal t m w : journal_le w (kafka_write t m w).2;
  kafka_write_done t m w : (kafka_write t m w).1 = None → delivered (kafka_write t m w).2 t m
}.

(** ** Consequences for the views *)

Section frames.
Context `{Views}.

(** Nothing new and nothing changed in Redis, expiry forgotten. *)
Definition r_shrinks (w w' : W) (k : string) : Prop := r_view w' k = r_view w k ∨ r_view w' k = None.

Lemma only_expiry_shrinks w w' k : only_expiry w w' k → r_shrinks w w' k.
Proof.
  unfold r_shrinks, r_view. intros [-> | (v & e & _ & -> & _)]; [by left|by right].
Qed.

Lemma written_view w w' k v ttl : written w w' k v ttl → r_view w' k = Some v ∨ r_view w' k = None.
Proof. unfold r_view. intros (e & _ & [-> | [-> _]]); [by left|by right]. Qed.

End frames.
