(* ===== verification/CodecDemo.v ===== *)
(** * A concrete codec

    An instance of the codec class for which all its laws hold: integers up
    to [2^53] print in decimal, everything else as the bits of an injective
    encoding.  The witnesses of the theorems about encoded data use it. *)

From S2P Require Export Model.
From stdpp Require Import countable.
Open Scope Z_scope.

Fixpoint bits (p : positive) : string :=
  match p with xH => "" | xO p => String "0" (bits p) | xI p => String "1" (bits p) end.

Fixpoint unbits (s : string) : option positive :=
  match s with
  | "" => Some xH
  | String c s =>
      p ← unbits s;
      if bool_decide (c = "0"%char) then Some (xO p)
      else if bool_decide (c = "1"%char) then Some (xI p) else None
  end.

Lemma unbits_bits p : unbits (bits p) = Some p.
Proof. induction p; simpl; by rewrite ?IHp. Qed.

Lemma bits_digits p : has "_"%char (bits p) = false.
Proof. by induction p. Qed.

Lemma bits_ascii p : is_ascii (bits p) = true.
Proof. by induction p. Qed.

#[export] Instance float64_eq_dec : EqDecision float64.
Proof. solve_decision. Defined.

#[export] Instance float64_countable : Countable float64.
Proof.
  refine (inj_countable' (λ f, match f with
    | SpecFloat.S754_zero s => (0%N, s, 1%positive, 0%Z)
    | SpecFloat.S754_infinity s => (1%N, s, 1%positive, 0%Z)
    | SpecFloat.S754_nan => (2%N, false, 1%positive, 0%Z)
    | SpecFloat.S754_finite s m e => (3%N, s, m, e) end)
  (λ '(k, s, m, e), match k with
    | 0%N => SpecFloat.S754_zero s | 1%N => SpecFloat.S754_infinity s
    | 2%N => SpecFloat.S754_nan | _ => SpecFloat.S754_finite s m e end) _).
  by intros [].
Defined.

Fixpoint json_tree (j : json) : gen_tree string :=
  match j with
  | JNull => GenNode 0 []
  | JBool b => GenNode 1 [GenLeaf (if b then "1" else "0")]
  | JNum s => GenNode 2 [GenLeaf s]
  | JStr s => GenNode 3 [GenLeaf s]
  | JArr l => GenNode 4 (map json_tree l)
  | JObj l => GenNode 5 (map (λ '(k, v), GenNode 6 [GenLeaf k; json_tree v]) l)
  end.

Fixpoint tree_json (t : gen_tree string) : json :=
  match t with
  | GenNode 1 [GenLeaf s] => JBool (bool_decide (s = "1"))
  | GenNode 2 [GenLeaf s] => JNum s
  | GenNode 3 [GenLeaf s] => JStr s
  | GenNode 4 l => JArr (map tree_json l)
  | GenNode 5 l => JObj (map (λ t, match t with GenNode 6 [GenLeaf k; v] => (k, tree_json v) | _ => ("", JNull) end) l)
  | _ => JNull
  end.

Lemma tree_json_tree : ∀ j, tree_json (json_tree j) = j.
Proof.
  fix IH 1. intros [| [] | | | l | l]; [reflexivity..| |].
  - cbn [json_tree tree_json]. f_equal. induction l as [|j l IHl]; [done|].
    cbn [map]. by rewrite IH, IHl.
  - cbn [json_tree tree_json]. f_equal. induction l as [|[k j] l IHl]; [done|].
    cbn [map]. by rewrite IH, IHl.
Qed.

Definition demo_float_format (f : float64) : string :=
  match f64_trunc f with
  | Some z =>
      if (0 <=? z) && (z <=? 2 ^ 53) && bool_decide (f = f64_of_Z z)
      then show_N z else "f" +:+ bits (encode f)
  | None => "f" +:+ bits (encode f)
  end.

Definition demo_float_parse (s : string) : option float64 :=
  if hasPrefix "f" s then unbits (str_drop 1 s) ≫= decode
  else f64_of_Z <$> parse_uint s.

Definition demo_time_valid (t : Z) : bool := (zero_time <=? t) && (t <? 253402300800 * Second).

#[export] Instance demo_codec : Codec := {
  float_format := demo_float_format;
  float_parse := demo_float_parse;
  time_format := λ t, bits (encode t);
  time_parse := λ s, unbits s ≫= decode;
  time_valid := demo_time_valid;
  time_rfc3339 := λ t, bits (encode (t / Second));
  date_utc := λ t, "-" +:+ bits (encode (t / (24 * Hour)));
  date_local := λ t, "-" +:+ bits (encode (t / (24 * Hour)));
  date_parse := λ s, (λ d, d * (24 * Hour)) <$> (unbits (str_drop 1 s) ≫= decode);
  add_days := λ t n, t + n * (24 * Hour);
  json_text := λ j, bits (encode (json_tree j));
  json_parse := λ s, tree_json <$> (unbits s ≫= decode);
  json_first := λ s, tree_json <$> (unbits s ≫= decode)
}.

Lemma hasPrefix_f_show n : 0 <= n → hasPrefix "f" (show_N n) = false.
Proof.
  intros Hn. apply not_true_is_false. intros H. apply hasPrefix_spec in H.
  pose proof (show_N_parse_go n Hn) as Hp. rewrite H in Hp. done.
Qed.

Lemma demo_raw f : demo_float_parse ("f" +:+ bits (encode f)) = Some f.
Proof. unfold demo_float_parse. rewrite hasPrefix_append, (str_drop_append 1), unbits_bits by done. apply decode_encode. Qed.

#[export] Instance demo_codec_laws : CodecLaws.
Proof.
  assert (Hint : ∀ n, 0 <= n < 2 ^ 64 → demo_float_parse (show_N n) = Some (f64_of_Z n)).
  { intros n Hn. unfold demo_float_parse. rewrite hasPrefix_f_show by lia. by rewrite parse_uint_show. }
  split; cbn [float_format float_parse time_format time_parse time_valid json_text json_parse json_first demo_codec].
  - intros f Hf. unfold demo_float_format. destruct (f64_trunc f) as [z|]; [|apply demo_raw].
    destruct (_ && _) eqn:E; [|apply demo_raw].
    apply andb_true_iff in E as [[H1 H2]%andb_true_iff H3]. apply bool_decide_eq_true in H3. zbool.
    rewrite Hint by lia. by rewrite <-H3.
  - done.
  - intros n Hn. unfold demo_float_format. destruct (f64_of_Z_exact n) as [F V]; [lia|].
    pose proof f64_unit_pos.
    rewrite f64_trunc_floor by (done || nia). rewrite V, Z.div_mul by lia.
    rewrite bool_decide_true by done. destruct (Z.leb_spec 0 n), (Z.leb_spec n (2 ^ 53)); try lia. done.
  - intros f. apply is_ascii_utf8. unfold demo_float_format.
    assert (Hraw : is_ascii ("f" +:+ bits (encode f)) = true) by (rewrite is_ascii_app; apply bits_ascii).
    destruct (f64_trunc f) as [z|]; [|done]. destruct (_ && _) eqn:E; [|done].
    apply andb_true_iff in E as [[H1 H2]%andb_true_iff H3]. zbool. apply show_N_ascii. lia.
  - intros t _. rewrite unbits_bits. apply decode_encode.
  - intros t. apply is_ascii_utf8, bits_ascii.
  - intros j _. rewrite unbits_bits. cbn. rewrite decode_encode. cbn. by rewrite tree_json_tree.
  - intros j _. rewrite unbits_bits. cbn. rewrite decode_encode. cbn. by rewrite tree_json_tree.
  - reflexivity.
  - intros t. cbn [date_local demo_codec]. rewrite append_cons, append_nil_l. cbn [has]. by rewrite bits_digits.
Qed.
