(* ===== verification/DemoWorld.v ===== *)
(** * A concrete world

    An in-memory world for which every law of [Laws.v] holds: a clock that
    moves when the program sleeps, a Redis server with expiring keys, an L1
    that keeps what it is given, a database that answers from a table, and
    switches that take the services down.  The witnesses use it. *)

From S2P Require Export Laws CodecDemo.
From stdpp Require Import countable.
Open Scope Z_scope.

Record dworld := mkDW {
  dw_time : Z;
  dw_rand : string;                      (* what rand.Read repeats *)
  dw_redis : gmap string (string * Z);
  dw_redis_up : bool;
  dw_l1 : gmap string gval;
  dw_rows : gmap string (list sqlval);   (* answers by last argument *)
  dw_sql_up : bool;
  dw_exec : list (nat * string * list sqlval);
  dw_mongo : gmap Z UserProfile;
  dw_es : list (string * string * string);
  dw_kafka : list (string * kafka_message);
  dw_kafka_up : bool;
  dw_inbox : list kafka_message;         (* messages to fetch *)
  dw_committed : list kafka_message;
  dw_search : option string              (* what a search answers *)
}.

#[export] Instance eta_dworld : Etable dworld := λ r,
  mkDW (dw_time r) (dw_rand r) (dw_redis r) (dw_redis_up r) (dw_l1 r) (dw_rows r) (dw_sql_up r)
    (dw_exec r) (dw_mongo r) (dw_es r) (dw_kafka r) (dw_kafka_up r) (dw_inbox r) (dw_committed r)
    (dw_search r).

(** The live entry of a key. *)
Definition dw_entry (w : dworld) (k : string) : option (string * Z) :=
  match dw_redis w !! k with
  | Some (v, e) => if dw_time w <? e then Some (v, e) else None
  | None => None
  end.

#[global] Arguments dw_entry : simpl never.

Definition dw_put (k v : string) (ttl : Z) (w : dworld) : dworld :=
  w <| dw_redis ::= <[k := (v, dw_time w + ttl)]> |>.

Definition refused {A} : rres A := RErr "connection refused".

Definition dw_key (args : list sqlval) : string :=
  match rev args with SStr s :: _ => s | SInt z :: _ => show_Z z | _ => EmptyString end.

(** What the columns of a table hold of a float, an instant and a text. *)
Definition dw_float (f : float64) : float64 := if f64_finite f then f else f64_zero.
Definition dw_instant (t : Z) : Z := if demo_time_valid t then t else 0.
Definition dw_text (s : string) : string := if utf8_valid s then s else EmptyString.

(** The insert of an order adds its row, or changes the amount, the status and the last update of the one with its number. *)
Definition dw_upsert (args : list sqlval) (w : dworld) : dworld :=
  match args with
  | [SInt user; SStr no; SFloat amount; SStr status; STime created; STime updated] =>
      w <| dw_rows ::= λ rows, <[no :=
        match rows !! no with
        | Some [id; user'; no'; _; _; created'; _] =>
            [id; user'; no'; SFloat (dw_float amount); SStr (dw_text status); created'; STime (dw_instant updated)]
        | _ =>
            [SInt (1 + Z.of_nat (size rows) mod 2 ^ 53); SInt user; SStr no; SFloat (dw_float amount);
             SStr (dw_text status); STime (dw_instant created); STime (dw_instant updated)]
        end]> rows |>
  | _ => w
  end.

Definition dw_run (q : string) (args : list sqlval) (w : dworld) : dworld :=
  if hasPrefix "INSERT INTO orders" q then dw_upsert args w else w.

Fixpoint dw_bytes (n : nat) (s : string) : string :=
  match n with O => EmptyString | S n => String (match s with String c _ => c | _ => "0"%char end) (dw_bytes n s) end.

#[export] Instance demo_env : Env := {
  W := dworld;
  clk_now := λ w, (dw_time w, w);
  clk_sleep := λ d w, w <| dw_time ::= (λ t, t + Z.max 0 d) |>;
  rand_read := λ n w, (dw_bytes n (dw_rand w), w);
  map_order := λ l w, (l, w);
  redis_get := λ k w,
    (if dw_redis_up w then match dw_entry w k with Some (v, _) => ROk v | None => RNil end else refused, w);
  redis_set := λ k v ttl w, if dw_redis_up w then (ROk tt, dw_put k v ttl w) else (refused, w);
  redis_setnx := λ k v ttl w,
    if dw_redis_up w then
      match dw_entry w k with
      | Some _ => (ROk false, w)
      | None => (ROk true, dw_put k v ttl w)
      end
    else (refused, w);
  redis_del := λ k w, if dw_redis_up w then (ROk 1, w <| dw_redis ::= delete k |>) else (refused, w);
  redis_eval := λ _ k v w,
    if dw_redis_up w then
      match dw_entry w k with
      | Some (x, _) =>
          if bool_decide (x = v) then (ROk 1, w <| dw_redis ::= delete k |>) else (ROk 0, w)
      | None => (ROk 0, w)
      end
    else (refused, w);
  redis_publish := λ _ _ w, (ROk 0, w);
  redis_ping := λ w, (if dw_redis_up w then None else Some "connection refused", w);
  l1_get := λ k w, (dw_l1 w !! k, w);
  l1_set := λ k v _ _ w, w <| dw_l1 ::= <[k := v]> |>;
  l1_wait := λ w, w;
  l1_del := λ k w, w <| dw_l1 ::= delete k |>;
  conn := nat;
  sql_exec := λ c q args w,
    if dw_sql_up w then (inr (inr 1), (dw_run q args w) <| dw_exec ::= (λ l, l ++ [(c, q, args)]) |>)
    else (inl "connection refused", w);
  sql_query_row := λ _ _ args w,
    (if dw_sql_up w then match dw_rows w !! dw_key args with Some r => RowOk r | None => RowNone end
     else RowErr "connection refused", w);
  sql_query := λ _ _ _ w, (if dw_sql_up w then inr ([], None) else inl "connection refused", w);
  sql_ping := λ _ w, (if dw_sql_up w then None else Some "connection refused", w);
  sql_close := λ _ w, w;
  mongo_find := λ u w, (match dw_mongo w !! u with Some p => MOk p | None => MNone end, w);
  mongo_upsert := λ p w, (None, w <| dw_mongo ::= <[p_UserID p := p]> |>);
  es_index := λ i d b w, (None, w <| dw_es ::= (λ l, l ++ [(i, d, b)]) |>);
  es_search := λ _ _ w, (match dw_search w with Some t => inr t | None => inl "connection refused" end, w);
  kafka_write := λ t m w,
    if dw_kafka_up w then (None, w <| dw_kafka ::= (λ l, l ++ [(t, m)]) |>)
    else (Some "connection refused", w);
  kafka_dial := λ _ w, (if dw_kafka_up w then None else Some "connection refused", w);
  kafka_fetch := λ w, match dw_inbox w with
    | m :: l => (inr m, w <| dw_inbox := l |>) | [] => (inl "no message", w) end;
  kafka_commit := λ m w, (None, w <| dw_committed ::= (λ l, l ++ [m]) |>);
  rate_wait := λ w, (None, w);
  ctx_err := λ w, (None, w);
  ctx_wait := λ d w, (None, w <| dw_time ::= (λ t, t + Z.max 0 d) |>);
  bcrypt_hash := λ pw w, (inr ("hash:" +:+ pw), w);
  bcrypt_compare := λ h pw, bool_decide (h = "hash:" +:+ pw);
  jwt_sign := λ secret uid name iat exp, inr (bits (encode (secret, uid, name, exp)));
  jwt_parse := λ secret token now,
    match unbits token ≫= decode with
    | Some (secret', uid, name, exp) =>
        if bool_decide (secret = secret') && (now <? exp * Second)
        then Some (mkClaims (Some (f64_of_Z uid)) (Some name)) else None
    | None => None
    end;
  f64_uint64_out := λ _, 2 ^ 63
}.

#[export] Instance demo_views : Views := {
  w_time := dw_time;
  r_entry := dw_entry;
  l1_view := λ w k, dw_l1 w !! k
}.

(** ** The laws *)

Lemma dw_entry_put_ne k v ttl w k' : k' ≠ k → dw_entry (dw_put k v ttl w) k' = dw_entry w k'.
Proof. intros Hne. unfold dw_entry, dw_put. simpl. by rewrite lookup_insert_ne. Qed.

Lemma dw_entry_delete_ne k w k' : k' ≠ k → dw_entry (w <| dw_redis ::= delete k |>) k' = dw_entry w k'.
Proof. intros Hne. unfold dw_entry. simpl. by rewrite lookup_delete_ne. Qed.

Lemma dw_entry_delete k w : dw_entry (w <| dw_redis ::= delete k |>) k = None.
Proof. unfold dw_entry. simpl. by rewrite lookup_delete_eq. Qed.

Lemma dw_put_written k v ttl w : written w (dw_put k v ttl w) k v ttl.
Proof.
  exists (dw_time w + ttl). split; [simpl; lia|]. cbn [r_entry demo_views].
  unfold dw_entry, dw_put. simpl. rewrite lookup_insert_eq.
  destruct (Z.ltb_spec (dw_time w) (dw_time w + ttl)); [by left|by right].
Qed.

Ltac demo_cbn := cbn [W clk_now clk_sleep rand_read redis_get redis_set redis_setnx redis_del redis_eval
  l1_get l1_set l1_wait l1_del demo_env w_time r_entry l1_view demo_views fst snd] in *.
Ltac demo_up w := demo_cbn; try destruct (dw_redis_up w) eqn:?.

#[export] Instance demo_redis_laws : RedisLaws.
Proof.
  split; intros; demo_up w; cbn [fst snd]; try (simpl; lia); try (intros ? ?; by left);
    try (intros ?; by left); try done.
  - unfold r_view. cbn [r_entry demo_views]. destruct (dw_entry w k) as [[x e]|]; [|done]. cbn. congruence.
  - intros k' Hk. left. by apply dw_entry_put_ne.
  - left. apply dw_put_written.
  - right. split; [done|by left].
  - by destruct (dw_entry w k); cbn.
  - intros k' Hk. destruct (dw_entry w k); [by left|]. left. by apply dw_entry_put_ne.
  - destruct (dw_entry w k) as [[]|] eqn:E; cbn; [by left|].
    split; [unfold free; cbn; rewrite E; intros x e [=]|apply dw_put_written].
  - left. by left.
  - intros k' Hk. left. by apply dw_entry_delete_ne.
  - left. apply dw_entry_delete.
  - right. split; [done|by left].
  - destruct (dw_entry w k) as [[x e]|]; [|done]. by case_bool_decide.
  - destruct (dw_entry w k) as [[x e]|]; [|intros ??; by left]. case_bool_decide; [|intros ??; by left].
    intros k' Hk. left. by apply dw_entry_delete_ne.
  - unfold r_view. cbn [r_entry demo_views]. destruct (dw_entry w k) as [[x e]|] eqn:E; cbn; [|right; split; [by right|by left]].
    case_bool_decide; cbn.
    + left. split; [by subst|apply dw_entry_delete].
    + right. split; [right; congruence|by left].
  - right. split; [by left|by left].
Qed.

#[export] Instance demo_l1_laws : L1Laws.
Proof.
  split; intros; demo_cbn; unfold l1_frame, l1_shrinks; cbn; try done; try (by left).
  - left. by rewrite lookup_insert_ne.
  - left. by rewrite lookup_insert_eq.
  - intros k0. destruct (decide (k0 = k)) as [->|]; [right; by rewrite lookup_delete_eq|left; by rewrite lookup_delete_ne].
  - by rewrite lookup_delete_eq.
Qed.

#[export] Instance demo_clock_laws : ClockLaws.
Proof. split; intros; cbn; lia. Qed.

#[export] Instance demo_map_laws : MapLaws.
Proof. by split. Qed.

Lemma dw_sleep_frame d w : redis_frame w (clk_sleep d w).
Proof.
  intros k. unfold only_expiry. cbn. unfold dw_entry. cbn. destruct (dw_redis w !! k) as [[v e]|]; [|by left].
  destruct (Z.ltb_spec (dw_time w) e), (Z.ltb_spec (dw_time w + Z.max 0 d) e); try (by left); try lia.
  right. by exists v, e.
Qed.

#[export] Instance demo_frame_laws : FrameLaws.
Proof.
  split; intros; try (split; [|intros ?; by left]); try apply dw_sleep_frame;
    demo_up w; try (intros ?; by left); try (destruct (dw_entry w k); intros ?; by left).
Qed.

(** A statement changes no cache and appends to the executed ones. *)
Lemma dw_run_same q args w :
  dw_time (dw_run q args w) = dw_time w ∧ dw_redis (dw_run q args w) = dw_redis w ∧
  dw_l1 (dw_run q args w) = dw_l1 w ∧ dw_exec (dw_run q args w) = dw_exec w ∧
  dw_kafka (dw_run q args w) = dw_kafka w.
Proof. unfold dw_run, dw_upsert. destruct (hasPrefix _ q); [|done]. by repeat case_match. Qed.

Lemma dw_entry_same (w w' : dworld) k :
  dw_time w' = dw_time w → dw_redis w' = dw_redis w → dw_entry w' k = dw_entry w k.
Proof. unfold dw_entry. by intros -> ->. Qed.

#[export] Instance demo_service_frames : ServiceFrames.
Proof.
  split; intros; demo_cbn; cbn [sql_exec sql_query_row kafka_write es_index demo_env fst snd].
  - repeat case_match; intros ?; by left.
  - destruct (dw_sql_up w); [|by split; intros ?; left].
    destruct (dw_run_same q args w) as (E1 & E2 & E3 & _). split; intros k; left; [|by cbn; rewrite E3].
    by apply dw_entry_same.
  - by split; intros ?; left.
  - destruct (dw_kafka_up w); by split; intros ?; left.
  - by split; intros ?; left.
Qed.

#[export] Instance demo_journal : Journal := {
  executed := λ w c q args, (c, q, args) ∈ dw_exec w;
  delivered := λ w t m, (t, m) ∈ dw_kafka w
}.

Lemma demo_journal_le (w w' : dworld) l l' :
  dw_exec w' = dw_exec w ++ l → dw_kafka w' = dw_kafka w ++ l' → journal_le (w : W) w'.
Proof.
  intros E1 E2. split; cbn; intros; rewrite ?E1, ?E2; apply elem_of_app; by left.
Qed.

Ltac demo_journal_step :=
  apply demo_journal_le with [] []; cbn; by rewrite ?app_nil_r.

#[export] Instance demo_journal_laws : JournalLaws.
Proof.
  split; intros; demo_cbn; cbn [sql_exec kafka_write demo_env fst snd] in *;
    repeat (case_match; cbn [fst snd] in * ); try done; try demo_journal_step.
  - destruct (dw_run_same q args w) as (_ & _ & _ & E1 & E2).
    eapply demo_journal_le with [_] []; cbn; rewrite ?E1, ?E2, ?app_nil_r; reflexivity.
  - destruct (dw_run_same q args w) as (_ & _ & _ & E1 & _). cbn. rewrite E1.
    apply elem_of_app; right. by apply list_elem_of_singleton.
  - by eapply demo_journal_le with [] [_]; [cbn; by rewrite app_nil_r|].
  - cbn. apply elem_of_app; right. by apply list_elem_of_singleton.
Qed.

(** An idle process over an empty world with every service up. *)
Definition demo_w : dworld :=
  mkDW 0 "abcdefgh" ∅ true ∅ ∅ true [] ∅ [] [] true [] [] None.

Definition demo_cache : MultiLevelCache :=
  mkMLC true true (30 * Second) (30 * Minute) f64_zero (60 * Second) "cache:lock:" (10 * Second)
    (50 * Millisecond) 0 0 0 0 0 false.

Definition demo_rwdb : RWDB := mkRWDB _ (Some 0%nat) [1%nat; 2%nat] 0.

Definition demo_with (w : dworld) : Sys :=
  mkSys _ w CB.demo (RL.NewWriteRateLimiter 5000 5000 0) (HK.NewHotKeyDetector 10 10 100)
    demo_cache (Some demo_rwdb) (Some demo_rwdb) 0 "abcdefgh" 0 0 [] false false [].

Definition demo_sys : Sys := demo_with demo_w.
