(* ===== verification/Config.v ===== *)
(** * Configuration ([internal/config/config.go])

    The configuration structs and their defaults, [Load] with the file
    system and the YAML decoder as parameters, and the cache lifetimes with
    their random jitter. *)

From S2P Require Export State.

Module Config.

Record ServerConfig := { Port : Z; Mode : string }.
Record L1CacheConfig := { MaxEntries : Z; L1_TTLSeconds : Z; RefreshSeconds : Z }.
Record L2CacheConfig := {
  L2_Addresses : list string; L2_Password : string; PoolSize : Z; MinIdle : Z;
  DialTimeoutMs : Z; ReadTimeoutMs : Z; L2_TTLSeconds : Z
}.
Record CacheConfig := { L1 : L1CacheConfig; L2 : L2CacheConfig; JitterPercent : float64; NullTTLSeconds : Z }.
Record DatabaseConfig := {
  db_Enabled : bool; Driver : string; DSN : string; ReplicaDSNs : list string;
  MaxOpenConns : Z; MaxIdleConns : Z; ConnMaxLifetimeSecs : Z
}.
Record MongoConfig := {
  mongo_Enabled : bool; URI : string; mongo_Username : string; mongo_Password : string; Database : string;
  MaxPoolSize : Z; MinPoolSize : Z; ConnectTimeoutSeconds : Z; ReadPreference : string
}.
Record ESConfig := { es_Enabled : bool; es_Addresses : list string; es_Username : string; es_Password : string }.
Record MultiDatabaseConfig := {
  MySQL : DatabaseConfig; Postgres : DatabaseConfig; MongoDB : MongoConfig; Elasticsearch : ESConfig
}.
Record ProducerConfig := {
  prod_Topic : string; Acks : string; Compression : string; BatchSize : Z; LingerMs : Z;
  prod_MaxRetries : Z; Idempotent : bool
}.
Record ConsumerConfig := {
  GroupID : string; cons_Topic : string; DLQTopic : string; cons_MaxRetries : Z; RateLimit : Z;
  Concurrency : Z; MinBytes : Z; MaxBytes : Z; StartFromLatest : bool
}.
Record KafkaConfig := { Brokers : list string; Producer : ProducerConfig; Consumer : ConsumerConfig }.
Record CircuitBreakerConfig := {
  MaxRequests : Z; IntervalSeconds : Z; TimeoutSeconds : Z; FailureThreshold : float64; SlowCallThresholdMs : Z
}.
Record RateLimiterConfig := { BucketCapacity : Z; RefillRate : Z }.
Record HotKeyConfig := { WindowSeconds : Z; Slots : Z; Threshold : Z }.
Record TraceConfig := { trace_Enabled : bool; Exporter : string }.
Record MetricsConfig := { metrics_Enabled : bool }.
Record ObservabilityConfig := { Trace : TraceConfig; Metrics : MetricsConfig }.
Record LoggingConfig := {
  Level : string; Format : string; Output : string; MaxSizeMB : Z; MaxBackups : Z; MaxAgeDays : Z; Compress : bool
}.
Record SwaggerConfig := { swagger_Enabled : bool }.
Record JWTConfig := { Secret : string; ExpireSeconds : Z }.
Record CORSConfig := {
  cors_Enabled : bool; AllowedOrigins : list string; AllowedMethods : list string; AllowedHeaders : list string;
  ExposedHeaders : list string; AllowCredentials : bool; MaxAge : Z
}.

Record Config := {
  Server : ServerConfig; Cache : CacheConfig; Databases : MultiDatabaseConfig; Kafka : KafkaConfig;
  CircuitBreaker : CircuitBreakerConfig; RateLimiter : RateLimiterConfig; HotKey : HotKeyConfig;
  Observability : ObservabilityConfig; Logging : LoggingConfig; Swagger : SwaggerConfig;
  CORS : CORSConfig; JWT : JWTConfig
}.

(** 0.2 and 0.5 as the compiler rounds them. *)
Definition f64_fifth : float64 := f64_div (f64_of_Z 1) (f64_of_Z 5).

Definition defaultConfig : Config := {|
  Server := {| Port := 8080; Mode := "release" |};
  Cache := {| L1 := {| MaxEntries := 1000000; L1_TTLSeconds := 30; RefreshSeconds := 25 |};
    L2 := {| L2_Addresses := ["127.0.0.1:6379"]; L2_Password := ""; PoolSize := 100; MinIdle := 10;
      DialTimeoutMs := 3000; ReadTimeoutMs := 1000; L2_TTLSeconds := 0 |};
    JitterPercent := f64_fifth; NullTTLSeconds := 60 |};
  Databases := {|
    MySQL := {| db_Enabled := true; Driver := "mysql"; DSN := ""; ReplicaDSNs := []; MaxOpenConns := 50;
      MaxIdleConns := 10; ConnMaxLifetimeSecs := 1800 |};
    Postgres := {| db_Enabled := true; Driver := "postgres"; DSN := ""; ReplicaDSNs := []; MaxOpenConns := 30;
      MaxIdleConns := 5; ConnMaxLifetimeSecs := 1800 |};
    MongoDB := {| mongo_Enabled := true; URI := ""; mongo_Username := ""; mongo_Password := ""; Database := "";
      MaxPoolSize := 100; MinPoolSize := 10; ConnectTimeoutSeconds := 10; ReadPreference := "" |};
    Elasticsearch := {| es_Enabled := true; es_Addresses := []; es_Username := ""; es_Password := "" |} |};
  Kafka := {| Brokers := [];
    Producer := {| prod_Topic := "order-create"; Acks := "all"; Compression := "lz4"; BatchSize := 16384;
      LingerMs := 5; prod_MaxRetries := 3; Idempotent := true |};
    Consumer := {| GroupID := "order-consumer-group"; cons_Topic := "order-create"; DLQTopic := "order-create.dlq";
      cons_MaxRetries := 3; RateLimit := 2000; Concurrency := 8; MinBytes := 0; MaxBytes := 0;
      StartFromLatest := false |} |};
  CircuitBreaker := {| MaxRequests := 5; IntervalSeconds := 60; TimeoutSeconds := 30;
    FailureThreshold := CB.f64_half; SlowCallThresholdMs := 1000 |};
  RateLimiter := {| BucketCapacity := 5000; RefillRate := 5000 |};
  HotKey := {| WindowSeconds := 10; Slots := 10; Threshold := 100 |};
  Observability := {| Trace := {| trace_Enabled := false; Exporter := "" |};
    Metrics := {| metrics_Enabled := false |} |};
  Logging := {| Level := "debug"; Format := "structured"; Output := ""; MaxSizeMB := 0; MaxBackups := 0;
    MaxAgeDays := 0; Compress := false |};
  Swagger := {| swagger_Enabled := false |};
  CORS := {| cors_Enabled := false; AllowedOrigins := ["*"];
    AllowedMethods := ["GET"; "POST"; "PUT"; "PATCH"; "DELETE"; "OPTIONS"];
    AllowedHeaders := ["Origin"; "Content-Type"; "Accept"; "Authorization"; "X-Trace-Id"; "X-Request-ID"];
    ExposedHeaders := ["Content-Length"; "X-Trace-Id"]; AllowCredentials := true; MaxAge := 86400 |};
  JWT := {| Secret := "change-me-in-production"; ExpireSeconds := 7200 |}
|}.

(** What [os.ReadFile] answers, and [yaml.Unmarshal] into a given config. *)
Inductive file_res := FileOk (data : string) | FileMissing | FileErr (msg : string).

Definition Load (readFile : string → file_res) (yamlUnmarshal : string → Config → string + Config)
    (path : string) : error + Config :=
  match readFile path with
  | FileMissing => inr defaultConfig
  | FileErr e => inl (Errorf ("read config: " +:+ e))
  | FileOk data =>
      match yamlUnmarshal data defaultConfig with
      | inl e => inl (Errorf ("parse config: " +:+ e))
      | inr cfg => inr cfg
      end
  end.

(** ** Jitter *)

(** [binary.LittleEndian.Uint64]; missing bytes count as zero. *)
Fixpoint le_uint (s : string) : Z :=
  match s with "" => 0 | String c s => Z.of_N (N_of_ascii c) + 256 * le_uint s end.

(** [int64(f)]: toward zero, and the minimum when it does not fit (amd64). *)
Definition f64_to_int64 (f : float64) : Z :=
  match f64_trunc f with
  | Some z => if (int64_min <=? z) && (z <=? int64_max) then z else int64_min
  | None => int64_min
  end.

(** The arithmetic of [JitterDuration] on the random bits. *)
Definition jitter (base : Z) (pct : float64) (u : Z) : Z :=
  let n := f64_div (f64_of_Z (Z.shiftr u 11)) (f64_of_Z (2 ^ 53)) in
  let delta := f64_mul (f64_of_Z base) pct in
  f64_to_int64 (f64_add (f64_sub (f64_of_Z base) delta)
    (f64_mul (f64_mul (f64_of_Z 2) delta) n)).

Definition JitterDuration `{Env} (base : Z) (pct : float64) : M Z :=
  if f64_leb pct f64_zero then mret base
  else b ← world (rand_read 8); mret (jitter base pct (le_uint b)).

Definition L1TTL `{Env} (c : CacheConfig) : M Z :=
  let base := dur_of (L1_TTLSeconds (L1 c)) Second in
  if f64_leb (JitterPercent c) f64_zero then mret base else JitterDuration base (JitterPercent c).

Definition L2TTL `{Env} (c : CacheConfig) : M Z :=
  let base := dur_of (L2_TTLSeconds (L2 c)) Second in
  let base := if base <=? 0 then 30 * Minute else base in
  JitterDuration base (JitterPercent c).

Definition NullTTL (c : CacheConfig) : Z := dur_of (NullTTLSeconds c) Second.

(** ** Bounds *)

Lemma le_uint_range s n : String.length s = n → 0 <= le_uint s < 256 ^ Z.of_nat n.
Proof.
  revert n. induction s as [|c s IH]; intros n <-; [simpl; lia|]. cbn [le_uint String.length].
  specialize (IH _ eq_refl). rewrite Nat2Z.inj_succ, Z.pow_succ_r by lia.
  pose proof (N_ascii_bounded c). lia.
Qed.

(** [d = ⌊base * pct⌋], in units of a nanosecond. *)
Definition spread (base : Z) (pct : float64) : Z := base * f64_val pct / f64_unit.

(** The scaled random factor stays in [0, 1]. *)
Lemma unit_random u :
  0 <= u < 2 ^ 64 →
  let n := f64_div (f64_of_Z (Z.shiftr u 11)) (f64_of_Z (2 ^ 53)) in
  f64_fin n ∧ 0 <= f64_val n <= f64_unit.
Proof.
  intros Hu n. pose proof f64_unit_pos as Hp.
  assert (Hs : 0 <= Z.shiftr u 11 <= 2 ^ 53).
  { rewrite Z.shiftr_div_pow2 by lia. split; [apply Z.div_pos; lia|].
    apply Z.div_le_upper_bound; lia. }
  destruct (f64_of_Z_exact (Z.shiftr u 11)) as [F1 V1]; [lia|].
  destruct (f64_of_Z_exact (2 ^ 53)) as [F2 V2]; [lia|].
  pose proof (f64_div_rounds _ _ F1 F2 ltac:(nia)) as Hr. rewrite V1, V2 in Hr. fold n in Hr.
  destruct (f64_int 0) as (z & Fz & Vz); [lia|]. destruct (f64_int 1) as (o & Fo & Vo); [lia|].
  destruct (rounds_fin _ _ _ z o Hr Fz Fo) as [Fn Bn]; [nia..|].
  split; [done|]. lia.
Qed.

(** Between [⌊base·pct⌋] and that plus one nanosecond. *)
Lemma delta_bounds base pct :
  0 <= base <= 2 ^ 51 → f64_fin pct → 0 <= f64_val pct <= f64_unit →
  let delta := f64_mul (f64_of_Z base) pct in
  let d := spread base pct in
  0 <= d <= base ∧ f64_fin delta ∧
  d * f64_unit <= f64_val delta <= (d + 1) * f64_unit ∧ f64_val delta <= base * f64_unit.
Proof.
  intros Hb Fp Hp delta d. pose proof f64_unit_pos as Hu.
  destruct (f64_of_Z_exact base) as [Fb Vb]; [lia|].
  pose proof (f64_mul_rounds _ _ Fb Fp) as Hr. fold delta in Hr. rewrite Vb in Hr.
  assert (Hr' : rounds (base * f64_val pct) 1 delta).
  { eapply rounds_eq; [..|exact Hr]; lia || ring. }
  assert (Hd : d * f64_unit <= base * f64_val pct < (d + 1) * f64_unit).
  { unfold d, spread. pose proof (Z.mul_div_le (base * f64_val pct) f64_unit Hu).
    pose proof (Z.mul_succ_div_gt (base * f64_val pct) f64_unit Hu). lia. }
  assert (0 <= d <= base).
  { unfold d, spread. split; [apply Z.div_pos; nia|]. apply Z.div_le_upper_bound; nia. }
  destruct (f64_int d) as (x & Fx & Vx); [lia|].
  destruct (f64_int (d + 1)) as (y & Fy & Vy); [lia|].
  destruct (rounds_fin _ _ _ x y Hr' Fx Fy) as [Fd Bd]; [lia..|].
  split_and!; try done; try lia. rewrite <-Vb. eapply rounds_le; [exact Hr'|done|]. rewrite Vb. nia.
Qed.

(** An operation whose exact result lies between two integers. *)
Lemma rounds_between N r lo hi :
  rounds N 1 r → Z.abs lo <= 2 ^ 53 → Z.abs hi <= 2 ^ 53 →
  lo * f64_unit <= N <= hi * f64_unit →
  f64_fin r ∧ lo * f64_unit <= f64_val r <= hi * f64_unit.
Proof.
  intros Hr Hl Hh Hb. destruct (f64_int lo) as (x & Fx & Vx); [done|].
  destruct (f64_int hi) as (y & Fy & Vy); [done|]. rewrite <-Vx, <-Vy in *.
  apply (rounds_fin N 1 r x y); [done..|lia|lia].
Qed.

(** Jitter stays within its announced range: for a base lifetime up to
    2^51 ns (26 days) and a ratio in [0, 1], whatever the random bytes, the
    jittered lifetime is a nonnegative number of nanoseconds within
    [⌊base·pct⌋] of the base, up to two nanoseconds of float rounding. *)
Theorem jitter_bounds base pct u :
  0 <= base <= 2 ^ 51 → f64_fin pct → 0 <= f64_val pct <= f64_unit → 0 <= u < 2 ^ 64 →
  let d := spread base pct in
  0 <= jitter base pct u ∧
  base - d - 1 <= jitter base pct u <= base + d + 2.
Proof.
  intros Hb Fp Hp Hu d. pose proof f64_unit_pos as Hpos.
  destruct (delta_bounds base pct Hb Fp Hp) as (Hd & Fd & Bd & Bd'). fold d in Hd, Bd.
  destruct (unit_random u Hu) as (Fn & Bn).
  unfold jitter. set (delta := f64_mul (f64_of_Z base) pct) in *. set (n := f64_div _ _) in *.
  destruct (f64_of_Z_exact base) as [Fb Vb]; [lia|].
  destruct (f64_of_Z_exact 2) as [F2 V2]; [lia|].
  (* base - delta *)
  pose proof (f64_sub_rounds _ _ Fb Fd) as Ha. rewrite Vb in Ha.
  destruct (rounds_between _ _ (Z.max 0 (base - d - 1)) (base - d) Ha) as (Fa & Ba); [lia..|].
  (* 2 * delta *)
  pose proof (f64_mul_rounds _ _ F2 Fd) as Ht. rewrite V2 in Ht.
  assert (Ht' : rounds (2 * f64_val delta) 1 (f64_mul (f64_of_Z 2) delta)).
  { eapply rounds_eq; [..|exact Ht]; lia || ring. }
  destruct (rounds_between _ _ 0 (2 * (d + 1)) Ht') as (Ft & Bt); [lia..|].
  (* ... * n *)
  pose proof (f64_mul_rounds _ _ Ft Fn) as Hm.
  set (t := f64_mul (f64_of_Z 2) delta) in *.
  assert (Hm' : f64_fin (f64_mul t n) ∧ 0 <= f64_val (f64_mul t n) <= 2 * (d + 1) * f64_unit).
  { destruct (f64_int 0) as (x & Fx & Vx); [lia|]. destruct (f64_int (2 * (d + 1))) as (y & Fy & Vy); [lia|].
    destruct (rounds_fin _ _ _ x y Hm Fx Fy) as [Fm Bm]; [nia..|]. split; [done|lia]. }
  destruct Hm' as [Fm Bm].
  pose proof (f64_add_rounds _ _ Fa Fm) as Hr.
  destruct (rounds_between _ _ (Z.max 0 (base - d - 1)) (base + d + 2) Hr) as (Fr & Br); [lia..|].
  set (r := f64_add _ _) in *. unfold f64_to_int64. rewrite f64_trunc_floor by (done || lia).
  assert (H1 : Z.max 0 (base - d - 1) <= f64_val r / f64_unit) by (apply Z.div_le_lower_bound; lia).
  assert (H2 : f64_val r / f64_unit <= base + d + 2) by (apply Z.div_le_upper_bound; lia).
  assert (Hin : (int64_min <=? f64_val r / f64_unit) && (f64_val r / f64_unit <=? int64_max) = true).
  { apply andb_true_iff. rewrite !Z.leb_le. i64. }
  rewrite Hin. lia.
Qed.

(** The default L2 lifetime, 30 minutes with 20 percent. *)
Lemma jitter_bounds_witness :
  let t := jitter (30 * Minute) f64_fifth (2 ^ 64 - 1) in
  24 * Minute - 1 <= t <= 36 * Minute + 2.
Proof.
  destruct (jitter_bounds (30 * Minute) f64_fifth (2 ^ 64 - 1)) as [_ H].
  - vm_compute. split; discriminate.
  - vm_compute. intuition congruence.
  - vm_compute. split; discriminate.
  - lia.
  - assert (E : spread (30 * Minute) f64_fifth = 6 * Minute) by (vm_compute; reflexivity).
    rewrite E in H. unfold Minute, Second in *. lia.
Defined.

End Config.
