(* ===== verification/Logging.v ===== *)
(** * The logger of the process ([initLogger] of [cmd/server/main.go])

    What the configuration makes of the level, the encoding and the outputs
    of zap, with the rotation of lumberjack; the directory of a log file is
    found and created as [path/filepath] and [os] do.  What the libraries then
    do with a line is theirs. *)

From S2P Require Export Config.

Module Logging.

(** ** [path/filepath], Unix *)

(** The elements between the slashes. *)
Fixpoint elements_go (s cur : string) : list string :=
  match s with
  | EmptyString => [cur]
  | String c s => if bool_decide (c = "/"%char) then cur :: elements_go s "" else elements_go s (cur +:+ String c "")
  end.
Definition elements (s : string) : list string := elements_go s "".

(** One element; [out]: what is kept, the last first. *)
Definition clean_step (rooted : bool) (out : list string) (e : string) : list string :=
  if bool_decide (e ∈ [""; "."]) then out
  else if bool_decide (e = "..") then
    match out with
    | top :: rest => if bool_decide (top = "..") then ".." :: out else rest
    | [] => if rooted then [] else [".."]
    end
  else e :: out.

(** [filepath.Clean] *)
Definition Clean (path : string) : string :=
  let rooted := hasPrefix "/" path in
  let out := Text.join "/" (rev (foldl (clean_step rooted) [] (elements path))) in
  if rooted then "/" +:+ out else if bool_decide (out = "") then "." else out.

(** The path up to its last slash, which it includes. *)
Fixpoint upto_slash (s : string) : string :=
  match s with
  | EmptyString => ""
  | String c s =>
      let t := upto_slash s in
      if bool_decide (c = "/"%char) || negb (bool_decide (t = "")) then String c t else ""
  end.

(** [filepath.Dir] *)
Definition Dir (path : string) : string := Clean (upto_slash path).

(** ** [initLogger] *)

Inductive level := DebugLevel | InfoLevel | WarnLevel | ErrorLevel.
#[export] Instance level_eq_dec : EqDecision level.
Proof. solve_decision. Defined.

Inductive encoder := JSONEncoder | ConsoleEncoder.          (* the latter with colours *)

Record rotation := { Filename : string; MaxSize : Z; MaxBackups : Z; MaxAge : Z; Compress : bool }.
Inductive sink := Stderr | File (r : rotation).

Record logger := {
  lg_level : level; lg_encoder : encoder; lg_messageKey : string; lg_sinks : list sink; lg_stacktrace : level
}.

Definition zapLevel (lc : Config.LoggingConfig) : level :=
  let l := Config.Level lc in
  if bool_decide (l = "debug") then DebugLevel
  else if bool_decide (l = "info") then InfoLevel
  else if bool_decide (l = "warn") then WarnLevel
  else if bool_decide (l = "error") then ErrorLevel
  else InfoLevel.

(** A limit of the rotation, and what stands in for one not set. *)
Definition or_default (n default : Z) : Z := if n <=? 0 then default else n.

Definition rotated (lc : Config.LoggingConfig) : rotation := {|
  Filename := Config.Output lc; MaxSize := or_default (Config.MaxSizeMB lc) 100;
  MaxBackups := or_default (Config.MaxBackups lc) 7; MaxAge := or_default (Config.MaxAgeDays lc) 30;
  Compress := Config.Compress lc |}.

Section init.
Context `{EN : Env}.
Context (os_MkdirAll : string → Z → W → option string * W).

(** A directory that cannot be created is only reported. *)
Definition initLogger (lc : Config.LoggingConfig) : M logger :=
  let enc := if bool_decide (Config.Format lc = "structured") then JSONEncoder else ConsoleEncoder in
  writers ← (if bool_decide (Config.Output lc = "") then mret [Stderr]
    else
      let dir := Dir (Config.Output lc) in
      _ ← when (negb (bool_decide (dir = "."))) (_ ← world (os_MkdirAll dir 493); mret tt);   (* 0o755 *)
      mret [Stderr; File (rotated lc)]);
  mret {| lg_level := zapLevel lc; lg_encoder := enc; lg_messageKey := "msg"; lg_sinks := writers; lg_stacktrace := ErrorLevel |}.

(** Whatever the configuration and the file system: logging starts, writes
    to the standard error and to at most one file, which it rotates within
    limits that are positive and those configured where these are; and a
    level that is none of the four is info. *)
Theorem logger_starts lc s :
  ∃ lg s', initLogger lc s = (Val lg, s') ∧
    (Config.Output lc = "" → lg_sinks lg = [Stderr] ∧ s' = s) ∧
    (Config.Output lc ≠ "" → lg_sinks lg = [Stderr; File (rotated lc)] ∧
      s' = if bool_decide (Dir (Config.Output lc) = ".") then s
           else s <| s_w := (os_MkdirAll (Dir (Config.Output lc)) 493 (s_w s)).2 |>) ∧
    (∀ f n, (f, n) ∈ [(MaxSize (rotated lc), Config.MaxSizeMB lc); (MaxBackups (rotated lc), Config.MaxBackups lc);
        (MaxAge (rotated lc), Config.MaxAgeDays lc)] → 0 < f ∧ (0 < n → f = n)) ∧
    (Config.Level lc ∉ ["debug"; "warn"; "error"] → lg_level lg = InfoLevel).
Proof.
  assert (Hd : ∀ n d, 0 < d → 0 < or_default n d ∧ (0 < n → or_default n d = n)).
  { intros n d ?. unfold or_default. destruct (Z.leb_spec n 0); split; intros; lia. }
  assert (Hl : Config.Level lc ∉ ["debug"; "warn"; "error"] → zapLevel lc = InfoLevel).
  { intros Hl. unfold zapLevel. repeat (let E := fresh in case_bool_decide as E; [first [done|exfalso; apply Hl; rewrite E; set_unfold; auto]|]). done. }
  assert (Hr : ∀ f n, (f, n) ∈ [(MaxSize (rotated lc), Config.MaxSizeMB lc); (MaxBackups (rotated lc), Config.MaxBackups lc);
    (MaxAge (rotated lc), Config.MaxAgeDays lc)] → 0 < f ∧ (0 < n → f = n)).
  { intros f n Hin. set_unfold in Hin. destruct Hin as [[= -> ->]|[[= -> ->]|[[= -> ->]|[]]]]; by apply Hd. }
  unfold initLogger. destruct (bool_decide_reflect (Config.Output lc = "")) as [E|E].
  - eexists _, _. split; [reflexivity|]. done.
  - rewrite !bind_run. destruct (bool_decide (Dir (Config.Output lc) = ".")) eqn:Ed; cbn [negb when];
      [|rewrite bind_run, world_run]; (eexists _, _; split; [reflexivity|]); done.
Qed.

End init.

(** The directories of some outputs. *)
Example dir_of_log : Dir "logs/app.log" = "logs" ∧ Dir "app.log" = "." ∧ Dir "/var//log/./x/../app.log" = "/var/log" ∧
  Dir "../a/../../app.log" = "../.." ∧ Dir "/app.log" = "/".
Proof. by vm_compute. Qed.

End Logging.
