(* ===== verification/Lock.v ===== *)
(** * Distributed lock ([internal/lock/distributed_lock.go])

    A Redis key set with [SETNX] and a lifetime, holding a token that only
    its owner knows, and removed by a compare-and-delete script. *)

From S2P Require Export Laws DemoWorld.

Module Lock.
Section lock.
Context `{Env}.

(** [hex.EncodeToString] *)
Definition hex_digit (n : N) : ascii :=
  if (n <? 10)%N then ascii_of_N (48 + n) else ascii_of_N (87 + n).

Fixpoint hexEncode (s : string) : string :=
  match s with
  | "" => ""
  | String c s =>
      String (hex_digit (N_of_ascii c / 16)) (String (hex_digit (N_of_ascii c mod 16)) (hexEncode s))
  end.

Definition randomHex (n : nat) : M string :=
  b ← world (rand_read (n / 2 + 1)); mret (str_take n (hexEncode b)).

Definition retryInterval : Z := 50 * Millisecond.

(** [waitTimeout == 0 || time.Now().After(deadline)] *)
Definition out_of_time (waitTimeout deadline : Z) : M bool :=
  if waitTimeout =? 0 then mret true else now ← Now; mret (deadline <? now).

(** The retry loop; the token, or an error. *)
Fixpoint lock_loop (fuel : nat) (key token : string) (ttl waitTimeout deadline : Z) : M (string * option error) :=
  match fuel with
  | O => unfinished
  | S fuel =>
      r ← world (redis_setnx key token ttl);
      match r with
      | RErr e => mret (EmptyString, Some (Errorf ("redis setnx: " +:+ e)))
      | RNil => mret (EmptyString, Some (Errorf "redis setnx: redis: nil"))
      | ROk true => mret (token, None)
      | ROk false =>
          late ← out_of_time waitTimeout deadline;
          if late : bool then mret (EmptyString, Some (Errorf ("acquire lock timeout: " +:+ key)))
          else _ ← Sleep retryInterval; lock_loop fuel key token ttl waitTimeout deadline
      end
  end.

(** Iterations that suffice when every sleep takes its 50 ms. *)
Definition lock_fuel (waitTimeout : Z) : nat := Z.to_nat (waitTimeout / retryInterval + 3).

Definition Lock (key : string) (ttl waitTimeout : Z) : M (string * option error) :=
  t ← Now;
  hex ← randomHex 8;
  let token := show_Z t +:+ "-" +:+ hex in
  start ← Now;
  lock_loop (lock_fuel waitTimeout) key token ttl waitTimeout (start + waitTimeout).

Definition Unlock (key token : string) : M (option error) :=
  r ← world (redis_eval unlockScript key token);
  match r with
  | ROk _ => mret None
  | RErr e => mret (Some (Errorf ("unlock: " +:+ e)))
  | RNil => mret (Some (Errorf "unlock: redis: nil"))
  end.

(** [fn] runs between [Lock] and the deferred [Unlock]. *)
Definition WithLock (key : string) (ttl waitTimeout : Z) (fn : M (option error)) : M (option error) :=
  '(token, err) ← Lock key ttl waitTimeout;
  match err with
  | Some e => mret (Some e)
  | None => deferred (_ ← Unlock key token; mret tt) fn
  end.

(** The loop touches nothing but the outside. *)
Lemma lock_loop_world fuel key token ttl wait deadline s :
  ∃ w, (lock_loop fuel key token ttl wait deadline s).2 = s <| s_w := w |>.
Proof.
  revert s. induction fuel as [|fuel IH]; intros s; [exists (s_w s); by destruct s|].
  cbn [lock_loop]. rewrite bind_run, world_run. destruct (redis_setnx _ _ _ _) as [r w1]. cbn [fst snd].
  destruct r as [[]| |e]; [by eexists| |by eexists..].
  rewrite bind_run. unfold out_of_time. destruct (wait =? 0); [by eexists|].
  unfold Now. rewrite bind_run, world_run, ret_run. destruct (deadline <? _); [by eexists|].
  unfold Sleep. rewrite bind_run, world__run. destruct (IH (s <| s_w := clk_sleep retryInterval (clk_now w1).2 |>)) as [w E].
  exists w. exact E.
Qed.

(** ** Laws of the loop *)

Context `{!Views, !RedisLaws, !ClockLaws}.
#[local] Set Default Proof Using "All".

(** What an attempt to lock leaves behind: the entry with our token and at
    least the requested lifetime, unless it has expired since; and the entry
    was free, or had run out, when it was taken. *)
Definition acquired (w0 w : W) (key token : string) (ttl : Z) : Prop :=
  ∃ w1, w_time w0 <= w_time w1 ∧ written w1 w key token ttl ∧
    ∀ x e, r_entry w1 key = Some (x, e) → e <= w_time w.

Lemma out_of_time_spec wait deadline s :
  ∃ b w, out_of_time wait deadline s = (Val b, s <| s_w := w |>) ∧ w_time (s_w s) <= w_time w ∧
    (if b then wait = 0 ∨ deadline < w_time w else wait ≠ 0 ∧ w_time (s_w s) <= deadline).
Proof.
  unfold out_of_time. destruct (Z.eqb_spec wait 0).
  - exists true, (s_w s). rewrite ret_run. split; [by destruct s|]. split; [lia|by left].
  - unfold Now. autorewrite with hcf_rw. pose proof (clk_now_time (s_w s)).
    eexists _, _. split; [done|]. split; [lia|]. destruct (Z.ltb_spec deadline (clk_now (s_w s)).1); [right|]; lia.
Qed.

Definition timed_out (key : string) : error := Errorf ("acquire lock timeout: " +:+ key).

Lemma lock_loop_spec fuel key token ttl wait deadline s :
  match lock_loop fuel key token ttl wait deadline s with
  | (Val (t, None), s') => t = token ∧ acquired (s_w s) (s_w s') key token ttl
  | (Val (t, Some e), s') =>
      t = EmptyString ∧ (e = timed_out key → wait = 0 ∨ deadline < w_time (s_w s'))
  | (Panicked _, _) => False
  | (Unfinished, _) => True
  end.
Proof.
  revert s. induction fuel as [|fuel IH]; intros s; [done|].
  cbn [lock_loop]. rewrite bind_run, world_run.
  pose proof (redis_setnx_key key token ttl (s_w s)) as Hk.
  pose proof (redis_setnx_time key token ttl (s_w s)) as Ht.
  destruct (redis_setnx key token ttl (s_w s)) as [r w1]. cbn [fst snd] in *.
  destruct r as [[]| |e]; [| |by split; [|intros]..].
  - rewrite ret_run, s_w_set. split; [done|]. exists (s_w s). destruct Hk as [Hx Hw]. split_and!; [lia|done|done].
  - rewrite bind_run.
    destruct (out_of_time_spec wait deadline (s <| s_w := w1 |>)) as (b & w2 & -> & Hw2 & Hb).
    destruct b; [rewrite ret_run, s_w_set; by split|]. unfold Sleep. rewrite bind_run, world__run, !s_w_set in *.
    pose proof (clk_sleep_time retryInterval w2). unfold retryInterval, Millisecond in *.
    specialize (IH (s <| s_w := w2 |> <| s_w := clk_sleep (50 * 1000000) w2 |>)).
    rewrite s_w_set in IH.
    destruct (lock_loop fuel _ _ _ _ _ _) as [[[t [e|]]| |] s']; try done.
    destruct IH as (-> & w3 & Hw3 & ?). split; [done|]. exists w3. split; [lia|done].
Qed.

(** Each sleep brings the deadline 50 ms closer. *)
Lemma lock_loop_finishes fuel key token ttl wait deadline s :
  deadline - w_time (s_w s) < (Z.of_nat fuel - 1) * retryInterval → (0 < fuel)%nat →
  ∃ r s', lock_loop fuel key token ttl wait deadline s = (Val r, s').
Proof.
  revert s. induction fuel as [|fuel IH]; intros s Hf Hpos; [lia|].
  cbn [lock_loop]. rewrite bind_run, world_run.
  pose proof (redis_setnx_time key token ttl (s_w s)) as Ht.
  destruct (redis_setnx key token ttl (s_w s)) as [r w1]. cbn [fst snd] in *.
  destruct r as [[]| |e]; [by eauto| |by eauto|by eauto].
  rewrite bind_run.
  destruct (out_of_time_spec wait deadline (s <| s_w := w1 |>)) as (b & w2 & -> & Hw2 & Hb).
  rewrite s_w_set in *. destruct b; [rewrite ret_run; eauto|]. destruct Hb as [_ Hd].
  unfold Sleep. rewrite bind_run, world__run, s_w_set.
  pose proof (clk_sleep_time retryInterval w2).
  apply IH; rewrite ?s_w_set; unfold retryInterval, Millisecond in *; [nia|].
  destruct fuel; [|lia]. lia.
Qed.

(** ** Properties *)

Lemma Lock_run key ttl wait s :
  ∃ w0 w1 token, w_time (s_w s) <= (clk_now w0).1 ∧
    Lock key ttl wait s = lock_loop (lock_fuel wait) key token ttl wait ((clk_now w0).1 + wait) (s <| s_w := w1 |>) ∧
    (clk_now w0).1 <= w_time w1.
Proof.
  unfold Lock, Now, randomHex. autorewrite with hcf_rw.
  eexists _, _, _. split; [|split; [reflexivity|apply clk_now_time]].
  pose proof (clk_now_time (s_w s)). pose proof (rand_read_time (8 / 2 + 1) (clk_now (s_w s)).2).
  pose proof (clk_now_time (rand_read (8 / 2 + 1) (clk_now (s_w s)).2).2). lia.
Qed.

(** The fuel suffices for the wait that [Lock] is given. *)
Lemma lock_enough key token ttl wait t s :
  0 <= wait → t <= w_time (s_w s) →
  ∃ r s', lock_loop (lock_fuel wait) key token ttl wait (t + wait) s = (Val r, s').
Proof.
  intros Hw Ht. assert (0 <= wait / retryInterval) by (apply Z.div_pos; [lia|unfold retryInterval, Millisecond; lia]).
  apply lock_loop_finishes; unfold lock_fuel; [|lia].
  pose proof (Z.mul_succ_div_gt wait retryInterval). unfold retryInterval, Millisecond in *. nia.
Qed.

(** C29: [Lock] always returns, after at most [wait / 50ms + 3] attempts
    however often the key is taken: every sleep brings the deadline closer,
    so the loop's fuel suffices.  A returned token is on the server: the key
    was free or had run out when it was taken, and its entry holds that token
    with at least the requested lifetime, unless it has expired since.  A
    failed call returns no token, and gives up for time only when it was not
    to wait or the clock has passed the end of its wait. *)
Theorem lock_acquires key ttl wait s :
  0 <= wait →
  ∃ token err s', Lock key ttl wait s = (Val (token, err), s') ∧
    match err with
    | None => acquired (s_w s) (s_w s') key token ttl
    | Some e =>
        token = EmptyString ∧ (e = timed_out key → wait = 0 ∨ w_time (s_w s) + wait < w_time (s_w s'))
    end.
Proof.
  intros Hw. destruct (Lock_run key ttl wait s) as (w0 & w1 & token & Hstart & -> & Hd).
  destruct (lock_enough key token ttl wait (clk_now w0).1 (s <| s_w := w1 |>)) as ([t err] & s' & E);
    [done|by rewrite s_w_set|].
  exists t, err, s'. split; [done|].
  pose proof (lock_loop_spec (lock_fuel wait) key token ttl wait ((clk_now w0).1 + wait) (s <| s_w := w1 |>)) as H'.
  rewrite E in H'. destruct err as [e|].
  - destruct H' as [-> H']. split; [done|]. intros He. destruct (H' He); [by left|right; lia].
  - destruct H' as (-> & w2 & Hw2 & Hacq). rewrite s_w_set in Hw2. exists w2. split; [lia|exact Hacq].
Qed.

(** [Unlock] removes only the caller's own lock: an entry of the key
    with another token, and every other key, is left as it is but for its
    own expiry; the caller's entry is gone when the call reports success. *)
Theorem unlock_own_only key token s :
  ∃ err s', Unlock key token s = (Val err, s') ∧
    redis_frame_but key (s_w s) (s_w s') ∧
    (r_view (s_w s) key ≠ Some token → only_expiry (s_w s) (s_w s') key) ∧
    (r_view (s_w s) key = Some token → err = None → r_entry (s_w s') key = None).
Proof.
  unfold Unlock. rewrite bind_run, world_run.
  pose proof (redis_eval_key key token (s_w s)) as Hk.
  pose proof (redis_eval_frame key token (s_w s)) as Hf.
  destruct (redis_eval unlockScript key token (s_w s)) as [r w]. cbn [fst snd] in *.
  assert (Hgone : r_view (s_w s) key = Some token → (∃ n, r = ROk n) → r_entry w key = None).
  { intros Hv [n ->]. destruct Hk as [[_ ?]|[[Hn|Hn] _]]; [done|by destruct (Hn n)|done]. }
  assert (Hkeep : r_view (s_w s) key ≠ Some token → only_expiry (s_w s) w key).
  { intros Hv. destruct Hk as [[? _]|[_ ?]]; done. }
  destruct r as [n| |e]; eexists _, _; (split; [reflexivity|]); rewrite s_w_set; split_and!; try done.
  intros. apply Hgone; eauto.
Qed.

(** [WithLock] brackets its function: when the lock is not obtained the
    function does not run and the error is returned; otherwise the function
    runs exactly once, its result or panic is what [WithLock] gives, and the
    unlock script runs after it in both cases. *)
Theorem withLock_brackets key ttl wait fn s token err s1 :
  Lock key ttl wait s = (Val (token, err), s1) →
  match err with
  | Some e => WithLock key ttl wait fn s = (Val (Some e), s1)
  | None =>
      let '(r, s2) := fn s1 in
      r ≠ Unfinished →
      WithLock key ttl wait fn s = (r, s2 <| s_w := (redis_eval unlockScript key token (s_w s2)).2 |>)
  end.
Proof.
  intros E. unfold WithLock. rewrite bind_run, E. destruct err as [e|]; [done|].
  unfold deferred. destruct (fn s1) as [r s2]. intros Hr.
  assert (Hu : ∃ o, Unlock key token s2 =
    (Val o, s2 <| s_w := (redis_eval unlockScript key token (s_w s2)).2 |>)).
  { unfold Unlock. rewrite bind_run, world_run.
    destruct (redis_eval unlockScript key token (s_w s2)) as [[n| |e] w]; by eexists. }
  destruct Hu as [o Hu]. destruct r; [| |done]; rewrite bind_run, Hu; done.
Qed.

End lock.

(** ** Witnesses *)

(** Another client's key outlives the wait of 200 ms. *)
Lemma lock_acquires_witness :
  let s := demo_with (demo_w <| dw_redis := {[ "order:create:1" := ("other", 60 * Second) ]} |>) in
  ∃ s', Lock "order:create:1" (5 * Second) (200 * Millisecond) s = (Val (EmptyString, Some (timed_out "order:create:1")), s') ∧
    w_time (s_w s) + 200 * Millisecond < w_time (s_w s').
Proof.
  destruct (lock_acquires "order:create:1" (5 * Second) (200 * Millisecond)
    (demo_with (demo_w <| dw_redis := {[ "order:create:1" := ("other", 60 * Second) ]} |>)))
    as (token & err & s' & H & H'); [vm_compute; discriminate|].
  assert (Ht : (token, err) = (EmptyString, Some (timed_out "order:create:1"))).
  { apply (f_equal fst) in H. vm_compute in H. injection H as <- <-. reflexivity. }
  injection Ht as -> ->. exists s'. split; [exact H|]. destruct (proj2 H' eq_refl) as [E|?]; [discriminate E|done].
Defined.

(** Another client's token survives. *)
Lemma unlock_own_only_witness :
  let s := demo_with (demo_w <| dw_redis := {[ "k" := ("other", 100) ]} |>) in
  ∃ err s', Unlock "k" "mine" s = (Val err, s') ∧ only_expiry (s_w s) (s_w s') "k".
Proof.
  destruct (unlock_own_only "k" "mine" (demo_with (demo_w <| dw_redis := {[ "k" := ("other", 100) ]} |>)))
    as (err & s' & H1 & _ & H2 & _).
  exists err, s'. split; [exact H1|]. apply H2. vm_compute. discriminate.
Defined.

Definition demo_locked : res (string * option error) * Sys := Lock "k" (5 * Second) 0 demo_sys.

Lemma withLock_brackets_witness :
  WithLock "k" (5 * Second) 0 (panic "boom") demo_sys =
  (Panicked "boom", demo_locked.2 <| s_w := (redis_eval unlockScript "k" "0-61616161" (s_w demo_locked.2)).2 |>).
Proof.
  assert (E : Lock "k" (5 * Second) 0 demo_sys = (Val ("0-61616161", None), demo_locked.2))
    by (rewrite (surjective_pairing (Lock _ _ _ _)); f_equal; vm_compute; reflexivity).
  pose proof (withLock_brackets _ _ _ (panic "boom") _ _ _ _ E) as H. cbv beta iota delta [panic] in H.
  apply H. discriminate.
Defined.

End Lock.
