(* ===== verification/Cache.v ===== *)
(** * Multi-level cache ([internal/cache/multi_level_cache.go])

    The L1 (ristretto) and L2 (Redis) tiers in front of a loader, with null
    markers against penetration, a lock around hot loads against breakdown
    and jittered lifetimes against avalanches. *)

From S2P Require Export Lock Config.

Module Cache.

Definition NullMarker : string := "__NULL__".

Definition DefaultL1BaseTTL : Z := 30 * Second.
Definition DefaultL2BaseTTL : Z := 30 * Minute.
Definition DefaultJitterPct : float64 := Config.f64_fifth.
Definition DefaultNullTTL : Z := 60 * Second.
Definition DefaultLockTTL : Z := 10 * Second.
Definition DefaultLockRetry : Z := 50 * Millisecond.

(** The pointers that may be nil, then the defaults. *)
Definition NewMultiLevelCache (l2 hotKeys : bool) : MultiLevelCache :=
  {| mc_l2 := l2; mc_hotKeys := hotKeys; l1BaseTTL := DefaultL1BaseTTL; l2BaseTTL := DefaultL2BaseTTL;
     jitterPct := DefaultJitterPct; nullTTL := DefaultNullTTL; lockKeyPrefix := "cache:lock:";
     lockTTL := DefaultLockTTL; lockRetryWait := DefaultLockRetry;
     l1Hits := 0; l2Hits := 0; misses := 0; l1Total := 0; evictionCh := 0; mc_closed := false |}.

Definition SetJitterPct (pct : float64) (mc : MultiLevelCache) := mc <| jitterPct := pct |>.
Definition SetNullTTL (ttl : Z) (mc : MultiLevelCache) := mc <| nullTTL := ttl |>.
Definition SetL1BaseTTL (base : Z) (mc : MultiLevelCache) := mc <| l1BaseTTL := base |>.
Definition SetL2BaseTTL (base : Z) (mc : MultiLevelCache) := mc <| l2BaseTTL := base |>.

(** The counters are atomic [uint64]s. *)
Definition hit1 (mc : MultiLevelCache) := mc <| l1Hits := wrapu64 (l1Hits mc + 1) |>.
Definition hit2 (mc : MultiLevelCache) := mc <| l2Hits := wrapu64 (l2Hits mc + 1) |>.
Definition miss (mc : MultiLevelCache) := mc <| misses := wrapu64 (misses mc + 1) |>.
Definition total (mc : MultiLevelCache) := mc <| l1Total := wrapu64 (l1Total mc + 1) |>.

Definition L1HitRate (mc : MultiLevelCache) : float64 :=
  if l1Total mc =? 0 then f64_zero else f64_div (f64_of_Z (l1Hits mc)) (f64_of_Z (l1Total mc)).

Record StatsMap := mkStats {
  st_l1_hits : Z; st_l2_hits : Z; st_misses : Z; st_total : Z;
  st_l1_hit_rate : float64; st_combo_hit_rate : float64
}.

Definition Stats (mc : MultiLevelCache) : StatsMap :=
  let comboHits := wrapu64 (l1Hits mc + l2Hits mc) in
  let comboRate := if 0 <? l1Total mc then f64_div (f64_of_Z comboHits) (f64_of_Z (l1Total mc)) else f64_zero in
  {| st_l1_hits := l1Hits mc; st_l2_hits := l2Hits mc; st_misses := misses mc; st_total := l1Total mc;
     st_l1_hit_rate := L1HitRate mc; st_combo_hit_rate := comboRate |}.

Section cache.
Context `{Env} `{Codec}.

Definition mc : M MultiLevelCache := gets s_mc.
Definition update (f : MultiLevelCache → MultiLevelCache) : M unit := modify (λ s, s <| s_mc ::= f |>).

(** [parseValue]: a text that is not JSON is the string itself. *)
Definition parseValue (val : string) : gval :=
  match json_parse val with
  | Some j => match dec_val j with Some v => v | None => VStr val end
  | None => VStr val
  end.

(** [jsonBytes, _ := json.Marshal(value)]: empty on failure. *)
Definition jsonText (v : gval) : string := match Marshal v with Some t => t | None => EmptyString end.

Definition l1TTL : M Z := c ← mc; Config.JitterDuration (l1BaseTTL c) (jitterPct c).
Definition l2TTL : M Z := c ← mc; Config.JitterDuration (l2BaseTTL c) (jitterPct c).

Definition l1SetWithTTL (key : string) (v : gval) (ttl : Z) : M unit := world_ (l1_set key v 1 ttl).
Definition l1Wait : M unit := world_ l1_wait.
Definition l1Del (key : string) : M unit := world_ (l1_del key).
Definition l2Set (key v : string) (ttl : Z) : M unit := _ ← world (redis_set key v ttl); mret tt.
Definition l2Del (key : string) : M unit := _ ← world (redis_del key); mret tt.

Definition Set_ (key : string) (value : gval) : M unit :=
  ttl ← l1TTL; _ ← l1SetWithTTL key value ttl; _ ← l1Wait;
  c ← mc;
  when (mc_l2 c) (ttl ← l2TTL; l2Set key (jsonText value) ttl).

Definition SetNull (key : string) : M unit :=
  c ← mc; _ ← l1SetWithTTL key (VStr NullMarker) (nullTTL c); _ ← l1Wait;
  when (mc_l2 c) (l2Set key NullMarker (nullTTL c)).

(** A loader returns a value, or an error; [VNil] when there is no value. *)
Definition DataLoader : Type := string → M (gval * option error).
(** The results of [Get]: value, found, error. *)
Definition result : Set := gval * bool * option error.

Definition is_nil (v : gval) : bool := match v with VNil => true | _ => false end.

Definition loadFromDB (loader : option DataLoader) (key : string) : M result :=
  match loader with
  | None => mret (VNil, false, Some (Errorf "no data loader configured"))
  | Some load =>
      '(data, err) ← load key;
      match err with
      | Some e => mret (VNil, false, Some e)
      | None =>
          c ← mc;
          if is_nil data then
            _ ← when (mc_l2 c) (l2Set key NullMarker (nullTTL c));
            _ ← l1SetWithTTL key (VStr NullMarker) (nullTTL c);
            mret (VNil, true, None)
          else
            _ ← when (mc_l2 c) (ttl ← l2TTL; l2Set key (jsonText data) ttl);
            ttl ← l1TTL; _ ← l1SetWithTTL key data ttl; _ ← l1Wait;
            mret (data, true, None)
      end
  end.

Definition loadWithLock (loader : option DataLoader) (key : string) : M result :=
  c ← mc;
  if negb (mc_l2 c) then loadFromDB loader key
  else
    let lockKey := lockKeyPrefix c +:+ key in
    r ← world (redis_setnx lockKey "1" (lockTTL c));
    match r with
    | RErr e => mret (VNil, false, Some (Errorf e))
    | RNil => mret (VNil, false, Some (Sentinel "redis: nil"))
    | ROk true => deferred (l2Del lockKey) (loadFromDB loader key)
    | ROk false =>
        _ ← Sleep (lockRetryWait c);
        r ← world (redis_get key);
        match r with
        | ROk val =>
            if bool_decide (val = NullMarker) then mret (VNil, true, None)
            else mret (parseValue val, true, None)
        | _ => mret (VNil, false, None)
        end
    end.

(** [hotKeys.RecordAccess(key)] on the shared detector; it reads the clock
    once for a new ring and once to advance. *)
Definition recordAccess (key : string) : M bool :=
  h ← gets s_hk;
  now1 ← match HK.keyCounters h !! key with Some _ => mret 0 | None => Now end;
  now2 ← Now;
  match HK.RecordAccess key now1 now2 h with
  | Some (b, h) => _ ← modify (λ s, s <| s_hk := h |>); mret b
  | None => panic "runtime error"
  end.

(** The part of [Get] below both tiers. *)
Definition fromL3 (loader : option DataLoader) (key : string) : M result :=
  c ← mc;
  isHot ← (if mc_hotKeys c then recordAccess key else mret false);
  _ ← update miss;
  if isHot : bool then loadWithLock loader key else loadFromDB loader key.

Definition Get (loader : option DataLoader) (key : string) : M result :=
  _ ← update total;
  r1 ← world (l1_get key);
  match r1 with
  | Some val =>
      _ ← update hit1;
      match val with
      | VStr s => if bool_decide (s = NullMarker) then mret (VNil, true, None) else mret (val, true, None)
      | _ => mret (val, true, None)
      end
  | None =>
      c ← mc;
      r2 ← (if mc_l2 c then world (redis_get key) else mret RNil);
      match r2 with
      | ROk val =>
          _ ← update hit2;
          if bool_decide (val = NullMarker) then
            _ ← l1SetWithTTL key (VStr NullMarker) (nullTTL c); _ ← l1Wait;
            mret (VNil, true, None)
          else
            let parsed := parseValue val in
            ttl ← l1TTL; _ ← l1SetWithTTL key parsed ttl; _ ← l1Wait;
            mret (parsed, true, None)
      | _ => fromL3 loader key
      end
  end.

Definition Invalidate (key : string) : M unit :=
  _ ← l1Del key; c ← mc; when (mc_l2 c) (l2Del key).

Definition InvalidateWithDelay (key : string) (delayMs : Z) : M unit :=
  c ← mc; _ ← when (mc_l2 c) (l2Del key); _ ← l1Del key; go (TSecondDelete delayMs key).

(** The goroutine of [InvalidateWithDelay]. *)
Definition secondDelete (delayMs : Z) (key : string) : M unit :=
  _ ← Sleep (dur_of delayMs Millisecond); c ← mc; _ ← when (mc_l2 c) (l2Del key); l1Del key.

Definition BroadcastEviction (key : string) : M unit :=
  _ ← l1Del key; c ← mc;
  when (mc_l2 c) (_ ← world (redis_publish "cache:eviction" key); mret tt).

Definition Close : M unit :=
  c ← mc; if mc_closed c then panic "close of closed channel" else update (λ c, c <| mc_closed := true |>).

Definition evictionCap : Z := 1024.

(** The send of a [select] with a default case: a closed channel panics. *)
Definition ReceiveEviction (key : string) : M unit :=
  _ ← l1Del key; c ← mc;
  if mc_closed c then panic "send on closed channel"
  else if evictionCh c <? evictionCap then update (λ c, c <| evictionCh := evictionCh c + 1 |>)
  else mret tt.

(** The runs of the methods that cannot fail. *)
Lemma sys_eta s : s = s <| s_w := s_w s |>.
Proof. by destruct s. Qed.

Lemma jitter_val base pct s : ∃ ttl w, Config.JitterDuration base pct s = (Val ttl, s <| s_w := w |>).
Proof.
  unfold Config.JitterDuration. destruct (f64_leb _ _).
  - exists base, (s_w s). rewrite ret_run. by rewrite <-sys_eta.
  - rewrite bind_run, world_run. by eexists _, _.
Qed.

Lemma l1TTL_val s : ∃ ttl w, l1TTL s = (Val ttl, s <| s_w := w |>).
Proof. apply jitter_val. Qed.

Lemma l2TTL_val s : ∃ ttl w, l2TTL s = (Val ttl, s <| s_w := w |>).
Proof. apply jitter_val. Qed.

Lemma Set_val k v s : ∃ w, Set_ k v s = (Val tt, s <| s_w := w |>).
Proof.
  unfold Set_. rewrite bind_run. destruct (l1TTL_val s) as (ttl & w & E). rewrite E.
  unfold l1SetWithTTL, l1Wait. rewrite bind_run, world__run, bind_run, world__run, bind_run.
  unfold mc at 1, gets at 1. destruct (mc_l2 _); cbn [when]; [|by eexists].
  rewrite bind_run. edestruct l2TTL_val as (ttl2 & w2 & E2). rewrite E2.
  unfold l2Set. rewrite bind_run, world_run. by eexists.
Qed.

Lemma SetNull_val k s :
  SetNull k s = (Val tt, s <| s_w := let w := l1_wait (l1_set k (VStr NullMarker) 1 (nullTTL (s_mc s)) (s_w s)) in
    if mc_l2 (s_mc s) then (redis_set k NullMarker (nullTTL (s_mc s)) w).2 else w |>).
Proof.
  unfold SetNull, l1SetWithTTL, l1Wait, mc, gets. rewrite !bind_run, world__run, bind_run, world__run.
  change (s_mc (s <| s_w := _ |> <| s_w := _ |>)) with (s_mc s).
  destruct (mc_l2 (s_mc s)); cbn [when]; [|done]. unfold l2Set. by rewrite bind_run, world_run.
Qed.

(** What recording an access does: two readings of the clock, the detector. *)
Lemma recordAccess_run key s :
  ∃ now1 now2 w, recordAccess key s =
    let r := HK.RecordAccess key now1 now2 (s_hk s) in
    (match r with Some (b, _) => Val b | None => Panicked "runtime error" end,
     match r with Some (_, h) => s <| s_w := w |> <| s_hk := h |> | None => s <| s_w := w |> end).
Proof.
  unfold recordAccess. rewrite bind_run. unfold gets at 1. rewrite bind_run.
  assert (E : ∃ now1 w, (match HK.keyCounters (s_hk s) !! key with Some _ => mret 0 | None => Now end : M Z) s =
    (Val now1, s <| s_w := w |>)).
  { destruct (HK.keyCounters (s_hk s) !! key); [exists 0, (s_w s); by rewrite ret_run, <-sys_eta|].
    unfold Now. rewrite world_run. by eexists _, _. }
  destruct E as (now1 & w & ->). rewrite bind_run. unfold Now. rewrite world_run. rewrite s_w_set_set.
  set (w' := (clk_now _).2). set (now2 := (clk_now _).1). exists now1, now2, w'.
  by destruct (HK.RecordAccess key now1 now2 (s_hk s)) as [[b h]|].
Qed.

Lemma invalidate_delay_run k delayMs s :
  InvalidateWithDelay k delayMs s = (Val tt, s <| s_w :=
    l1_del k (if mc_l2 (s_mc s) then (redis_del k (s_w s)).2 else s_w s) |>
    <| s_tasks := s_tasks s ++ [TSecondDelete delayMs k] |>).
Proof.
  unfold InvalidateWithDelay, mc, l1Del, l2Del, go. rewrite bind_run. unfold gets at 1.
  rewrite bind_run. destruct (mc_l2 (s_mc s)); cbn [when].
  - by rewrite bind_run, world_run, ret_run, bind_run, world__run.
  - by rewrite ret_run, bind_run, world__run.
Qed.

Lemma second_delete_run k delayMs t :
  in_int64 (delayMs * Millisecond) →
  secondDelete delayMs k t = (Val tt, t <| s_w := let w := clk_sleep (delayMs * Millisecond) (s_w t) in
    l1_del k (if mc_l2 (s_mc t) then (redis_del k w).2 else w) |>).
Proof.
  intros Hd. unfold secondDelete, mc, l1Del, l2Del, Sleep. rewrite bind_run, world__run.
  unfold dur_of. rewrite wrap64_id by done. rewrite bind_run. unfold gets at 1. rewrite bind_run.
  change (s_mc (t <| s_w := _ |>)) with (s_mc t). destruct (mc_l2 (s_mc t)); cbn [when].
  - by rewrite bind_run, world_run, ret_run, world__run.
  - by rewrite ret_run, world__run.
Qed.

Lemma deleted_both `{!Views, !RedisLaws, !FrameLaws} k w :
  (∃ n, (redis_del k w).1 = ROk n) → r_entry (l1_del k (redis_del k w).2) k = None.
Proof.
  intros [n E]. assert (Hw : r_entry (redis_del k w).2 k = None).
  { destruct (redis_del_key k w) as [?|[Hn _]]; [done|]. by destruct (Hn n). }
  destruct (l1_del_redis k (redis_del k w).2 k) as [E'|(v & e & E' & _)]; congruence.
Qed.

End cache.

(** ** Soundness: the cache refines the data it fronts

    [Valid k v]: [v] is an acceptable value of [k]; [Absent k]: [k] may be
    answered as absent.  The invariant says the tiers hold nothing else
    under the data keys [dk], which are not lock keys of the cache, and that
    the rest of the outside has the property [Extra], which the cache's calls
    cannot change. *)

Section soundness.
Context `{EN : Env} `{CO : Codec} `{VI : !Views} `{RE : !RedisLaws} `{LL : !L1Laws} `{FR : !FrameLaws}.
Context (Valid : string → gval → Prop) (Absent : string → Prop).
Context (dk : string → Prop) (dk_lock : ∀ k, dk k → hasPrefix "cache:lock:" k = false).
Context (Extra : W → Prop) `{KE : !Kept Extra}.
(** What the MySQL pool satisfies, whether there is an L2, and the errors that
    may be answered. *)
Context (Pool : option RWDB → Prop) (l2 : bool) (Refused : error → Prop).
Context (ref_lock : ∀ k v ttl w, Extra w →
  match (redis_setnx k v ttl w).1 with
  | ROk _ => True | RNil => Refused (Sentinel "redis: nil") | RErr e => Refused (Errorf e)
  end).
#[local] Set Default Proof Using "Type RE LL FR KE".

Definition good (k : string) (v : gval) : Prop := v ≠ VNil ∧ v ≠ VStr NullMarker ∧ Valid k v.
Definition ok_l1 (k : string) (v : gval) : Prop := (v = VStr NullMarker ∧ Absent k) ∨ good k v.
Definition ok_l2 (k : string) (t : string) : Prop :=
  (t = NullMarker ∧ Absent k) ∨ (t ≠ NullMarker ∧ good k (parseValue t)).

Definition tiers_ok (w : W) : Prop :=
  ∀ k, dk k →
    (∀ v, l1_view w k = Some v → ok_l1 k v) ∧ (∀ t, r_view w k = Some t → ok_l2 k t).

Definition world_ok (w : W) : Prop := tiers_ok w ∧ Extra w.

Definition cache_ok (s : Sys) : Prop :=
  world_ok (s_w s) ∧ Pool (s_mysql s) ∧ lockKeyPrefix (s_mc s) = "cache:lock:" ∧ mc_l2 (s_mc s) = l2.

(** What a loader may return: acceptable values that survive the text form. *)
Definition load_ok (k : string) (r : gval * option error) : Prop :=
  match r.2 with
  | Some e => Refused e
  | None => (r.1 = VNil ∧ Absent k) ∨ (good k r.1 ∧ ok_l2 k (jsonText r.1))
  end.

Definition get_ok (k : string) (r : result) : Prop :=
  let '(v, found, err) := r in
  match err with
  | Some e => v = VNil ∧ found = false ∧ Refused e
  | None => if found : bool then (v = VNil ∧ Absent k) ∨ (v ≠ VNil ∧ Valid k v) else v = VNil
  end.

Lemma tiers_shrink w w' :
  tiers_ok w → (∀ k, dk k → l1_shrinks w w' k ∧ r_shrinks w w' k) → tiers_ok w'.
Proof.
  intros Hw Hs k Hk. destruct (Hs k Hk) as [Hl Hr], (Hw k Hk) as [H1 H2]. split.
  - intros v Hv. destruct Hl as [Hl|Hl]; [|congruence]. apply H1. congruence.
  - intros t Ht. destruct Hr as [Hr|Hr]; [|congruence]. apply H2. congruence.
Qed.

Lemma world_ok_frames w w' :
  world_ok w → redis_frame w w' → l1_frame w w' → (Extra w → Extra w') → world_ok w'.
Proof.
  intros [Hw He] Hr Hl Hx. split; [|auto]. eapply tiers_shrink; [done|]. intros k _. split; [apply Hl|].
  apply only_expiry_shrinks, Hr.
Qed.

Lemma set_l1_ok k v ttl w : world_ok w → (dk k → ok_l1 k v) → world_ok (l1_set k v 1 ttl w).
Proof.
  intros [Hw He] Hv. split; [|by apply kept_l1_set]. intros k' Hk'. destruct (Hw k' Hk') as [H1 H2]. split.
  - intros x Hx. destruct (decide (k' = k)) as [->|Hne].
    + destruct (l1_set_key k v 1 ttl w) as [E|E]; [|congruence]. rewrite E in Hx.
      injection Hx as <-. auto.
    + destruct (l1_set_frame k v 1 ttl w k' Hne) as [E|E]; [|congruence]. apply H1. congruence.
  - intros t Ht. destruct (only_expiry_shrinks _ _ _ (l1_set_redis k v 1 ttl w k')) as [E|E];
      [|congruence]. apply H2. congruence.
Qed.

Lemma set_l2_ok k t ttl w : world_ok w → (dk k → ok_l2 k t) → world_ok (redis_set k t ttl w).2.
Proof.
  intros [Hw He] Ht. split; [|by apply kept_redis_set]. intros k' Hk'. destruct (Hw k' Hk') as [H1 H2]. split.
  - intros v Hv. destruct (redis_set_l1 k t ttl w k') as [E|E]; [|congruence]. apply H1. congruence.
  - intros x Hx. destruct (decide (k' = k)) as [->|Hne].
    + destruct (redis_set_key k t ttl w) as [Hwr|[_ Hx']].
      * destruct (written_view _ _ _ _ _ Hwr) as [E|E]; [|congruence]. rewrite E in Hx.
        injection Hx as <-. auto.
      * destruct (only_expiry_shrinks _ _ _ Hx') as [E|E]; [|congruence]. apply H2. congruence.
    + destruct (only_expiry_shrinks _ _ _ (redis_set_frame k t ttl w k' Hne)) as [E|E]; [|congruence].
      apply H2. congruence.
Qed.

Lemma setnx_ok k t ttl w : world_ok w → ¬ dk k → world_ok (redis_setnx k t ttl w).2.
Proof.
  intros [Hw He] Hk. split; [|by apply kept_redis_setnx]. eapply tiers_shrink; [done|]. intros k' Hk'.
  split; [apply redis_setnx_l1|]. apply only_expiry_shrinks, redis_setnx_frame. intros ->. done.
Qed.

(** The unlock script removes an entry at most. *)
Lemma eval_ok `{SF : !ServiceFrames} k v w : world_ok w → world_ok (redis_eval unlockScript k v w).2.
Proof.
  intros [Hw He]. split; [|by apply kept_redis_eval]. eapply tiers_shrink; [done|]. intros k' _.
  split; [apply redis_eval_l1|]. destruct (decide (k' = k)) as [->|Hne]; [|by apply only_expiry_shrinks, redis_eval_frame].
  destruct (redis_eval_key k v w) as [[_ E]|[_ E]]; [right; unfold r_view; by rewrite E|by apply only_expiry_shrinks].
Qed.

Lemma del_l2_ok k w : world_ok w → world_ok (redis_del k w).2.
Proof.
  intros [Hw He]. split; [|by apply kept_redis_del]. eapply tiers_shrink; [done|]. intros k' _.
  split; [apply redis_del_l1|]. destruct (decide (k' = k)) as [->|Hne].
  - destruct (redis_del_key k w) as [E|[_ E]]; [|by apply only_expiry_shrinks].
    right. unfold r_view. by rewrite E.
  - by apply only_expiry_shrinks, redis_del_frame.
Qed.

(** Triples of the primitive calls. *)
Lemma t_world {A} (op : W → A * W) (Q : A → Prop) :
  (∀ w, world_ok w → world_ok (op w).2 ∧ Q (op w).1) → triple cache_ok Q (world op).
Proof.
  intros Hop s [Hw Hp]. rewrite world_run. cbn. destruct (Hop _ Hw) as [? ?]. by split.
Qed.

Lemma t_world_ (op : W → W) (Q : unit → Prop) :
  (∀ w, world_ok w → world_ok (op w)) → Q tt → triple cache_ok Q (world_ op).
Proof. intros Hop HQ s [Hw Hp]. split; [|done]. split; [by apply Hop|done]. Qed.

Lemma t_mc (Q : MultiLevelCache → Prop) :
  (∀ c, lockKeyPrefix c = "cache:lock:" → mc_l2 c = l2 → Q c) → triple cache_ok Q mc.
Proof. intros HQ. apply triple_gets. intros s (_ & _ & Hp & Hc). auto. Qed.

Lemma t_update (Q : unit → Prop) f :
  (∀ c, lockKeyPrefix (f c) = lockKeyPrefix c ∧ mc_l2 (f c) = mc_l2 c) → Q tt → triple cache_ok Q (update f).
Proof.
  intros Hf HQ. apply triple_modify; [|done]. intros s (Hw & Hp & Hk). split; [done|]. split; [done|].
  cbn. destruct (Hf (s_mc s)) as [-> ->]. done.
Qed.

Lemma t_now (Q : Z → Prop) : (∀ t, Q t) → triple cache_ok Q Now.
Proof.
  intros HQ. apply t_world. intros w Hw. destruct (clk_now_frames w). split; [|done].
  eapply world_ok_frames; eauto. apply kept_now.
Qed.

Lemma t_jitter base pct (Q : Z → Prop) : (∀ t, Q t) → triple cache_ok Q (Config.JitterDuration base pct).
Proof.
  intros HQ. unfold Config.JitterDuration. destruct (f64_leb pct f64_zero); [by apply triple_ret|].
  apply triple_bind with (λ _, True); [|intros; by apply triple_ret].
  apply t_world. intros w Hw. destruct (rand_frames 8 w). split; [|done].
  eapply world_ok_frames; eauto. apply kept_rand.
Qed.

Lemma t_l1TTL (Q : Z → Prop) : (∀ t, Q t) → triple cache_ok Q l1TTL.
Proof. intros. apply triple_bind with (λ _, True); [by apply t_mc|]. intros. by apply t_jitter. Qed.

Lemma t_l2TTL (Q : Z → Prop) : (∀ t, Q t) → triple cache_ok Q l2TTL.
Proof. intros. apply triple_bind with (λ _, True); [by apply t_mc|]. intros. by apply t_jitter. Qed.

Lemma t_l1Set k v ttl (Q : unit → Prop) :
  (dk k → ok_l1 k v) → Q tt → triple cache_ok Q (l1SetWithTTL k v ttl).
Proof. intros. apply t_world_; [|done]. intros. by apply set_l1_ok. Qed.

Lemma t_l1Wait (Q : unit → Prop) : Q tt → triple cache_ok Q l1Wait.
Proof.
  intros. apply t_world_; [|done]. intros w Hw.
  eapply world_ok_frames; [done|apply l1_wait_redis|apply l1_wait_frame|apply kept_l1_wait].
Qed.

Lemma t_l1Del k (Q : unit → Prop) : Q tt → triple cache_ok Q (l1Del k).
Proof.
  intros. apply t_world_; [|done]. intros w Hw.
  eapply world_ok_frames; [done|apply l1_del_redis|apply l1_del_frame|apply kept_l1_del].
Qed.

Lemma t_l2Set k t ttl (Q : unit → Prop) :
  (dk k → ok_l2 k t) → Q tt → triple cache_ok Q (l2Set k t ttl).
Proof.
  intros. apply triple_bind with (λ _, True); [|intros; by apply triple_ret].
  apply t_world. intros. split; [by apply set_l2_ok|done].
Qed.

Lemma t_l2Del k (Q : unit → Prop) : Q tt → triple cache_ok Q (l2Del k).
Proof.
  intros. apply triple_bind with (λ _, True); [|intros; by apply triple_ret].
  apply t_world. intros. split; [by apply del_l2_ok|done].
Qed.

Lemma t_redis_get k (Q : rres string → Prop) :
  dk k → (∀ t, ok_l2 k t → Q (ROk t)) → Q RNil → (∀ e, Q (RErr e)) →
  triple cache_ok Q (world (redis_get k)).
Proof.
  intros Hk H1 H2 H3. apply t_world. intros w Hw. split.
  - eapply world_ok_frames; [done|apply redis_get_frame|apply redis_get_l1|apply kept_redis_get].
  - pose proof (redis_get_val k w) as Hv. destruct (redis_get k w).1 as [t| |e]; [|done..].
    apply H1. destruct (proj1 Hw k Hk) as [_ H']. apply H', Hv. done.
Qed.

(** A bind whose first part only has to keep the invariant. *)
Ltac t_seq := apply triple_bind with (λ _, True); [|intros ? _].

Lemma t_when_l2 b (m : M unit) : triple cache_ok (λ _, True) m → triple cache_ok (λ _, True) (when b m).
Proof. by apply triple_when. Qed.

Definition no_loader (loader : option DataLoader) : Prop :=
  loader = None → Refused (Errorf "no data loader configured").

Lemma t_loadFromDB loader k :
  dk k → no_loader loader → (∀ load, loader = Some load → triple cache_ok (load_ok k) (load k)) →
  triple cache_ok (get_ok k) (loadFromDB loader k).
Proof.
  intros Hk Hn Hload. unfold loadFromDB. destruct loader as [load|]; [|apply triple_ret; by split_and!; [..|apply Hn]].
  apply triple_bind with (load_ok k); [by apply Hload|]. intros [data err] Hok.
  destruct err as [e|]; [by apply triple_ret|]. cbn in Hok.
  t_seq; [by apply t_mc|]. destruct Hok as [[-> Ha]|[Hg Ht]].
  - cbn [is_nil]. t_seq; [apply t_when_l2, t_l2Set; [by left|done]|].
    t_seq; [apply t_l1Set; [by left|done]|]. apply triple_ret. by left.
  - assert (is_nil data = false) as ->. { destruct Hg as [Hnil _]. by destruct data. }
    t_seq; [apply t_when_l2; t_seq; [by apply t_l2TTL|by apply t_l2Set]|].
    t_seq; [by apply t_l1TTL|]. t_seq; [apply t_l1Set; [by right|done]|]. t_seq; [by apply t_l1Wait|].
    apply triple_ret. right. split; apply Hg.
Qed.

Lemma t_loadWithLock loader k :
  dk k → no_loader loader → (∀ load, loader = Some load → triple cache_ok (load_ok k) (load k)) →
  triple cache_ok (get_ok k) (loadWithLock loader k).
Proof using All.
  intros Hk Hnl Hload. unfold loadWithLock.
  apply triple_bind with (λ c, lockKeyPrefix c = "cache:lock:"); [by apply t_mc|]. intros c Hc.
  destruct (negb (mc_l2 c)); [by apply t_loadFromDB|]. rewrite Hc.
  apply triple_bind with (λ r, match r with
    | ROk _ => True | RNil => Refused (Sentinel "redis: nil") | RErr e => Refused (Errorf e) end).
  { apply t_world. intros w Hw. split; [|apply ref_lock, Hw]. apply setnx_ok; [done|].
    intros Hd. apply dk_lock in Hd. by rewrite hasPrefix_append in Hd. }
  intros a Ha. destruct a as [[]| |e]; [|..|by apply triple_ret].
  - apply triple_deferred; [by apply t_l2Del|by apply t_loadFromDB].
  - t_seq; [|].
    { apply t_world_; [|done]. intros w Hw. destruct (clk_sleep_frames (lockRetryWait c) w).
      eapply world_ok_frames; eauto. apply kept_sleep. }
    apply triple_bind with (λ r, match r with ROk t => ok_l2 k t | _ => True end).
    { by apply t_redis_get. }
    intros [t| |e] Ht; [|by apply triple_ret..].
    case_bool_decide as Hmark.
    + apply triple_ret. left. destruct Ht as [[_ ?]|[? _]]; [done|by subst].
    + apply triple_ret. right. destruct Ht as [[? _]|[_ (? & _ & ?)]]; done.
  - by apply triple_ret.
Qed.

Lemma t_recordAccess k : triple cache_ok (λ _, True) (recordAccess k).
Proof.
  unfold recordAccess. t_seq; [by apply triple_gets|].
  t_seq; [case_match; [by apply triple_ret|by apply t_now]|]. t_seq; [by apply t_now|].
  case_match; [|by apply triple_panic]. case_match. t_seq; [|by apply triple_ret].
  apply triple_modify; [|done]. intros s [Hw Hp]. by split.
Qed.

Lemma t_Get loader k :
  dk k → no_loader loader → (∀ load, loader = Some load → triple cache_ok (load_ok k) (load k)) →
  triple cache_ok (get_ok k) (Get loader k).
Proof using All.
  intros Hk Hnl Hload. unfold Get. t_seq; [by apply t_update|].
  apply triple_bind with (λ r, match r with Some v => ok_l1 k v | None => True end).
  { apply t_world. intros w Hw. split.
    - eapply world_ok_frames; [done|apply l1_get_redis|apply l1_get_frame|apply kept_l1_get].
    - pose proof (l1_get_val k w) as Hv. destruct (l1_get k w).1; [|done].
      destruct (proj1 Hw k Hk) as [Hl _]. apply Hl, Hv. done. }
  intros [v|] Hv.
  { t_seq; [by apply t_update|].
    assert (Hbad : v ≠ VStr NullMarker → get_ok k (v, true, None)).
    { intros Hne. destruct Hv as [[? _]|(Hn & _ & ?)]; [done|]. by right. }
    destruct v; try (apply triple_ret; apply Hbad; congruence).
    case_bool_decide as Hs; [|apply triple_ret, Hbad; congruence].
    apply triple_ret. left. destruct Hv as [[_ ?]|(_ & Hne & _)]; [done|]. by subst. }
  apply triple_bind with (λ _, True); [by apply t_mc|]. intros c _.
  assert (Hrest : triple cache_ok (get_ok k) (fromL3 loader k)).
  { unfold fromL3. t_seq; [by apply t_mc|]. t_seq; [case_match; [by apply t_recordAccess|by apply triple_ret]|].
    t_seq; [by apply t_update|]. case_match; [by apply t_loadWithLock|by apply t_loadFromDB]. }
  apply triple_bind with (λ r, match r with ROk t => ok_l2 k t | _ => True end).
  { destruct (mc_l2 c); [by apply t_redis_get|by apply triple_ret]. }
  intros [t| |e] Ht; [|done..]. t_seq; [by apply t_update|]. case_bool_decide as Hmark.
  - destruct Ht as [[_ Ha]|[? _]]; [|by subst].
    t_seq; [apply t_l1Set; [by left|done]|]. t_seq; [by apply t_l1Wait|]. apply triple_ret. by left.
  - destruct Ht as [[? _]|[_ Hg]]; [done|]. t_seq; [by apply t_l1TTL|].
    t_seq; [apply t_l1Set; [by right|done]|]. t_seq; [by apply t_l1Wait|].
    apply triple_ret. right. split; apply Hg.
Qed.

(** ** Writing and deleting *)

Lemma t_Set k v (Q : unit → Prop) :
  (dk k → ok_l1 k v ∧ ok_l2 k (jsonText v)) → Q tt → triple cache_ok Q (Set_ k v).
Proof.
  intros Hv HQ. unfold Set_. t_seq; [by apply t_l1TTL|]. t_seq; [apply t_l1Set; [apply Hv|done]|].
  t_seq; [by apply t_l1Wait|]. t_seq; [by apply t_mc|]. apply triple_when; [done|].
  t_seq; [by apply t_l2TTL|]. apply t_l2Set; [apply Hv|done].
Qed.

Lemma t_SetNull k (Q : unit → Prop) : (dk k → Absent k) → Q tt → triple cache_ok Q (SetNull k).
Proof.
  intros Hv HQ. unfold SetNull. t_seq; [by apply t_mc|]. t_seq; [apply t_l1Set; [left; auto|done]|].
  t_seq; [by apply t_l1Wait|]. apply triple_when; [done|]. apply t_l2Set; [left; auto|done].
Qed.

Lemma t_Sleep d (Q : unit → Prop) : Q tt → triple cache_ok Q (Sleep d).
Proof.
  intros HQ. apply t_world_; [|done]. intros w Hw. destruct (clk_sleep_frames d w).
  eapply world_ok_frames; eauto. apply kept_sleep.
Qed.

Lemma t_secondDelete k delayMs (Q : unit → Prop) : Q tt → triple cache_ok Q (secondDelete delayMs k).
Proof.
  intros HQ. unfold secondDelete. t_seq; [by apply t_Sleep|]. t_seq; [by apply t_mc|].
  t_seq; [apply triple_when; [done|by apply t_l2Del]|by apply t_l1Del].
Qed.

(** What writes nothing but other fields of the process. *)
Lemma t_modify f (Q : unit → Prop) :
  (∀ s, s_w (f s) = s_w s ∧ s_mysql (f s) = s_mysql s ∧ s_mc (f s) = s_mc s) → Q tt → triple cache_ok Q (modify f).
Proof. intros Hf HQ. apply triple_modify; [|done]. intros s Hs. unfold cache_ok. by destruct (Hf s) as (-> & -> & ->). Qed.

End soundness.

(** A key that both tiers have forgotten may join the others. *)
Lemma cache_ok_join `{EN : Env} `{CO : Codec} `{VI : !Views} Valid Absent (dk : string → Prop) Extra Pool l2 k s :
  cache_ok Valid Absent (λ k', dk k' ∧ k' ≠ k) Extra Pool l2 s →
  l1_view (s_w s) k = None → r_view (s_w s) k = None →
  cache_ok Valid Absent dk Extra Pool l2 s.
Proof.
  intros [[Ht He] Hs] E1 E2. split; [|done]. split; [|done]. intros k' Hk'.
  destruct (decide (k' = k)) as [->|Hne]; [by rewrite E1, E2|]. apply Ht. done.
Qed.

(** Fewer keys, or keys of which the data say the same, are as good. *)
Lemma cache_ok_sub `{EN : Env} `{CO : Codec} `{VI : !Views} (Valid Valid' : string → gval → Prop)
    (Absent Absent' dk dk' : string → Prop) (Extra Extra' : W → Prop) Pool l2 s :
  (∀ k, dk' k → dk k ∧ (∀ v, Valid k v → Valid' k v) ∧ (Absent k → Absent' k)) → (Extra (s_w s) → Extra' (s_w s)) →
  cache_ok Valid Absent dk Extra Pool l2 s → cache_ok Valid' Absent' dk' Extra' Pool l2 s.
Proof.
  intros Hd Hx [[Ht He] Hs]. split; [|done]. split; [|auto]. intros k Hk. destruct (Hd k Hk) as (Hk' & Hv & Ha).
  destruct (Ht k Hk') as [H1 H2]. unfold ok_l1, ok_l2, good in *. split; intros x Hx'.
  - destruct (H1 x Hx') as [[? ?]|(? & ? & ?)]; [left|right]; auto.
  - destruct (H2 x Hx') as [[? ?]|(? & ? & ? & ?)]; [left|right]; auto.
Qed.

(** ** Statistics *)

Section stats.
Context `{EN : Env} `{CO : Codec}.

(** A computation that leaves the cache object alone. *)
Definition keeps_mc {A} (m : M A) : Prop := ∀ c, triple (λ s, s_mc s = c) (λ _, True) m.

Lemma keeps_bind {A B} (m : M A) (f : A → M B) : keeps_mc m → (∀ a, keeps_mc (f a)) → keeps_mc (m ≫= f).
Proof. intros Hm Hf c. apply triple_bind with (λ _, True); [apply Hm|intros; apply Hf]. Qed.

Lemma keeps_ret {A} (a : A) : keeps_mc (mret a).
Proof. intros c. by apply triple_ret. Qed.

Lemma keeps_gets {A} (f : Sys → A) : keeps_mc (gets f).
Proof. intros c. by apply triple_gets. Qed.

Lemma keeps_world {A} (op : W → A * W) : keeps_mc (world op).
Proof. intros c s Hs. by rewrite world_run. Qed.

Lemma keeps_world_ op : keeps_mc (world_ op).
Proof. intros c s Hs. by rewrite world__run. Qed.

Lemma keeps_when b m : keeps_mc m → keeps_mc (when b m).
Proof. destruct b; [done|]. intros _. apply keeps_ret. Qed.

Lemma keeps_deferred {A} d (m : M A) : keeps_mc d → keeps_mc m → keeps_mc (deferred d m).
Proof. intros Hd Hm c. apply triple_deferred; [apply Hd|apply Hm]. Qed.

Lemma keeps_panic {A} msg : keeps_mc (@panic _ A msg).
Proof. intros c. apply triple_panic. Qed.

Lemma keeps_set_hk h : keeps_mc (modify (λ s, s <| s_hk := h |>)).
Proof. intros c. by apply triple_modify. Qed.

Create HintDb keeps.
Hint Resolve keeps_ret keeps_gets keeps_world keeps_world_ keeps_when keeps_deferred keeps_panic keeps_set_hk : keeps.

Ltac keeps := repeat (case_match || apply keeps_bind || intros); eauto with keeps.

Lemma keeps_jitter base pct : keeps_mc (Config.JitterDuration base pct).
Proof. unfold Config.JitterDuration. keeps. Qed.
Hint Resolve keeps_jitter : keeps.

Lemma keeps_l2Set k t ttl : keeps_mc (l2Set k t ttl).
Proof. unfold l2Set. keeps. Qed.
Lemma keeps_l2Del k : keeps_mc (l2Del k).
Proof. unfold l2Del. keeps. Qed.
Lemma keeps_l1TTL : keeps_mc l1TTL.
Proof. unfold l1TTL, mc. keeps. Qed.
Lemma keeps_l2TTL : keeps_mc l2TTL.
Proof. unfold l2TTL, mc. keeps. Qed.
Hint Resolve keeps_l2Set keeps_l2Del keeps_l1TTL keeps_l2TTL : keeps.

Lemma keeps_when_set b k t : keeps_mc (when b (ttl ← l2TTL; l2Set k t ttl)).
Proof. apply keeps_when. keeps. Qed.
Hint Resolve keeps_when_set : keeps.

Lemma keeps_loadFromDB loader k :
  (∀ load, loader = Some load → keeps_mc (load k)) → keeps_mc (loadFromDB loader k).
Proof.
  intros Hl. unfold loadFromDB, l1SetWithTTL, l1Wait, mc. destruct loader as [load|]; [|keeps].
  apply keeps_bind; [by apply Hl|]. intros [data err]. destruct err; [keeps|].
  apply keeps_bind; [keeps|]. intros c. destruct (is_nil data).
  - apply keeps_bind; [apply keeps_when; keeps|]. keeps.
  - apply keeps_bind; [apply keeps_when_set|]. keeps.
Qed.

Lemma keeps_loadWithLock loader k :
  (∀ load, loader = Some load → keeps_mc (load k)) → keeps_mc (loadWithLock loader k).
Proof.
  intros Hl. unfold loadWithLock, mc. apply keeps_bind; [keeps|]. intros c.
  destruct (negb (mc_l2 c)); [by apply keeps_loadFromDB|].
  apply keeps_bind; [keeps|]. intros [[]| |]; [|unfold Sleep; keeps..].
  apply keeps_deferred; [keeps|by apply keeps_loadFromDB].
Qed.

(** One [Get] adds one to the total and to exactly one of the others. *)
Definition counted (c c' : MultiLevelCache) : Prop :=
  ∃ f, (f = hit1 ∨ f = hit2 ∨ f = miss) ∧ c' = f (total c).

Lemma keeps_run {A} (m : M A) s : keeps_mc m → s_mc (m s).2 = s_mc s.
Proof. intros Hm. by destruct (Hm (s_mc s) s eq_refl). Qed.

(** Counting and then doing something else. *)
Lemma count_once f (m : M result) c s r s' :
  s_mc s = total c → (f = hit1 ∨ f = hit2 ∨ f = miss) → keeps_mc m →
  (_ ← update f; m) s = (Val r, s') → counted c (s_mc s').
Proof.
  intros E Hf Hm Hr. exists f. split; [done|].
  change (m (s <| s_mc ::= f |>) = (Val r, s')) in Hr.
  pose proof (keeps_run m (s <| s_mc ::= f |>) Hm) as Hk. rewrite Hr in Hk. cbn in Hk. by rewrite Hk, E.
Qed.

Lemma fromL3_counts loader k c s r s' :
  (∀ load, loader = Some load → keeps_mc (load k)) → s_mc s = total c →
  fromL3 loader k s = (Val r, s') → counted c (s_mc s').
Proof.
  intros Hl E Hr. unfold fromL3, mc in Hr. rewrite bind_run in Hr. unfold gets at 1 in Hr.
  rewrite bind_run in Hr.
  set (m := if mc_hotKeys (s_mc s) then recordAccess k else mret false) in Hr.
  assert (Hk : keeps_mc m) by (unfold m, recordAccess, Now; keeps).
  apply (keeps_run _ s) in Hk. destruct (m s) as [[b| |] s1]; try done.
  cbn in Hk. eapply (count_once miss); [by rewrite Hk, E|auto| |exact Hr].
  destruct b; [by apply keeps_loadWithLock|by apply keeps_loadFromDB].
Qed.

Lemma get_counts loader k s r s' :
  (∀ load, loader = Some load → keeps_mc (load k)) →
  Get loader k s = (Val r, s') → counted (s_mc s) (s_mc s').
Proof.
  intros Hl Hr. unfold Get in Hr. rewrite bind_run in Hr. unfold update at 1, modify in Hr.
  rewrite bind_run, world_run in Hr.
  destruct (l1_get k _).1 as [v|].
  { eapply (count_once hit1); [..|exact Hr]; [done|auto|]. destruct v; keeps. }
  rewrite bind_run in Hr. unfold mc at 1, gets in Hr. rewrite bind_run in Hr.
  assert (Hr2 : ∃ o s2, s_mc s2 = total (s_mc s) ∧
    match o with
    | ROk val => _ ← update hit2;
        if bool_decide (val = NullMarker) then
          _ ← l1SetWithTTL k (VStr NullMarker) (nullTTL (s_mc s)); _ ← l1Wait; mret (VNil, true, None)
        else ttl ← l1TTL; _ ← l1SetWithTTL k (parseValue val) ttl; _ ← l1Wait; mret (parseValue val, true, None)
    | _ => fromL3 loader k
    end s2 = (Val r, s')).
  { destruct (mc_l2 _); [rewrite world_run in Hr; eexists _, _|rewrite ret_run in Hr; exists RNil; eexists];
      (split; [|exact Hr]); done. }
  destruct Hr2 as (o & s2 & E2 & Ho). destruct o as [t| |e]; try by eapply fromL3_counts.
  eapply (count_once hit2); [done|auto| |exact Ho]. unfold l1SetWithTTL, l1Wait, mc. keeps.
Qed.

End stats.

(** ** Properties *)

(** Every lookup was a hit in one of the tiers or a miss. *)
Definition stats_ok (c : MultiLevelCache) : Prop :=
  l1Total c = wrapu64 (l1Hits c + l2Hits c + misses c).

Lemma wrapu64_add_l a b : wrapu64 (wrapu64 a + b) = wrapu64 (a + b).
Proof. apply Zplus_mod_idemp_l. Qed.

Lemma counted_stats c c' : stats_ok c → counted c c' → stats_ok c'.
Proof.
  unfold stats_ok, counted. intros Hc (f & Hf & ->).
  assert (Ht : wrapu64 (l1Total c + 1) = wrapu64 (l1Hits c + l2Hits c + misses c + 1)).
  { rewrite Hc. apply wrapu64_add_l. }
  destruct Hf as [-> | [-> | ->]]; cbn [hit1 hit2 miss total set_field l1Total l1Hits l2Hits misses];
    rewrite Ht; symmetry.
  - rewrite <-Z.add_assoc, wrapu64_add_l. f_equal. lia.
  - rewrite (Z.add_comm (l1Hits _)), <-Z.add_assoc, wrapu64_add_l. f_equal. lia.
  - rewrite (Z.add_comm _ (wrapu64 _)), wrapu64_add_l. f_equal. lia.
Qed.

(** C13: Soundness of the tiers: as long as both tiers hold, under the data
    keys, only acceptable values of their keys and null markers of absent
    ones, and the loader answers so, a [Get] answers so too, and leaves the
    tiers so, whatever entries were lost, whatever calls failed, and even if
    the loader panics under the hot-key lock.  The data keys are any keys
    that are no lock keys, and the loader may rely on any property of the
    outside that the cache's calls keep, and of the MySQL pool. *)
Theorem get_sound `{EN : Env} `{CO : Codec} `{VI : !Views} `{RE : !RedisLaws} `{LL : !L1Laws} `{FR : !FrameLaws}
    (Valid : string → gval → Prop) (Absent dk : string → Prop) (Extra : W → Prop) `{KE : !Kept Extra}
    (Pool : option RWDB → Prop) (loader : option DataLoader) k s :
  (∀ k, dk k → hasPrefix "cache:lock:" k = false) → dk k →
  let I := cache_ok Valid Absent dk Extra Pool (mc_l2 (s_mc s)) in
  (∀ load, loader = Some load → triple I (load_ok Valid Absent (λ _, True) k) (load k)) →
  I s → I (Get loader k s).2 ∧
    match (Get loader k s).1 with Val r => get_ok Valid Absent (λ _, True) k r | _ => True end.
Proof.
  intros Hd Hk I Hl Hs. apply t_Get; [done|done|intros; by case_match|done|done|done|done].
Qed.

Lemma load_null `{EN : Env} `{CO : Codec} load k s s1 :
  load k s = (Val (VNil, None), s1) →
  ∃ s2, loadFromDB (Some load) k s = (Val (VNil, true, None), s2) ∧
    s_w s2 = l1_set k (VStr NullMarker) 1 (nullTTL (s_mc s1))
      (if mc_l2 (s_mc s1) then (redis_set k NullMarker (nullTTL (s_mc s1)) (s_w s1)).2 else s_w s1).
Proof.
  intros Hload. unfold loadFromDB. rewrite bind_run, Hload. unfold mc. rewrite bind_run. unfold gets at 1.
  cbn [is_nil]. rewrite bind_run. destruct (mc_l2 (s_mc s1)); cbn [when].
  - unfold l2Set at 1. rewrite bind_run, world_run, ret_run. eexists. split; reflexivity.
  - rewrite ret_run. eexists. split; reflexivity.
Qed.

Lemma marker_answers `{EN : Env} `{CO : Codec} k t :
  (l1_get k (s_w t)).1 = Some (VStr NullMarker) → ∃ t', ∀ loader, Get loader k t = (Val (VNil, true, None), t').
Proof.
  intros E. eexists. intros loader. unfold Get. rewrite bind_run. unfold update at 1, modify. rewrite bind_run, world_run.
  change (s_w (t <| s_mc ::= total |>)) with (s_w t). rewrite E. reflexivity.
Qed.

(** Null markers absorb lookups: a load that finds no value is answered
    as known absent and writes the marker into both tiers with [nullTTL];
    while either tier answers with the marker, [Get] answers "known absent"
    and never reaches the loader. *)
Theorem null_marker_absorbs `{EN : Env} `{CO : Codec} load k s s1 :
  load k s = (Val (VNil, None), s1) →
  (∃ s2, loadFromDB (Some load) k s = (Val (VNil, true, None), s2) ∧
    s_w s2 = l1_set k (VStr NullMarker) 1 (nullTTL (s_mc s1))
      (if mc_l2 (s_mc s1) then (redis_set k NullMarker (nullTTL (s_mc s1)) (s_w s1)).2 else s_w s1)) ∧
  ∀ t, (l1_get k (s_w t)).1 = Some (VStr NullMarker) ∨
       ((l1_get k (s_w t)).1 = None ∧ mc_l2 (s_mc t) = true ∧
        (redis_get k (l1_get k (s_w t)).2).1 = ROk NullMarker) →
    ∃ t', ∀ loader, Get loader k t = (Val (VNil, true, None), t').
Proof.
  intros Hload. split; [by apply load_null|]. intros t [E|(E1 & E2 & E3)]; [by apply marker_answers|].
  eexists. intros loader. unfold Get. rewrite bind_run. unfold update at 1, modify. rewrite bind_run, world_run.
  change (s_w (t <| s_mc ::= total |>)) with (s_w t). rewrite E1.
  rewrite bind_run. unfold mc at 1, gets. cbn [mc_l2].
  match goal with |- context[mc_l2 ?c] => change (mc_l2 c) with (mc_l2 (s_mc t)) end.
  rewrite E2, bind_run, world_run. rewrite s_w_set, E3. reflexivity.
Qed.



(** Double deletion: both deletions of [InvalidateWithDelay] leave
    neither tier with an entry of the key while Redis executes them, whatever
    was cached in between; the second runs [delayMs] after the first has
    been issued, as a goroutine of its own. *)
Theorem double_delete `{EN : Env} `{CO : Codec} `{VI : !Views} `{RE : !RedisLaws} `{LL : !L1Laws}
    `{CL : !ClockLaws} `{FR : !FrameLaws} k delayMs :
  0 <= delayMs * Millisecond <= int64_max →
  (∀ s, ∃ s', InvalidateWithDelay k delayMs s = (Val tt, s') ∧
     s_tasks s' = s_tasks s ++ [TSecondDelete delayMs k] ∧
     l1_view (s_w s') k = None ∧
     (mc_l2 (s_mc s) = true → (∃ n, (redis_del k (s_w s)).1 = ROk n) → r_entry (s_w s') k = None)) ∧
  (∀ t, let w := clk_sleep (delayMs * Millisecond) (s_w t) in
     ∃ t', secondDelete delayMs k t = (Val tt, t') ∧
     w_time (s_w t) + delayMs * Millisecond <= w_time w ∧
     l1_view (s_w t') k = None ∧
     (mc_l2 (s_mc t) = true → (∃ n, (redis_del k w).1 = ROk n) → r_entry (s_w t') k = None)).
Proof.
  intros Hd. split.
  - intros s. rewrite invalidate_delay_run. eexists. split; [reflexivity|]. split; [done|].
    split; [apply l1_del_key|]. cbn [s_w set_field]. intros ->. apply deleted_both.
  - intros t w. rewrite second_delete_run by i64. eexists. split; [reflexivity|].
    split; [apply clk_sleep_time|]. split; [apply l1_del_key|]. cbn [s_w set_field]. intros ->. apply deleted_both.
Qed.

(** The statistics are consistent: every [Get] that returns adds one to
    the total and one to exactly one of L1 hits, L2 hits and misses, so the
    total stays their sum (modulo 2^64), and the reported L1 hit rate stays
    within [0, 1] while the counters are below 2^53. *)
Theorem stats_consistent `{EN : Env} `{CO : Codec} loader k s r s' :
  (∀ load, loader = Some load → keeps_mc (load k)) →
  stats_ok (s_mc s) → Get loader k s = (Val r, s') →
  stats_ok (s_mc s') ∧
  (0 <= l1Hits (s_mc s') <= l1Total (s_mc s') → l1Total (s_mc s') <= 2 ^ 53 →
   f64_leb f64_zero (L1HitRate (s_mc s')) = true ∧ f64_leb (L1HitRate (s_mc s')) f64_one = true).
Proof.
  intros Hl Hok Hr. split; [eapply counted_stats; [done|by eapply get_counts]|].
  intros Hh Ht. change (L1HitRate (s_mc s')) with (CB.failure_rate (l1Hits (s_mc s')) (l1Total (s_mc s'))).
  destruct (Z.eqb_spec (l1Total (s_mc s')) 0) as [E|E].
  - unfold CB.failure_rate. rewrite E. done.
  - pose proof (CB.failure_rate_rounds (l1Hits (s_mc s')) (l1Total (s_mc s')) ltac:(lia) ltac:(lia)) as Hround.
    pose proof f64_unit_pos. destruct (f64_of_Z_exact 1) as [F1 V1]; [lia|].
    assert (F0 : f64_fin f64_zero) by done. assert (V0 : f64_val f64_zero = 0) by done.
    unfold f64_leb. rewrite !f64_leb_val by (try (by left); apply Hround). rewrite !Z.leb_le. split.
    + eapply rounds_ge; [done..|]. lia.
    + eapply rounds_le; [done..|]. fold f64_one in V1. rewrite V1. nia.
Qed.

(** [ReceiveEviction] after [Close] panics: its send is in a [select]
    with a default branch, which does not protect against a closed channel;
    before [Close] it never blocks and never panics. *)
Theorem receive_after_close_panics `{EN : Env} `{CO : Codec} k s :
  (mc_closed (s_mc s) = false → ∃ s', ReceiveEviction k s = (Val tt, s')) ∧
  ∃ s1, (mc_closed (s_mc s) = false → Close s = (Val tt, s1)) ∧ mc_closed (s_mc s1) = true ∧
    ∃ s2, ReceiveEviction k s1 = (Panicked "send on closed channel", s2).
Proof.
  assert (Hrun : ∀ t, ReceiveEviction k t =
    (if mc_closed (s_mc t) then panic "send on closed channel"
     else if evictionCh (s_mc t) <? evictionCap then update (λ c, c <| evictionCh := evictionCh c + 1 |>)
     else mret tt) (t <| s_w := l1_del k (s_w t) |>)) by reflexivity.
  split.
  - intros Hc. rewrite Hrun, Hc. destruct (_ <? _); by eexists.
  - exists (s <| s_mc ::= (λ c, c <| mc_closed := true |>) |>). split; [|split; [done|]].
    + intros Hc. unfold Close, mc. rewrite bind_run. unfold gets. by rewrite Hc.
    + rewrite Hrun. by eexists.
Qed.

(** ** Witnesses *)

Definition demo_loader : DataLoader := λ _, mret (VNil, None).

Definition no_lock (k : string) : Prop := hasPrefix "cache:lock:" k = false.

Lemma get_sound_witness :
  match (Get (Some demo_loader) "order:1" demo_sys).1 with
  | Val r => get_ok (λ _ _, False) (λ _, True) (λ _, True) "order:1" r
  | _ => True
  end.
Proof.
  assert (H1 : ∀ load, Some demo_loader = Some load →
    triple (cache_ok (λ _ _, False) (λ _, True) no_lock (λ _, True) (λ _, True) true)
      (load_ok (λ _ _, False) (λ _, True) (λ _, True) "order:1") (load "order:1")).
  { intros load [= <-]. apply triple_ret. left. split; [reflexivity|exact I]. }
  assert (H2 : cache_ok (λ _ _, False) (λ _, True) no_lock (λ _, True) (λ _, True) true demo_sys).
  { split; [split; [|exact I]|split; [exact I|split; reflexivity]]. intros k _. split; intros ?; unfold r_view; cbn; unfold dw_entry; cbn;
      rewrite lookup_empty; discriminate. }
  pose proof (get_sound _ _ no_lock (λ _, True) (λ _, True) (Some demo_loader) "order:1" demo_sys (λ _ H, H) eq_refl H1 H2) as H3.
  destruct H3 as [_ H3].
  exact H3.
Defined.

Lemma null_marker_absorbs_witness :
  ∃ s2, loadFromDB (Some demo_loader) "order:1" demo_sys = (Val (VNil, true, None), s2).
Proof.
  destruct (proj1 (null_marker_absorbs demo_loader "order:1" demo_sys demo_sys eq_refl)) as (s2 & H & _).
  exists s2. exact H.
Defined.

(** Another process loads the hot key. *)
Definition demo_contended : Sys :=
  demo_with (demo_w <| dw_redis := {[ "cache:lock:order:1" := ("1", 100) ]} |>).


Lemma double_delete_witness :
  ∃ s', InvalidateWithDelay "order:1" 500 demo_sys = (Val tt, s') ∧
    s_tasks s' = [TSecondDelete 500 "order:1"].
Proof.
  destruct (double_delete "order:1" 500) as [H _]; [vm_compute; split; discriminate|].
  destruct (H demo_sys) as (s' & H1 & H2 & _). exists s'. split; [exact H1|exact H2].
Defined.

Lemma stats_consistent_witness : stats_ok (s_mc (Get (Some demo_loader) "order:1" demo_sys).2).
Proof.
  assert (H1 : ∀ load, Some demo_loader = Some load → keeps_mc (load "order:1")).
  { intros load [= <-]. apply keeps_ret. }
  assert (H2 : Get (Some demo_loader) "order:1" demo_sys =
    (Val (VNil, true, None), (Get (Some demo_loader) "order:1" demo_sys).2)).
  { rewrite (surjective_pairing (Get (Some demo_loader) "order:1" demo_sys)) at 1. reflexivity. }
  exact (proj1 (stats_consistent (Some demo_loader) "order:1" demo_sys _ _ H1 eq_refl H2)).
Defined.

End Cache.
