(* ===== verification/Rwdb.v ===== *)
(** * Read/write splitting ([internal/database/rwdb.go])

    Writes go to the master, reads to the replicas in turn. *)

From S2P Require Export Laws DemoWorld.

Module Rwdb.
Section rwdb.
Context `{Env}.

Definition NewRWDB (master : option conn) (replicas : list conn) : RWDB :=
  {| master := master; replicas := replicas; nextIdx := 0 |}.

Definition Master (rw : RWDB) : option conn := master rw.

(** [int(idx) % len(rw.replicas)] of the incremented [atomic.Uint32]. *)
Definition replica (rw : RWDB) : option conn * RWDB :=
  match replicas rw with
  | [] => (master rw, rw)
  | l =>
      let idx := wrapu32 (nextIdx rw + 1) in
      (l !! Z.to_nat (Z.rem idx (Z.of_nat (Datatypes.length l))), rw <| nextIdx := idx |>)
  end.

Definition IsNil (rw : RWDB) : bool := match master rw with None => true | Some _ => false end.

(** The two pools of the process. *)
Inductive db := MySQL | Postgres.
Definition get_db (d : db) (s : Sys) : option RWDB := match d with MySQL => s_mysql s | Postgres => s_pg s end.
Definition set_db (d : db) (rw : RWDB) (s : Sys) : Sys :=
  match d with MySQL => s <| s_mysql := Some rw |> | Postgres => s <| s_pg := Some rw |> end.

Definition nil_deref {A} : M A := panic "invalid memory address or nil pointer dereference".

(** A method call on the pool: a nil receiver panics at its first field. *)
Definition on_db {A} (d : db) (f : RWDB → M A) : M A :=
  o ← gets (get_db d); match o with Some rw => f rw | None => nil_deref end.

Definition take_replica (d : db) : M (option conn) :=
  on_db d (λ rw, let '(c, rw) := replica rw in _ ← modify (set_db d rw); mret c).

(** The driver's error, or the last insert id. *)
Definition ExecContext (d : db) (query : string) (args : list sqlval) : M (error + (string + Z)) :=
  on_db d (λ rw,
    match master rw with
    | None => mret (inl (Errorf "rwdb: master not available"))
    | Some c =>
        r ← world (sql_exec c query args);
        mret (match r with inl e => inl (Errorf e) | inr id => inr id end)
    end).

Definition QueryContext (d : db) (query : string) (args : list sqlval)
    : M (error + list (list sqlval) * option string) :=
  c ← take_replica d;
  match c with
  | None => mret (inl (Errorf "rwdb: no db available"))
  | Some c =>
      r ← world (sql_query c query args);
      mret (match r with inl e => inl (Errorf e) | inr rows => inr rows end)
  end.

(** [None]: a nil [*sql.Row], whose [Scan] would panic. *)
Definition QueryRowContext (d : db) (query : string) (args : list sqlval) : M (option row_res) :=
  c ← take_replica d;
  match c with
  | None => mret None
  | Some c => r ← world (sql_query_row c query args); mret (Some r)
  end.

Definition PingContext (d : db) : M (option error) :=
  on_db d (λ rw,
    match master rw with
    | None => mret (Some (Errorf "rwdb: master not available"))
    | Some c => r ← world (sql_ping c); mret (Errorf <$> r)
    end).

Fixpoint close_all (l : list conn) : M unit :=
  match l with [] => mret tt | c :: l => _ ← world_ (sql_close c); close_all l end.

Definition CloseDB (d : db) : M unit :=
  on_db d (λ rw,
    _ ← match master rw with Some c => world_ (sql_close c) | None => mret tt end;
    close_all (replicas rw)).

(** [s.db == nil || s.db.IsNil()] *)
Definition unavailable (d : db) : M bool :=
  o ← gets (get_db d); mret (match o with Some rw => IsNil rw | None => true end).

Lemma unavailable_run d s :
  unavailable d s = (Val (match get_db d s with Some rw => IsNil rw | None => true end), s).
Proof. done. Qed.

Lemma exec_run d q args s rw c :
  get_db d s = Some rw → master rw = Some c →
  ExecContext d q args s =
    (Val (match (sql_exec c q args (s_w s)).1 with inl e => inl (Errorf e) | inr id => inr id end),
     s <| s_w := (sql_exec c q args (s_w s)).2 |>).
Proof.
  intros E1 E2. unfold ExecContext, on_db. rewrite bind_run. unfold gets. rewrite E1, E2.
  by rewrite bind_run, world_run.
Qed.

(** A read takes its turn, then asks the chosen pool. *)
Lemma query_row_run d q args s rw c rw' :
  get_db d s = Some rw → replica rw = (Some c, rw') →
  QueryRowContext d q args s =
    (Val (Some (sql_query_row c q args (s_w s)).1),
     (set_db d rw' s) <| s_w := (sql_query_row c q args (s_w s)).2 |>).
Proof.
  intros E1 E2. unfold QueryRowContext, take_replica, on_db. rewrite !bind_run. unfold gets.
  rewrite E1, E2, bind_run. unfold modify. rewrite ret_run, bind_run, world_run. by destruct d.
Qed.

(** [n] reads in a row, and the replicas they go to. *)
Fixpoint picks (n : nat) (rw : RWDB) : list (option conn) :=
  match n with O => [] | S n => let '(c, rw) := replica rw in c :: picks n rw end.

Lemma replica_spec rw :
  replicas rw ≠ [] →
  let n := Z.of_nat (Datatypes.length (replicas rw)) in
  let idx := wrapu32 (nextIdx rw + 1) in
  replica rw = (replicas rw !! Z.to_nat (idx mod n), rw <| nextIdx := idx |>) ∧ 0 < n ∧ 0 <= idx.
Proof.
  intros Hne n idx. assert (0 < n) by (unfold n; destruct (replicas rw); [done|simpl; lia]).
  assert (0 <= idx) by (unfold idx, wrapu32; apply Z.mod_pos_bound; lia).
  split; [|by split]. unfold replica. fold n idx.
  replace (idx mod n) with (Z.rem idx n) by (apply Z.rem_mod_nonneg; lia).
  unfold n, idx. by destruct (replicas rw).
Qed.

Lemma picks_lookup m rw j :
  replicas rw ≠ [] → 0 <= nextIdx rw → nextIdx rw + Z.of_nat m < 2 ^ 32 → (j < m)%nat →
  picks m rw !! j =
    Some (replicas rw !! Z.to_nat ((nextIdx rw + 1 + Z.of_nat j) mod Z.of_nat (Datatypes.length (replicas rw)))).
Proof.
  revert rw j. induction m as [|m IH]; intros rw j Hne H0 Hm Hj; [lia|]. cbn [picks].
  destruct (replica_spec rw Hne) as (-> & Hn & Hi).
  assert (Hw : wrapu32 (nextIdx rw + 1) = nextIdx rw + 1) by (apply Z.mod_small; lia).
  rewrite Hw. destruct j as [|j]; [cbn; by rewrite Z.add_0_r|].
  change (picks m (rw <| nextIdx := nextIdx rw + 1 |>) !! j = Some (replicas rw !!
    Z.to_nat ((nextIdx rw + 1 + Z.of_nat (S j)) mod Z.of_nat (Datatypes.length (replicas rw))))).
  replace (nextIdx rw + 1 + Z.of_nat (S j)) with (nextIdx rw + 1 + 1 + Z.of_nat j) by lia.
  set (rw' := rw <| nextIdx := nextIdx rw + 1 |>). apply (IH rw' j); [done|cbn; lia|cbn; lia|lia].
Qed.

Lemma picks_length m rw : Datatypes.length (picks m rw) = m.
Proof. revert rw. induction m as [|m IH]; intros rw; [done|]. cbn [picks]. destruct (replica rw). cbn. by rewrite IH. Qed.

End rwdb.

(** ** Scanning

    [Rows.Scan] into the destinations the program uses, from the values its
    drivers deliver: integers, text, floats, instants, NULL. *)

Section scan.
Context `{Codec}.

Definition scan_error {A} (what : string) : string + A := inl ("sql: Scan error: converting driver.Value to " +:+ what).

Definition scan_uint (v : sqlval) : string + Z :=
  match v with
  | SInt z => if 0 <=? z then inr z else scan_error "uint64"
  | SStr s => match parse_uint s with Some n => inr n | None => scan_error "uint64" end
  | _ => scan_error "uint64"
  end.
Definition scan_int (v : sqlval) : string + Z :=
  match v with
  | SInt z => inr z
  | SStr s => match parse_int s with Some n => inr n | None => scan_error "int64" end
  | _ => scan_error "int64"
  end.
Definition scan_str (v : sqlval) : string + string :=
  match v with
  | SStr s => inr s
  | SInt z => inr (show_Z z)
  | STime t => inr (time_format t)
  | SFloat _ | SNull => scan_error "string"
  end.
(** [sql.NullString] *)
Definition scan_nullstr (v : sqlval) : string + option string :=
  match v with
  | SNull => inr None
  | _ => match scan_str v with inr s => inr (Some s) | inl e => inl e end
  end.
Definition scan_float (v : sqlval) : string + float64 :=
  match v with
  | SFloat f => inr f
  | SInt z => inr (f64_of_Z z)
  | SStr s => match float_parse s with Some f => inr f | None => scan_error "float64" end
  | _ => scan_error "float64"
  end.
Definition scan_time (v : sqlval) : string + Z :=
  match v with STime t => inr t | _ => scan_error "time.Time" end.

Definition sbind {A B} (x : string + A) (f : A → string + B) : string + B :=
  match x with inr a => f a | inl e => inl e end.

(** The seven columns of an order. *)
Definition scan_order (row : list sqlval) : string + Order :=
  match row with
  | [id; user_id; order_no; amount; status; created; updated] =>
      sbind (scan_uint id) (λ id, sbind (scan_uint user_id) (λ user_id,
      sbind (scan_str order_no) (λ order_no, sbind (scan_float amount) (λ amount,
      sbind (scan_str status) (λ status, sbind (scan_time created) (λ created,
      sbind (scan_time updated) (λ updated,
      inr (mkOrder id user_id order_no amount status created updated))))))))
  | _ => inl "sql: wrong number of destination arguments in Scan"
  end.

(** The row of an order. *)
Definition order_row (o : Order) : list sqlval :=
  [SInt (o_ID o); SInt (o_UserID o); SStr (o_OrderNo o); SFloat (o_Amount o); SStr (o_Status o);
   STime (o_CreatedAt o); STime (o_UpdatedAt o)].

Lemma scan_order_row o : 0 <= o_ID o → 0 <= o_UserID o → scan_order (order_row o) = inr o.
Proof.
  intros Hi Hu. unfold scan_order, order_row, scan_uint.
  destruct (Z.leb_spec 0 (o_ID o)); [|lia]. destruct (Z.leb_spec 0 (o_UserID o)); [|lia]. by destruct o.
Qed.

End scan.

(** ** Properties *)

(** Round robin: reads never go to the master while there are replicas;
    as many reads in a row as there are replicas visit each of them once, in
    their order, starting after the last one used, as long as the 32-bit
    counter does not wrap.  When it wraps the rotation breaks: with three
    replicas two reads in a row go to the same one. *)
Theorem round_robin `{Env} rw :
  replicas rw ≠ [] → 0 <= nextIdx rw →
  let n := Datatypes.length (replicas rw) in
  (nextIdx rw + Z.of_nat n < 2 ^ 32 →
     picks n rw = map Some (rotate (Z.to_nat (nextIdx rw + 1)) (replicas rw))) ∧
  (n = 3%nat → nextIdx rw = 2 ^ 32 - 2 → ∃ c, picks 2 rw = [Some c; Some c]).
Proof.
  intros Hne H0 n. split.
  - intros Hm. apply list_eq_same_length with n; [by rewrite length_map, length_rotate|by rewrite picks_length|].
    intros j x y Hj Hx Hy. rewrite picks_lookup in Hx by done.
    rewrite list_lookup_fmap, lookup_rotate_r in Hy by done.
    unfold rotate_nat_add in Hy. rewrite Z2Nat.id in Hy by lia. fold n in Hx, Hy.
    destruct (replicas rw !! _); simplify_eq/=. done.
  - intros Hn Hi. cbn [picks]. destruct (replica_spec rw Hne) as (-> & _ & _).
    set (rw' := rw <| nextIdx := wrapu32 (nextIdx rw + 1) |>). cbv beta iota.
    destruct (replica_spec rw' Hne) as (-> & _ & _). cbn [nextIdx replicas rw' set_field].
    rewrite Hi. fold n. rewrite Hn. destruct (replicas rw) as [|c l] eqn:E; [done|].
    by exists c.
Qed.

Lemma round_robin_witness :
  picks 3 (mkRWDB demo_env None [1; 2; 3]%nat 0) = [Some 2; Some 3; Some 1]%nat.
Proof.
  destruct (round_robin (mkRWDB demo_env None [1; 2; 3]%nat 0)) as [H _].
  { intros E. discriminate E. }
  { vm_compute. discriminate. }
  etrans; [apply H; reflexivity|reflexivity].
Defined.

End Rwdb.
