(* ===== verification/Mq.v ===== *)
(** * Kafka producer and consumer ([internal/mq])

    Sending with trace headers and a compensation log, the dead-letter
    queue, and the consumer's worker: rate limit, fetch, retries with
    exponential backoff, dead-lettering, commit.  A context is the trace id
    it carries ([internal/trace]); cancellation is in the world. *)

From S2P Require Export Laws DemoWorld.

Module Mq.

(** [trace.NewContext] and [trace.FromContext]; the empty string when the
    context carries no id. *)
Definition context := string.
Definition Background : context := "".
Definition NewContext (ctx : context) (traceID : string) : context := traceID.
Definition FromContext (ctx : context) : string := ctx.

(** ** Producer *)

Definition b64_alphabet : string := "ABCDEFGHIJKLMNOPQRSTUVWXYZabcdefghijklmnopqrstuvwxyz0123456789+/".
Definition b64_char (n : N) : ascii :=
  match String.get (N.to_nat n) b64_alphabet with Some c => c | None => "="%char end.

(** [base64.StdEncoding], the form [json.Marshal] gives a [[]byte]. *)
Fixpoint base64 (s : string) : string :=
  match s with
  | EmptyString => EmptyString
  | String a EmptyString =>
      let x := N_of_ascii a in
      String (b64_char (x / 4)) (String (b64_char (x mod 4 * 16)) "==")
  | String a (String b EmptyString) =>
      let x := N_of_ascii a in let y := N_of_ascii b in
      String (b64_char (x / 4)) (String (b64_char (x mod 4 * 16 + y / 16))
        (String (b64_char (y mod 16 * 4)) "="))
  | String a (String b (String c s)) =>
      let x := N_of_ascii a in let y := N_of_ascii b in let z := N_of_ascii c in
      String (b64_char (x / 4)) (String (b64_char (x mod 4 * 16 + y / 16))
        (String (b64_char (y mod 16 * 4 + z / 64)) (String (b64_char (z mod 64)) (base64 s))))
  end.

Lemma b64_ascii n : byte_in 0 127 (b64_char n) = true.
Proof.
  assert (H : ∀ k c, String.get k b64_alphabet = Some c → byte_in 0 127 c = true).
  { assert (Ha : is_ascii b64_alphabet = true) by reflexivity. revert Ha. generalize b64_alphabet.
    induction s as [|d s IH]; intros Ha k c Hc; [done|]. cbn in Ha. apply andb_true_iff in Ha as [Hd Hs].
    destruct k as [|k]; cbn in Hc; [by simplify_eq|]. by eapply IH. }
  unfold b64_char. destruct (String.get _ _) as [c|] eqn:E; [by eapply H|done].
Qed.

Lemma base64_utf8 s : utf8_valid (base64 s) = true.
Proof.
  apply is_ascii_utf8. assert (H : ∀ n s, (String.length s <= n)%nat → is_ascii (base64 s) = true); [|by eapply H].
  clear s. induction n as [|n IH]; intros [|a [|b [|c s]]] Hn; cbn in Hn; try done; try lia;
    cbn [base64 is_ascii]; rewrite !b64_ascii; try done. apply IH. lia.
Qed.

(** What the program hands to [Send] and [SendToDLQ]. *)
Inductive payload := PEvent (e : BusinessEvent) | PBytes (b : string).

(** The topics of the writers; [createTopicIfNotExist] only talks to Kafka. *)
Definition NewEventProducer (brokers : list string) (topic : string) (maxRetries : Z) : EventProducer :=
  {| ep_brokers := brokers; ep_topic := topic; ep_dlqTopic := topic +:+ ".dlq"; ep_maxRetries := maxRetries |}.

Section producer.
Context `{Env} `{Codec}.

Definition MarshalPayload (v : payload) : option string :=
  match v with PEvent e => MarshalEvent e | PBytes b => Some (json_text (JStr (base64 b))) end.

Definition marshal_error : string := "json: unsupported value".

(** It reads the clock for its log line. *)
Definition compensationLog (ep : EventProducer) (key data : string) : M unit := _ ← Now; mret tt.

Definition Send (ep : EventProducer) (ctx : context) (key : string) (value : payload) : M (option error) :=
  match MarshalPayload value with
  | None => mret (Some (Errorf ("marshal event: " +:+ marshal_error)))
  | Some data =>
      sent ← Now;
      let traceID := FromContext ctx in
      let headers := ("sent_at", time_rfc3339 sent) ::
        (if bool_decide (traceID = "") then [] else [("trace_id", traceID)]) in
      _ ← Now;
      r ← world (kafka_write (ep_topic ep) (mkMsg key data headers));
      match r with
      | Some e => _ ← compensationLog ep key data; mret (Some (Errorf ("kafka send: " +:+ e)))
      | None => mret None
      end
  end.

(** The goroutine has a context of its own, with the trace id of [ctx]. *)
Definition SendAsync (ep : EventProducer) (ctx : context) (key : string) (e : BusinessEvent) : M unit :=
  go (TSend ep (FromContext ctx) key e).

Definition sendTask (ep : EventProducer) (traceID key : string) (e : BusinessEvent) : M unit :=
  let bgCtx := if bool_decide (traceID = "") then Background else NewContext Background traceID in
  _ ← Send ep bgCtx key (PEvent e); mret tt.

Definition SendToDLQ (ep : EventProducer) (ctx : context) (key : string) (value : payload) : M (option error) :=
  match MarshalPayload value with
  | None => mret (Some (Errorf marshal_error))
  | Some data =>
      t ← Now;
      r ← world (kafka_write (ep_dlqTopic ep)
        (mkMsg key data [("original_topic", ep_topic ep); ("dead_letter_at", time_rfc3339 t)]));
      mret (Errorf <$> r)
  end.

Definition Ping (ep : EventProducer) : M (option error) :=
  match ep_brokers ep with
  | [] => mret (Some (Errorf "no brokers configured"))
  | b :: _ => r ← world (kafka_dial b); mret (Errorf <$> r)
  end.

End producer.

(** ** Consumer *)

(** The reader's configuration and the limiter's rate and burst. *)
Record ReaderConfig := {
  rc_Brokers : list string; rc_Topic : string; rc_GroupID : string; rc_MinBytes : Z; rc_MaxBytes : Z;
  rc_MaxWait : Z; rc_CommitInterval : Z; rc_StartOffset : Z; rc_MaxAttempts : Z
}.

Record EventConsumer := {
  ec_reader : ReaderConfig;
  ec_producer : option EventProducer;   (* for the dead letters *)
  ec_maxRetries : Z;
  ec_rate : Z * Z;
  ec_concurrency : Z
}.

(** [kafka.FirstOffset] and [kafka.LastOffset]. *)
Definition FirstOffset : Z := -2.
Definition LastOffset : Z := -1.

(** The handler is an argument of the operations that call it. *)
Definition NewEventConsumer (brokers : list string) (topic groupID : string) (concurrency rateLimit maxRetries : Z)
    (dlqProducer : option EventProducer) (startFromLatest : bool) : EventConsumer :=
  {| ec_reader :=
       {| rc_Brokers := brokers; rc_Topic := topic; rc_GroupID := groupID; rc_MinBytes := 1024;
          rc_MaxBytes := 10 * 1024 * 1024; rc_MaxWait := 100 * Millisecond; rc_CommitInterval := 0;
          rc_StartOffset := if startFromLatest then LastOffset else FirstOffset; rc_MaxAttempts := 1 |};
     ec_producer := dlqProducer; ec_maxRetries := maxRetries; ec_rate := (rateLimit, rateLimit);
     ec_concurrency := concurrency |}.

(** [make(chan struct{}, concurrency)]: a negative size panics. *)
Definition make_doneCh `{Env} (concurrency : Z) : M unit :=
  if concurrency <? 0 then panic "makechan: size out of range" else mret tt.

Fixpoint extractTraceID (headers : list (string * string)) : string :=
  match headers with
  | [] => ""
  | (k, v) :: headers => if bool_decide (k = "trace_id") then v else extractTraceID headers
  end.

(** What [Stop] waits for: the workers' reports, or the timeout; the number
    that reported by then. *)
Inductive stop_event := WorkerDone | StopTimeout.
Fixpoint wait_workers (events : list stop_event) (concurrency workersDone : Z) : option Z :=
  if workersDone <? concurrency then
    match events with
    | [] => None                                     (* still waiting *)
    | WorkerDone :: events => wait_workers events concurrency (workersDone + 1)
    | StopTimeout :: _ => Some workersDone
    end
  else Some workersDone.

(** It closes [stopCh] first, which panics when it is closed already. *)
Definition Stop (events : list stop_event) (ec : EventConsumer) (stopCh_closed : bool) : option (option Z) :=
  if stopCh_closed then None else Some (wait_workers events (ec_concurrency ec) 0).

Definition isStopped (stopCh_closed : bool) : bool := stopCh_closed.

(** Kafka's administration: the controller of a broker, the number of
    partitions of a topic, and the creation of one. *)
Section admin.
Context `{Env}.
Context (kafka_controller : string → W → (string + string * Z) * W)
        (kafka_partitions : string → string → W → (string + Z) * W)
        (kafka_create : string → string → Z → Z → W → option string * W).

Definition createTopicIfNotExist (brokers : list string) (topic : string) : M (option error) :=
  match brokers with
  | [] => mret (Some (Errorf "no brokers configured"))
  | broker :: _ =>
      e ← world (kafka_dial broker);
      match e with
      | Some e => mret (Some (Errorf ("dial broker: " +:+ e)))
      | None =>
          r ← world (kafka_controller broker);
          match r with
          | inl e => mret (Some (Errorf ("get controller: " +:+ e)))
          | inr (host, port) =>
              let addr := host +:+ ":" +:+ show_Z port in
              e ← world (kafka_dial addr);
              match e with
              | Some e => mret (Some (Errorf ("dial controller: " +:+ e)))
              | None =>
                  p ← world (kafka_partitions addr topic);
                  if (match p with inr n => 0 <? n | inl _ => false end) then mret None
                  else
                    e ← world (kafka_create addr topic 3 1);
                    mret (match e with Some e => Some (Errorf ("create topic: " +:+ e)) | None => None end)
              end
          end
      end
  end.

(** It returns the ids of the workers it starts. *)
Definition Start (ec : EventConsumer) (concurrency : Z) : M (list Z) :=
  _ ← createTopicIfNotExist (rc_Brokers (ec_reader ec)) (rc_Topic (ec_reader ec));
  mret (seqZ 0 concurrency).

End admin.

Section consumer.
Context `{Env} `{Codec}.

Definition MessageHandler : Type := context → string → string → M (option error).

(** The loop of [processWithRetry] with [todo] attempts to go. *)
Fixpoint retry_loop (todo : nat) (first : bool) (backoff : Z) (lastErr : option error)
    (attempt : M (option error)) : M (option error) :=
  match todo with
  | O => mret lastErr
  | S todo =>
      let try_ backoff :=
        err ← attempt;
        match err with
        | None => mret None
        | Some e => retry_loop todo false backoff (Some e) attempt
        end in
      if first then try_ backoff
      else
        r ← world (ctx_wait backoff);
        match r with
        | Some e => mret (Some (Sentinel e))          (* ctx.Err() *)
        | None => try_ (wrap64 (backoff * 2))
        end
  end.

Definition processWithRetry (handler : MessageHandler) (ec : EventConsumer) (ctx : context) (key value : string)
    : M (option error) :=
  retry_loop (Z.to_nat (ec_maxRetries ec + 1)) true (100 * Millisecond) None (handler ctx key value).

(** One round of [consumeLoop]; false: the worker returns. *)
Definition consume_once (handler : MessageHandler) (ec : EventConsumer) (ctx : context) : M bool :=
  done ← world ctx_err;
  match done with Some _ => mret false | None =>
  waited ← world rate_wait;
  match waited with Some _ => mret false | None =>
  fetched ← world kafka_fetch;
  match fetched with
  | inl _ =>
      done ← world ctx_err;
      match done with Some _ => mret false | None => _ ← Sleep (100 * Millisecond); mret true end
  | inr msg =>
      let traceID := extractTraceID (k_Headers msg) in
      let msgCtx := if bool_decide (traceID = "") then ctx else NewContext ctx traceID in
      err ← processWithRetry handler ec msgCtx (k_Key msg) (k_Value msg);
      _ ← match err, ec_producer ec with
          | Some _, Some ep => SendToDLQ ep msgCtx (k_Key msg) (PBytes (k_Value msg))
          | _, _ => mret None
          end;
      _ ← world (kafka_commit msg);
      mret true
  end end end.

Fixpoint consumeLoop (fuel : nat) (handler : MessageHandler) (ec : EventConsumer) (ctx : context) : M unit :=
  match fuel with
  | O => unfinished
  | S fuel =>
      continue ← consume_once handler ec ctx;
      if continue : bool then consumeLoop fuel handler ec ctx else mret tt
  end.

(** ** Laws of the retries *)

(** [n] attempts in a row that fail, the first at once, each later one after
    its backoff; the last error and the state after it. *)
Inductive failing (attempt : M (option error)) : nat → Z → Sys → error → Sys → Prop :=
| failing_last b s e s' : attempt s = (Val (Some e), s') → failing attempt 1 b s e s'
| failing_more n b s e s1 w e' s' :
    attempt s = (Val (Some e), s1) → ctx_wait b (s_w s1) = (None, w) →
    failing attempt n (wrap64 (b * 2)) (s1 <| s_w := w |>) e' s' →
    failing attempt (S n) b s e' s'.

(** The backoff before attempt number [n], from zero. *)
Definition backoff_at (b : Z) (n : nat) : Z := Nat.iter n (λ b, wrap64 (b * 2)) b.

Lemma backoff_at_S b n : backoff_at b (S n) = backoff_at (wrap64 (b * 2)) n.
Proof. unfold backoff_at. by rewrite Nat.iter_succ_r. Qed.

(** The state in which a loop arrives after failing attempts. *)
Lemma retry_after todo n b s e s' attempt lastErr :
  failing attempt n b s e s' →
  retry_loop (n + todo) true b lastErr attempt s =
    retry_loop todo false (backoff_at b (n - 1)) (Some e) attempt s'.
Proof.
  intros Hf. revert lastErr. induction Hf as [b s e s' E|n b s e s1 w e' s' E Hw Hf IH]; intros lastErr.
  - cbn. by rewrite bind_run, E.
  - cbn [Nat.add retry_loop]. rewrite bind_run, E.
    assert (Hn : ∃ m, n = S m) by (inversion Hf; eauto). destruct Hn as [m ->].
    replace (S (S m) - 1)%nat with (S m) by lia. rewrite backoff_at_S.
    replace (S m - 1)%nat with m in IH by lia. rewrite <-(IH (Some e)).
    cbn [Nat.add retry_loop]. by rewrite bind_run, world_run, Hw.
Qed.

Lemma SendToDLQ_bytes ep ctx key b s :
  let '(t, w) := clk_now (s_w s) in
  let '(r, w') := kafka_write (ep_dlqTopic ep)
    (mkMsg key (json_text (JStr (base64 b)))
      [("original_topic", ep_topic ep); ("dead_letter_at", time_rfc3339 t)]) w in
  SendToDLQ ep ctx key (PBytes b) s = (Val (Errorf <$> r), s <| s_w := w' |>).
Proof.
  unfold SendToDLQ, Now. cbn [MarshalPayload]. autorewrite with hcf_rw.
  destruct (clk_now (s_w s)) as [t w]. cbn [fst snd].
  by destruct (kafka_write _ _ w).
Qed.

Lemma backoff_at_doubles b n : 0 <= b -> b * 2 ^ Z.of_nat n <= int64_max -> backoff_at b n = b * 2 ^ Z.of_nat n.
Proof.
  revert b. induction n as [|n IH]; intros b Hb Hn; [cbn; lia|].
  replace (Z.of_nat (S n)) with (Z.of_nat n + 1) in * by lia. rewrite Z.pow_add_r in * by lia.
  assert (H2 : 1 <= 2 ^ Z.of_nat n) by (pose proof (Z.pow_pos_nonneg 2 (Z.of_nat n)); lia).
  assert (Hw : wrap64 (b * 2) = b * 2) by (apply wrap64_id; unfold in_int64, int64_min, int64_max in *; nia).
  rewrite backoff_at_S, Hw, IH by (unfold int64_max in *; nia). lia.
Qed.

(** A worker's round that handles a message, up to the commit. *)
Lemma consume_once_run handler ec ctx s w1 w2 w3 msg :
  ctx_err (s_w s) = (None, w1) -> rate_wait w1 = (None, w2) -> kafka_fetch w2 = (inr msg, w3) ->
  let traceID := extractTraceID (k_Headers msg) in
  let msgCtx := if bool_decide (traceID = "") then ctx else NewContext ctx traceID in
  consume_once handler ec ctx s =
  (err ← processWithRetry handler ec msgCtx (k_Key msg) (k_Value msg);
   _ ← match err, ec_producer ec with
       | Some _, Some ep => SendToDLQ ep msgCtx (k_Key msg) (PBytes (k_Value msg))
       | _, _ => mret None
       end;
   _ ← world (kafka_commit msg); mret true) (s <| s_w := w3 |>).
Proof.
  intros E1 E2 E3. unfold consume_once. rewrite bind_run, world_run, E1. cbn [fst snd].
  rewrite bind_run, world_run, s_w_set, E2. cbn [fst snd].
  rewrite bind_run, world_run, s_w_set, E3. done.
Qed.

End consumer.

(** ** Properties *)

(** C23: Retries: the handler is tried at once and then at most [maxRetries]
    times more, after waits of 100 ms, 200 ms, 400 ms and so on; the first
    success ends it without an error, exhaustion reports the last error, a
    context that ends during a wait reports the context's error.  With a
    negative [maxRetries] the handler is never run and the message counts as
    processed. *)
Theorem retry_outcomes `{Env} handler ec ctx key value s :
  let m := ec_maxRetries ec in
  let attempt := handler ctx key value in
  let b := 100 * Millisecond in
  let result := processWithRetry handler ec ctx key value s in
  (m < 0 → result = (Val None, s)) ∧
  (∀ s', 0 <= m → attempt s = (Val None, s') → result = (Val None, s')) ∧
  (∀ n e s1, failing attempt (S n) b s e s1 →
     (Z.of_nat n = m → result = (Val (Some e), s1)) ∧
     (Z.of_nat n < m →
        (∀ c w, ctx_wait (backoff_at b n) (s_w s1) = (Some c, w) →
           result = (Val (Some (Sentinel c)), s1 <| s_w := w |>)) ∧
        (∀ w s2, ctx_wait (backoff_at b n) (s_w s1) = (None, w) →
           attempt (s1 <| s_w := w |>) = (Val None, s2) → result = (Val None, s2)))) ∧
  (∀ n, (n <= 36)%nat → backoff_at b n = 100 * Millisecond * 2 ^ Z.of_nat n).
Proof.
  intros m attempt b result. repeat split.
  - intros Hm. unfold result, processWithRetry. by rewrite Z2Nat.nonpos by (fold m; lia).
  - intros s' Hm E. unfold result, processWithRetry. fold m.
    replace (Z.to_nat (m + 1)) with (S (Z.to_nat m)) by lia. cbn [retry_loop].
    by rewrite bind_run; fold attempt; rewrite E.
  - intros Hm. unfold result, processWithRetry. fold m b attempt.
    replace (Z.to_nat (m + 1)) with (S n + 0)%nat by lia. by rewrite (retry_after 0 (S n) b s e s1).
  - intros c w E. unfold result, processWithRetry. fold m b attempt.
    replace (Z.to_nat (m + 1)) with (S n + S (Z.to_nat (m - Z.of_nat n - 1)))%nat by lia.
    rewrite (retry_after _ (S n) b s e s1) by done. replace (S n - 1)%nat with n by lia.
    cbn [retry_loop]. by rewrite bind_run, world_run, E.
  - intros w s2 E Ea. unfold result, processWithRetry. fold m b attempt.
    replace (Z.to_nat (m + 1)) with (S n + S (Z.to_nat (m - Z.of_nat n - 1)))%nat by lia.
    rewrite (retry_after _ (S n) b s e s1) by done. replace (S n - 1)%nat with n by lia.
    cbn [retry_loop]. rewrite bind_run, world_run, E. cbn [fst snd]. by rewrite bind_run, Ea.
  - intros n Hn. apply backoff_at_doubles; [done|]. transitivity (b * 2 ^ 36); [|done].
    apply Z.mul_le_mono_nonneg_l; [done|]. apply Z.pow_le_mono_r; lia.
Qed.

Definition demo_fails : MessageHandler := λ _ _ _, mret (Some (Errorf "refused")).
Definition demo_producer : EventProducer := NewEventProducer ["localhost:9092"] "order-create.dlq" 3.
Definition demo_consumer : EventConsumer :=
  NewEventConsumer ["localhost:9092"] "order-create" "group" 8 100 1 (Some demo_producer) false.

Lemma demo_failing (s : Sys) w :
  ctx_wait (100 * Millisecond) (s_w s) = (None, w) →
  failing (demo_fails "" "k" "v") 2 (100 * Millisecond) s (Errorf "refused") (s <| s_w := w |>).
Proof. intros E. eapply failing_more; [reflexivity|exact E|]. by apply failing_last. Qed.

Lemma retry_outcomes_witness :
  processWithRetry demo_fails demo_consumer "" "k" "v" demo_sys =
    (Val (Some (Errorf "refused")), demo_sys <| s_w := (ctx_wait (100 * Millisecond) (s_w demo_sys)).2 |>).
Proof.
  pose proof (retry_outcomes demo_fails demo_consumer "" "k" "v" demo_sys) as (_ & _ & H & _).
  exact (proj1 (H _ _ _ (demo_failing demo_sys _ eq_refl)) eq_refl).
Defined.

(** What a round does once the retries of its message are over. *)
Definition letter `{Codec} (ep : EventProducer) (msg : kafka_message) (t : Z) : kafka_message :=
  mkMsg (k_Key msg) (json_text (JStr (base64 (k_Value msg))))
    [("original_topic", ep_topic ep); ("dead_letter_at", time_rfc3339 t)].

Lemma settle_run `{Env} `{Codec} ec ctx msg (err : option error) s :
  let w := match err, ec_producer ec with
    | Some _, Some ep => let '(t, w) := clk_now (s_w s) in (kafka_write (ep_dlqTopic ep) (letter ep msg t) w).2
    | _, _ => s_w s
    end in
  (_ ← match err, ec_producer ec with
       | Some _, Some ep => SendToDLQ ep ctx (k_Key msg) (PBytes (k_Value msg))
       | _, _ => mret None
       end;
   _ ← world (kafka_commit msg); mret true) s = (Val true, s <| s_w := (kafka_commit msg w).2 |>).
Proof.
  intros w. unfold w. destruct err as [e|]; [destruct (ec_producer ec) as [ep|]|];
    [|by rewrite bind_run, ret_run, bind_run, world_run..].
  rewrite bind_run. pose proof (SendToDLQ_bytes ep ctx (k_Key msg) (k_Value msg) s) as Hd. unfold letter.
  destruct (clk_now (s_w s)) as [t w1]. destruct (kafka_write _ _ w1) as [r w'].
  rewrite Hd. by rewrite bind_run, world_run.
Qed.

(** C24: Every fetched message is committed: once the retries are over the
    worker commits the message and goes on, whether they succeeded, were
    exhausted or were cut short, and whatever the dead-letter queue
    answered.  A message is offered to the queue exactly when the retries
    failed and there is a producer for it, as one write to the producer's
    dead-letter topic; when that write fails the message is lost. *)
Theorem consume_commits `{Env} `{Codec} handler ec ctx s w1 w2 w3 msg err s1 :
  ctx_err (s_w s) = (None, w1) → rate_wait w1 = (None, w2) → kafka_fetch w2 = (inr msg, w3) →
  let traceID := extractTraceID (k_Headers msg) in
  let msgCtx := if bool_decide (traceID = "") then ctx else NewContext ctx traceID in
  processWithRetry handler ec msgCtx (k_Key msg) (k_Value msg) (s <| s_w := w3 |>) = (Val err, s1) →
  let w4 := match err, ec_producer ec with
    | Some _, Some ep =>
        let '(t, w) := clk_now (s_w s1) in (kafka_write (ep_dlqTopic ep) (letter ep msg t) w).2
    | _, _ => s_w s1
    end in
  consume_once handler ec ctx s = (Val true, s1 <| s_w := (kafka_commit msg w4).2 |>).
Proof.
  intros E1 E2 E3 traceID msgCtx Ep w4. rewrite (consume_once_run handler ec ctx s w1 w2 w3 msg) by done.
  fold traceID msgCtx. rewrite bind_run, Ep. apply settle_run.
Qed.

(** Kafka accepts nothing, and one message waits. *)
Definition demo_msg : kafka_message := mkMsg "k" "v" [].
Definition demo_kafka_down : Sys := demo_with (demo_w <| dw_kafka_up := false |> <| dw_inbox := [demo_msg] |>).

Lemma consume_commits_witness :
  ∃ s', consume_once demo_fails demo_consumer "" demo_kafka_down = (Val true, s') ∧
    dw_committed (s_w s') = [demo_msg] ∧ dw_kafka (s_w s') = [].
Proof.
  pose proof (consume_commits demo_fails demo_consumer "" demo_kafka_down _ _ _ demo_msg
    (Some (Errorf "refused")) _ eq_refl eq_refl eq_refl eq_refl) as H.
  eexists. split; [exact H|]. split; reflexivity.
Defined.

End Mq.

(** ** The in-memory producer of the tests ([mock_producer.go]) *)

Module Mock.

Record MockMessage := mkMock { mm_Key : string; mm_Value : string; mm_Topic : string }.

Record MockProducer := mkMockProducer { mp_messages : list MockMessage; mp_sendErr : option error; mp_closed : bool }.

#[export] Instance eta_MockProducer : Etable MockProducer := λ r,
  mkMockProducer (mp_messages r) (mp_sendErr r) (mp_closed r).

Definition NewMockProducer : MockProducer := {| mp_messages := []; mp_sendErr := None; mp_closed := false |}.

Section mock.
Context `{Codec}.

Definition push (topic key : string) (value : Mq.payload) (mp : MockProducer) : MockProducer :=
  let data := match Mq.MarshalPayload value with Some d => d | None => EmptyString end in
  mp <| mp_messages ::= (λ l, (l ++ [mkMock key data topic])%list) |>.

Definition Send (key : string) (value : Mq.payload) (mp : MockProducer) : option error * MockProducer :=
  if mp_closed mp then (None, mp)
  else match mp_sendErr mp with
  | Some e => (Some e, mp)
  | None => (None, push EmptyString key value mp)
  end.

(** The simulated error does not apply to it. *)
Definition SendToDLQ (key : string) (value : Mq.payload) (mp : MockProducer) : option error * MockProducer :=
  if mp_closed mp then (None, mp) else (None, push "dlq" key value mp).

End mock.

Definition Messages (mp : MockProducer) : list MockMessage := mp_messages mp.
Definition MessageCount (mp : MockProducer) : Z := Z.of_nat (Datatypes.length (mp_messages mp)).
Definition SetSendError (err : option error) (mp : MockProducer) := mp <| mp_sendErr := err |>.
Definition Clear (mp : MockProducer) := mp <| mp_messages := [] |> <| mp_sendErr := None |>.
Definition Close (mp : MockProducer) : option error * MockProducer := (None, mp <| mp_closed := true |>).

End Mock.
