(* ===== verification/Es.v ===== *)
(** * Full-text search ([internal/database/elasticsearch.go])

    Connecting, creating the indexes, indexing of orders and profiles and the
    two searches. *)

From S2P Require Export Laws DemoWorld Config.

Module Es.

Definition OrderSearchIndex : string := "orders_search".
Definition UserSearchIndex : string := "users_search".

(** The Elasticsearch client may be nil. *)
Record SearchClient := NewSearchClient { sc_es : bool }.

(** What the searches read of an answer. *)
Record search_hits (S : Type) := mkHits { sh_total : Z; sh_sources : list S }.
Arguments mkHits {S}.
Arguments sh_total {S}.
Arguments sh_sources {S}.

#[export] Instance eta_search_hits S : Etable (search_hits S) := λ r, mkHits (sh_total r) (sh_sources r).

Section es.
Context `{Env} `{Codec}.

(** A struct inside a struct, and a slice of structs; an error inside is the
    error of the whole. *)
Definition nested {S T} (r : T * option error) (put : T → S) : field_res S :=
  match r with (t, None) => FOk (put t) | (_, Some e) => FAbort (err_text e) end.

Fixpoint dec_slice {T} (dec : json → T * option error) (l : list json) : list T * option error :=
  match l with
  | [] => ([], None)
  | j :: l =>
      match dec j with
      | (t, None) => let '(ts, e) := dec_slice dec l in (t :: ts, e)
      | (t, Some e) => ([t], Some e)
      end
  end.

Definition total_field (k : string) (j : json) (n : Z) : field_res Z :=
  if bool_decide (k = "value") then dec_int "total.value" j (λ n, n) else FOk n.

(** One hit: an object whose [_source] is the document. *)
Definition hit_field {T} (dec : json → T * option error) (k : string) (j : json) (t : T) : field_res T :=
  if bool_decide (k = "_source") then nested (dec j) (λ t, t) else FOk t.

Definition hits_field {T} (dec : json → T * option error) (zero : T) (k : string) (j : json) (h : search_hits T)
    : field_res (search_hits T) :=
  if bool_decide (k = "total") then nested (dec_struct "struct" total_field j (sh_total h)) (λ n, h <| sh_total := n |>)
  else if bool_decide (k = "hits") then
    match j with
    | JArr l => nested (dec_slice (λ j, dec_struct "struct" (hit_field dec) j zero) l) (λ l, h <| sh_sources := l |>)
    | _ => FSaved (type_error "hits.hits" "[]struct")
    end
  else FOk h.

Definition answer_field {T} (dec : json → T * option error) (zero : T) (k : string) (j : json) (h : search_hits T)
    : field_res (search_hits T) :=
  if bool_decide (k = "hits") then nested (dec_struct "struct" (hits_field dec zero) j h) (λ h, h) else FOk h.

Definition dec_answer {T} (dec : json → T * option error) (zero : T) (j : json) : search_hits T * option error :=
  dec_struct "struct" (answer_field dec zero) j (mkHits 0 []).

(** The client library's constructor and its ping are parameters; whether
    there is a client, or an error. *)
Definition ConnectElasticsearch (newClient : list string → option (string * string) → W → option string * W)
    (ping : W → option string * W) (cfg : Config.ESConfig) : M (error + bool) :=
  if negb (Config.es_Enabled cfg) || bool_decide (Config.es_Addresses cfg = []) then mret (inr false)
  else
    let auth := if bool_decide (Config.es_Username cfg = "") then None
                else Some (Config.es_Username cfg, Config.es_Password cfg) in
    e ← world (newClient (Config.es_Addresses cfg) auth);
    match e with
    | Some e => mret (inl (Errorf ("elasticsearch new client: " +:+ e)))
    | None =>
        e ← world ping;
        mret (match e with Some e => inl (Errorf ("elasticsearch ping: " +:+ e)) | None => inr true end)
    end.

(** ** Creating the indexes *)

(** The mappings, written with single quotes. *)
Fixpoint dquotes (s : string) : string :=
  match s with
  | EmptyString => EmptyString
  | String c s => String (if bool_decide (c = "'"%char) then ascii_of_nat 34 else c) (dquotes s)
  end.

Definition orderMapping : string :=
  dquotes ("{" +:+ nl_tabs 2 +:+
    "'settings': {" +:+ nl_tabs 3 +:+
    "'number_of_shards': 3," +:+ nl_tabs 3 +:+
    "'number_of_replicas': 1" +:+ nl_tabs 2 +:+
    "}," +:+ nl_tabs 2 +:+
    "'mappings': {" +:+ nl_tabs 3 +:+
    "'properties': {" +:+ nl_tabs 4 +:+
    "'order_no':  {'type': 'keyword'}," +:+ nl_tabs 4 +:+
    "'user_id':   {'type': 'long'}," +:+ nl_tabs 4 +:+
    "'amount':    {'type': 'float'}," +:+ nl_tabs 4 +:+
    "'status':    {'type': 'keyword'}," +:+ nl_tabs 4 +:+
    "'created_at':{'type': 'date'}," +:+ nl_tabs 4 +:+
    "'updated_at':{'type': 'date'}" +:+ nl_tabs 3 +:+
    "}" +:+ nl_tabs 2 +:+
    "}" +:+ nl_tabs 1 +:+
    "}").

Definition userMapping : string :=
  dquotes ("{" +:+ nl_tabs 2 +:+
    "'settings': {" +:+ nl_tabs 3 +:+
    "'number_of_shards': 3," +:+ nl_tabs 3 +:+
    "'number_of_replicas': 1" +:+ nl_tabs 2 +:+
    "}," +:+ nl_tabs 2 +:+
    "'mappings': {" +:+ nl_tabs 3 +:+
    "'properties': {" +:+ nl_tabs 4 +:+
    "'user_id':  {'type': 'long'}," +:+ nl_tabs 4 +:+
    "'nickname': {'type': 'text', 'analyzer': 'standard'}," +:+ nl_tabs 4 +:+
    "'email':    {'type': 'text'}," +:+ nl_tabs 4 +:+
    "'phone':    {'type': 'keyword'}," +:+ nl_tabs 4 +:+
    "'created_at':{'type': 'date'}" +:+ nl_tabs 3 +:+
    "}" +:+ nl_tabs 2 +:+
    "}" +:+ nl_tabs 1 +:+
    "}").

Definition search_indexes : gmap string string :=
  {[ OrderSearchIndex := orderMapping; UserSearchIndex := userMapping ]}.

Section indexes.
Context `{Env}.
(** The status of the existence check, and the creation. *)
Context (es_exists : string → W → (string + Z) * W) (es_create : string → string → W → option string * W).

(** One turn of the loop; what the server answers is only logged. *)
Definition ensure_index (name mapping : string) : M unit :=
  headRes ← world (es_exists name);
  match headRes with
  | inl _ => mret tt
  | inr status => if status =? 200 then mret tt else _ ← world (es_create name mapping); mret tt
  end.

Fixpoint ensure_indexes (l : list (string * string)) : M unit :=
  match l with
  | [] => mret tt
  | (name, mapping) :: l => _ ← ensure_index name mapping; ensure_indexes l
  end.

Definition EnsureSearchIndexes (sc : SearchClient) : M (option error) :=
  if negb (sc_es sc) then mret None
  else indexes ← range search_indexes; _ ← ensure_indexes indexes; mret None.

(** Both indexes are handled once, in one of two orders. *)
Lemma EnsureSearchIndexes_run `{ML : !MapLaws} sc s :
  sc_es sc = true →
  ∃ l s1, (l = [(OrderSearchIndex, orderMapping); (UserSearchIndex, userMapping)] ∨
           l = [(UserSearchIndex, userMapping); (OrderSearchIndex, orderMapping)]) ∧
    s1 = s <| s_w := s_w s1 |> ∧ EnsureSearchIndexes sc s = (_ ← ensure_indexes l; mret None : M (option error)) s1.
Proof.
  intros E. unfold EnsureSearchIndexes. rewrite E. cbn [negb]. rewrite bind_run.
  unfold range. rewrite bind_run, world_run, ret_run. eexists _, _. split; [|split; [|reflexivity]]; [|by destruct s].
  match goal with |- ?l = _ ∨ _ => assert (Hp : l ≡ₚ map_to_list search_indexes) end.
  { apply (range_perm search_indexes s _ (s <| s_w := (map_order (elements (dom search_indexes)) (s_w s)).2 |>)).
    unfold range. by rewrite bind_run, world_run, ret_run. }
  assert (Hl : map_to_list search_indexes ≡ₚ [(OrderSearchIndex, orderMapping); (UserSearchIndex, userMapping)]).
  { unfold search_indexes. rewrite map_to_list_insert by done. by rewrite map_to_list_singleton. }
  rewrite Hl in Hp. symmetry in Hp. apply Permutation_length_2_inv in Hp. destruct Hp as [->| ->]; auto.
Qed.

End indexes.

Definition marshal_error : string := "json: unsupported value".

(** The status of the response is only logged. *)
Definition IndexOrder (sc : SearchClient) (order : Order) : M (option error) :=
  if negb (sc_es sc) then mret None
  else match Marshal (VOrder order) with
  | None => mret (Some (Errorf ("marshal order for es: " +:+ marshal_error)))
  | Some body =>
      r ← world (es_index OrderSearchIndex (o_OrderNo order) body);
      mret (match r with Some e => Some (Errorf ("es index order: " +:+ e)) | None => None end)
  end.

Definition IndexUserProfile (sc : SearchClient) (profile : UserProfile) : M (option error) :=
  if negb (sc_es sc) then mret None
  else match Marshal (VProfile profile) with
  | None => mret (Some (Errorf ("marshal profile for es: " +:+ marshal_error)))
  | Some body =>
      r ← world (es_index UserSearchIndex (show_N (p_UserID profile)) body);
      mret (match r with Some e => Some (Errorf ("es index profile: " +:+ e)) | None => None end)
  end.

(** The query's map, its keys in the order [json.Marshal] writes them. *)
Definition from_of (page size : Z) : Z := wrap64 (wrap64 (page - 1) * size).

Definition multi_match (keyword : string) (fields : list string) : json :=
  JObj [("multi_match", JObj [("fields", JArr (map JStr fields)); ("query", JStr keyword)])].

Definition order_query (keyword : string) (page size : Z) : json :=
  JObj [("from", enc_int (from_of page size));
        ("query", multi_match keyword ["order_no^2"; "status"]);
        ("size", enc_int size);
        ("sort", JArr [JObj [("created_at", JObj [("order", JStr "desc")])]])].

Definition user_query (keyword : string) (page size : Z) : json :=
  JObj [("from", enc_int (from_of page size));
        ("query", multi_match keyword ["nickname^3"; "email^2"; "phone"]);
        ("size", enc_int size)].

(** Documents found and the total, or an error. *)
Definition found (T : Type) : Type := error + (list T * Z).

Definition executeSearch {T} (what index : string) (dec : json → T * option error) (zero : T) (query : json)
    : M (found T) :=
  r ← world (es_search index (json_text query));
  match r with
  | inl e => mret (inl (Errorf ("es search " +:+ what +:+ ": " +:+ e)))
  | inr text =>
      match Decode (dec_answer dec zero) (mkHits 0 []) text with
      | (_, Some e) => mret (inl (Errorf ("decode es response: " +:+ err_text e)))
      | (h, None) => mret (inr (sh_sources h, sh_total h))
      end
  end.

Definition executeOrderSearch (query : json) : M (found Order) :=
  executeSearch "orders" OrderSearchIndex dec_order zero_Order query.
Definition executeUserSearch (query : json) : M (found UserProfile) :=
  executeSearch "users" UserSearchIndex dec_profile zero_Profile query.

Definition SearchOrders (sc : SearchClient) (keyword : string) (page size : Z) : M (found Order) :=
  if negb (sc_es sc) then mret (inl (Errorf "elasticsearch not available"))
  else executeOrderSearch (order_query keyword page size).

Definition SearchUsers (sc : SearchClient) (keyword : string) (page size : Z) : M (found UserProfile) :=
  if negb (sc_es sc) then mret (inl (Errorf "elasticsearch not available"))
  else executeUserSearch (user_query keyword page size).

End es.

(** ** Decoding of answers *)

Section decode.
#[local] Set Default Proof Using "All".
Context `{CodecLaws}.

Definition hit_json (o : Order) : json := JObj [("_source", order_json o)].

(** An answer with orders as its documents. *)
Definition answer_json (total : Z) (orders : list Order) : json :=
  JObj [("hits", JObj [("total", JObj [("value", enc_int total)]); ("hits", JArr (map hit_json orders))])].

Lemma dec_hit o : order_wf o → dec_struct "struct" (hit_field dec_order) (hit_json o) zero_Order = (o, None).
Proof.
  intros Ho. unfold hit_json, dec_struct. cbn [dec_fields]. unfold order_json at 1. cbv iota.
  change (JObj _) with (order_json o). unfold hit_field.
  replace (bool_decide (toLower "_source" = "_source")) with true by reflexivity.
  by rewrite dec_order_json.
Qed.

Lemma dec_hits orders :
  Forall order_wf orders →
  dec_slice (λ j, dec_struct "struct" (hit_field dec_order) j zero_Order) (map hit_json orders) = (orders, None).
Proof.
  induction 1 as [|o orders Ho _ IH]; [done|]. cbn [map dec_slice]. by rewrite dec_hit, IH.
Qed.

Lemma dec_answer_orders total orders :
  0 <= total < 2 ^ 63 → Forall order_wf orders →
  dec_answer dec_order zero_Order (answer_json total orders) = (mkHits total orders, None).
Proof.
  intros Ht Ho. unfold dec_answer, answer_json, dec_struct. cbn [dec_fields].
  unfold answer_field, dec_struct. rewrite bool_decide_eq_true_2 by reflexivity.
  cbn [dec_fields]. unfold hits_field at 1, dec_struct. rewrite bool_decide_eq_true_2 by reflexivity.
  cbn [dec_fields enc_int]. unfold total_field at 1. rewrite bool_decide_eq_true_2 by reflexivity.
  unfold dec_int, enc_int. rewrite parse_int_show by done. cbn [nested].
  unfold hits_field. rewrite bool_decide_eq_false_2, bool_decide_eq_true_2 by (done || reflexivity).
  by rewrite (dec_hits orders Ho).
Qed.

Lemma answer_json_wf total orders :
  Forall order_wf orders → json_wf (answer_json total orders) = true.
Proof.
  intros Ho. cbn. rewrite show_Z_utf8. cbn. rewrite !andb_true_r. apply forallb_forall.
  intros j (o & <- & Hin)%in_map_iff. unfold hit_json. cbn [json_wf forallb].
  rewrite order_json_wf; [done|]. rewrite Forall_forall in Ho. apply Ho. by apply list_elem_of_In.
Qed.

End decode.

(** ** Properties *)

(** A search asks the order index for page [page] of [size] documents
    by an offset of [(page-1)*size], newest first, and an answer holding
    storable orders yields exactly these orders in their order with the
    reported total; a client error and a missing client are reported. *)
Theorem search_orders_result `{Env} `{CodecLaws} sc keyword page size s :
  SearchOrders {| sc_es := false |} keyword page size s = (Val (inl (Errorf "elasticsearch not available")), s) ∧
  (sc_es sc = true → 1 <= page → 1 <= size → (page - 1) * size <= int64_max → ∀ r w,
   es_search OrderSearchIndex (json_text
     (JObj [("from", JNum (show_Z ((page - 1) * size)));
            ("query", multi_match keyword ["order_no^2"; "status"]); ("size", JNum (show_Z size));
            ("sort", JArr [JObj [("created_at", JObj [("order", JStr "desc")])]])])) (s_w s) = (r, w) →
   match r with
   | inl e => SearchOrders sc keyword page size s =
       (Val (inl (Errorf ("es search orders: " +:+ e))), s <| s_w := w |>)
   | inr text => ∀ total orders,
       text = json_text (answer_json total orders) → 0 <= total < 2 ^ 63 → Forall order_wf orders →
       SearchOrders sc keyword page size s = (Val (inr (orders, total)), s <| s_w := w |>)
   end).
Proof.
  split; [done|]. intros Hes Hp Hs Hmax r w E.
  assert (Hfrom : from_of page size = (page - 1) * size).
  { unfold from_of. assert (wrap64 (page - 1) = page - 1) as ->
      by (apply wrap64_id; unfold in_int64, int64_min, int64_max in *; nia).
    apply wrap64_id. unfold in_int64, int64_min, int64_max in *. nia. }
  unfold SearchOrders. rewrite Hes. unfold executeOrderSearch, executeSearch, order_query. rewrite Hfrom.
  unfold enc_int. cbn [negb]. rewrite bind_run, world_run, E. cbn [fst snd]. destruct r as [e|text]; [done|].
  intros total orders -> Ht Ho. unfold Decode. rewrite json_first_roundtrip by by apply answer_json_wf.
  by rewrite dec_answer_orders.
Qed.

Definition demo_order : Order := mkOrder 1 7 "ORD700001123" f64_one "pending" 0 0.

Definition demo_hits : Sys :=
  demo_with (demo_w <| dw_search := Some (json_text (answer_json 1 [demo_order])) |>).

Lemma demo_order_wf : order_wf demo_order.
Proof. unfold order_wf. cbn. repeat split; reflexivity || lia. Qed.

Lemma search_orders_result_witness :
  SearchOrders {| sc_es := true |} "ORD700001123" 1 20 demo_hits = (Val (inr ([demo_order], 1)), demo_hits).
Proof.
  pose proof (search_orders_result {| sc_es := true |} "ORD700001123" 1 20 demo_hits) as [_ H].
  assert (Hmax : (1 - 1) * 20 <= int64_max) by (vm_compute; discriminate).
  specialize (H eq_refl ltac:(lia) ltac:(lia) Hmax _ _ eq_refl).
  exact (H 1 [demo_order] eq_refl ltac:(lia) (proj2 (Forall_singleton _ _) demo_order_wf)).
Defined.

End Es.
