(* ===== verification/Loader.v ===== *)
(** * The loader below the cache ([cmd/server/main.go], [internal/database/mongo.go])

    The profile repository over MongoDB and the function the cache calls on
    a miss, which chooses the database from the key; also how the process
    opens its two pools. *)

From S2P Require Export Cache Rwdb.

Module Mongo.

(** [UserProfileRepo]: whether its collection is there. *)
Record UserProfileRepo := NewUserProfileRepo { coll : bool }.

Definition ErrNoDocuments : error := Sentinel "mongo: no documents in result".

Section mongo.
Context `{Env}.

Definition FindByUserID (r : UserProfileRepo) (userID : Z) : M (option UserProfile * option error) :=
  if negb (coll r) then mret (None, Some (Errorf "mongodb not available"))
  else
    o ← world (mongo_find userID);
    mret (match o with
      | MOk p => (Some p, None)
      | MNone => (None, Some ErrNoDocuments)
      | MErr e => (None, Some (Errorf ("mongo find user profile: " +:+ e)))
      end).

Definition Upsert (r : UserProfileRepo) (profile : UserProfile) : M (option error) :=
  if negb (coll r) then mret (Some (Errorf "mongodb not available"))
  else
    o ← world (mongo_upsert profile);
    mret (match o with Some e => Some (Errorf ("mongo upsert user profile: " +:+ e)) | None => None end).

End mongo.
End Mongo.

Module Loader.

Definition select_order : string :=
  "SELECT id, user_id, order_no, amount, status, created_at, updated_at
				 FROM orders WHERE order_no = ?".

(** [fmt.Sscanf] of the key for an unsigned number after the literal: its
    digits; zero when there are none or too many. *)
Fixpoint take_digits (s : string) : string :=
  match s with
  | String c s' => match digit_val c with Some _ => String c (take_digits s') | None => EmptyString end
  | EmptyString => EmptyString
  end.

Definition scan_profile_key (key : string) : Z :=
  if hasPrefix "user:profile:" key then
    match parse_uint (take_digits (str_drop 13 key)) with Some n => n | None => 0 end
  else 0.

Section loader.
Context `{Env} `{Codec}.

Definition test_user : UserProfile := zero_Profile <| p_UserID := 10001 |> <| p_Nickname := "test_user" |>.

(** [mongoDB]: whether MongoDB is connected. *)
Definition newDataLoader (mongoDB : bool) (repo : Mongo.UserProfileRepo) : Cache.DataLoader := λ key,
  if (12 <? len key) && bool_decide (str_take 12 key = "user:profile:") then
    if negb mongoDB then mret (VProfile test_user, None)
    else
      '(profile, err) ← Mongo.FindByUserID repo (scan_profile_key key);
      match err, profile with
      | None, Some p => mret (VProfile p, None)
      | _, _ => mret (VNil, None)
      end
  else if (6 <? len key) && bool_decide (str_take 6 key = "order:") then
    down ← Rwdb.unavailable Rwdb.MySQL;
    if down : bool then mret (VNil, None)
    else
      row ← Rwdb.QueryRowContext Rwdb.MySQL select_order [SStr (str_drop 6 key)];
      match row with
      | None => Rwdb.nil_deref
      | Some (RowOk l) =>
          match Rwdb.scan_order l with
          | inr o => mret (VOrder o, None)
          | inl _ => mret (VNil, None)
          end
      | Some _ => mret (VNil, None)
      end
  else mret (VNil, None).

(** [openDB]: the pool, when it answers a ping; [sql.Open] is a parameter. *)
Definition openDB (sql_Open : string → string → W → (string + conn) * W) (driver dsn : string) : M (error + conn) :=
  r ← world (sql_Open driver dsn);
  match r with
  | inl e => mret (inl (Errorf ("open db: " +:+ e)))
  | inr db =>
      p ← world (sql_ping db);
      match p with
      | Some e => _ ← world_ (sql_close db); mret (inl (Errorf ("db ping: " +:+ e)))
      | None => mret (inr db)
      end
  end.

Fixpoint open_replicas sql_Open (driver : string) (dsns : list string) : M (list conn) :=
  match dsns with
  | [] => mret []
  | dsn :: dsns =>
      r ← openDB sql_Open driver dsn;
      rest ← open_replicas sql_Open driver dsns;
      mret (match r with inr db => db :: rest | inl _ => rest end)
  end.

Definition initRWDB sql_Open (cfg : Config.DatabaseConfig) : M (option RWDB) :=
  if bool_decide (Config.DSN cfg = "") || negb (Config.db_Enabled cfg) then mret None
  else
    r ← openDB sql_Open (Config.Driver cfg) (Config.DSN cfg);
    match r with
    | inl _ => mret None
    | inr master =>
        l ← open_replicas sql_Open (Config.Driver cfg) (Config.ReplicaDSNs cfg);
        mret (Some (Rwdb.NewRWDB (Some master) l))
    end.

(** ** The profile branch is never taken *)

Lemma str_take_len n s : (String.length (str_take n s) <= n)%nat.
Proof. apply str_take_length. Qed.

Lemma profile_branch_dead key : bool_decide (str_take 12 key = "user:profile:") = false.
Proof.
  apply bool_decide_eq_false_2. intros E. pose proof (str_take_length 12 key) as Hl.
  rewrite E in Hl. cbn in Hl. lia.
Qed.

(** The loader on a key of a profile. *)
Lemma loader_profile mongoDB repo s n :
  newDataLoader mongoDB repo ("user:profile:" +:+ n) s = (Val (VNil, None), s).
Proof. unfold newDataLoader. rewrite profile_branch_dead, andb_false_r. cbn. by rewrite andb_false_r. Qed.

End loader.
End Loader.
