(* ===== verification/Order.v ===== *)
(** * Orders ([internal/service/order_service.go])

    Creation over two channels, synchronous into MySQL under a lock or
    asynchronous through Kafka, chosen by the circuit breaker and the token
    bucket; the consumer's handler; reading through the cache; search.  The
    goroutines a method starts are tasks of the process, run by [run_task]. *)

From S2P Require Export Loader Mq Es.

Module OrderSvc.

(** [orderRandID] modulo 1000: [binary.BigEndian.Uint64]. *)
Fixpoint be_uint_go (acc : Z) (s : string) : Z :=
  match s with EmptyString => acc | String c s => be_uint_go (256 * acc + Z.of_N (N_of_ascii c)) s end.
Definition be_uint (s : string) : Z := be_uint_go 0 s.

(** [fmt.Sprintf] of [ORD%d%05d%03d]. *)
Definition order_no (userID seq randPart : Z) : string :=
  "ORD" +:+ show_N userID +:+ pad0 5 (show_N seq) +:+ pad0 3 (show_N randPart).

(** What the service was built with; the cache's loader is part of it. *)
Record OrderService `{Env} := NewOrderService {
  os_loader : option Cache.DataLoader;
  os_producer : option EventProducer;
  os_lock : bool;                        (* lock ≠ nil *)
  os_search : option Es.SearchClient
}.

Definition esMaxConcurrency : Z := 100.
Definition eventTopic : string := "order-create".

Definition insert_order : string :=
  "INSERT INTO orders (user_id, order_no, amount, status, created_at, updated_at)
	           VALUES (?, ?, ?, ?, ?, ?)
	           ON DUPLICATE KEY UPDATE amount=VALUES(amount), status=VALUES(status), updated_at=VALUES(updated_at)".

Definition select_order : string :=
  "SELECT id, user_id, order_no, amount, status, created_at, updated_at
	          FROM orders WHERE order_no = ?".

Section order.
Context `{Env} `{Codec}.

(** [init] of the package: [rand_ok] tells whether [rand.Read] succeeded. *)
Definition init_order_ids (rand_ok : bool) : M unit :=
  b ← world (rand_read 8);
  id ← (if rand_ok then mret b else t ← Now; mret (String.concat EmptyString
    (map (λ i, String (ascii_of_N (Z.to_N (Z.shiftr (wrapu64 t) (56 - 8 * Z.of_nat i) mod 256))) EmptyString) (seq 0 8))));
  t ← Now;
  modify (λ s, s <| s_orderRandID := id |> <| s_orderSeq := Z.land (wrapu64 t) 65535 |>).

Definition generateOrderNo (userID : Z) : M string :=
  _ ← modify (λ s, s <| s_orderSeq := wrapu64 (s_orderSeq s + 1) |>);
  seq ← gets s_orderSeq;
  rnd ← gets s_orderRandID;
  mret (order_no userID (seq mod 100000) (be_uint rnd mod 1000)).

(** The shared breaker and bucket; the clock is read where the code does. *)
Definition cb_update (f : CB.CircuitBreaker → CB.CircuitBreaker) : M unit := modify (λ s, s <| s_cb ::= f |>).

Definition cbAllow : M bool :=
  c ← gets s_cb;
  if CB.cb_state c =? CB.StateOpen then now ← Now; mret (CB.Allow now c) else mret (CB.Allow 0 c).

(** The transition out of half-open stamps the time. *)
Definition cbRecordSuccess (duration : Z) : M unit :=
  c ← gets s_cb;
  now ← (if (CB.cb_state c =? CB.StateHalfOpen) && (CB.cb_maxRequests c <=? wrap64 (CB.cb_halfOpenCount c + 1))
         then Now else mret 0);
  cb_update (CB.RecordSuccess duration now).

Definition cbRecordFailure : M unit :=
  now1 ← Now;
  c ← gets s_cb;
  now2 ← (if CB.cb_state c =? CB.StateHalfOpen then Now else mret 0);
  cb_update (CB.RecordFailure now1 now2).

Definition rlTryAcquire : M bool :=
  now ← Now; rl ← gets s_rl;
  let '(ok, rl) := RL.TryAcquire now rl in
  _ ← modify (λ s, s <| s_rl := rl |>); mret ok.

Definition order_key (orderNo : string) : string := "order:" +:+ orderNo.
Definition lock_key (orderNo : string) : string := "order:create:" +:+ orderNo.

Definition traceIDFromCtx (ctx : Mq.context) : string := Mq.FromContext ctx.

Definition UnixMilli (t : Z) : Z := t / Millisecond.

(** The event both paths publish. *)
Definition order_event (ctx : Mq.context) (order : Order) : M BusinessEvent :=
  t ← Now;
  mret (mkEvent (o_OrderNo order) "ORDER_CREATE" (UnixMilli t) (traceIDFromCtx ctx) (VOrder order)).

(** [select] with a default: without a free slot the order is not indexed. *)
Definition indexOrderToES (order : Order) : M unit :=
  sem ← gets s_orderSem;
  if sem <? esMaxConcurrency then
    _ ← modify (λ s, s <| s_orderSem := sem + 1 |>); go (TIndexOrder order)
  else mret tt.

(** Its goroutine. *)
Definition indexOrderTask (sc : Es.SearchClient) (order : Order) : M unit :=
  deferred (modify (λ s, s <| s_orderSem ::= (λ n, n - 1) |>)) (_ ← Es.IndexOrder sc order; mret tt).

Definition insert_args (order : Order) : list sqlval :=
  [SInt (o_UserID order); SStr (o_OrderNo order); SFloat (o_Amount order); SStr (o_Status order);
   STime (o_CreatedAt order); STime (o_UpdatedAt order)].

(** The fields a creation fills in. *)
Definition filled (order : Order) (no : string) (now : Z) : Order :=
  order <| o_OrderNo := no |> <| o_Status := "pending" |> <| o_CreatedAt := now |> <| o_UpdatedAt := now |>.

(** Type of results: channel, order number, error. *)
Definition created : Set := string * string * option error.

Section service.
Context (os : OrderService).

Definition dbWrite (order : Order) : M (option error) :=
  down ← Rwdb.unavailable Rwdb.MySQL;
  if down : bool then _ ← Cache.Set_ (order_key (o_OrderNo order)) (VOrder order); mret None
  else
    r ← Rwdb.ExecContext Rwdb.MySQL insert_order (insert_args order);
    match r with
    | inl e => mret (Some (Errorf ("db insert: " +:+ err_text e)))
    | inr _ =>
        _ ← Cache.Set_ (order_key (o_OrderNo order)) (VOrder order);
        _ ← match os_search os with Some _ => indexOrderToES order | None => mret tt end;
        mret None
    end.

Definition dbQuery (orderNo : string) : M (option Order * option error) :=
  down ← Rwdb.unavailable Rwdb.MySQL;
  if down : bool then mret (None, Some (Errorf "database not available"))
  else
    row ← Rwdb.QueryRowContext Rwdb.MySQL select_order [SStr orderNo];
    match row with
    | None => Rwdb.nil_deref
    | Some RowNone =>
        _ ← Cache.SetNull (order_key orderNo);
        mret (None, Some (Errorf ("order not found: " +:+ orderNo)))
    | Some (RowErr e) => mret (None, Some (Errorf ("db query: " +:+ e)))
    | Some (RowOk l) =>
        match Rwdb.scan_order l with
        | inl e => mret (None, Some (Errorf ("db query: " +:+ e)))
        | inr o => _ ← Cache.Set_ (order_key orderNo) (VOrder o); mret (Some o, None)
        end
    end.

Definition publishOrderEvent (ctx : Mq.context) (order : Order) : M unit :=
  match os_producer os with
  | None => mret tt
  | Some ep => event ← order_event ctx order; Mq.SendAsync ep ctx (show_N (o_UserID order)) event
  end.

Definition createAsync (ctx : Mq.context) (order : Order) : M created :=
  event ← order_event ctx order;
  match os_producer os with
  | None => mret ("async", o_OrderNo order, None)
  | Some ep =>
      err ← Mq.Send ep ctx (show_N (o_UserID order)) (Mq.PEvent event);
      match err with
      | Some e => mret ("async", o_OrderNo order, Some (Errorf ("kafka send: " +:+ err_text e)))
      | None => mret ("async", o_OrderNo order, None)
      end
  end.

(** The write with its breaker accounting, from the lock on; [label] is the
    channel reported when the write fails. *)
Definition writeAndPublish (label : string) (start : Z) (ctx : Mq.context) (order : Order) : M created :=
  writeErr ← dbWrite order;
  now ← Now;
  let elapsed := time_sub now start in
  match writeErr with
  | Some e => _ ← cbRecordFailure; mret (label, o_OrderNo order, Some e)
  | None =>
      _ ← cbRecordSuccess elapsed;
      _ ← Cache.InvalidateWithDelay (order_key (o_OrderNo order)) 500;
      _ ← publishOrderEvent ctx order;
      mret ("sync", o_OrderNo order, None)
  end.

Definition lockTTL : Z := 5 * Second.
Definition lockWait : Z := 200 * Millisecond.

Definition unlock (key token : string) : M unit := _ ← Lock.Unlock key token; mret tt.

Definition createSync (ctx : Mq.context) (order : Order) : M created :=
  start ← Now;
  if os_lock os then
    '(token, err) ← Lock.Lock (lock_key (o_OrderNo order)) lockTTL lockWait;
    match err with
    | None => deferred (unlock (lock_key (o_OrderNo order)) token) (writeAndPublish "async" start ctx order)
    | Some _ => createAsync ctx order
    end
  else writeAndPublish "async" start ctx order.

Definition fill (order : Order) : M Order :=
  no ← generateOrderNo (o_UserID order); now ← Now; mret (filled order no now).

Definition CreateOrder (ctx : Mq.context) (order : Order) : M created :=
  order ← fill order;
  allowed ← cbAllow;
  if negb allowed then createAsync ctx order
  else
    token ← rlTryAcquire;
    if token : bool then createSync ctx order else createAsync ctx order.

Definition CreateOrderForceSync (ctx : Mq.context) (order : Order) : M created :=
  order ← fill order;
  start ← Now;
  if os_lock os then
    '(token, err) ← Lock.Lock (lock_key (o_OrderNo order)) lockTTL lockWait;
    match err with
    | None => deferred (unlock (lock_key (o_OrderNo order)) token) (writeAndPublish "sync" start ctx order)
    | Some _ => writeAndPublish "sync" start ctx order
    end
  else writeAndPublish "sync" start ctx order.

(** [remarshalTo] into an order. *)
Definition remarshalTo (src : gval) : Order * option error :=
  match Marshal src with
  | None => (zero_Order, Some (Errorf Mq.marshal_error))
  | Some b => Unmarshal dec_order zero_Order b
  end.

Definition HandleOrderEvent (ctx : Mq.context) (key value : string) : M (option error) :=
  match Unmarshal dec_event zero_Event value with
  | (_, Some e) => mret (Some (Errorf ("unmarshal event: " +:+ err_text e)))
  | (event, None) =>
      match remarshalTo (e_Payload event) with
      | (_, Some e) => mret (Some (Errorf ("unmarshal order: " +:+ err_text e)))
      | (order, None) =>
          err ← dbWrite order;
          match err with
          | Some e => mret (Some (Errorf ("async db write: " +:+ err_text e)))
          | None => _ ← Cache.Invalidate (order_key (o_OrderNo order)); mret None
          end
      end
  end.

Definition GetOrder (orderNo : string) : M (option Order * option error) :=
  '(val, found, err) ← Cache.Get (os_loader os) (order_key orderNo);
  match err with
  | Some e => mret (None, Some e)
  | None =>
      if found : bool then
        match val with
        | VNil => mret (None, Some (Errorf ("order not found: " +:+ orderNo)))
        | VOrder o => mret (Some o, None)
        | VMap _ => mret (Some (Unmarshal dec_order zero_Order (Cache.jsonText val)).1, None)
        | _ => dbQuery orderNo
        end
      else dbQuery orderNo
  end.

Definition GetCacheStats : M Cache.StatsMap := c ← gets s_mc; mret (Cache.Stats c).

Definition SearchOrders (keyword : string) (page size : Z) : M (Es.found Order) :=
  match os_search os with
  | None => mret (inl (Errorf "elasticsearch not available"))
  | Some sc => Es.SearchOrders sc keyword page size
  end.

End service.
End order.

(** ** What the creation of an order leaves behind

    [calm m]: whatever [m] does, statements executed and messages accepted
    before stay so, and the MySQL pool stays the same. *)

Section calm.
Context `{EN : Env} `{CO : Codec} `{JO : !Journal} `{JL : !JournalLaws}.

Definition calm {A} (m : M A) : Prop :=
  ∀ s, journal_le (s_w s) (s_w (m s).2) ∧ s_mysql (m s).2 = s_mysql s.

#[local] Set Default Proof Using "All".

Lemma calm_bind {A B} (m : M A) (f : A → M B) : calm m → (∀ a, calm (f a)) → calm (m ≫= f).
Proof.
  intros Hm Hf s. rewrite bind_run. destruct (Hm s) as [H1 H2].
  destruct (m s) as [[a| |] s1]; cbn in *; [|done..].
  destruct (Hf a s1) as [H3 H4]. split; [by etrans|congruence].
Qed.

Lemma calm_ret {A} (a : A) : calm (mret a).
Proof. by intros s. Qed.

Lemma calm_gets {A} (f : Sys → A) : calm (gets f).
Proof. by intros s. Qed.

Lemma calm_panic {A} msg : calm (@panic _ A msg).
Proof. by intros s. Qed.

Lemma calm_unfinished {A} : calm (@unfinished _ A).
Proof. by intros s. Qed.

Lemma calm_modify f : (∀ s, s_w (f s) = s_w s ∧ s_mysql (f s) = s_mysql s) → calm (modify f).
Proof. intros Hf s. destruct (Hf s) as [E1 E2]. cbn. by rewrite E1, E2. Qed.

Lemma calm_world {A} (op : W → A * W) : (∀ w, journal_le w (op w).2) → calm (world op).
Proof. intros Ho s. rewrite world_run. split; [apply Ho|done]. Qed.

Lemma calm_world_ (op : W → W) : (∀ w, journal_le w (op w)) → calm (world_ op).
Proof. intros Ho s. split; [apply Ho|done]. Qed.

Lemma calm_deferred {A} d (m : M A) : calm d → calm m → calm (deferred d m).
Proof.
  intros Hd Hm s. unfold deferred. destruct (Hm s) as [H1 H2]. destruct (m s) as [r s1]. cbn in *.
  destruct (Hd s1) as [H3 H4]. destruct (d s1) as [rd s2]. cbn in *.
  assert (journal_le (s_w s) (s_w s2)) by by etrans. assert (s_mysql s2 = s_mysql s) by congruence.
  by destruct r, rd.
Qed.

Lemma calm_when b m : calm m → calm (when b m).
Proof. destruct b; [done|]. intros _ s. done. Qed.

Create HintDb calm.
Hint Resolve calm_ret calm_gets calm_panic calm_unfinished calm_deferred calm_when
  clk_now_journal clk_sleep_journal rand_journal redis_get_journal redis_set_journal redis_setnx_journal
  redis_del_journal redis_eval_journal l1_set_journal l1_wait_journal l1_del_journal
  sql_exec_journal kafka_write_journal : calm.
Hint Extern 1 (calm (world _)) => apply calm_world; intros : calm.
Hint Extern 1 (calm (world_ _)) => apply calm_world_; intros : calm.
Hint Extern 1 (calm (modify _)) => apply calm_modify; intros; by split : calm.

Ltac calm := intros;
  lazymatch goal with
  | |- calm (_ ≫= _) => apply calm_bind; [calm|intros ?; calm]
  | |- calm (when _ _) => apply calm_when; calm
  | |- calm (deferred _ _) => apply calm_deferred; calm
  | |- _ => first [solve [eauto 4 with calm] | case_match; calm | idtac]
  end.

Lemma calm_Now : calm Now.
Proof. unfold Now. calm. Qed.
Lemma calm_jitter base pct : calm (Config.JitterDuration base pct).
Proof. unfold Config.JitterDuration. calm. Qed.
Hint Resolve calm_Now calm_jitter : calm.

Lemma calm_Set k v : calm (Cache.Set_ k v).
Proof.
  unfold Cache.Set_, Cache.l1TTL, Cache.l2TTL, Cache.l1SetWithTTL, Cache.l1Wait, Cache.mc.
  unfold Cache.l2Set. calm.
Qed.

Lemma calm_InvalidateWithDelay k d : calm (Cache.InvalidateWithDelay k d).
Proof. unfold Cache.InvalidateWithDelay, Cache.l2Del, Cache.l1Del, Cache.mc, go. calm. Qed.

Lemma calm_Lock k ttl wait : calm (Lock.Lock k ttl wait).
Proof.
  assert (Hl : ∀ fuel key token ttl wait deadline, calm (Lock.lock_loop fuel key token ttl wait deadline)).
  { induction fuel; intros; cbn [Lock.lock_loop]; unfold Lock.out_of_time, Sleep; calm. }
  unfold Lock.Lock, Lock.randomHex. calm.
Qed.

Lemma calm_unlock k token : calm (unlock k token).
Proof. unfold unlock, Lock.Unlock. calm. Qed.

Lemma calm_Send ep ctx key v : calm (Mq.Send ep ctx key v).
Proof. unfold Mq.Send, Mq.compensationLog. calm. Qed.
Hint Resolve calm_Set calm_InvalidateWithDelay calm_Lock calm_unlock calm_Send : calm.

Lemma calm_cb : (∀ d, calm (cbRecordSuccess d)) ∧ calm cbRecordFailure ∧ calm cbAllow ∧ calm rlTryAcquire.
Proof. unfold cbRecordSuccess, cbRecordFailure, cbAllow, rlTryAcquire, cb_update. split_and?; calm. Qed.

Lemma calm_fill o : calm (fill o).
Proof. unfold fill, generateOrderNo. calm. Qed.

Lemma calm_publish os ctx o : calm (publishOrderEvent os ctx o).
Proof. unfold publishOrderEvent, order_event, Mq.SendAsync, go. calm. Qed.

(** [fill] only sets the four fields it is about. *)
Lemma fill_run o s :
  ∃ no now s', fill o s = (Val (filled o no now), s').
Proof.
  unfold fill, generateOrderNo, Now, modify, gets, world, mbind, mret, M_bind, M_ret. cbn.
  destruct (clk_now (s_w s)) as [t w]. by eexists _, _, _.
Qed.

Lemma calm_run {A} (m : M A) s r s' : calm m → m s = (r, s') → journal_le (s_w s) (s_w s') ∧ s_mysql s' = s_mysql s.
Proof. intros Hm E. specialize (Hm s). by rewrite E in Hm. Qed.

(** The write to the database, when there is one. *)
Lemma dbWrite_executes os o rw c s s' :
  s_mysql s = Some rw → master rw = Some c → dbWrite os o s = (Val None, s') →
  executed (s_w s') c insert_order (insert_args o).
Proof.
  intros Hdb Hc Hr. unfold dbWrite in Hr. rewrite bind_run, Rwdb.unavailable_run in Hr.
  cbn [Rwdb.get_db] in Hr. rewrite Hdb in Hr. unfold Rwdb.IsNil in Hr. rewrite Hc in Hr.
  rewrite bind_run, (Rwdb.exec_run Rwdb.MySQL _ _ s rw c) in Hr by done.
  pose proof (sql_exec_done c insert_order (insert_args o) (s_w s)) as Hd.
  destruct (sql_exec _ _ _ _) as [[e|id] w]; cbn [fst snd] in *; [done|]. specialize (Hd id eq_refl).
  set (m := (_ ← Cache.Set_ _ _; _) : M (option error)) in Hr.
  assert (Hm : calm m).
  { unfold m, indexOrderToES, go. calm. }
  destruct (Hm (s <| s_w := w |>)) as [[Hj _] _]. rewrite Hr in Hj. by apply Hj.
Qed.

(** A write that is accepted, under the lock or not. *)
Lemma write_accepted os label start ctx o rw c s l no err s' :
  s_mysql s = Some rw → master rw = Some c →
  writeAndPublish os label start ctx o s = (Val (l, no, err), s') →
  no = o_OrderNo o ∧
  match err with
  | None => l = "sync" ∧ executed (s_w s') c insert_order (insert_args o)
  | Some _ => l = label
  end.
Proof.
  intros Hdb Hc Hr. unfold writeAndPublish in Hr.
  apply bind_inv in Hr as (we & s1 & Ew & Hr). apply bind_inv in Hr as (now & s2 & E2 & Hr).
  destruct calm_cb as (Hs & Hf & _). destruct we as [e|].
  - apply bind_inv in Hr as (u & s3 & _ & [= <- <- <- <-]). done.
  - pose proof (dbWrite_executes _ _ _ _ _ _ Hdb Hc Ew) as Hx.
    apply (calm_run _ _ _ _ calm_Now) in E2 as [[Hj _] _]. apply Hj in Hx. clear Hj.
    set (m := (_ ← cbRecordSuccess _; _)) in Hr.
    assert (Hm : calm m). { unfold m. pose proof calm_publish. calm. }
    pose proof (calm_run _ _ _ _ Hm Hr) as [[Hj _] _]. apply Hj in Hx.
    apply bind_inv in Hr as (? & ? & _ & Hr). apply bind_inv in Hr as (? & ? & _ & Hr).
    by apply bind_inv in Hr as (? & ? & _ & [= <- <- <- <-]).
Qed.

Lemma send_accepted ep ctx key e s s' :
  Mq.Send ep ctx key (Mq.PEvent e) s = (Val None, s') →
  ∃ data headers, MarshalEvent e = Some data ∧ delivered (s_w s') (ep_topic ep) (mkMsg key data headers).
Proof.
  unfold Mq.Send. cbn [Mq.MarshalPayload]. destruct (MarshalEvent e) as [data|]; [|done]. intros Hr.
  apply bind_inv in Hr as (sent & s1 & _ & Hr). apply bind_inv in Hr as (t & s2 & _ & Hr).
  rewrite bind_run, world_run in Hr.
  match type of Hr with context [kafka_write ?t ?m ?w] => pose proof (kafka_write_done t m w) as Hd;
    destruct (kafka_write t m w) as [[x|] w'] end; cbn [fst snd] in *.
  - by apply bind_inv in Hr as (? & ? & _ & [= ?]).
  - injection Hr as <-. eexists _, _. split; [done|]. by apply Hd.
Qed.

(** The message of an asynchronous creation. *)
Definition is_message (ctx : Mq.context) (o : Order) (m : kafka_message) : Prop :=
  k_Key m = show_N (o_UserID o) ∧
  ∃ t, MarshalEvent (mkEvent (o_OrderNo o) "ORDER_CREATE" t ctx (VOrder o)) = Some (k_Value m).

Lemma async_accepted os ctx o ep s l no err s' :
  os_producer os = Some ep → createAsync os ctx o s = (Val (l, no, err), s') →
  l = "async" ∧ no = o_OrderNo o ∧
  (err = None → ∃ m, is_message ctx o m ∧ delivered (s_w s') (ep_topic ep) m).
Proof.
  intros Hp Hr. unfold createAsync in Hr. apply bind_inv in Hr as (e & s1 & He & Hr). rewrite Hp in Hr.
  unfold order_event in He. apply bind_inv in He as (t & s0 & _ & [= <- <-]).
  apply bind_inv in Hr as (r & s2 & Es & Hr). destruct r as [x|]; injection Hr as <- <- <- <-;
    (split; [done|]); (split; [done|]); [done|]. intros _.
  destruct (send_accepted _ _ _ _ _ _ Es) as (data & headers & Hm & Hd).
  eexists. split; [|exact Hd]. split; [done|]. by eexists.
Qed.

Definition recorded (ctx : Mq.context) (ep : EventProducer) (c : conn) (o : Order) (l : string) (w : W) : Prop :=
  (l = "sync" ∧ executed w c insert_order (insert_args o)) ∨
  (l = "async" ∧ ∃ m, is_message ctx o m ∧ delivered w (ep_topic ep) m).

Lemma write_recorded os label start ctx o rw c ep s l no err s' :
  s_mysql s = Some rw → master rw = Some c →
  writeAndPublish os label start ctx o s = (Val (l, no, err), s') →
  no = o_OrderNo o ∧ match err with None => recorded ctx ep c o l (s_w s') | Some _ => l = label end.
Proof.
  intros Hdb Hc Hr. destruct (write_accepted _ _ _ _ _ _ _ _ _ _ _ _ Hdb Hc Hr) as [-> Hx].
  split; [done|]. destruct err; [done|]. by left.
Qed.

Lemma recorded_mono ctx ep c o l w w' : journal_le w w' → recorded ctx ep c o l w → recorded ctx ep c o l w'.
Proof.
  intros [H1 H2] [[? ?]|(? & m & ? & ?)]; [left|right]; split_and?; auto. exists m. auto.
Qed.

(** The synchronous channel, which falls back to the other one. *)
Lemma createSync_recorded os ctx o rw c ep s l no err s' :
  s_mysql s = Some rw → master rw = Some c → os_producer os = Some ep →
  createSync os ctx o s = (Val (l, no, err), s') →
  no = o_OrderNo o ∧ match err with None => recorded ctx ep c o l (s_w s') | Some _ => l = "async" end.
Proof.
  intros Hdb Hc Hp Hr. unfold createSync in Hr. apply bind_inv in Hr as (start & s1 & E1 & Hr).
  apply (calm_run _ _ _ _ calm_Now) in E1 as [_ Hm1]. rewrite <-Hm1 in Hdb.
  destruct (os_lock os); [|by eapply write_recorded].
  apply bind_inv in Hr as ([token lerr] & s2 & E2 & Hr).
  apply (calm_run _ _ _ _ (calm_Lock _ _ _)) in E2 as [_ Hm2]. rewrite <-Hm2 in Hdb.
  destruct lerr as [e|].
  - destruct (async_accepted _ _ _ _ _ _ _ _ _ Hp Hr) as (-> & -> & Hx). split; [done|].
    destruct err; [done|]. right. auto.
  - apply deferred_inv in Hr as (s3 & Hr & Es).
    destruct (write_recorded _ _ _ _ _ _ _ ep _ _ _ _ _ Hdb Hc Hr) as [-> Hx]. split; [done|].
    destruct err; [done|]. eapply recorded_mono; [|exact Hx]. rewrite <-Es. apply calm_unlock.
Qed.

Lemma CreateOrder_recorded os ctx order rw c ep s l no err s' :
  s_mysql s = Some rw → master rw = Some c → os_producer os = Some ep →
  CreateOrder os ctx order s = (Val (l, no, err), s') →
  ∃ now, match err with
    | None => recorded ctx ep c (filled order no now) l (s_w s')
    | Some _ => l = "async"
    end.
Proof.
  intros Hdb Hc Hp Hr. unfold CreateOrder in Hr. apply bind_inv in Hr as (o & s1 & E1 & Hr).
  pose proof (calm_run _ _ _ _ (calm_fill order) E1) as [_ Hm1]. rewrite <-Hm1 in Hdb.
  destruct (fill_run order s) as (no' & now & s1' & E1'). rewrite E1' in E1. injection E1 as <- <-.
  apply bind_inv in Hr as (allowed & s2 & E2 & Hr). destruct calm_cb as (_ & _ & Ha & Ht).
  apply (calm_run _ _ _ _ Ha) in E2 as [_ Hm2]. rewrite <-Hm2 in Hdb.
  exists now. set (order' := filled order no' now) in *.
  assert (Hgoal : no = no' ∧ match err with
    | None => recorded ctx ep c order' l (s_w s') | Some _ => l = "async" end); [|by destruct Hgoal as [-> Hx]].
  assert (Hasync : ∀ t, createAsync os ctx order' t = (Val (l, no, err), s') →
    no = no' ∧ match err with None => recorded ctx ep c order' l (s_w s') | Some _ => l = "async" end).
  { intros t Hc'. destruct (async_accepted _ _ _ _ _ _ _ _ _ Hp Hc') as (-> & -> & Hx). split; [done|].
    destruct err; [done|]. right. auto. }
  destruct allowed; cbn [negb] in Hr; [|by eapply Hasync].
  apply bind_inv in Hr as (token & s3 & E3 & Hr).
  apply (calm_run _ _ _ _ Ht) in E3 as [_ Hm3]. rewrite <-Hm3 in Hdb.
  destruct token; [|by eapply Hasync].
  exact (createSync_recorded _ _ _ _ _ _ _ _ _ _ _ Hdb Hc Hp Hr).
Qed.

(** The forced channel, with or without the lock. *)
Lemma ForceSync_recorded os ctx order rw c s l no err s' :
  s_mysql s = Some rw → master rw = Some c →
  CreateOrderForceSync os ctx order s = (Val (l, no, err), s') →
  l = "sync" ∧ ∃ now, err = None → executed (s_w s') c insert_order (insert_args (filled order no now)).
Proof.
  intros Hdb Hc Hr. unfold CreateOrderForceSync in Hr. apply bind_inv in Hr as (o & s1 & E1 & Hr).
  pose proof (calm_run _ _ _ _ (calm_fill order) E1) as [_ Hm1]. rewrite <-Hm1 in Hdb.
  destruct (fill_run order s) as (no' & now & s1' & E1'). rewrite E1' in E1. injection E1 as <- <-.
  apply bind_inv in Hr as (start & s2 & E2 & Hr).
  apply (calm_run _ _ _ _ calm_Now) in E2 as [_ Hm2]. rewrite <-Hm2 in Hdb.
  set (order' := filled order no' now) in *.
  assert (Hw : ∀ t t', s_mysql t = Some rw → writeAndPublish os "sync" start ctx order' t = (Val (l, no, err), t') →
    no = no' ∧ l = "sync" ∧ (err = None → executed (s_w t') c insert_order (insert_args order'))).
  { intros t t' Ht Hr'. destruct (write_accepted _ _ _ _ _ _ _ _ _ _ _ _ Ht Hc Hr') as [-> Hx].
    split; [done|]. destruct err; [done|]. by destruct Hx. }
  assert (Hgoal : no = no' ∧ l = "sync" ∧ (err = None → executed (s_w s') c insert_order (insert_args order')));
    [|destruct Hgoal as (-> & -> & Hx); split; [done|]; by exists now].
  destruct (os_lock os); [|by eapply Hw].
  apply bind_inv in Hr as ([token lerr] & s3 & E3 & Hr).
  apply (calm_run _ _ _ _ (calm_Lock _ _ _)) in E3 as [_ Hm3]. rewrite <-Hm3 in Hdb.
  destruct lerr as [e|]; [by eapply Hw|].
  apply deferred_inv in Hr as (s4 & Hr & Es). destruct (Hw _ _ Hdb Hr) as (-> & -> & Hx).
  split; [done|]. split; [done|]. intros He. specialize (Hx He).
  destruct (calm_unlock (lock_key (o_OrderNo order')) token s4) as [[Hj _] _]. rewrite Es in Hj. by apply Hj.
Qed.

End calm.

(** ** Properties *)

(** C12: An accepted order is on record: when MySQL and a producer are there
    and [CreateOrder] answers without an error, then either the channel is
    [sync] and the master has executed the insert of exactly the order built
    from the request under the number returned, or the channel is [async]
    and Kafka has accepted its message, keyed by the user, under that
    number; this holds on every path, through the breaker, the bucket, a
    failed lock, the caches and the unlock.  Every answer with an error is
    labelled [async], a failed synchronous write included.  Without MySQL the
    answer is [sync] as well, with the order only in the cache
    ([degraded_order_lost]). *)
Theorem accepted_recorded `{EN : Env} `{CO : Codec} `{JO : !Journal} `{JL : !JournalLaws}
    os ctx order rw c ep s l no err s' :
  s_mysql s = Some rw → master rw = Some c → os_producer os = Some ep →
  CreateOrder os ctx order s = (Val (l, no, err), s') →
  ∃ now, let order' := filled order no now in
  match err with
  | None =>
      (l = "sync" ∧ executed (s_w s') c insert_order (insert_args order')) ∨
      (l = "async" ∧ ∃ m, is_message ctx order' m ∧ delivered (s_w s') (ep_topic ep) m)
  | Some _ => l = "async"
  end.
Proof.
  intros Hdb Hc Hp Hr. destruct (CreateOrder_recorded _ _ _ _ _ _ _ _ _ _ _ Hdb Hc Hp Hr) as [now H]. by exists now.
Qed.

Definition demo_ep : EventProducer := Mq.NewEventProducer ["localhost:9092"] "order-create" 3.
Definition demo_os : OrderService :=
  {| os_loader := None; os_producer := Some demo_ep; os_lock := true; os_search := None |}.
Definition demo_request : Order := zero_Order <| o_UserID := 7 |> <| o_Amount := f64_one |>.

Lemma accepted_recorded_witness :
  ∃ l no s', CreateOrder demo_os "" demo_request demo_sys = (Val (l, no, None), s') ∧
    (l = "sync" ∨ ∃ m, delivered (s_w s') "order-create" m).
Proof.
  assert (E : CreateOrder demo_os "" demo_request demo_sys =
    (Val ("sync", "ORD700001464", None), (CreateOrder demo_os "" demo_request demo_sys).2)).
  { rewrite (surjective_pairing (CreateOrder demo_os "" demo_request demo_sys)) at 1.
    f_equal; vm_compute; reflexivity. }
  pose proof (accepted_recorded demo_os "" demo_request demo_rwdb 0%nat demo_ep demo_sys _ _ _ _
    eq_refl eq_refl eq_refl E) as (now & [[H _]|(_ & m & _ & H)]).
  - eexists _, _, _. split; [exact E|]. left. exact H.
  - eexists _, _, _. split; [exact E|]. right. exists m. exact H.
Defined.

(** ** Order numbers *)

Lemma order_no_inj u1 q1 r1 u2 q2 r2 :
  0 <= u1 → 0 <= u2 → 0 <= q1 < 100000 → 0 <= q2 < 100000 → 0 <= r1 < 1000 → 0 <= r2 < 1000 →
  order_no u1 q1 r1 = order_no u2 q2 r2 ↔ u1 = u2 ∧ q1 = q2 ∧ r1 = r2.
Proof.
  intros Hu1 Hu2 Hq1 Hq2 Hr1 Hr2. split; [|by intros (-> & -> & ->)]. unfold order_no. intros E.
  assert (Hlen : ∀ q r, 0 <= q < 100000 → 0 <= r < 1000 →
    String.length (pad0 5 (show_N q) +:+ pad0 3 (show_N r)) = 8%nat).
  { intros q r Hq Hr. rewrite length_append, !pad0_length by (cbn; lia). done. }
  rewrite !append_cons, !append_nil_l in E. injection E as E.
  apply append_inj in E as [E1 E]; [|by rewrite !Hlen].
  apply append_inj in E as [E2 E3]; [|by rewrite !pad0_length by (cbn; lia)].
  split; [by apply show_N_inj|]. split; [by apply (pad0_inj 5); [lia..|]|by apply (pad0_inj 3); [lia..|]].
Qed.

Lemma be_uint_nonneg s : 0 <= be_uint s.
Proof.
  unfold be_uint. assert (H : ∀ acc, 0 <= acc → 0 <= be_uint_go acc s); [|by apply H].
  induction s as [|c s IH]; intros acc Ha; cbn [be_uint_go]; [done|]. apply IH. lia.
Qed.

Lemma generate_run `{Env} u s :
  generateOrderNo u s =
    (Val (order_no u (wrapu64 (s_orderSeq s + 1) mod 100000) (be_uint (s_orderRandID s) mod 1000)),
     s <| s_orderSeq := wrapu64 (s_orderSeq s + 1) |>).
Proof. done. Qed.

(** C37: Order numbers: two creations of one process, [n] creations apart,
    get the same number exactly when they are of the same user and [n] is a
    multiple of 100000: the five digits of the counter wrap, so the counter
    does not keep the process from repeating a number, and the repeated
    insert overwrites the earlier order's amount and status. *)
Theorem order_numbers_repeat `{Env} u u' n s s' :
  0 <= u → 0 <= u' → 0 <= s_orderSeq s → 0 < n → s_orderSeq s + n + 1 < 2 ^ 64 →
  s_orderSeq s' = s_orderSeq s + n → s_orderRandID s' = s_orderRandID s →
  ∃ a b t t', generateOrderNo u s = (Val a, t) ∧ generateOrderNo u' s' = (Val b, t') ∧
    s_orderSeq t = s_orderSeq s + 1 ∧ s_orderRandID t = s_orderRandID s ∧
    (a = b ↔ u = u' ∧ n mod 100000 = 0).
Proof.
  intros Hu Hu' Hs Hn Hlt Es Er. rewrite !generate_run, Es, Er.
  assert (W1 : wrapu64 (s_orderSeq s + 1) = s_orderSeq s + 1) by (apply Z.mod_small; lia).
  assert (W2 : wrapu64 (s_orderSeq s + n + 1) = s_orderSeq s + n + 1) by (apply Z.mod_small; lia).
  rewrite W1, W2. eexists _, _, _, _. do 4 (split; [reflexivity|]). split.
  - intros E. pose proof (Z.mod_pos_bound (s_orderSeq s + 1) 100000).
    pose proof (Z.mod_pos_bound (s_orderSeq s + n + 1) 100000).
    pose proof (Z.mod_pos_bound (be_uint (s_orderRandID s)) 1000).
    apply order_no_inj in E as (-> & Eq & _); [|lia..]. split; [done|].
    assert (Hz : (s_orderSeq s + n + 1 - (s_orderSeq s + 1)) mod 100000 = 0).
    { rewrite Zminus_mod, <-Eq, Z.sub_diag. done. }
    by replace (s_orderSeq s + n + 1 - (s_orderSeq s + 1)) with n in Hz by lia.
  - intros [-> Hz]. assert (Hq : (s_orderSeq s + n + 1) mod 100000 = (s_orderSeq s + 1) mod 100000).
    { replace (s_orderSeq s + n + 1) with (s_orderSeq s + 1 + n) by lia.
      by rewrite Zplus_mod, Hz, Z.add_0_r, Z.mod_mod by lia. }
    by rewrite Hq.
Qed.

Lemma order_numbers_repeat_witness :
  ∃ a t t', generateOrderNo 7 demo_sys = (Val a, t) ∧
    generateOrderNo 7 (demo_sys <| s_orderSeq := 100000 |>) = (Val a, t').
Proof.
  pose proof (order_numbers_repeat 7 7 100000 demo_sys (demo_sys <| s_orderSeq := 100000 |>)
    ltac:(lia) ltac:(lia) ltac:(cbn; lia) ltac:(lia) ltac:(cbn; lia) eq_refl eq_refl)
    as (a & b & t & t' & E1 & E2 & _ & _ & [_ H]).
  specialize (H (conj eq_refl eq_refl)). subst b. exists a, t, t'. split; [exact E1|exact E2].
Defined.

(** ** The event on its way through Kafka *)

Section event.
#[local] Set Default Proof Using "All".
Context `{CO : Codec} `{CL : !CodecLaws}.

Definition event_json (t : Z) (ctx : Mq.context) (o : Order) : json :=
  JObj [("event_id", JStr (o_OrderNo o)); ("event_type", JStr "ORDER_CREATE"); ("timestamp", enc_int t);
    ("trace_id", JStr ctx); ("payload", order_json o)].

Lemma marshal_event t ctx o :
  order_wf o → MarshalEvent (mkEvent (o_OrderNo o) "ORDER_CREATE" t ctx (VOrder o)) = Some (json_text (event_json t ctx o)).
Proof. intros Ho. unfold MarshalEvent, enc_event. cbn. by rewrite enc_order_wf. Qed.

Lemma unmarshal_event t ctx o :
  order_wf o → utf8_valid ctx = true → 0 <= t < 2 ^ 63 →
  Unmarshal dec_event zero_Event (json_text (event_json t ctx o)) =
    (mkEvent (o_OrderNo o) "ORDER_CREATE" t ctx (order_map o), None).
Proof.
  intros Ho Hc Ht. pose proof Ho as (_ & _ & _ & _ & _ & Hno & _).
  unfold Unmarshal. rewrite json_roundtrip.
  2:{ unfold event_json. cbn [json_wf forallb]. unfold enc_int. cbn [json_wf].
      by rewrite order_json_wf, show_Z_utf8, Hc, Hno. }
  pose proof (dec_val_order o Ho) as Hv. destruct Ho as (Hi & Hu & Ha & _).
  jcompute. rewrite parse_int_show by done. by rewrite !float_parse_int, float_roundtrip by done.
Qed.


(** The order as it comes out of a map of dynamic values. *)
Definition through_map (o : Order) (i u : Z) : Order := o <| o_ID := i |> <| o_UserID := u |>.

Lemma remarshal_order o i u :
  order_wf o → via_float (o_ID o) = Some i → via_float (o_UserID o) = Some u →
  remarshalTo (order_map o) = (through_map o i u, None).
Proof.
  intros Ho Ei Eu. destruct (order_map_roundtrip o Ho) as (j & Ej & Hj & Hd).
  unfold remarshalTo, Marshal. rewrite Ej. cbn. unfold Unmarshal. rewrite json_roundtrip by done. by apply Hd.
Qed.

Lemma through_map_exact o i u :
  order_wf o → o_ID o <= 2 ^ 53 → o_UserID o <= 2 ^ 53 →
  via_float (o_ID o) = Some i → via_float (o_UserID o) = Some u → through_map o i u = o.
Proof.
  intros (Hi & Hu & _) Hi' Hu'. rewrite !via_float_exact by lia. intros [= <-] [= <-]. by destruct o.
Qed.

(** The first identifier that float64 cannot hold. *)
Lemma via_float_lossy : via_float (2 ^ 53 + 1) = Some (2 ^ 53).
Proof.
  unfold via_float. assert (E : f64_of_Z (2 ^ 53 + 1) = f64_of_Z (2 ^ 53)) by (vm_compute; reflexivity).
  rewrite E. by apply via_float_exact.
Qed.

End event.

(** C18: The asynchronous channel stores the order it was given: the handler,
    on the message of a storable order, performs the database write of that
    order and, if it succeeds, drops its cache entry, as long as the
    identifiers are at most [2^53]; beyond that they come out of the float64
    of the decoded payload, and the order of user [2^53+1] is stored for
    user [2^53]. *)
Theorem event_roundtrip `{EN : Env} `{CO : Codec} `{CL : !CodecLaws} os ctx t o :
  order_wf o → utf8_valid ctx = true → 0 <= t < 2 ^ 63 →
  (∃ value, MarshalEvent (mkEvent (o_OrderNo o) "ORDER_CREATE" t ctx (VOrder o)) = Some value ∧
   ∀ i u, via_float (o_ID o) = Some i → via_float (o_UserID o) = Some u → ∀ ctx' key s,
     let o' := through_map o i u in
     HandleOrderEvent os ctx' key value s =
       (err ← dbWrite os o';
        match err with
        | Some e => mret (Some (Errorf ("async db write: " +:+ err_text e)))
        | None => _ ← Cache.Invalidate (order_key (o_OrderNo o)); mret None
        end) s ∧
     (o_ID o <= 2 ^ 53 → o_UserID o <= 2 ^ 53 → o' = o)) ∧
  via_float (2 ^ 53 + 1) = Some (2 ^ 53).
Proof.
  intros Ho Hc Ht. split; [|apply via_float_lossy].
  exists (json_text (event_json t ctx o)). split; [by apply marshal_event|].
  intros i u Ei Eu ctx' key s. split; [|intros; by apply through_map_exact].
  unfold HandleOrderEvent. rewrite unmarshal_event by done. cbn [e_Payload].
  by rewrite (remarshal_order o i u).
Qed.

Lemma event_roundtrip_witness :
  ∃ value, MarshalEvent (mkEvent "ORD700001123" "ORDER_CREATE" 5 "tid" (VOrder Es.demo_order)) = Some value ∧
    (HandleOrderEvent demo_os "" "7" value demo_sys).1 = Val None.
Proof.
  pose proof (event_roundtrip demo_os "tid" 5 Es.demo_order Es.demo_order_wf eq_refl ltac:(lia))
    as [(value & E & H) _].
  exists value. split; [exact E|].
  specialize (H 1 7 (via_float_exact 1 ltac:(lia)) (via_float_exact 7 ltac:(lia)) "" "7" demo_sys).
  rewrite (proj1 H). vm_compute. reflexivity.
Defined.

(** An order read back from the shared cache: when the L1 misses and
    the L2 holds the text a write left there, [GetOrder] answers that order,
    with its identifiers exact up to [2^53] and rounded beyond, and never
    reaches the database. *)
Theorem l2_roundtrip `{EN : Env} `{CO : Codec} `{CL : !CodecLaws} os o s i u :
  order_wf o → via_float (o_ID o) = Some i → via_float (o_UserID o) = Some u →
  mc_l2 (s_mc s) = true →
  (l1_get (order_key (o_OrderNo o)) (s_w s)).1 = None →
  (redis_get (order_key (o_OrderNo o)) (l1_get (order_key (o_OrderNo o)) (s_w s)).2).1 =
    ROk (Cache.jsonText (VOrder o)) →
  Cache.jsonText (VOrder o) ≠ Cache.NullMarker →
  (∃ s', GetOrder os (o_OrderNo o) s = (Val (Some (through_map o i u), None), s')) ∧
  (o_ID o <= 2 ^ 53 → o_UserID o <= 2 ^ 53 → through_map o i u = o).
Proof.
  intros Ho Ei Eu Hl2 E1 E2 Hn. split; [|intros; by apply through_map_exact].
  assert (Hp : Cache.parseValue (Cache.jsonText (VOrder o)) = order_map o).
  { unfold Cache.parseValue, Cache.jsonText, Marshal. cbn [enc_val]. rewrite enc_order_wf by done. cbn.
    rewrite json_roundtrip by by apply order_json_wf. by rewrite dec_val_order. }
  assert (Hg : ∃ s', Cache.Get (os_loader os) (order_key (o_OrderNo o)) s = (Val (order_map o, true, None), s')).
  { unfold Cache.Get. rewrite bind_run. unfold Cache.update at 1, modify at 1. rewrite bind_run, world_run.
    change (s_w (s <| s_mc ::= Cache.total |>)) with (s_w s). rewrite E1.
    rewrite bind_run. unfold Cache.mc at 1, gets at 1. cbn [mc_l2 Cache.total].
    match goal with |- context[mc_l2 ?c] => change (mc_l2 c) with (mc_l2 (s_mc s)) end.
    rewrite Hl2, bind_run, world_run, s_w_set, E2. rewrite bind_run. unfold Cache.update at 1, modify at 1.
    rewrite bool_decide_eq_false_2 by done. rewrite Hp. rewrite bind_run.
    match goal with |- context[Cache.l1TTL ?t] => destruct (Cache.l1TTL_val t) as (ttl & w' & Et) end.
    rewrite Et. by eexists. }
  destruct Hg as [s' Hg]. exists s'. unfold GetOrder. rewrite bind_run, Hg.
  pose proof (remarshal_order o i u Ho Ei Eu) as Hr. unfold remarshalTo in Hr. unfold order_map in *.
  unfold Cache.jsonText. destruct (Marshal _); [|done]. by rewrite Hr.
Qed.

Definition demo_l2 : Sys :=
  demo_with (demo_w <| dw_redis := {[ "order:ORD700001123" := (Cache.jsonText (VOrder Es.demo_order), Minute) ]} |>).

Lemma l2_roundtrip_witness :
  ∃ s', GetOrder demo_os "ORD700001123" demo_l2 = (Val (Some Es.demo_order, None), s').
Proof.
  assert (H1 : (l1_get (order_key "ORD700001123") (s_w demo_l2)).1 = None) by reflexivity.
  assert (H2 : (redis_get (order_key "ORD700001123") (l1_get (order_key "ORD700001123") (s_w demo_l2)).2).1 =
    ROk (Cache.jsonText (VOrder Es.demo_order))) by reflexivity.
  assert (H3 : Cache.jsonText (VOrder Es.demo_order) ≠ Cache.NullMarker) by (vm_compute; discriminate).
  pose proof (l2_roundtrip demo_os Es.demo_order demo_l2 1 7 Es.demo_order_wf (via_float_exact 1 ltac:(lia))
    (via_float_exact 7 ltac:(lia)) eq_refl H1 H2 H3) as [H _].
  exact H.
Defined.

(** ** Degraded modes and shared names *)

Section degraded.
Context `{EN : Env} `{CO : Codec}.

Definition mysql_down (s : Sys) : Prop :=
  match s_mysql s with None => True | Some rw => master rw = None end.

Lemma unavailable_down s : mysql_down s → Rwdb.unavailable Rwdb.MySQL s = (Val true, s).
Proof.
  unfold mysql_down. intros Hd. rewrite Rwdb.unavailable_run. cbn [Rwdb.get_db]. unfold Rwdb.IsNil.
  destruct (s_mysql s) as [rw|]; [by rewrite Hd|done].
Qed.

(** The write and the accounting before the deletion. *)
Definition write_part (os : OrderService) (start : Z) (o : Order) : M unit :=
  _ ← dbWrite os o; now ← Now; cbRecordSuccess (time_sub now start).

Lemma dbWrite_down os o s : mysql_down s → ∃ w, dbWrite os o s = (Val None, s <| s_w := w |>).
Proof.
  intros Hd. unfold dbWrite. rewrite bind_run, unavailable_down by done.
  destruct (Cache.Set_val (order_key (o_OrderNo o)) (VOrder o) s) as [w E].
  exists w. by rewrite bind_run, E.
Qed.

Lemma dbQuery_down no s :
  mysql_down s → dbQuery no s = (Val (None, Some (Errorf "database not available")), s).
Proof. intros Hd. unfold dbQuery. by rewrite bind_run, unavailable_down. Qed.

Lemma cbRecordSuccess_run d s : ∃ w c, cbRecordSuccess d s = (Val tt, s <| s_w := w |> <| s_cb := c |>).
Proof.
  unfold cbRecordSuccess, gets, cb_update, modify, Now. rewrite bind_run. destruct (_ && _).
  - rewrite bind_run, world_run. by eexists _, _.
  - rewrite bind_run, ret_run. exists (s_w s). eexists. by rewrite <-Cache.sys_eta.
Qed.

(** A write that reports no error goes on to the deletion. *)
Lemma write_part_run os label start ctx o s s1 :
  dbWrite os o s = (Val None, s1) →
  ∃ s2, write_part os start o s = (Val tt, s2) ∧ s_mysql s2 = s_mysql s1 ∧ s_mc s2 = s_mc s1 ∧
    writeAndPublish os label start ctx o s =
      (_ ← Cache.InvalidateWithDelay (order_key (o_OrderNo o)) 500;
       _ ← publishOrderEvent os ctx o; mret ("sync", o_OrderNo o, None)) s2.
Proof.
  intros E1. unfold write_part, writeAndPublish, Now.
  rewrite bind_run, E1, bind_run, world_run.
  rewrite (bind_run (dbWrite os o)), E1, (bind_run (world clk_now)), world_run.
  set (t := s1 <| s_w := _ |>).
  destruct (cbRecordSuccess_run (time_sub (clk_now (s_w s1)).1 start) t) as (w & c & E2).
  eexists. split; [exact E2|]. split; [done|]. split; [done|]. by rewrite bind_run, E2.
Qed.

Lemma publish_run os ctx o s :
  ∃ w l, publishOrderEvent os ctx o s = (Val tt, s <| s_w := w |> <| s_tasks := l |>) ∧
    (w = s_w s ∨ w = (clk_now (s_w s)).2).
Proof.
  unfold publishOrderEvent. destruct (os_producer os).
  - unfold order_event, Now, Mq.SendAsync, go, modify. rewrite !bind_run, world_run. eexists _, _.
    split; [reflexivity|by right].
  - exists (s_w s), (s_tasks s). split; [by destruct s|by left].
Qed.

End degraded.

(** Without MySQL a synchronous order is accepted and then lost: the
    write that falls back to the cache as its store is followed by the
    deletion meant to invalidate it, so that the creation answers success
    while neither tier has the order any more and the database query is not
    available either. *)
Theorem degraded_order_lost `{EN : Env} `{CO : Codec} `{VI : !Views} `{RE : !RedisLaws} `{LL : !L1Laws}
    `{FR : !FrameLaws} os label start ctx o s :
  mysql_down s →
  let k := order_key (o_OrderNo o) in
  ∃ s1 s', write_part os start o s = (Val tt, s1) ∧
    writeAndPublish os label start ctx o s = (Val ("sync", o_OrderNo o, None), s') ∧
    l1_view (s_w s') k = None ∧
    (mc_l2 (s_mc s) = true → (∃ n, (redis_del k (s_w s1)).1 = ROk n) → r_entry (s_w s') k = None) ∧
    dbQuery (o_OrderNo o) s' = (Val (None, Some (Errorf "database not available")), s').
Proof.
  intros Hd k. destruct (dbWrite_down os o s Hd) as [w1 E1].
  destruct (write_part_run os label start ctx o s _ E1) as (s2 & E2 & Hm & Hc & E3).
  exists s2. rewrite bind_run, Cache.invalidate_delay_run, bind_run in E3. fold k in E3.
  match type of E3 with context [publishOrderEvent os ctx o ?t] =>
    destruct (publish_run os ctx o t) as (w3 & l & E4 & Hw3); rewrite E4 in E3 end.
  eexists. split; [exact E2|]. split; [exact E3|]. clear E1 E2 E3 E4. cbn [s_w set_field] in Hw3 |- *.
  assert (Hfr : ∀ w, redis_frame w (clk_now w).2 ∧ l1_frame w (clk_now w).2) by apply clk_now_frames.
  change (s_mc s2 = s_mc s) in Hc. rewrite Hc in Hw3. change (s_mysql s2 = s_mysql s) in Hm.
  set (w := l1_del k _) in Hw3. split; [|split].
  - assert (Hv : l1_view w k = None) by apply l1_del_key. destruct Hw3 as [-> | ->]; [done|].
    destruct (Hfr w) as [_ Hl]. destruct (Hl k) as [E|E]; congruence.
  - intros Hl2 Hn. subst w. rewrite Hl2 in Hw3.
    assert (Hv := Cache.deleted_both k (s_w s2) Hn). destruct Hw3 as [-> | ->]; [done|].
    destruct (Hfr (l1_del k (redis_del k (s_w s2)).2)) as [Hr _].
    destruct (Hr k) as [E|(v & e & E & _)]; congruence.
  - apply dbQuery_down. unfold mysql_down. cbn [s_mysql set_field]. rewrite Hm. exact Hd.
Qed.

Definition demo_no_mysql : Sys := demo_sys <| s_mysql := None |>.

Lemma degraded_order_lost_witness :
  ∃ s', writeAndPublish demo_os "async" 0 "" Es.demo_order demo_no_mysql = (Val ("sync", "ORD700001123", None), s') ∧
    l1_view (s_w s') "order:ORD700001123" = None.
Proof.
  pose proof (degraded_order_lost demo_os "async" 0 "" Es.demo_order demo_no_mysql I)
    as (s1 & s' & _ & E & H & _).
  exists s'. split; [exact E|exact H].
Defined.

(** The lock of an order shares its Redis key with a cache entry: the
    lock on the creation of order [no] is the cache key of the order number
    [create:no].  A query for that number that finds no row writes the null
    marker over the lock while it is held; the holder's unlock then leaves
    the marker where it is, and until it runs out every further lock attempt
    fails although nobody holds the lock. *)
Theorem lock_overwritten `{EN : Env} `{CO : Codec} `{VI : !Views} `{RE : !RedisLaws} no s rw c rw' :
  s_mysql s = Some rw → master rw ≠ None → Rwdb.replica rw = (Some c, rw') → mc_l2 (s_mc s) = true →
  let w1 := (sql_query_row c select_order [SStr ("create:" +:+ no)] (s_w s)).2 in
  let w2 := l1_wait (l1_set (lock_key no) (VStr Cache.NullMarker) 1 (nullTTL (s_mc s)) w1) in
  let w3 := (redis_set (lock_key no) Cache.NullMarker (nullTTL (s_mc s)) w2).2 in
  (sql_query_row c select_order [SStr ("create:" +:+ no)] (s_w s)).1 = RowNone →
  (redis_set (lock_key no) Cache.NullMarker (nullTTL (s_mc s)) w2).1 = ROk tt →
  order_key ("create:" +:+ no) = lock_key no ∧
  (∃ s', dbQuery ("create:" +:+ no) s = (Val (None, Some (Errorf ("order not found: create:" +:+ no))), s') ∧
    s_w s' = w3) ∧
  written w2 w3 (lock_key no) Cache.NullMarker (nullTTL (s_mc s)) ∧
  ∀ token, token ≠ Cache.NullMarker →
    only_expiry w3 (redis_eval unlockScript (lock_key no) token w3).2 (lock_key no).
Proof.
  intros Hdb Hm Hr Hl2 w1 w2 w3 Hrow Hset.
  assert (Hk : order_key ("create:" +:+ no) = lock_key no) by (unfold order_key, lock_key; by rewrite <-append_assoc).
  assert (Hw : written w2 w3 (lock_key no) Cache.NullMarker (nullTTL (s_mc s))).
  { destruct (redis_set_key (lock_key no) Cache.NullMarker (nullTTL (s_mc s)) w2) as [?|[? _]]; [done|congruence]. }
  split; [done|]. split; [|split; [done|]].
  - unfold dbQuery. rewrite bind_run, Rwdb.unavailable_run. cbn [Rwdb.get_db]. rewrite Hdb.
    unfold Rwdb.IsNil. destruct (master rw); [|done].
    rewrite bind_run, (Rwdb.query_row_run Rwdb.MySQL _ _ s rw c rw') by done. rewrite Hrow, Hk.
    rewrite bind_run, Cache.SetNull_val. cbn [Rwdb.set_db s_mc set_field]. rewrite Hl2. eexists.
    split; [reflexivity|]. done.
  - intros token Ht. destruct (redis_eval_key (lock_key no) token w3) as [[Hv _]|[_ He]]; [|done].
    destruct (written_view _ _ _ _ _ Hw); congruence.
Qed.

Definition demo_locked : Sys :=
  demo_with (demo_w <| dw_redis := {[ lock_key "ORD700001123" := ("5-abcdef01", 5 * Second) ]} |>).

Lemma lock_overwritten_witness :
  ∃ s', dbQuery ("create:" +:+ "ORD700001123") demo_locked =
      (Val (None, Some (Errorf "order not found: create:ORD700001123")), s') ∧
    r_view (s_w s') (lock_key "ORD700001123") = Some Cache.NullMarker.
Proof.
  pose proof (lock_overwritten "ORD700001123" demo_locked demo_rwdb 2%nat (demo_rwdb <| nextIdx := 1 |>)
    eq_refl) as H.
  assert (H1 : master demo_rwdb ≠ None) by discriminate.
  specialize (H H1 eq_refl eq_refl eq_refl eq_refl).
  destruct H as (_ & (s' & E & Ew) & _). exists s'. split; [exact E|]. rewrite Ew. reflexivity.
Defined.

(** Dead letters cannot be replayed: what [SendToDLQ] writes for the
    raw bytes of a message is their base64 text as a JSON string, which the
    handler of order events rejects without writing anything; and with the
    default configuration the letters go to the topic of the dead-letter
    topic and name the latter as their original topic. *)
Theorem dead_letters_unreadable `{EN : Env} `{CO : Codec} `{CL : !CodecLaws} os ctx key key' bytes s :
  let ep := Mq.NewEventProducer (Config.Brokers (Config.Kafka Config.defaultConfig))
    (Config.DLQTopic (Config.Consumer (Config.Kafka Config.defaultConfig))) 3 in
  let text := json_text (JStr (Mq.base64 bytes)) in
  (∃ t w r w', clk_now (s_w s) = (t, w) ∧
     kafka_write "order-create.dlq.dlq"
       (mkMsg key text [("original_topic", "order-create.dlq"); ("dead_letter_at", time_rfc3339 t)]) w = (r, w') ∧
     Mq.SendToDLQ ep ctx key (Mq.PBytes bytes) s = (Val (Errorf <$> r), s <| s_w := w' |>)) ∧
  ∃ e, HandleOrderEvent os ctx key' text s = (Val (Some (Errorf ("unmarshal event: " +:+ e))), s).
Proof.
  intros ep text. split.
  - pose proof (Mq.SendToDLQ_bytes ep ctx key bytes s) as Hd. destruct (clk_now (s_w s)) as [t w].
    destruct (kafka_write _ _ w) as [r w'] eqn:Ek. exists t, w, r, w'. split; [done|]. split; [exact Ek|exact Hd].
  - unfold HandleOrderEvent, Unmarshal, text. rewrite json_roundtrip by apply Mq.base64_utf8.
    eexists. reflexivity.
Qed.

Lemma dead_letters_unreadable_witness :
  ∃ e, HandleOrderEvent demo_os "" "7" (json_text (JStr (Mq.base64 "abc"))) demo_sys =
    (Val (Some (Errorf ("unmarshal event: " +:+ e))), demo_sys).
Proof.
  pose proof (dead_letters_unreadable demo_os "" "7" "7" "abc" demo_sys) as [_ H]. exact H.
Defined.

End OrderSvc.
