(* ===== verification/Table.v ===== *)
(** * The orders table

    What the order service relies on of MySQL: the [orders] table as a map
    from order numbers to rows, the upsert of [insert_order] and the lookup
    of the two select statements.  One table stands for the master and its
    replicas.  The concrete world of [DemoWorld.v] satisfies the laws. *)

From S2P Require Export Order.

Module Table.
Import OrderSvc.

(** Numbers of the form [generateOrderNo] gives.  MySQL compares numbers
    without regard to case and trailing blanks, which tells numbers of this
    form apart. *)
Definition numbered (no : string) : Prop :=
  ∃ u q r, 0 <= u ∧ 0 <= q ∧ 0 <= r ∧ no = order_no u q r.

(** Whether a text has that form: cut it at every place. *)
Fixpoint cuts (s : string) : list (string * string) :=
  ("", s) :: match s with EmptyString => [] | String c s => map (λ '(a, b), (String c a, b)) (cuts s) end.

(** A natural number, with zeros up to that width. *)
Definition padded (w : nat) (s : string) : bool :=
  match parse_go s 0 with Some n => bool_decide (s = pad0 w (show_N n)) | None => false end.

Definition is_numbered (no : string) : bool :=
  hasPrefix "ORD" no &&
  existsb (λ '(u, rest), padded 0 u && existsb (λ '(q, r), padded 5 q && padded 3 r) (cuts rest)) (cuts (str_drop 3 no)).

Lemma cuts_spec a b s : (a, b) ∈ cuts s ↔ s = a +:+ b.
Proof.
  revert a. induction s as [|c s IH]; intros a; cbn [cuts].
  - rewrite list_elem_of_singleton. split; [by intros [= -> ->]|]. destruct a; [|done]. rewrite append_nil_l. by intros <-.
  - rewrite elem_of_cons, list_elem_of_fmap. split.
    + intros [[= -> ->]|([a' b'] & [= -> ->] & Hin)]; [done|]. rewrite append_cons. f_equal. by apply IH.
    + destruct a as [|c' a]; [rewrite append_nil_l; intros <-; by left|]. rewrite append_cons. intros [= -> Hs]. right.
      exists (a, b). split; [done|]. by apply IH.
Qed.

Lemma padded_spec w s : padded w s = true ↔ ∃ n, 0 <= n ∧ s = pad0 w (show_N n).
Proof.
  unfold padded. split.
  - destruct (parse_go s 0) as [n|] eqn:E; [|done]. intros ->%bool_decide_eq_true. exists n.
    split; [by eapply parse_go_nonneg|done].
  - intros (n & Hn & ->). rewrite pad0_parse by done. by apply bool_decide_eq_true.
Qed.

Lemma is_numbered_spec no : is_numbered no = true ↔ numbered no.
Proof.
  unfold is_numbered. rewrite andb_true_iff, existsb_exists. split.
  - intros [Hp%hasPrefix_spec ([u rest] & Hin & H)]. apply andb_true_iff in H as [(nu & Hu & Eu)%padded_spec H].
    apply existsb_exists in H as ([q r] & Hin' & H). apply andb_true_iff in H as [(nq & Hq & Eq)%padded_spec (nr & Hr & Er)%padded_spec].
    apply list_elem_of_In, cuts_spec in Hin, Hin'. exists nu, nq, nr. split; [done|]. split; [done|]. split; [done|].
    rewrite Hp. cbn [String.length]. rewrite Hin, Hin', Eu, Eq, Er. done.
  - intros (u & q & r & Hu & Hq & Hr & ->). split; [apply hasPrefix_append|].
    eexists (_, _). split; [apply list_elem_of_In, cuts_spec; reflexivity|]. apply andb_true_iff. split; [apply padded_spec; by exists u|].
    apply existsb_exists. eexists (_, _). split; [apply list_elem_of_In, cuts_spec; reflexivity|].
    apply andb_true_iff. split; apply padded_spec; eauto.
Qed.

#[export] Instance numbered_dec no : Decision (numbered no).
Proof. refine (cast_if (decide (is_numbered no = true))); by rewrite <-is_numbered_spec. Defined.

(** The columns that decide where an order goes: its number has that form,
    and the identifier of its user is one that float64 holds. *)
Definition storable (o : Order) : Prop := numbered (o_OrderNo o) ∧ 0 <= o_UserID o <= 2 ^ 53.

(** What the consumer reads in a message, and whether it can go there. *)
Definition event_order `{Codec} (value : string) : error + Order :=
  match Unmarshal dec_event zero_Event value with
  | (_, Some e) => inl (Errorf ("unmarshal event: " +:+ err_text e))
  | (event, None) =>
      match remarshalTo (e_Payload event) with
      | (_, Some e) => inl (Errorf ("unmarshal order: " +:+ err_text e))
      | (order, None) => inr order
      end
  end.

Definition fit `{Codec} (value : string) : Prop := ∀ o, event_order value = inr o → storable o.

(** The table; what its columns keep of an order ([DECIMAL(12,2)],
    [DATETIME]); and that Redis and MySQL answer. *)
Class OrderTable `{Env} := {
  orders_of : W → gmap string Order;
  column : Order → Order;
  healthy : W → Prop
}.

(** The row after [insert_order]: a new one, or the old one with its amount,
    status and last update replaced. *)
Definition upserted `{OrderTable} (id : Z) (o : Order) (old : option Order) : Order :=
  let new := column (o <| o_ID := id |>) in
  match old with
  | None => new
  | Some old =>
      old <| o_Amount := o_Amount new |> <| o_Status := o_Status new |> <| o_UpdatedAt := o_UpdatedAt new |>
  end.

Definition upsert `{OrderTable} (id : Z) (o : Order) (t : gmap string Order) : gmap string Order :=
  <[o_OrderNo o := upserted id o (t !! o_OrderNo o)]> t.

(** The table is [t] and the services answer. *)
Definition table_is `{OrderTable} (t : gmap string Order) (w : W) : Prop := orders_of w = t ∧ healthy w.

(** MySQL: the insert either has the effect of the upsert, with an
    identifier below [2^53], or is refused without one; a select answers
    from the table, whichever pool it asks.  Nothing else the order service
    calls changes the table, and services that answer keep answering. *)
Class OrderTableLaws `{Codec} `{OrderTable} := {
  column_keys o : o_UserID (column o) = o_UserID o ∧ o_OrderNo (column o) = o_OrderNo o;
  column_id o id : column (o <| o_ID := id |>) = (column o) <| o_ID := id |>;
  column_wf o : numbered (o_OrderNo o) → 0 <= o_ID o < 2 ^ 64 → 0 <= o_UserID o < 2 ^ 64 → order_wf (column o);
  table_insert c o w :
    healthy w → storable o →
    let '(r, w') := sql_exec c insert_order (insert_args o) w in
    healthy w' ∧
    match r with
    | inl _ => orders_of w' = orders_of w
    | inr _ => ∃ id, 0 <= id <= 2 ^ 53 ∧ orders_of w' = upsert id o (orders_of w)
    end;
  table_select c q no w :
    healthy w → numbered no → q = Loader.select_order ∨ q = select_order →
    match (sql_query_row c q [SStr no] w).1 with
    | RowOk l => ∃ o, orders_of w !! no = Some o ∧ Rwdb.scan_order l = inr o
    | RowNone => orders_of w !! no = None
    | RowErr _ => False
    end;
  table_query t c q args w : table_is t w → table_is t (sql_query_row c q args w).2;
  table_kafka t topic m w : table_is t w → table_is t (kafka_write topic m w).2;
  table_index t i d b w : table_is t w → table_is t (es_index i d b w).2;
  table_kept t :: Kept (table_is t);
  healthy_del k w : healthy w → ∃ n, (redis_del k w).1 = ROk n;
  healthy_setnx k v ttl w : healthy w → ∃ b, (redis_setnx k v ttl w).1 = ROk b
}.

(** ** The table of the concrete world *)

Definition dw_row_ok (no : string) (row : list sqlval) : Prop :=
  ∃ o, row = Rwdb.order_row o ∧ 0 <= o_ID o ∧ 0 <= o_UserID o.

#[export] Instance demo_table : OrderTable := {
  orders_of := λ w, omap (λ row, match Rwdb.scan_order row with inr o => Some o | inl _ => None end) (dw_rows w);
  column := λ o, o <| o_Amount ::= dw_float |> <| o_Status ::= dw_text |> <| o_CreatedAt ::= dw_instant |>
    <| o_UpdatedAt ::= dw_instant |>;
  healthy := λ w, dw_redis_up w = true ∧ dw_sql_up w = true ∧ map_Forall dw_row_ok (dw_rows w) ∧
    Forall (λ m, fit (k_Value m)) (dw_inbox w)
}.

Lemma dw_row_scan no row : dw_row_ok no row → ∃ o, row = Rwdb.order_row o ∧ Rwdb.scan_order row = inr o ∧ 0 <= o_ID o ∧ 0 <= o_UserID o.
Proof. intros (o & -> & H1 & H2). exists o. split; [done|]. split; [by apply Rwdb.scan_order_row|done]. Qed.

Lemma numbered_utf8 no : numbered no → utf8_valid no = true.
Proof.
  intros (u & q & r & Hu & Hq & Hr & ->). apply is_ascii_utf8. unfold order_no.
  assert (Hp : ∀ n z, 0 <= z → is_ascii (pad0 n (show_N z)) = true).
  { intros n z Hz. unfold pad0. rewrite is_ascii_app, show_N_ascii, andb_true_r by done.
    by induction (n - _)%nat. }
  by rewrite !is_ascii_app, show_N_ascii, !Hp by done.
Qed.

Lemma dw_float_finite f : f64_finite (dw_float f) = true.
Proof. unfold dw_float. by destruct (f64_finite f) eqn:E. Qed.
Lemma dw_text_utf8 s : utf8_valid (dw_text s) = true.
Proof. unfold dw_text. by destruct (utf8_valid s) eqn:E. Qed.
Lemma dw_instant_valid t : demo_time_valid (dw_instant t) = true.
Proof. unfold dw_instant. by destruct (demo_time_valid t) eqn:E. Qed.

Lemma dw_orders_lookup (w : dworld) no :
  orders_of (w : W) !! no =
    match dw_rows w !! no with
    | Some row => match Rwdb.scan_order row with inr o => Some o | inl _ => None end
    | None => None
    end.
Proof. cbn [orders_of demo_table]. rewrite lookup_omap. by destruct (dw_rows w !! no). Qed.

(** The world of the upsert. *)
Lemma dw_upsert_table o w :
  map_Forall dw_row_ok (dw_rows w) → storable o →
  map_Forall dw_row_ok (dw_rows (dw_upsert (insert_args o) w)) ∧
  orders_of (dw_upsert (insert_args o) w : W) =
    upsert (1 + Z.of_nat (size (dw_rows w)) mod 2 ^ 53) o (orders_of (w : W)).
Proof.
  intros Hok [_ Hu]. set (id := 1 + _). assert (Hid : 0 <= id) by (unfold id; pose proof (Z.mod_pos_bound (Z.of_nat (size (dw_rows w))) (2 ^ 53)); lia).
  assert (Hrow : ∃ o', o' = upserted id o ((orders_of (w : W)) !! o_OrderNo o) ∧ 0 <= o_ID o' ∧ 0 <= o_UserID o' ∧
    dw_rows (dw_upsert (insert_args o) w) = <[o_OrderNo o := Rwdb.order_row o']> (dw_rows w)).
  { eexists. split; [reflexivity|]. rewrite dw_orders_lookup. unfold dw_upsert, insert_args. cbn [dw_rows set_field].
    destruct (dw_rows w !! o_OrderNo o) as [row|] eqn:E.
    - destruct (dw_row_scan _ _ (Hok _ _ E)) as (old & -> & Es & H1 & H2). by rewrite Es.
    - cbn. split; [done|]. split; [lia|done]. }
  destruct Hrow as (o' & Eo & H1 & H2 & Er). rewrite Er. split.
  - apply map_Forall_insert_2; [|done]. by exists o'.
  - unfold upsert. rewrite <-Eo. cbn [orders_of demo_table]. rewrite Er, omap_insert. by rewrite Rwdb.scan_order_row.
Qed.

(** What leaves the rows, the switches and the inbox alone. *)
Lemma dw_keep t (w w' : dworld) :
  dw_rows w' = dw_rows w → dw_redis_up w' = dw_redis_up w → dw_sql_up w' = dw_sql_up w → dw_inbox w' = dw_inbox w →
  table_is t (w : W) → table_is t (w' : W).
Proof. intros E1 E2 E3 E4. unfold table_is. cbn. by rewrite E1, E2, E3, E4. Qed.

#[export] Instance demo_table_laws : OrderTableLaws.
Proof.
  pose proof dw_keep as Hkeep.
  split.
  - done.
  - done.
  - intros o Hn Hi Hu. unfold order_wf. cbn. rewrite !dw_instant_valid, dw_float_finite, dw_text_utf8, numbered_utf8; done.
  - intros c o w (Hr & Hs & Hok & Hi) Ho. cbn [sql_exec demo_env]. rewrite Hs.
    change (dw_run insert_order (insert_args o) w) with (dw_upsert (insert_args o) w).
    destruct (dw_upsert_table o w Hok Ho) as [H1 H2]. split.
    + split; [|split; [|split; [exact H1|]]]; unfold dw_upsert, insert_args; cbn; done.
    + exists (1 + Z.of_nat (size (dw_rows w)) mod 2 ^ 53). split; [|exact H2].
      pose proof (Z.mod_pos_bound (Z.of_nat (size (dw_rows w))) (2 ^ 53)). lia.
  - intros c q no w (Hr & Hs & Hok & _) Hn _. cbn [sql_query_row demo_env fst]. rewrite Hs.
    change (dw_key [SStr no]) with no. rewrite dw_orders_lookup.
    destruct (dw_rows w !! no) as [row|] eqn:E; [|done].
    destruct (dw_row_scan _ _ (Hok _ _ E)) as (o & -> & Es & _). exists o. by rewrite Es.
  - done.
  - intros t topic m w. cbn [kafka_write demo_env]. destruct (dw_kafka_up w); [by apply Hkeep|done].
  - intros t i d b w. by apply Hkeep.
  - intros t. split; intros; try done; demo_cbn; repeat (case_match; cbn [snd]); done || by eapply Hkeep.
  - intros k w (Hr & _). cbn [redis_del demo_env]. rewrite Hr. by eexists.
  - intros k v ttl w (Hr & _). cbn [redis_setnx demo_env]. rewrite Hr. destruct (dw_entry w k); by eexists.
Qed.

End Table.
