(* ===== verification/Auth.v ===== *)
(** * Users and tokens ([internal/database/user_auth_repo.go],
    [internal/service/auth_service.go])

    The repository of users over MySQL, registration, login, and the JWT
    that the service issues and checks.  bcrypt and the JWT library are
    operations of the world. *)

From S2P Require Export Rwdb.

Module Repo.

Definition insert_user : string :=
  "INSERT INTO users (username, password_hash, email, phone, status)
		 VALUES (?, ?, ?, ?, ?)".
Definition select_by_username : string :=
  "SELECT id, username, password_hash, email, phone, status,
		        COALESCE(last_login_at, '') as last_login_at, created_at, updated_at
		 FROM users WHERE username = ?".
Definition select_by_email : string :=
  "SELECT id, username, password_hash, email, phone, status,
		        COALESCE(last_login_at, '') as last_login_at, created_at, updated_at
		 FROM users WHERE email = ?".
Definition select_by_id : string :=
  "SELECT id, username, password_hash, email, phone, status,
		        COALESCE(last_login_at, '') as last_login_at, created_at, updated_at
		 FROM users WHERE id = ?".
Definition update_last_login : string :=
  "UPDATE users SET last_login_at = NOW() WHERE id = ?".

Section repo.
Context `{Env} `{Codec}.

(** The nine columns of a user. *)
Definition scan_user (row : list sqlval) : string + User :=
  match row with
  | [id; username; hash; email; phone; status; last_login; created; updated] =>
      Rwdb.sbind (Rwdb.scan_uint id) (λ id, Rwdb.sbind (Rwdb.scan_str username) (λ username,
      Rwdb.sbind (Rwdb.scan_str hash) (λ hash, Rwdb.sbind (Rwdb.scan_str email) (λ email,
      Rwdb.sbind (Rwdb.scan_str phone) (λ phone, Rwdb.sbind (Rwdb.scan_int status) (λ status,
      Rwdb.sbind (Rwdb.scan_nullstr last_login) (λ last_login,
      Rwdb.sbind (Rwdb.scan_str created) (λ created, Rwdb.sbind (Rwdb.scan_str updated) (λ updated,
      inr (mkUser id username hash email phone status last_login created updated))))))))))
  | _ => inl "sql: wrong number of destination arguments in Scan"
  end.

Definition InsertUser (user : User) : M (error + Z) :=
  r ← Rwdb.ExecContext Rwdb.MySQL insert_user
        [SStr (u_Username user); SStr (u_PasswordHash user); SStr (u_Email user); SStr (u_Phone user); SInt (u_Status user)];
  mret (match r with
    | inl e => inl (Errorf ("insert user: " +:+ err_text e))
    | inr (inl e) => inl (Errorf ("get last insert id: " +:+ e))
    | inr (inr id) => inr (wrapu64 id)
    end).

(** The body the three lookups share; no row is no user and no error. *)
Definition get_user (query what : string) (arg : sqlval) : M (error + option User) :=
  row ← Rwdb.QueryRowContext Rwdb.MySQL query [arg];
  match row with
  | None => Rwdb.nil_deref
  | Some RowNone => mret (inr None)
  | Some (RowErr e) => mret (inl (Errorf ("query user by " +:+ what +:+ ": " +:+ e)))
  | Some (RowOk l) =>
      match scan_user l with
      | inl e => mret (inl (Errorf ("query user by " +:+ what +:+ ": " +:+ e)))
      | inr u => mret (inr (Some u))
      end
  end.

Definition GetByUsername (username : string) : M (error + option User) := get_user select_by_username "username" (SStr username).
Definition GetByEmail (email : string) : M (error + option User) := get_user select_by_email "email" (SStr email).
Definition GetByID (userID : Z) : M (error + option User) := get_user select_by_id "id" (SInt userID).

Definition UpdateLastLoginAt (userID : Z) : M (option error) :=
  r ← Rwdb.ExecContext Rwdb.MySQL update_last_login [SInt userID];
  mret (match r with inl e => Some e | inr _ => None end).

Lemma get_user_run query what arg s rw c rw' :
  s_mysql s = Some rw → Rwdb.replica rw = (Some c, rw') →
  get_user query what arg s =
    (Val (match (sql_query_row c query [arg] (s_w s)).1 with
      | RowNone => inr None
      | RowErr e => inl (Errorf ("query user by " +:+ what +:+ ": " +:+ e))
      | RowOk l =>
          match scan_user l with
          | inl e => inl (Errorf ("query user by " +:+ what +:+ ": " +:+ e))
          | inr u => inr (Some u)
          end
      end), s <| s_mysql := Some rw' |> <| s_w := (sql_query_row c query [arg] (s_w s)).2 |>).
Proof.
  intros Hdb Hr. unfold get_user.
  rewrite bind_run, (Rwdb.query_row_run Rwdb.MySQL _ _ s rw c rw') by done.
  destruct (sql_query_row _ _ _ _) as [[l| |e] w]; [|done..]. cbn [fst]. by destruct (scan_user l).
Qed.

End repo.
End Repo.

Module Auth.

Definition ErrUserExists : error := Sentinel "username already exists".
Definition ErrEmailExists : error := Sentinel "email already exists".
Definition ErrInvalidLogin : error := Sentinel "invalid username or password".
Definition ErrUserDisabled : error := Sentinel "user account is disabled".
Definition ErrUserNotFound : error := Sentinel "user not found".
Definition ErrInvalidToken : error := Sentinel "invalid or expired token".

Record AuthService := { jwtSecret : string; jwtExpire : Z }.

Definition NewAuthService (secret : string) (jwtExpireSeconds : Z) : AuthService :=
  {| jwtSecret := secret; jwtExpire := dur_of jwtExpireSeconds Second |}.

Section auth.
Context `{Env} `{Codec}.
Context (svc : AuthService).

Definition Unix (t : Z) : Z := t / Second.

(** The token and its lifetime in seconds. *)
Definition generateToken (userID : Z) (username : string) : M (error + string * Z) :=
  now ← Now;
  let expiresAt := now + jwtExpire svc in
  mret (match jwt_sign (jwtSecret svc) userID username (Unix now) (Unix expiresAt) with
    | inl e => inl (Errorf ("sign token: " +:+ e))
    | inr token => inr (token, Z.quot (dur_milliseconds (jwtExpire svc)) 1000)
    end).

Definition token_response (token : string) (expiresIn userID : Z) (username : string) : TokenResponse :=
  mkToken token "Bearer" expiresIn userID username.

Definition Register (req : RegisterRequest) : M (error + TokenResponse) :=
  existing ← Repo.GetByUsername (rr_Username req);
  match existing with
  | inl e => mret (inl (Errorf ("check username: " +:+ err_text e)))
  | inr (Some _) => mret (inl ErrUserExists)
  | inr None =>
      emailUser ← (if bool_decide (rr_Email req = "") then mret (inr None) else Repo.GetByEmail (rr_Email req));
      match emailUser with
      | inl e => mret (inl (Errorf ("check email: " +:+ err_text e)))
      | inr (Some _) => mret (inl ErrEmailExists)
      | inr None =>
          hashed ← world (bcrypt_hash (rr_Password req));
          match hashed with
          | inl e => mret (inl (Errorf ("hash password: " +:+ e)))
          | inr hash =>
              id ← Repo.InsertUser (mkUser 0 (rr_Username req) hash (rr_Email req) (rr_Phone req) 1 None "" "");
              match id with
              | inl e =>
                  if contains "Duplicate" (err_text e) then mret (inl ErrUserExists)
                  else mret (inl (Errorf ("insert user: " +:+ err_text e)))
              | inr userID =>
                  token ← generateToken userID (rr_Username req);
                  mret (match token with
                    | inl e => inl e
                    | inr (t, expiresIn) => inr (token_response t expiresIn userID (rr_Username req))
                    end)
              end
          end
      end
  end.

Definition Login (req : LoginRequest) : M (error + TokenResponse) :=
  user ← Repo.GetByUsername (lr_Username req);
  match user with
  | inl e => mret (inl (Errorf ("query user: " +:+ err_text e)))
  | inr None => mret (inl ErrInvalidLogin)
  | inr (Some u) =>
      if negb (u_Status u =? 1) then mret (inl ErrUserDisabled)
      else if negb (bcrypt_compare (u_PasswordHash u) (lr_Password req)) then mret (inl ErrInvalidLogin)
      else
        token ← generateToken (u_ID u) (u_Username u);
        match token with
        | inl e => mret (inl e)
        | inr (t, expiresIn) =>
            _ ← go (TUpdateLastLogin (u_ID u));
            mret (inr (token_response t expiresIn (u_ID u) (u_Username u)))
        end
  end.

(** Its goroutine. *)
Definition updateLastLoginTask (userID : Z) : M unit := _ ← Repo.UpdateLastLoginAt userID; mret tt.

Definition GetUserInfo (userID : Z) : M (error + User) :=
  user ← Repo.GetByID userID;
  mret (match user with
    | inl e => inl (Errorf ("query user: " +:+ err_text e))
    | inr None => inl ErrUserNotFound
    | inr (Some u) =>
        inr (mkUser (u_ID u) (u_Username u) "" (u_Email u) (u_Phone u) (u_Status u) (u_LastLoginAt u)
          (u_CreatedAt u) (u_UpdatedAt u))
    end).

(** [uint64(f)]; outside its range the result is the implementation's. *)
Definition f64_to_uint64 (f : float64) : Z :=
  match f64_trunc f with
  | Some z => if (0 <=? z) && (z <? 2 ^ 64) then z else f64_uint64_out f
  | None => f64_uint64_out f
  end.

(** [jwt.Parse] with a key function that insists on HMAC, and its check of
    the expiry, are one operation of the world. *)
Definition ParseToken (tokenString : string) : M (error + Z * string) :=
  now ← Now;
  mret (match jwt_parse (jwtSecret svc) tokenString now with
    | None => inl ErrInvalidToken
    | Some claims =>
        match jc_user_id claims with
        | None => inl ErrInvalidToken
        | Some f => inr (f64_to_uint64 f, match jc_username claims with Some name => name | None => EmptyString end)
        end
    end).

End auth.

(** A token verifies under its own secret until it expires, and no longer;
    numeric claims come back as float64. *)
Class JwtLaws `{Env} := {
  jwt_verify secret uid name iat exp token now :
    0 <= uid < 2 ^ 64 → jwt_sign secret uid name iat exp = inr token → now < exp * Second →
    jwt_parse secret token now = Some (mkClaims (Some (f64_of_Z uid)) (Some name));
  jwt_expired secret uid name iat exp token now :
    0 <= uid < 2 ^ 64 → jwt_sign secret uid name iat exp = inr token → exp * Second <= now →
    jwt_parse secret token now = None
}.

#[global] Instance demo_jwt_laws : JwtLaws.
Proof.
  split; intros secret uid name iat exp token now Hu; cbn [jwt_sign jwt_parse demo_env];
    intros [= <-] Hn; rewrite unbits_bits; cbn [mbind option_bind]; rewrite decode_encode; cbn.
  - destruct (Z.ltb_spec now (exp * Second)); [|lia]. by rewrite bool_decide_true.
  - destruct (Z.ltb_spec now (exp * Second)); [lia|]. by rewrite andb_false_r.
Qed.

(** ** Properties *)

Lemma uint64_of_float `{Env} n : 0 <= n <= 2 ^ 53 → f64_to_uint64 (f64_of_Z n) = n.
Proof.
  intros Hn. destruct (f64_of_Z_exact n) as [F V]; [lia|]. pose proof f64_unit_pos.
  unfold f64_to_uint64. rewrite f64_trunc_floor by (done || nia). rewrite V, Z.div_mul by lia.
  destruct (Z.leb_spec 0 n), (Z.ltb_spec n (2 ^ 64)); done || lia.
Qed.

(** An instant cut to whole seconds. *)
Lemma Unix_bounds t : t - Second < Unix t * Second <= t.
Proof. unfold Unix, Second. pose proof (Z.div_mod t 1000000000). pose proof (Z.mod_pos_bound t 1000000000). lia. Qed.

Lemma generateToken_run `{Env} svc uid name s :
  generateToken svc uid name s =
    (Val (match jwt_sign (jwtSecret svc) uid name (Unix (clk_now (s_w s)).1)
                  (Unix ((clk_now (s_w s)).1 + jwtExpire svc)) with
          | inl e => inl (Errorf ("sign token: " +:+ e))
          | inr token => inr (token, Z.quot (dur_milliseconds (jwtExpire svc)) 1000)
          end), s <| s_w := (clk_now (s_w s)).2 |>).
Proof. unfold generateToken, Now. by rewrite bind_run, world_run. Qed.

Lemma ParseToken_run `{Env} svc token t :
  ParseToken svc token t =
    (Val (match jwt_parse (jwtSecret svc) token (clk_now (s_w t)).1 with
          | None => inl ErrInvalidToken
          | Some claims =>
              match jc_user_id claims with
              | None => inl ErrInvalidToken
              | Some f => inr (f64_to_uint64 f, match jc_username claims with Some name => name | None => EmptyString end)
              end
          end), t <| s_w := (clk_now (s_w t)).2 |>).
Proof. unfold ParseToken, Now. by rewrite bind_run, world_run. Qed.

(** C20: Tokens: a token the service issued is accepted until its expiry,
    which is the time of issue plus the configured lifetime cut to whole
    seconds, and is refused from then on; it names the user it was issued
    for, exactly for identifiers up to [2^53], while the user [2^53+1] is
    taken for the user [2^53]. *)
Theorem token_roundtrip `{EN : Env} `{JW : !JwtLaws} svc uid name s token secs s' :
  0 <= uid < 2 ^ 64 → generateToken svc uid name s = (Val (inr (token, secs)), s') →
  let expiry := (clk_now (s_w s)).1 + jwtExpire svc in
  ∃ exp, expiry - Second < exp <= expiry ∧
  (∀ t, (clk_now (s_w t)).1 < exp →
     (ParseToken svc token t).1 = Val (inr (f64_to_uint64 (f64_of_Z uid), name))) ∧
  (∀ t, exp <= (clk_now (s_w t)).1 → (ParseToken svc token t).1 = Val (inl ErrInvalidToken)) ∧
  (uid <= 2 ^ 53 → f64_to_uint64 (f64_of_Z uid) = uid) ∧
  f64_to_uint64 (f64_of_Z (2 ^ 53 + 1)) = 2 ^ 53.
Proof.
  intros Hu Hg expiry. rewrite generateToken_run in Hg. fold expiry in Hg.
  destruct (jwt_sign _ _ _ _ _) as [e|tok] eqn:Es; [done|]. injection Hg as -> _ _.
  exists (Unix expiry * Second). split; [|split; [|split; [|split]]].
  - apply Unix_bounds.
  - intros t Ht. rewrite ParseToken_run. by rewrite (jwt_verify _ _ _ _ _ _ _ Hu Es Ht).
  - intros t Ht. rewrite ParseToken_run. by rewrite (jwt_expired _ _ _ _ _ _ _ Hu Es Ht).
  - intros. apply uint64_of_float. lia.
  - assert (E : f64_of_Z (2 ^ 53 + 1) = f64_of_Z (2 ^ 53)) by (vm_compute; reflexivity).
    rewrite E. by apply uint64_of_float.
Qed.

Definition demo_svc : AuthService := NewAuthService "secret" 3600.

Definition demo_token : string :=
  match jwt_sign "secret" 7 "alice" 0 3600 with inr token => token | inl _ => EmptyString end.

Lemma token_roundtrip_witness : (ParseToken demo_svc demo_token demo_sys).1 = Val (inr (7, "alice")).
Proof.
  assert (E : generateToken demo_svc 7 "alice" demo_sys =
    (Val (inr (demo_token, 3600)), (generateToken demo_svc 7 "alice" demo_sys).2)).
  { rewrite (surjective_pairing (generateToken demo_svc 7 "alice" demo_sys)) at 1.
    f_equal; vm_compute; reflexivity. }
  pose proof (token_roundtrip demo_svc 7 "alice" demo_sys demo_token 3600 _ ltac:(lia) E)
    as (exp & Hexp & Hok & _ & Hid & _).
  rewrite Hok; [rewrite Hid by lia; reflexivity|].
  assert (H0 : (clk_now (s_w demo_sys)).1 = 0) by reflexivity. rewrite H0 in *.
  assert (H1 : jwtExpire demo_svc = 3600 * Second) by reflexivity. rewrite H1 in Hexp. unfold Second in Hexp. lia.
Defined.

(** C19: Login: a token is issued only when the query for the name found a
    user whose status is normal and whose stored hash matches the password,
    and it is issued for that user; an unknown name and a wrong password get
    the same answer; the time of the login is recorded by a goroutine of its
    own, only after a success. *)
Theorem login_authenticates `{EN : Env} `{CO : Codec} svc req rw c rw' s :
  s_mysql s = Some rw → Rwdb.replica rw = (Some c, rw') →
  let '(row, w) := sql_query_row c Repo.select_by_username [SStr (lr_Username req)] (s_w s) in
  let s1 := s <| s_mysql := Some rw' |> <| s_w := w |> in
  match row with
  | RowNone => Login svc req s = (Val (inl ErrInvalidLogin), s1)
  | RowErr _ => ∃ e, Login svc req s = (Val (inl (Errorf e)), s1)
  | RowOk l =>
      match Repo.scan_user l with
      | inl _ => ∃ e, Login svc req s = (Val (inl (Errorf e)), s1)
      | inr u =>
          if u_Status u =? 1 then
            if bcrypt_compare (u_PasswordHash u) (lr_Password req) then
              match (generateToken svc (u_ID u) (u_Username u) s1).1 with
              | Val (inr (token, secs)) => ∃ s2,
                  Login svc req s = (Val (inr (mkToken token "Bearer" secs (u_ID u) (u_Username u))), s2) ∧
                  s_tasks s2 = (s_tasks s ++ [TUpdateLastLogin (u_ID u)])%list
              | _ => ∃ e s2, Login svc req s = (Val (inl e), s2) ∧ s_tasks s2 = s_tasks s
              end
            else Login svc req s = (Val (inl ErrInvalidLogin), s1)
          else Login svc req s = (Val (inl ErrUserDisabled), s1)
      end
  end.
Proof.
  intros Hdb Hr.
  pose proof (Repo.get_user_run Repo.select_by_username "username" (SStr (lr_Username req)) s rw c rw' Hdb Hr) as Hq.
  destruct (sql_query_row c Repo.select_by_username [SStr (lr_Username req)] (s_w s)) as [row w].
  cbn [fst snd] in Hq. cbv zeta. set (s1 := s <| s_mysql := _ |> <| s_w := w |>) in *.
  unfold Login, Repo.GetByUsername. rewrite bind_run, Hq.
  destruct row as [l| |e]; [|done|by eexists].
  destruct (Repo.scan_user l) as [e|u]; [by eexists|].
  destruct (u_Status u =? 1); cbn [negb]; [|done]. destruct (bcrypt_compare _ _); cbn [negb]; [|done].
  rewrite bind_run, generateToken_run. destruct (jwt_sign _ _ _ _ _) as [e|token]; cbn [fst];
    [by eexists _, _|]. by eexists.
Qed.

Definition demo_user_row : list sqlval :=
  [SInt 7; SStr "alice"; SStr "hash:pw"; SStr ""; SStr ""; SInt 1; SStr ""; SStr ""; SStr ""].

Definition demo_users : Sys := demo_with (demo_w <| dw_rows := {[ "alice" := demo_user_row ]} |>).

Lemma login_authenticates_witness :
  ∃ token secs s2, Login demo_svc (mkLogin "alice" "pw") demo_users =
    (Val (inr (mkToken token "Bearer" secs 7 "alice")), s2).
Proof.
  pose proof (login_authenticates demo_svc (mkLogin "alice" "pw") demo_rwdb 2%nat (demo_rwdb <| nextIdx := 1 |>)
    demo_users eq_refl eq_refl) as H.
  cbv zeta in H.
  assert (E : sql_query_row (2%nat : conn) Repo.select_by_username [SStr (lr_Username (mkLogin "alice" "pw"))] (s_w demo_users) =
    (RowOk demo_user_row, s_w demo_users)) by reflexivity.
  rewrite E in H. destruct H as (s2 & H & _). eexists _, _, s2. exact H.
Defined.

End Auth.
