(* ===== verification/Profile.v ===== *)
(** * User profiles ([internal/service/user_profile_service.go])

    Reading a profile through the cache with a fallback to MongoDB, writing
    one with invalidation and indexing, and searching. *)

From S2P Require Export Loader Es.

Module Profile.

Definition profileESMaxConcurrency : Z := 50.

Record UserProfileService `{Env} := NewUserProfileService {
  us_loader : option Cache.DataLoader;          (* of the cache *)
  us_mongoRepo : option Mongo.UserProfileRepo;
  us_search : option Es.SearchClient
}.

Definition profile_key (userID : Z) : string := "user:profile:" +:+ show_N userID.

Section profile.
Context `{Env} `{Codec}.
Context (us : UserProfileService).

Definition loadFromMongo (userID : Z) (cacheKey : string) : M (option UserProfile * option error) :=
  match us_mongoRepo us with
  | None => mret (None, Some (Errorf "mongodb not available"))
  | Some repo =>
      '(profile, err) ← Mongo.FindByUserID repo userID;
      match err with
      | Some e =>
          if bool_decide (e = Mongo.ErrNoDocuments) then
            _ ← Cache.SetNull cacheKey;
            mret (None, Some (Errorf ("user not found: " +:+ show_N userID)))
          else mret (None, Some (Errorf ("mongo query user profile: " +:+ err_text e)))
      | None =>
          match profile with
          | Some p => _ ← Cache.Set_ cacheKey (VProfile p); mret (Some p, None)
          | None => mret (None, None)
          end
      end
  end.

Definition GetProfile (userID : Z) : M (option UserProfile * option error) :=
  let cacheKey := profile_key userID in
  '(val, found, err) ← Cache.Get (us_loader us) cacheKey;
  match err with
  | Some e => mret (None, Some e)
  | None =>
      if found : bool then
        match val with
        | VNil => mret (None, Some (Errorf ("user not found: " +:+ show_N userID)))
        | VProfile p => mret (Some p, None)
        | VMap _ => mret (Some (Unmarshal dec_profile zero_Profile (Cache.jsonText val)).1, None)
        | _ => mret (None, Some (Errorf "invalid cache type for user profile"))
        end
      else loadFromMongo userID cacheKey
  end.

Definition indexProfileToES (profile : UserProfile) : M unit :=
  sem ← gets s_profileSem;
  if sem <? profileESMaxConcurrency then
    _ ← modify (λ s, s <| s_profileSem := sem + 1 |>); go (TIndexProfile profile)
  else mret tt.

(** Its goroutine. *)
Definition indexProfileTask (sc : Es.SearchClient) (profile : UserProfile) : M unit :=
  deferred (modify (λ s, s <| s_profileSem ::= (λ n, n - 1) |>)) (_ ← Es.IndexUserProfile sc profile; mret tt).

Definition UpsertProfile (profile : UserProfile) : M (option error) :=
  match us_mongoRepo us with
  | None => mret (Some (Errorf "mongodb not available"))
  | Some repo =>
      err ← Mongo.Upsert repo profile;
      match err with
      | Some e => mret (Some (Errorf ("mongo upsert: " +:+ err_text e)))
      | None =>
          _ ← Cache.InvalidateWithDelay (profile_key (p_UserID profile)) 500;
          _ ← match us_search us with Some _ => indexProfileToES profile | None => mret tt end;
          mret None
      end
  end.

Definition SearchUsers (keyword : string) (page size : Z) : M (Es.found UserProfile) :=
  match us_search us with
  | None => mret (inl (Errorf "elasticsearch not available"))
  | Some sc => Es.SearchUsers sc keyword page size
  end.

End profile.

(** The service as the process builds it. *)
Definition wired `{Env} `{Codec} (mongoDB : bool) (search : option Es.SearchClient) : UserProfileService :=
  let repo := Mongo.NewUserProfileRepo mongoDB in
  NewUserProfileService _ (Some (Loader.newDataLoader mongoDB repo)) (Some repo) search.

(** The state in which a lookup that misses both tiers asks the detector. *)
Definition after_misses `{Env} (k : string) (s : Sys) : Sys :=
  let w1 := (l1_get k (s_w s)).2 in
  s <| s_mc ::= Cache.total |> <| s_w := if mc_l2 (s_mc s) then (redis_get k w1).2 else w1 |>.

Lemma get_misses `{Env} `{Codec} loader k s :
  (l1_get k (s_w s)).1 = None →
  (mc_l2 (s_mc s) = true → ∀ v, (redis_get k (l1_get k (s_w s)).2).1 ≠ ROk v) →
  Cache.Get loader k s = Cache.fromL3 loader k (after_misses k s).
Proof.
  intros E1 E2. unfold Cache.Get. rewrite bind_run. unfold Cache.update at 1, modify at 1.
  rewrite bind_run, world_run. change (s_w (s <| s_mc ::= Cache.total |>)) with (s_w s). rewrite E1.
  rewrite bind_run. unfold Cache.mc at 1, gets at 1. cbv zeta beta.
  match goal with |- context[mc_l2 ?c] => change (mc_l2 c) with (mc_l2 (s_mc s)) end.
  unfold after_misses. destruct (mc_l2 (s_mc s)) eqn:El.
  - rewrite bind_run, world_run, s_w_set. specialize (E2 eq_refl).
    destruct (redis_get k _) as [[v| |e] w2]; cbn [fst snd] in *; [by destruct (E2 v)|done..].
  - by rewrite bind_run, ret_run.
Qed.

(** ** Properties *)

(** C39: Profiles are never read from MongoDB on a plain miss: as the process
    is wired, a lookup that misses both tiers and whose key is not hot
    answers that the user does not exist, whatever the collection holds, and
    leaves null markers behind: the loader's test for profile keys compares
    twelve characters with a text of thirteen, so the loader knows of no
    profile, and what the cache reports as known absent never reaches the
    service's own query. *)
Theorem profile_never_loaded `{EN : Env} `{CO : Codec} mongoDB search userID s s2 :
  let k := profile_key userID in
  (l1_get k (s_w s)).1 = None →
  (mc_l2 (s_mc s) = true → ∀ v, (redis_get k (l1_get k (s_w s)).2).1 ≠ ROk v) →
  mc_hotKeys (s_mc s) = true →
  Cache.recordAccess k (after_misses k s) = (Val false, s2) →
  ∃ s', GetProfile (wired mongoDB search) userID s =
    (Val (None, Some (Errorf ("user not found: " +:+ show_N userID))), s') ∧
    s_w s' = l1_set k (VStr Cache.NullMarker) 1 (nullTTL (s_mc s2))
      (if mc_l2 (s_mc s2) then (redis_set k Cache.NullMarker (nullTTL (s_mc s2)) (s_w s2)).2 else s_w s2).
Proof.
  intros k E1 E2 Eh Er. unfold GetProfile. fold k. rewrite bind_run, get_misses by done.
  unfold Cache.fromL3. rewrite bind_run. unfold Cache.mc at 1, gets at 1.
  change (mc_hotKeys (s_mc (after_misses k s))) with (mc_hotKeys (s_mc s)). rewrite Eh.
  rewrite bind_run, Er, bind_run. unfold Cache.update at 1, modify at 1.
  unfold Cache.loadFromDB. cbn [us_loader wired]. rewrite bind_run. unfold k at 1, profile_key.
  rewrite Loader.loader_profile. fold (profile_key userID). fold k.
  cbn [Cache.is_nil]. rewrite bind_run. unfold Cache.mc at 1, gets at 1.
  rewrite bind_run. change (s_mc (s2 <| s_mc ::= Cache.miss |>)) with (Cache.miss (s_mc s2)).
  change (mc_l2 (Cache.miss (s_mc s2))) with (mc_l2 (s_mc s2)).
  destruct (mc_l2 (s_mc s2)); cbn [when].
  - unfold Cache.l2Set at 1. rewrite bind_run, world_run. eexists. split; reflexivity.
  - rewrite ret_run. eexists. split; reflexivity.
Qed.

Definition demo_profile : UserProfile := zero_Profile <| p_UserID := 7 |> <| p_Nickname := "alice" |>.

(** The profile is in the collection. *)
Definition demo_stored : Sys := demo_with (demo_w <| dw_mongo := {[ 7 := demo_profile ]} |>).

Lemma profile_never_loaded_witness :
  ∃ s', GetProfile (wired true None) 7 demo_stored = (Val (None, Some (Errorf "user not found: 7")), s').
Proof.
  assert (E1 : (l1_get (profile_key 7) (s_w demo_stored)).1 = None) by reflexivity.
  assert (E2 : mc_l2 (s_mc demo_stored) = true → ∀ v,
    (redis_get (profile_key 7) (l1_get (profile_key 7) (s_w demo_stored)).2).1 ≠ ROk v).
  { intros _ v. assert (Er : (redis_get (profile_key 7) (l1_get (profile_key 7) (s_w demo_stored)).2).1 = RNil)
      by reflexivity. rewrite Er. discriminate. }
  assert (Er : Cache.recordAccess (profile_key 7) (after_misses (profile_key 7) demo_stored) =
    (Val false, (Cache.recordAccess (profile_key 7) (after_misses (profile_key 7) demo_stored)).2)).
  { rewrite (surjective_pairing (Cache.recordAccess _ _)) at 1. f_equal; vm_compute; reflexivity. }
  pose proof (profile_never_loaded true None 7 demo_stored _ E1 E2 eq_refl Er) as (s' & H & _).
  exists s'. exact H.
Defined.

End Profile.
