(* ===== verification/Analytics.v ===== *)
(** * Analytics ([internal/database/postgres.go],
    [internal/service/analytics_service.go])

    The repository of reports and behaviour logs over PostgreSQL, and the
    service that buffers log entries in a channel and writes them in batches
    from a goroutine. *)

From S2P Require Export Rwdb.

Module PgRepo.

Record DailyOrderStats := mkDaily {
  StatDate : Z; TotalOrders : Z; TotalAmount : float64; AvgAmount : float64; PaidOrders : Z; Cancelled : Z
}.

(** The row of the log table; the program only writes it. *)
Record BehaviorLog := mkLog { bl_ID : Z; bl_UserID : Z; bl_EventType : string; bl_EventData : string; bl_CreatedAt : Z }.

Definition select_daily : string :=
  "SELECT stat_date, total_orders, total_amount, avg_amount, paid_orders, cancelled
	           FROM orders_daily_stats
	           WHERE stat_date >= $1 AND stat_date <= $2
	           ORDER BY stat_date DESC".
Definition select_behavior : string :=
  "SELECT event_type, COUNT(*) as cnt
	           FROM user_behavior_log
	           WHERE created_at >= $1 AND created_at <= $2".
Definition and_event_type : string := " AND event_type = $3".
Definition group_by_type : string := " GROUP BY event_type ORDER BY cnt DESC".
Definition insert_log : string :=
  "INSERT INTO user_behavior_log (user_id, event_type, event_data, created_at)
		 VALUES ($1, $2, $3::jsonb, NOW())".
Definition insert_logs : string :=
  "INSERT INTO user_behavior_log (user_id, event_type, event_data, created_at) VALUES ".

(** [joinStrings] *)
Fixpoint join_from (result sep : string) (strs : list string) : string :=
  match strs with [] => result | s :: strs => join_from (result +:+ sep +:+ s) sep strs end.
Definition joinStrings (strs : list string) (sep : string) : string :=
  match strs with [] => EmptyString | s :: strs => join_from s sep strs end.

Definition placeholder (i : Z) : string :=
  "($" +:+ show_Z i +:+ ",$" +:+ show_Z (i + 1) +:+ ",$" +:+ show_Z (i + 2) +:+ "::jsonb,NOW())".

(** The loop over the entries: placeholders and arguments. *)
Fixpoint batch_values (entries : list BehaviorEntry) (placeholderIdx : Z) : list string * list sqlval :=
  match entries with
  | [] => ([], [])
  | e :: entries =>
      let '(values, args) := batch_values entries (placeholderIdx + 3) in
      (placeholder placeholderIdx :: values, SInt (be_UserID e) :: SStr (be_EventType e) :: SStr (be_EventData e) :: args)
  end.

Section repo.
Context `{Env} `{Codec}.

Definition scan_daily (row : list sqlval) : string + DailyOrderStats :=
  match row with
  | [d; n; total; avg; paid; cancelled] =>
      Rwdb.sbind (Rwdb.scan_time d) (λ d, Rwdb.sbind (Rwdb.scan_int n) (λ n,
      Rwdb.sbind (Rwdb.scan_float total) (λ total, Rwdb.sbind (Rwdb.scan_float avg) (λ avg,
      Rwdb.sbind (Rwdb.scan_int paid) (λ paid, Rwdb.sbind (Rwdb.scan_int cancelled) (λ cancelled,
      inr (mkDaily d n total avg paid cancelled)))))))
  | _ => inl "sql: wrong number of destination arguments in Scan"
  end.

Definition scan_count (row : list sqlval) : string + string * Z :=
  match row with
  | [etype; cnt] => Rwdb.sbind (Rwdb.scan_str etype) (λ etype, Rwdb.sbind (Rwdb.scan_int cnt) (λ cnt, inr (etype, cnt)))
  | _ => inl "sql: wrong number of destination arguments in Scan"
  end.

(** The loop over the rows, ended by the first that does not scan. *)
Fixpoint scan_rows {A} (scan : list sqlval → string + A) (rows : list (list sqlval)) : string + list A :=
  match rows with
  | [] => inr []
  | row :: rows => Rwdb.sbind (scan row) (λ a, Rwdb.sbind (scan_rows scan rows) (λ l, inr (a :: l)))
  end.

(** [rows.Err()] comes last, together with what was read. *)
Definition rows_result {A} (what : string) (scanned : string + A) (err : option string) : error + A * option error :=
  match scanned with
  | inl e => inl (Errorf ("scan " +:+ what +:+ ": " +:+ e))
  | inr a => inr (a, Errorf <$> err)
  end.

Definition GetDailyStats (from to : Z) : M (error + list DailyOrderStats * option error) :=
  down ← Rwdb.unavailable Rwdb.Postgres;
  if down : bool then mret (inl (Errorf "postgres not available"))
  else
    r ← Rwdb.QueryContext Rwdb.Postgres select_daily [SStr (date_utc from); SStr (date_utc to)];
    match r with
    | inl e => mret (inl (Errorf ("query daily stats: " +:+ err_text e)))
    | inr (rows, err) => mret (rows_result "daily stats" (scan_rows scan_daily rows) err)
    end.

Definition GetBehaviorSummary (eventType : string) (from to : Z) : M (error + gmap string Z * option error) :=
  down ← Rwdb.unavailable Rwdb.Postgres;
  if down : bool then mret (inl (Errorf "postgres not available"))
  else
    let filtered := negb (bool_decide (eventType = "")) in
    let query := select_behavior +:+ (if filtered then and_event_type else EmptyString) +:+ group_by_type in
    let args := ([STime from; STime to] ++ if filtered then [SStr eventType] else [])%list in
    r ← Rwdb.QueryContext Rwdb.Postgres query args;
    match r with
    | inl e => mret (inl (Errorf ("query behavior summary: " +:+ err_text e)))
    | inr (rows, err) =>
        mret (rows_result "behavior summary"
          (Rwdb.sbind (scan_rows scan_count rows) (λ l, inr (fold_left (λ m '(k, n), <[k := n]> m) l ∅))) err)
    end.

Definition LogBehavior (userID : Z) (eventType eventData : string) : M (option error) :=
  down ← Rwdb.unavailable Rwdb.Postgres;
  if down : bool then mret None
  else
    r ← Rwdb.ExecContext Rwdb.Postgres insert_log [SInt userID; SStr eventType; SStr eventData];
    mret (match r with inl e => Some e | inr _ => None end).

Definition LogBehaviorBatch (entries : list BehaviorEntry) : M (option error) :=
  down ← Rwdb.unavailable Rwdb.Postgres;
  if down || bool_decide (entries = []) then mret None
  else
    let '(values, args) := batch_values entries 1 in
    r ← Rwdb.ExecContext Rwdb.Postgres (insert_logs +:+ joinStrings values ",") args;
    mret (match r with inl e => Some e | inr _ => None end).

End repo.
End PgRepo.

Module Analytics.

Definition bufChannelSize : Z := 10000.
Definition batchSize : Z := 200.
Definition flushInterval : Z := 200 * Millisecond.

Section service.
Context `{Env} `{Codec}.

Definition GetDailyStats (from to : Z) : M (error + list PgRepo.DailyOrderStats * option error) :=
  PgRepo.GetDailyStats from to.

(** The last seven days. *)
Definition GetBehaviorSummary (eventType : string) : M (error + gmap string Z * option error) :=
  now ← Now; PgRepo.GetBehaviorSummary eventType (add_days now (-7)) now.

(** A send that does not block: whether there was room. *)
Definition try_send (e : BehaviorEntry) : M bool :=
  buf ← gets s_buf;
  if Z.of_nat (Datatypes.length buf) <? bufChannelSize then
    _ ← modify (λ s, s <| s_buf := (buf ++ [e])%list |>); mret true
  else mret false.

Definition signalFlush : M unit := modify (λ s, s <| s_flush := true |>).

Definition order_entry (userID : Z) (orderNo : string) : BehaviorEntry :=
  mkEntry userID "order_create" (json_text (JObj [("order_no", JStr orderNo)])).

(** Without room: one signal and one more attempt, then the entry is dropped. *)
Definition LogOrderCreated (userID : Z) (orderNo : string) : M unit :=
  let entry := order_entry userID orderNo in
  ok ← try_send entry;
  if ok : bool then mret tt else _ ← signalFlush; _ ← try_send entry; mret tt.

(** The writer's [flush]: the batch goes to a goroutine; the new batch. *)
Definition flush (batch : list BehaviorEntry) : M (list BehaviorEntry) :=
  match batch with [] => mret [] | _ => _ ← go (TLogBatch batch); mret [] end.

(** Take an entry into the batch. *)
Definition take (e : BehaviorEntry) (batch : list BehaviorEntry) : M (list BehaviorEntry) :=
  let batch := (batch ++ [e])%list in
  if batchSize <=? Z.of_nat (Datatypes.length batch) then flush batch else mret batch.

(** The entries waiting when it starts; later ones wait for the next round. *)
Fixpoint drain (waiting batch : list BehaviorEntry) : M (list BehaviorEntry) :=
  match waiting with
  | [] => flush batch
  | e :: waiting =>
      _ ← modify (λ s, s <| s_buf := waiting |>);
      batch ← take e batch; drain waiting batch
  end.

Definition drainAndFlush (batch : list BehaviorEntry) : M (list BehaviorEntry) :=
  waiting ← gets s_buf; drain waiting batch.

(** One round of [batchWriter], by the case its [select] takes; [None]: the
    case is not ready.  The flag tells whether the writer goes on. *)
Inductive event := EvClose | EvFlush | EvEntry | EvTick.

Definition batchWriter (ev : event) (batch : list BehaviorEntry) : M (option (bool * list BehaviorEntry)) :=
  match ev with
  | EvClose => batch ← drainAndFlush batch; mret (Some (false, batch))
  | EvFlush =>
      signalled ← gets s_flush;
      if signalled : bool then
        _ ← modify (λ s, s <| s_flush := false |>);
        batch ← drainAndFlush batch; mret (Some (true, batch))
      else mret None
  | EvEntry =>
      buf ← gets s_buf;
      match buf with
      | e :: buf =>
          _ ← modify (λ s, s <| s_buf := buf |>);
          batch ← take e batch; mret (Some (true, batch))
      | [] => mret None
      end
  | EvTick => batch ← flush batch; mret (Some (true, batch))
  end.

(** The goroutine of a batch. *)
Definition logBatchTask (entries : list BehaviorEntry) : M unit := _ ← PgRepo.LogBehaviorBatch entries; mret tt.

End service.

(** ** Interleavings

    Attempts to log, signals and rounds of the writer in any order; [accepted]
    collects, for the statement, the entries that found room. *)

Section interleaving.
Context `{Env}.

Inductive action := ATry (e : BehaviorEntry) | ASignal | AWriter (ev : event).

Record log_state := mkSt { st_sys : Sys; st_batch : list BehaviorEntry; st_running : bool; st_accepted : list BehaviorEntry }.

Definition act (a : action) (st : log_state) : log_state :=
  let '(mkSt s batch running accepted) := st in
  match a with
  | ATry e =>
      match try_send e s with
      | (Val true, s) => mkSt s batch running (accepted ++ [e])%list
      | (_, s) => mkSt s batch running accepted
      end
  | ASignal => mkSt (signalFlush s).2 batch running accepted
  | AWriter ev =>
      if running then
        match batchWriter ev batch s with
        | (Val (Some (continue, batch)), s) => mkSt s batch continue accepted
        | (_, s) => mkSt s batch running accepted
        end
      else st
  end.

(** Entries handed to the database, in order. *)
Definition task_entries (t : task) : list BehaviorEntry := match t with TLogBatch l => l | _ => [] end.
Definition logged (s : Sys) : list BehaviorEntry := List.concat (map task_entries (s_tasks s)).

Definition batch_ok (t : task) : Prop :=
  match t with TLogBatch l => 0 < Z.of_nat (Datatypes.length l) <= batchSize | _ => True end.
Definition batches_ok (s : Sys) : Prop := Forall batch_ok (s_tasks s).

Abbreviation size l := (Z.of_nat (Datatypes.length l)).

(** What a step of the writer does to the entries of its batch. *)
Definition moves (s s' : Sys) (b b' : list BehaviorEntry) (new : list BehaviorEntry) : Prop :=
  (logged s' ++ b' = logged s ++ b ++ new)%list ∧ size b' < batchSize ∧ (batches_ok s → batches_ok s').

Lemma logged_go s l :
  logged (s <| s_tasks ::= (λ ts, (ts ++ [TLogBatch l])%list) |>) = (logged s ++ l)%list.
Proof. unfold logged. cbn. by rewrite map_app, List.concat_app; cbn; rewrite app_nil_r. Qed.

Lemma flush_run b s :
  size b <= batchSize → ∃ s', flush b s = (Val [], s') ∧ s_buf s' = s_buf s ∧ moves s s' b [] [].
Proof.
  intros Hb. unfold flush. destruct b as [|e b].
  - exists s. split; [done|]. split; [done|]. split; [by rewrite !app_nil_r|]. split; [done|auto].
  - eexists. split; [reflexivity|]. split; [done|]. unfold moves. split; [|split].
    + cbv beta. rewrite !app_nil_r. apply logged_go.
    + done.
    + unfold batches_ok. cbn [s_tasks set_field]. intros Hs. apply Forall_app. split; [done|].
      apply Forall_singleton. cbn in Hb |- *. lia.
Qed.

Lemma take_run e b s :
  size b < batchSize → ∃ b' s', take e b s = (Val b', s') ∧ s_buf s' = s_buf s ∧ moves s s' b b' [e].
Proof.
  intros Hb. unfold take. destruct (Z.leb_spec batchSize (size (b ++ [e])%list)) as [Hl|Hl].
  - rewrite length_app in Hl. cbn in Hl. destruct (flush_run (b ++ [e])%list s) as (s' & E & Hbuf & Hm & H2 & H3).
    { rewrite length_app. cbn. unfold batchSize in *. lia. }
    exists [], s'. split; [done|]. split; [done|]. split; [|done]. by rewrite Hm, app_nil_r.
  - exists (b ++ [e])%list, s. split; [done|]. split; [done|]. split; [done|]. split; [done|auto].
Qed.

Lemma drain_run waiting b s :
  size b < batchSize → s_buf s = waiting →
  ∃ s', drain waiting b s = (Val [], s') ∧ s_buf s' = [] ∧ moves s s' b [] waiting.
Proof.
  revert b s. induction waiting as [|e waiting IH]; intros b s Hb Hw; cbn [drain].
  - destruct (flush_run b s) as (s' & E & Hbuf & Hm); [lia|]. exists s'. split; [done|].
    split; [congruence|]. done.
  - rewrite bind_run. cbn [modify]. unfold modify.
    set (s0 := s <| s_buf := waiting |>).
    destruct (take_run e b s0 Hb) as (b1 & s1 & E1 & Hb1 & Hm1 & Hs1 & Ho1).
    rewrite bind_run, E1. destruct (IH b1 s1 Hs1) as (s2 & E2 & Hb2 & Hm2 & Hs2 & Ho2); [done|].
    exists s2. split; [done|]. split; [done|]. split; [|split; [done|auto]].
    rewrite Hm2, app_assoc, Hm1. change (logged s0) with (logged s). by rewrite <-!app_assoc.
Qed.

(** Every entry that found room is with the database, in the batch or in the
    buffer, in order; once the writer has returned its batch is empty. *)
Definition log_ok (st : log_state) : Prop :=
  st_accepted st = (logged (st_sys st) ++ st_batch st ++ s_buf (st_sys st))%list ∧
  size (st_batch st) < batchSize ∧ size (s_buf (st_sys st)) <= bufChannelSize ∧
  batches_ok (st_sys st) ∧ (st_running st = false → st_batch st = []).

Lemma try_send_run e s :
  try_send e s =
    if size (s_buf s) <? bufChannelSize then (Val true, s <| s_buf := (s_buf s ++ [e])%list |>) else (Val false, s).
Proof. unfold try_send. rewrite bind_run. unfold gets. by destruct (_ <? _). Qed.

(** A round of the writer that moved entries out of the buffer. *)
Lemma log_ok_moves s s' b b' new rest acc go :
  log_ok (mkSt s b true acc) → s_buf s = (new ++ rest)%list → s_buf s' = rest →
  moves s s' b b' new → (go = false → b' = []) → log_ok (mkSt s' b' go acc).
Proof.
  unfold log_ok. cbn. intros (Ha & Hb & Hc & Ho & _) E1 E2 (Hm & Hs & Hbo) Hg.
  split; [|split; [done|split; [|split; [auto|done]]]].
  - rewrite Ha, E1, E2, (app_assoc (logged s')), Hm. by rewrite <-!app_assoc.
  - rewrite E1, length_app in Hc. rewrite E2. lia.
Qed.

Lemma writer_ok ev s b acc :
  log_ok (mkSt s b true acc) → log_ok (act (AWriter ev) (mkSt s b true acc)).
Proof.
  intros Hok. pose proof Hok as (_ & Hb & _). cbn in Hb. cbn [act].
  assert (Hdrain : ∀ t, s_buf t = s_buf s → logged t = logged s → (batches_ok s → batches_ok t) →
    ∃ s', drainAndFlush b t = (Val [], s') ∧ s_buf s' = [] ∧ moves s s' b [] (s_buf s)).
  { intros t E1 E2 E3. unfold drainAndFlush. rewrite bind_run. unfold gets.
    destruct (drain_run (s_buf t) b t Hb eq_refl) as (s' & E & Hbuf & Hm & Hs & Ho).
    exists s'. split; [done|]. split; [done|]. split; [by rewrite Hm, E1, E2|]. split; [done|auto]. }
  destruct ev; cbn [batchWriter].
  - destruct (Hdrain s eq_refl eq_refl (λ x, x)) as (s' & E & Hbuf & Hm). rewrite bind_run, E, ret_run.
    by eapply (log_ok_moves s s' b [] (s_buf s) []); rewrite ?app_nil_r.
  - rewrite bind_run. unfold gets at 1. destruct (s_flush s); [|done].
    rewrite bind_run. unfold modify at 1.
    set (t := s <| s_flush := false |>). destruct (Hdrain t eq_refl eq_refl (λ x, x)) as (s' & E & Hbuf & Hm).
    rewrite bind_run, E, ret_run. by eapply (log_ok_moves s s' b [] (s_buf s) []); rewrite ?app_nil_r.
  - rewrite bind_run. unfold gets at 1. destruct (s_buf s) as [|e buf] eqn:Ebuf; [done|].
    rewrite bind_run. unfold modify at 1.
    destruct (take_run e b (s <| s_buf := buf |>) Hb) as (b' & s' & E & Hbuf & Hm).
    rewrite bind_run, E, ret_run. by eapply (log_ok_moves s s' b b' [e] buf).
  - destruct (flush_run b s) as (s' & E & Hbuf & Hm); [lia|]. rewrite bind_run, E, ret_run.
    by eapply (log_ok_moves s s' b [] [] (s_buf s)).
Qed.

Lemma act_log_ok a st : log_ok st → log_ok (act a st).
Proof.
  destruct st as [s b running acc]. intros Hok. destruct a as [e| |ev].
  - cbn [act]. rewrite try_send_run. pose proof Hok as (Ha & Hb & Hc & Ho & Hr). cbn in *.
    destruct (Z.ltb_spec (size (s_buf s)) bufChannelSize); [|done].
    unfold log_ok. cbn. split; [|split; [done|split; [|split; [done|done]]]].
    + rewrite Ha. change (logged (s <| s_buf := _ |>)) with (logged s). by rewrite <-!app_assoc.
    + rewrite length_app. cbn. lia.
  - exact Hok.
  - destruct running; [by apply writer_ok|exact Hok].
Qed.

End interleaving.

(** ** Properties *)

(** C16: No entry that found room is lost, doubled or reordered: whatever
    attempts, signals and rounds of the writer follow each other, the
    entries accepted so far are those handed over in batches, then the
    writer's batch, then the buffer; a batch holds between one and 200
    entries and the buffer at most 10000.  An entry is refused exactly when
    the buffer is full.  Once the writer has returned on [Close] its batch is
    empty and it moves nothing any more: entries accepted from then on stay
    in the buffer for good. *)
Theorem batches_lossless `{EN : Env} (acts : list action) s :
  s_buf s = [] → logged s = [] → batches_ok s →
  let st := fold_left (λ st a, act a st) acts (mkSt s [] true []) in
  log_ok st ∧
  (∀ e, st_accepted (act (ATry e) st) =
     if Z.of_nat (Datatypes.length (s_buf (st_sys st))) <? bufChannelSize then (st_accepted st ++ [e])%list
     else st_accepted st) ∧
  (st_running st = false → ∀ a, let st' := act a st in
     logged (st_sys st') = logged (st_sys st) ∧ st_batch st' = [] ∧
     st_accepted st' = (logged (st_sys st) ++ s_buf (st_sys st'))%list).
Proof.
  intros Hbuf Hlog Hok st.
  assert (Hst : log_ok st).
  { assert (H0 : log_ok (mkSt s [] true [])).
    { unfold log_ok. cbn. rewrite Hbuf, Hlog. split; [done|]. split; [done|]. split; [done|]. by split. }
    unfold st. clear st. revert H0. generalize (mkSt s [] true []).
    induction acts as [|a acts IH]; intros st H0; [done|]. cbn. by apply IH, act_log_ok. }
  split; [done|]. split.
  - intros e. destruct st as [t b r acc]. cbn [act st_accepted st_sys]. rewrite try_send_run. by destruct (_ <? _).
  - intros Hr a st'. pose proof (act_log_ok a st Hst) as Hst'. fold st' in Hst'.
    destruct Hst as (_ & _ & _ & _ & Hb). specialize (Hb Hr). destruct Hst' as (Ha' & _).
    assert (Hk : logged (st_sys st') = logged (st_sys st) ∧ st_batch st' = []).
    { unfold st'. destruct st as [t b r acc]. cbn in Hr, Hb. subst b r. destruct a as [e| |ev]; [|done|done].
      cbn [act]. rewrite try_send_run. by destruct (_ <? _). }
    destruct Hk as [E1 E2]. split; [done|]. split; [done|]. by rewrite Ha', E1, E2.
Qed.

Lemma batches_lossless_witness :
  log_ok (fold_left (λ st a, act a st) [ATry (mkEntry 7 "order_create" "x"); AWriter EvEntry; AWriter EvTick; AWriter EvClose]
    (mkSt demo_sys [] true [])).
Proof.
  pose proof (batches_lossless [ATry (mkEntry 7 "order_create" "x"); AWriter EvEntry; AWriter EvTick; AWriter EvClose]
    demo_sys eq_refl eq_refl (Forall_nil_2 _)) as [H _]. exact H.
Defined.

(** ** The statement of a batch *)

Lemma join_from_eq result sep strs :
  PgRepo.join_from result sep strs = result +:+ (match strs with [] => "" | _ => sep +:+ join sep strs end).
Proof.
  revert result. induction strs as [|s strs IH]; intros result; cbn [PgRepo.join_from].
  - by rewrite append_nil_r.
  - rewrite IH, <-!append_assoc. destruct strs; cbn [join]; by rewrite ?append_nil_r, ?append_assoc.
Qed.

Lemma batch_values_spec entries i :
  Datatypes.length (PgRepo.batch_values entries i).1 = Datatypes.length entries ∧
  Datatypes.length (PgRepo.batch_values entries i).2 = (3 * Datatypes.length entries)%nat ∧
  ∀ j e, entries !! j = Some e →
    let p := i + 3 * Z.of_nat j in
    (PgRepo.batch_values entries i).1 !! j = Some (PgRepo.placeholder p) ∧
    (PgRepo.batch_values entries i).2 !! (3 * j)%nat = Some (SInt (be_UserID e)) ∧
    (PgRepo.batch_values entries i).2 !! (3 * j + 1)%nat = Some (SStr (be_EventType e)) ∧
    (PgRepo.batch_values entries i).2 !! (3 * j + 2)%nat = Some (SStr (be_EventData e)).
Proof.
  revert i. induction entries as [|e entries IH]; intros i; [done|]. cbn [PgRepo.batch_values].
  specialize (IH (i + 3)). destruct (PgRepo.batch_values entries (i + 3)) as [values args]. cbn [fst snd] in *.
  destruct IH as (H1 & H2 & H3). split; [cbn; lia|]. split; [cbn; lia|].
  intros [|j] e' Hj; cbn in Hj.
  - simplify_eq. replace (i + 3 * Z.of_nat 0) with i by lia. done.
  - destruct (H3 j e' Hj) as (P1 & P2 & P3 & P4).
    replace (i + 3 * Z.of_nat (S j)) with (i + 3 + 3 * Z.of_nat j) by lia.
    replace (3 * S j)%nat with (S (S (S (3 * j)))) by lia. done.
Qed.

(** The statement of a batch: it lists one tuple per entry, joined as
    the reference join does, the [j]-th tuple refers to the parameters
    [3j+1], [3j+2] and [3j+3], and these are exactly the user, type and data
    of the [j]-th entry; a batch of the writer needs at most 600 parameters,
    below PostgreSQL's limit of 65535. *)
Theorem batch_statement `{EN : Env} `{CO : Codec} rw c entries s :
  s_pg s = Some rw → master rw = Some c → entries ≠ [] →
  let '(values, args) := PgRepo.batch_values entries 1 in
  let '(r, w) := sql_exec c (PgRepo.insert_logs +:+ join "," values) args (s_w s) in
  PgRepo.LogBehaviorBatch entries s =
    (Val (match r with inl e => Some (Errorf e) | inr _ => None end), s <| s_w := w |>) ∧
  Datatypes.length values = Datatypes.length entries ∧
  (Z.of_nat (Datatypes.length entries) <= batchSize → Z.of_nat (Datatypes.length args) <= 600) ∧
  ∀ j e, entries !! j = Some e →
    values !! j = Some (PgRepo.placeholder (3 * Z.of_nat j + 1)) ∧
    args !! (3 * j)%nat = Some (SInt (be_UserID e)) ∧
    args !! (3 * j + 1)%nat = Some (SStr (be_EventType e)) ∧
    args !! (3 * j + 2)%nat = Some (SStr (be_EventData e)).
Proof.
  intros Hdb Hc Hne. pose proof (batch_values_spec entries 1) as (H1 & H2 & H3).
  destruct (PgRepo.batch_values entries 1) as [values args] eqn:Eb. cbn [fst snd] in *.
  destruct (sql_exec c _ args (s_w s)) as [r w] eqn:Ee.
  split; [|split; [done|split; [rewrite H2; unfold batchSize; lia|]]].
  - assert (Hj : PgRepo.joinStrings values "," = join "," values).
    { destruct values as [|v values]; [done|]. cbn [PgRepo.joinStrings]. rewrite join_from_eq.
      destruct values; [by rewrite append_nil_r|done]. }
    unfold PgRepo.LogBehaviorBatch. rewrite bind_run, Rwdb.unavailable_run. cbn [Rwdb.get_db].
    rewrite Hdb. unfold Rwdb.IsNil. rewrite Hc, (bool_decide_eq_false_2 (entries = [])) by done. cbn [orb].
    rewrite Eb, Hj, bind_run, (Rwdb.exec_run Rwdb.Postgres _ _ s rw c), Ee by done.
    by destruct r.
  - intros j e Hj. destruct (H3 j e Hj) as (P1 & P2 & P3 & P4).
    replace (3 * Z.of_nat j + 1) with (1 + 3 * Z.of_nat j) by lia. done.
Qed.

Lemma batch_statement_witness :
  ∃ s', PgRepo.LogBehaviorBatch [mkEntry 7 "order_create" "x"] demo_sys = (Val None, s').
Proof.
  assert (Hne : [mkEntry 7 "order_create" "x"] ≠ []) by discriminate.
  pose proof (batch_statement demo_rwdb 0%nat [mkEntry 7 "order_create" "x"] demo_sys eq_refl eq_refl Hne) as H.
  cbn [PgRepo.batch_values join] in H.
  destruct (sql_exec _ _ _ (s_w demo_sys)) as [r w] eqn:E.
  assert (Hr : r = inr (inr 1)).
  { assert (E' := f_equal fst E). cbn [fst] in E'. rewrite <-E'. reflexivity. }
  subst r. destruct H as [H _]. eexists. exact H.
Defined.

End Analytics.
