(* ===== verification/Schema.v ===== *)
(** * Schema files and the database manager ([internal/database/schema.go],
    [internal/database/manager.go])

    Splitting an SQL script into statements and running them on the master;
    reading the JSON description of the MongoDB collections and creating
    their indexes; connecting to MongoDB, readiness and closing. *)

From S2P Require Export Loader.

Module Schema.

Definition SQLDir : string := "sql".

Definition LF : ascii := ascii_of_nat 10.

(** The loop over the characters: what is pending, and whether a quote is
    open.  All the characters it looks for are ASCII, so that walking over
    bytes or over the runes of a UTF-8 text is the same. *)
Fixpoint split_go (s current : string) (inString : bool) : list string :=
  match s with
  | EmptyString =>
      let remaining := TrimSpace current in
      if bool_decide (remaining = "") then [] else [remaining]
  | String ch s =>
      let inString := if bool_decide (ch = "'"%char) then negb inString else inString in
      if bool_decide (ch = ";"%char) && negb inString then current :: split_go s EmptyString inString
      else split_go s (current +:+ String ch EmptyString) inString
  end.

Definition splitSQL (sql : string) : list string := split_go sql EmptyString false.

(** [strings.Index] of a character. *)
Fixpoint index_of (c : ascii) (s : string) : option nat :=
  match s with
  | EmptyString => None
  | String d s => if bool_decide (d = c) then Some O else S <$> index_of c s
  end.

Definition shortSQL (s : string) : string :=
  let s := TrimSpace s in
  let s := match index_of LF s with Some (S _ as i) => str_take i s | _ => s end in
  if 80 <? len s then str_take 80 s +:+ "..." else s.

Section schema.
Context `{Env}.
(** [os.ReadFile] *)
Context (readFile : string → string + string).

Fixpoint exec_statements (c : conn) (dbName : string) (i : Z) (statements : list string) : M (option error) :=
  match statements with
  | [] => mret None
  | stmt :: statements =>
      let trimmed := TrimSpace stmt in
      if bool_decide (trimmed = "") then exec_statements c dbName (i + 1) statements
      else
        r ← world (sql_exec c trimmed []);
        match r with
        | inl e => mret (Some (Errorf (dbName +:+ " statement #" +:+ show_Z (i + 1) +:+ ": " +:+ e +:+
            String LF ("  SQL: " +:+ shortSQL trimmed))))
        | inr _ => exec_statements c dbName (i + 1) statements
        end
  end.

Definition execSQLFile (c : conn) (dbName filePath : string) : M (option error) :=
  match readFile filePath with
  | inl e => mret (Some (Errorf ("read " +:+ filePath +:+ ": " +:+ e)))
  | inr data => exec_statements c dbName 0 (splitSQL data)
  end.

(** One pool, when it is there; its error is only logged. *)
Definition ensure_tables (d : Rwdb.db) (dbName filePath : string) : M unit :=
  o ← gets (Rwdb.get_db d);
  match o with
  | Some rw =>
      match Rwdb.Master rw with
      | Some c => _ ← execSQLFile c dbName filePath; mret tt
      | None => mret tt
      end
  | None => mret tt
  end.

Definition EnsureAllSQLTables : M unit :=
  _ ← ensure_tables Rwdb.MySQL "MySQL" (SQLDir +:+ "/mysql_init.sql");
  ensure_tables Rwdb.Postgres "PostgreSQL" (SQLDir +:+ "/postgresql_init.sql").

End schema.

(** ** The MongoDB collections

    Decoding answers only whether it succeeded: a partial value is not used.
    The keys of one object are taken to be distinct up to case, except in
    maps, where a later entry replaces an earlier one. *)

Record index_def := mkIndex { ix_Keys : gmap string Z; ix_Unique : bool; ix_Comment : string }.
Record collection_def := mkCollection { cd_Comment : string; cd_Indexes : list index_def }.
Record mongoInitSchema := mkSchema { ms_Collections : gmap string collection_def }.

#[export] Instance eta_index_def : Etable index_def := λ r, mkIndex (ix_Keys r) (ix_Unique r) (ix_Comment r).
#[export] Instance eta_collection_def : Etable collection_def := λ r, mkCollection (cd_Comment r) (cd_Indexes r).

(** An object into a map, and into a struct; [null] is the zero value. *)
Definition dec_map {A} (dec : json → option A) (j : json) : option (gmap string A) :=
  match j with
  | JNull => Some ∅
  | JObj l => fold_left (λ m '(k, j), m ← m; a ← dec j; Some (<[k := a]> m)) l (Some ∅)
  | _ => None
  end.

Definition dec_object {A} (field : string → json → A → option A) (zero : A) (j : json) : option A :=
  match j with
  | JNull => Some zero
  | JObj l => fold_left (λ a '(k, j), a ← a; field (toLower k) j a) l (Some zero)
  | _ => None
  end.

Definition dec_list {A} (dec : json → option A) (j : json) : option (list A) :=
  match j with JNull => Some [] | JArr l => mapM dec l | _ => None end.

Definition dec_dir (j : json) : option Z :=
  match j with JNull => Some 0 | JNum lit => parse_int lit | _ => None end.
Definition put_str {A} (j : json) (a : A) (put : string → A) : option A :=
  match j with JNull => Some a | JStr s => Some (put s) | _ => None end.
Definition put_bool {A} (j : json) (a : A) (put : bool → A) : option A :=
  match j with JNull => Some a | JBool b => Some (put b) | _ => None end.

Definition index_field (k : string) (j : json) (i : index_def) : option index_def :=
  if bool_decide (k = "keys") then m ← dec_map dec_dir j; Some (i <| ix_Keys := m |>)
  else if bool_decide (k = "unique") then put_bool j i (λ b, i <| ix_Unique := b |>)
  else if bool_decide (k = "comment") then put_str j i (λ s, i <| ix_Comment := s |>)
  else Some i.

Definition collection_field (k : string) (j : json) (c : collection_def) : option collection_def :=
  if bool_decide (k = "comment") then put_str j c (λ s, c <| cd_Comment := s |>)
  else if bool_decide (k = "indexes") then
    l ← dec_list (dec_object index_field (mkIndex ∅ false EmptyString)) j; Some (c <| cd_Indexes := l |>)
  else Some c.

Definition schema_field (k : string) (j : json) (s : mongoInitSchema) : option mongoInitSchema :=
  if bool_decide (k = "collections") then
    m ← dec_map (dec_object collection_field (mkCollection EmptyString [])) j; Some (mkSchema m)
  else Some s.

Definition dec_schema (j : json) : option mongoInitSchema := dec_object schema_field (mkSchema ∅) j.

(** [mongo.IndexModel]: the keys in order, and whether it is unique. *)
Record IndexModel := mkIndexModel { im_Keys : list (string * Z); im_Unique : bool }.

Section collections.
Context `{Env} `{Codec}.
Context (readFile : string → string + string) (createMany : string → list IndexModel → W → option string * W).

Fixpoint index_models (l : list index_def) : M (list IndexModel) :=
  match l with
  | [] => mret []
  | idx :: l =>
      keys ← range (ix_Keys idx);
      rest ← index_models l;
      mret (mkIndexModel keys (ix_Unique idx) :: rest)
  end.

Fixpoint ensure_collections (l : list (string * collection_def)) : M unit :=
  match l with
  | [] => mret tt
  | (name, coll) :: l =>
      models ← index_models (cd_Indexes coll);
      _ ← world (createMany name models);
      ensure_collections l
  end.

Definition EnsureMongoCollections (mongoDB : bool) : M unit :=
  if negb mongoDB then mret tt
  else
    match readFile (SQLDir +:+ "/mongo_init.json") with
    | inl _ => mret tt
    | inr data =>
        match json_parse data ≫= dec_schema with
        | None => mret tt
        | Some schema => colls ← range (ms_Collections schema); ensure_collections colls
        end
    end.

(** An index gets the keys of the description, in whatever order the map is
    visited: a compound index has no definite order. *)
Lemma index_keys_any_order `{ML : !MapLaws} idx s models s' :
  index_models [idx] s = (Val models, s') →
  ∃ keys, models = [mkIndexModel keys (ix_Unique idx)] ∧ keys ≡ₚ map_to_list (ix_Keys idx).
Proof.
  cbn [index_models]. intros E. apply bind_inv in E as (keys & s1 & E1 & E). rewrite bind_run, ret_run in E.
  injection E as <- _. exists keys. split; [done|]. by eapply range_perm.
Qed.

End collections.

(** ** Splitting *)

(** A statement that ends outside of quotes and holds no separator there. *)
Fixpoint scan_quotes (s : string) (inString : bool) : option bool :=
  match s with
  | EmptyString => Some inString
  | String ch s =>
      let inString := if bool_decide (ch = "'"%char) then negb inString else inString in
      if bool_decide (ch = ";"%char) && negb inString then None else scan_quotes s inString
  end.

Definition statement (s : string) : Prop := scan_quotes s false = Some false.

Lemma split_go_skip s rest current q q' :
  scan_quotes s q = Some q' → split_go (s +:+ rest) current q = split_go rest (current +:+ s) q'.
Proof.
  revert current q. induction s as [|ch s IH]; intros current q Hs; cbn in Hs.
  - simplify_eq. by rewrite append_nil_r.
  - rewrite append_cons. cbn [split_go].
    destruct (bool_decide (ch = ";"%char) && negb _); [done|].
    rewrite IH by done. by rewrite append_assoc, append_cons, append_nil_l.
Qed.

Lemma split_go_statement s rest :
  statement s → split_go (s +:+ ";" +:+ rest) EmptyString false = s :: split_go rest EmptyString false.
Proof.
  intros Hs. rewrite (split_go_skip s _ _ _ _ Hs), append_nil_l, append_cons, append_nil_l. done.
Qed.

(** C40: Splitting: a script made of statements that close their quotes, each
    ended by a semicolon, followed by a text without a separator outside
    quotes, splits into exactly these statements, separators inside quotes
    kept, and then the trimmed rest unless it is blank. *)
Theorem split_statements stmts rest q :
  Forall statement stmts → scan_quotes rest false = Some q →
  splitSQL (foldr (λ s acc, s +:+ ";" +:+ acc) rest stmts) =
    (stmts ++ if bool_decide (TrimSpace rest = "") then [] else [TrimSpace rest])%list.
Proof.
  intros Hs Hr. unfold splitSQL. induction Hs as [|s stmts Hst _ IH]; cbn [foldr].
  - pose proof (split_go_skip rest "" "" false q Hr) as E. rewrite append_nil_r in E. rewrite E. done.
  - by rewrite split_go_statement, IH.
Qed.

Lemma split_statements_witness :
  splitSQL "INSERT INTO t VALUES ('a;b');SELECT 1 " = ["INSERT INTO t VALUES ('a;b')"; "SELECT 1"].
Proof.
  pose proof (split_statements ["INSERT INTO t VALUES ('a;b')"] "SELECT 1 " false) as H.
  assert (Hs : Forall statement ["INSERT INTO t VALUES ('a;b')"]) by (constructor; [reflexivity|constructor]).
  exact (H Hs eq_refl).
Defined.

End Schema.

(** ** The manager *)

Module Manager.

(** The MongoDB client; the pools of MySQL and PostgreSQL are the process's. *)
Record Manager := { mg_MongoClient : bool }.

Inductive ReadPref := Primary | PrimaryPreferred | Secondary | SecondaryPreferred | Nearest.

Definition parseReadPref (pref : string) : ReadPref :=
  if bool_decide (pref = "primary") then Primary
  else if bool_decide (pref = "primaryPreferred") then PrimaryPreferred
  else if bool_decide (pref = "secondary") then Secondary
  else if bool_decide (pref = "secondaryPreferred") then SecondaryPreferred
  else if bool_decide (pref = "nearest") then Nearest
  else PrimaryPreferred.

(** What the driver is given; the credentials' source is the database. *)
Record ClientOptions := {
  co_URI : string; co_MaxPool : Z; co_MinPool : Z; co_ReadPref : ReadPref;
  co_Auth : option (string * string * string)
}.

Definition mongo_options (cfg : Config.MongoConfig) : ClientOptions := {|
  co_URI := Config.URI cfg; co_MaxPool := Config.MaxPoolSize cfg; co_MinPool := Config.MinPoolSize cfg;
  co_ReadPref := parseReadPref (Config.ReadPreference cfg);
  co_Auth := if bool_decide (Config.mongo_Username cfg = "") then None
             else Some (Config.mongo_Username cfg, Config.mongo_Password cfg, Config.Database cfg)
|}.

(** [mongo.Connect] and the ping are parameters; whether there is a client,
    or an error. *)
Definition ConnectMongoDB `{Env} (connect : ClientOptions → W → option string * W) (ping : Z → W → option string * W)
    (cfg : Config.MongoConfig) : M (error + bool) :=
  if negb (Config.mongo_Enabled cfg) || bool_decide (Config.URI cfg = "") then mret (inr false)
  else
    e ← world (connect (mongo_options cfg));
    match e with
    | Some e => mret (inl (Errorf ("mongodb connect: " +:+ e)))
    | None =>
        e ← world (ping (dur_of (Config.ConnectTimeoutSeconds cfg) Second));
        mret (match e with Some e => inl (Errorf ("mongodb ping: " +:+ e)) | None => inr true end)
    end.

Section manager.
Context `{Env}.
Context (mongo_ping : W → option string * W) (mongo_disconnect : W → W).

Definition is_none {A} (o : option A) : bool := match o with None => true | Some _ => false end.

(** The body of both readiness checks. *)
Definition ready (d : Rwdb.db) : M bool :=
  down ← Rwdb.unavailable d;
  if down : bool then mret false else e ← Rwdb.PingContext d; mret (is_none e).

Definition IsMySQLReady : M bool := ready Rwdb.MySQL.
Definition IsPostgresReady : M bool := ready Rwdb.Postgres.
Definition IsMongoReady (m : Manager) : M bool :=
  if negb (mg_MongoClient m) then mret false else e ← world mongo_ping; mret (is_none e).

(** [m.MySQL != nil] and [m.MySQL.Close()] *)
Definition close_db (d : Rwdb.db) : M unit :=
  o ← gets (Rwdb.get_db d); match o with Some _ => Rwdb.CloseDB d | None => mret tt end.

Definition CloseAll (m : Manager) : M unit :=
  _ ← close_db Rwdb.MySQL; _ ← close_db Rwdb.Postgres; when (mg_MongoClient m) (world_ mongo_disconnect).

End manager.
End Manager.
