(* ===== verification/Http.v ===== *)
(** * The HTTP layer ([internal/middleware])

    The request and response of gin as a record, handlers as computations
    over it and over the process, and the middlewares: trace ids, the request
    logger, JWT authentication, CORS, write rate limiting, recovery and error
    answers.  A logger is what tells its lines apart, the trace id it carries. *)

From S2P Require Export Auth Analytics Order Profile.

Module Http.

(** ** gin *)

(** What the handlers put under [data]. *)
Inductive data :=
| DCreated (order_no channel : string)
| DOrder (o : option Order)
| DProfile (p : option UserProfile)
| DOrders (l : list Order) (total page size : Z)
| DUsers (l : list UserProfile) (total page size : Z)
| DToken (t : TokenResponse)
| DUser (u : User)
| DDaily (l : list PgRepo.DailyOrderStats)
| DSummary (event_type : string) (summary : gmap string Z)
| DCache (s : Cache.StatsMap)
| DMetrics (cache : Cache.StatsMap) (cb : CB.MetricsMap) (tokens : option Z)
| DBreaker (state : string) (metrics : CB.MetricsMap).

(** A body: the common envelope, the limiter's object, a probe's, or a text. *)
Inductive body :=
| BNone
| BText (content : string)
| BApi (r : ApiResponse data)
| BLimited (code : Z) (message trace_id : string)
| BProbe (status : string) (uptime : Z)
| BReady (status : string) (redis cb kafka : string) (rates : option (float64 * float64)).

Record Gin := mkGin {
  g_Method : string; g_Host : string; g_Path : string; g_Headers : list (string * string);   (* canonical names *)
  g_Query : list (string * string); g_Params : list (string * string); g_Body : string;
  g_traceID : option string;      (* the keys of the gin context *)
  g_userID : option Z;
  g_username : option string;
  g_logger : option string;       (* the trace id of the request's logger *)
  g_ctx : Mq.context;             (* the request's context *)
  g_Out : list (string * string); (* response headers, in the order set *)
  g_Writes : list (Z * body);     (* status and body of each answer *)
  g_aborted : bool;
  g_Errors : list string
}.

#[export] Instance eta_Gin : Etable Gin := λ r,
  mkGin (g_Method r) (g_Host r) (g_Path r) (g_Headers r) (g_Query r) (g_Params r) (g_Body r) (g_traceID r) (g_userID r)
    (g_username r) (g_logger r) (g_ctx r) (g_Out r) (g_Writes r) (g_aborted r) (g_Errors r).

Fixpoint assoc (k : string) (l : list (string * string)) : option string :=
  match l with [] => None | (k', v) :: l => if bool_decide (k' = k) then Some v else assoc k l end.

Definition GetHeader (k : string) (c : Gin) : string := default EmptyString (assoc k (g_Headers c)).
Definition Param (k : string) (c : Gin) : string := default EmptyString (assoc k (g_Params c)).
Definition DefaultQuery (k d : string) (c : Gin) : string := default d (assoc k (g_Query c)).

(** The middlewares' accessors. *)
Definition GetTraceID (c : Gin) : string := default EmptyString (g_traceID c).
Definition GetUserID (c : Gin) : Z := default 0 (g_userID c).
Definition GetUsername (c : Gin) : string := default EmptyString (g_username c).
Definition GetLogger (c : Gin) : option string := g_logger c.

(** The deprecated names of the trace context. *)
Definition TraceIDFromContext (ctx : Mq.context) : string := Mq.FromContext ctx.
Definition ContextWithTraceID (ctx : Mq.context) (traceID : string) : Mq.context := Mq.NewContext ctx traceID.

(** [http.Header.Set] on the response. *)
Fixpoint set_header (k v : string) (l : list (string * string)) : list (string * string) :=
  match l with
  | [] => [(k, v)]
  | (k', v') :: l => if bool_decide (k' = k) then (k, v) :: l else (k', v') :: set_header k v l
  end.

(** [c.Header]: an empty value deletes the header. *)
Definition put_header (k v : string) (l : list (string * string)) : list (string * string) :=
  match v with EmptyString => List.filter (λ kv, negb (bool_decide (kv.1 = k))) l | _ => set_header k v l end.

Definition Header (k v : string) (c : Gin) : Gin := c <| g_Out ::= put_header k v |>.
Definition write (status : Z) (b : body) (c : Gin) : Gin := c <| g_Writes ::= (λ l, (l ++ [(status, b)])%list) |>.
Definition Abort_ (c : Gin) : Gin := c <| g_aborted := true |>.
Definition AbortWithStatus (status : Z) (c : Gin) : Gin := Abort_ (write status BNone c).

Definition ApiJSON (status code : Z) (message : string) (d : option data) (c : Gin) : Gin :=
  write status (BApi (mkResp code message d (GetTraceID c))) c.

Section http.
Context `{Env} `{Codec}.

(** A handler reads and writes the gin context and the process; both keep
    what was written before a panic. *)
Definition HM (A : Type) : Type := Gin → Sys → res A * (Gin * Sys).

Definition hret {A} (a : A) : HM A := λ c s, (Val a, (c, s)).
Definition hbind {A B} (m : HM A) (f : A → HM B) : HM B := λ c s,
  match m c s with
  | (Val a, (c, s)) => f a c s
  | (Panicked e, cs) => (Panicked e, cs)
  | (Unfinished, cs) => (Unfinished, cs)
  end.

Definition lift {A} (m : M A) : HM A := λ c s, let '(r, s) := m s in (r, (c, s)).
Definition getg {A} (f : Gin → A) : HM A := λ c s, (Val (f c), (c, s)).
Definition modg (f : Gin → Gin) : HM unit := λ c s, (Val tt, (f c, s)).

(** Every middleware of the program calls [Next] or aborts. *)
Definition Middleware : Type := HM unit → HM unit.

Definition chain (ms : list Middleware) (h : HM unit) : HM unit := fold_right (λ m h, m h) h ms.

End http.

#[export] Instance HM_ret `{Env} : MRet HM := @hret _.
#[export] Instance HM_bind `{Env} : MBind HM := λ A B f m, hbind m f.

(** ** The middlewares *)

Section middleware.
Context `{Env} `{Codec}.

(** [uuid] makes a fresh id. *)
Definition TraceID (uuid : W → string * W) : Middleware := λ next,
  header ← getg (GetHeader "X-Trace-Id");
  traceID ← (if bool_decide (header = "") then lift (world uuid) else mret header);
  _ ← modg (λ c, Header "X-Trace-Id" traceID
        (c <| g_traceID := Some traceID |> <| g_ctx := Mq.NewContext (g_ctx c) traceID |>));
  next.

Definition bearer (authHeader : string) : string :=
  match cut " "%char authHeader with
  | Some (scheme, token) => if bool_decide (toLower scheme = "bearer") then token else authHeader
  | None => authHeader
  end.

Definition JWTAuth (svc : Auth.AuthService) : Middleware := λ next,
  authHeader ← getg (GetHeader "Authorization");
  if bool_decide (authHeader = "") then
    modg (λ c, Abort_ (ApiJSON 401 401 "missing authorization header" None c))
  else
    r ← lift (Auth.ParseToken svc (bearer authHeader));
    match r with
    | inl _ => modg (λ c, Abort_ (ApiJSON 401 401 "invalid or expired token" None c))
    | inr (userID, username) =>
        _ ← modg (λ c, c <| g_userID := Some userID |> <| g_username := Some username |>); next
    end.

(** The record of the middleware has the fields of [Config.CORSConfig], and
    [main] copies one into the other. *)
Definition DefaultCORSConfig : Config.CORSConfig := {|
  Config.cors_Enabled := false; Config.AllowedOrigins := ["*"];
  Config.AllowedMethods := ["GET"; "POST"; "PUT"; "PATCH"; "DELETE"; "OPTIONS"];
  Config.AllowedHeaders := ["Origin"; "Content-Type"; "Accept"; "Authorization"; "X-Trace-Id"; "X-Request-ID"];
  Config.ExposedHeaders := ["Content-Length"; "X-Trace-Id"]; Config.AllowCredentials := true; Config.MaxAge := 86400 |}.

(** The origins before the first wildcard, and whether there is one. *)
Fixpoint origins (l : list string) : list string * bool :=
  match l with
  | [] => ([], false)
  | o :: l =>
      let o := TrimSpace o in
      if bool_decide (o = "*") then ([], true)
      else let '(os, all) := origins l in (toLower o :: os, all)
  end.

Definition same_origin (origin host : string) : bool :=
  bool_decide (origin = host) || bool_decide ("http://" +:+ host = origin) || bool_decide ("https://" +:+ host = origin).

Definition set_if (b : bool) (k v : string) (c : Gin) : Gin := if b then Header k v c else c.

Definition cors_headers (cfg : Config.CORSConfig) (allowAll : bool) (origin : string) (c : Gin) : Gin :=
  let c := if allowAll then Header "Access-Control-Allow-Origin" "*" c
           else Header "Vary" "Origin" (Header "Access-Control-Allow-Origin" origin c) in
  let c := set_if (Config.AllowCredentials cfg && negb allowAll) "Access-Control-Allow-Credentials" "true" c in
  let exposedHeaders := Text.join ", " (Config.ExposedHeaders cfg) in
  set_if (negb (bool_decide (exposedHeaders = ""))) "Access-Control-Expose-Headers" exposedHeaders c.

Definition preflight (cfg : Config.CORSConfig) (c : Gin) : Gin :=
  let c := Header "Access-Control-Allow-Methods" (Text.join ", " (Config.AllowedMethods cfg)) c in
  let c := Header "Access-Control-Allow-Headers" (Text.join ", " (Config.AllowedHeaders cfg)) c in
  let c := set_if (0 <? Config.MaxAge cfg) "Access-Control-Max-Age" (show_Z (Config.MaxAge cfg)) c in
  AbortWithStatus 204 c.

Definition CORS (cfg : Config.CORSConfig) : Middleware := λ next,
  if negb (Config.cors_Enabled cfg) then next
  else
    let '(allowedOrigins, allowAll) := origins (Config.AllowedOrigins cfg) in
    origin ← getg (GetHeader "Origin");
    host ← getg g_Host;
    if bool_decide (origin = "") then next
    else if negb allowAll && negb (bool_decide (toLower origin ∈ allowedOrigins)) && negb (same_origin origin host) then
      modg (AbortWithStatus 403)
    else
      _ ← modg (cors_headers cfg allowAll origin);
      method ← getg g_Method;
      if bool_decide (method = "OPTIONS") then modg (preflight cfg) else next.

Definition isWriteMethod (method : string) : bool :=
  bool_decide (method ∈ ["POST"; "PUT"; "PATCH"; "DELETE"]).

(** Not part of the router the process builds. *)
Definition RateLimit : Middleware := λ next,
  method ← getg g_Method;
  ok ← (if isWriteMethod method then lift OrderSvc.rlTryAcquire else mret true);
  if ok : bool then next
  else modg (λ c, Abort_ (write 429 (BLimited 429 "too many requests, use async channel" (GetTraceID c)) c)).

(** A deferred [recover]. *)
Definition Recovery : Middleware := λ next c s,
  match next c s with
  | (Panicked _, (c, s)) => (Val tt, (Abort_ (ApiJSON 500 500 "internal server error" None c), s))
  | r => r
  end.

Definition ErrorHandler : Middleware := λ next,
  _ ← next;
  errors ← getg g_Errors;
  match last errors with
  | Some e => modg (ApiJSON 400 400 e None)
  | None => mret tt
  end.

(** [logger.With] the trace id. *)
Definition ZapLogger : Middleware := λ next,
  traceID ← getg GetTraceID; _ ← modg (λ c, c <| g_logger := Some traceID |>); next.

(** The global chain of the router, and that of a protected route. *)
Definition global (uuid : W → string * W) (cors : Config.CORSConfig) : list Middleware :=
  [TraceID uuid; ZapLogger; Recovery; ErrorHandler; CORS cors].

Definition protected (uuid : W → string * W) (cors : Config.CORSConfig) (svc : Auth.AuthService) (h : HM unit) : HM unit :=
  chain (global uuid cors ++ [JWTAuth svc]) h.

End middleware.

(** ** How the middlewares run *)

Lemma assoc_set k v l : assoc k (set_header k v l) = Some v.
Proof.
  induction l as [|[k' v'] l IH]; cbn [set_header assoc]; [by rewrite bool_decide_true|].
  destruct (bool_decide_reflect (k' = k)) as [->|Hne]; cbn [assoc]; [by rewrite bool_decide_true|].
  by rewrite bool_decide_false.
Qed.

Lemma assoc_set_ne k k' v l : k ≠ k' → assoc k (set_header k' v l) = assoc k l.
Proof.
  intros Hne. induction l as [|[k1 v1] l IH]; cbn [set_header assoc]; [by rewrite bool_decide_false|].
  destruct (bool_decide_reflect (k1 = k')) as [->|H1]; cbn [assoc]; [by rewrite !bool_decide_false|].
  by rewrite IH.
Qed.

Lemma assoc_put k v l : assoc k (put_header k v l) = if bool_decide (v = "") then None else Some v.
Proof.
  destruct v as [|a v]; [|cbn [put_header]; by rewrite bool_decide_false, assoc_set]. rewrite bool_decide_true by done. cbn [put_header].
  induction l as [|[k' v'] l IH]; [done|]. cbn [List.filter fst].
  destruct (bool_decide_reflect (k' = k)) as [E|E]; cbn [negb assoc]; [done|]. by rewrite bool_decide_false.
Qed.

Lemma put_set k v l : v ≠ "" → put_header k v l = set_header k v l.
Proof. by destruct v. Qed.

Section runs.
Context `{EN : Env} `{CO : Codec}.

Lemma hbind_run {A B} (m : HM A) (f : A → HM B) c s :
  (m ≫= f) c s = match m c s with
    | (Val a, (c, s)) => f a c s | (Panicked e, cs) => (Panicked e, cs) | (Unfinished, cs) => (Unfinished, cs)
    end.
Proof. done. Qed.

Lemma lift_run {A} (m : M A) c s : lift m c s = ((m s).1, (c, (m s).2)).
Proof. unfold lift. by destruct (m s). Qed.

Lemma hret_run {A} (a : A) c s : (mret a : HM A) c s = (Val a, (c, s)).
Proof. done. Qed.

Lemma lift_gets {A} (f : Sys → A) c s : lift (gets f) c s = (Val (f s), (c, s)).
Proof. done. Qed.

(** What [TraceID] hands on. *)
Definition request_id (uuid : W → string * W) (c : Gin) (s : Sys) : string :=
  if bool_decide (GetHeader "X-Trace-Id" c = "") then (uuid (s_w s)).1 else GetHeader "X-Trace-Id" c.
Definition traced (id : string) (c : Gin) : Gin :=
  Header "X-Trace-Id" id (c <| g_traceID := Some id |> <| g_ctx := Mq.NewContext (g_ctx c) id |>).
Definition logged (id : string) (c : Gin) : Gin := (traced id c) <| g_logger := Some id |>.
Definition after_uuid (uuid : W → string * W) (c : Gin) (s : Sys) : Sys :=
  if bool_decide (GetHeader "X-Trace-Id" c = "") then s <| s_w := (uuid (s_w s)).2 |> else s.

Lemma TraceID_run uuid next c s :
  TraceID uuid next c s = next (traced (request_id uuid c s) c) (after_uuid uuid c s).
Proof.
  unfold TraceID, request_id, after_uuid. rewrite hbind_run. unfold getg at 1.
  destruct (bool_decide (GetHeader "X-Trace-Id" c = "")); [|done].
  by rewrite hbind_run, lift_run, world_run.
Qed.

Lemma ZapLogger_run next c s : ZapLogger next c s = next (c <| g_logger := Some (GetTraceID c) |>) s.
Proof. done. Qed.

(** The two of them. *)
Lemma logged_run uuid next c s :
  TraceID uuid (ZapLogger next) c s = next (logged (request_id uuid c s) c) (after_uuid uuid c s).
Proof. by rewrite TraceID_run, ZapLogger_run. Qed.

Lemma Recovery_run next c s :
  Recovery next c s = match next c s with
    | (Panicked _, (c, s)) => (Val tt, (Abort_ (ApiJSON 500 500 "internal server error" None c), s))
    | r => r
    end.
Proof. done. Qed.

(** ** Properties *)

(** Every request is answered under one trace id: the id is the
    client's or a fresh one, and it is in the gin context, in the request's
    logger, in the context handed to the services and in the response header
    before anything else runs; no handler's panic leaves the chain: it becomes a 500 answer after
    whatever was done before it, and otherwise the chain changes nothing
    about what error handling, CORS and the handler do. *)
Theorem panics_answered uuid cors (h : HM unit) c s :
  let id := request_id uuid c s in
  let c1 := logged id c in let s1 := after_uuid uuid c s in
  (GetTraceID c1 = id ∧ GetLogger c1 = Some id ∧ Mq.FromContext (g_ctx c1) = id ∧
   assoc "X-Trace-Id" (g_Out c1) = if bool_decide (id = "") then None else Some id) ∧
  (∀ msg, (chain (global uuid cors) h c s).1 ≠ Panicked msg) ∧
  match chain [ErrorHandler; CORS cors] h c1 s1 with
  | (Panicked _, (c2, s2)) => ∃ c3, chain (global uuid cors) h c s = (Val tt, (c3, s2)) ∧ g_aborted c3 = true ∧
      g_Writes c3 = (g_Writes c2 ++ [(500, BApi (mkResp 500 "internal server error" None (GetTraceID c2)))])%list
  | r => chain (global uuid cors) h c s = r
  end.
Proof.
  intros id c1 s1. split; [split; [done|split; [done|split; [done|apply assoc_put]]]|].
  assert (E : chain (global uuid cors) h c s = Recovery (chain [ErrorHandler; CORS cors] h) c1 s1)
    by (cbn [chain global fold_right]; by rewrite logged_run).
  rewrite E, Recovery_run. destruct (chain _ h c1 s1) as [[a|msg|] [c2 s2]]; [done| |done].
  split; [done|]. by eexists.
Qed.

Lemma bearer_prefix token : bearer ("Bearer " +:+ token) = token.
Proof. done. Qed.

Lemma bearer_raw token : cut " "%char token = None → bearer token = token.
Proof. intros E. unfold bearer. by rewrite E. Qed.

Lemma JWTAuth_run svc (next : HM unit) c s :
  let header := GetHeader "Authorization" c in
  JWTAuth svc next c s =
    if bool_decide (header = "") then
      (Val tt, (Abort_ (ApiJSON 401 401 "missing authorization header" None c), s))
    else match Auth.ParseToken svc (bearer header) s with
    | (Val (inl _), s1) => (Val tt, (Abort_ (ApiJSON 401 401 "invalid or expired token" None c), s1))
    | (Val (inr (uid, name)), s1) => next (c <| g_userID := Some uid |> <| g_username := Some name |>) s1
    | (Panicked e, s1) => (Panicked e, (c, s1))
    | (Unfinished, s1) => (Unfinished, (c, s1))
    end.
Proof.
  intros header. unfold JWTAuth. rewrite hbind_run. unfold getg at 1. fold header.
  destruct (bool_decide (header = "")); [done|].
  rewrite hbind_run, lift_run. destruct (Auth.ParseToken svc (bearer header) s) as [[[e|[uid name]]|e|] s1]; done.
Qed.

(** C21: The gate: without an accepted token the handler is not run and the
    answer is 401, whatever the handler; a token the service issued to a
    user with an identifier up to [2^53] lets the handler run as that user
    until its expiry, sent bare or after the word Bearer, and is refused
    from then on. *)
Theorem auth_gate `{JW : !Auth.JwtLaws} svc (h : HM unit) c s :
  let header := GetHeader "Authorization" c in
  (header = "" ∨ (∃ e, (Auth.ParseToken svc (bearer header) s).1 = Val (inl e)) →
   ∃ msg s1, JWTAuth svc h c s = (Val tt, (Abort_ (ApiJSON 401 401 msg None c), s1))) ∧
  ∀ uid name s0 token secs s0',
    0 <= uid <= 2 ^ 53 → Auth.generateToken svc uid name s0 = (Val (inr (token, secs)), s0') →
    header = "Bearer " +:+ token ∨ (header = token ∧ token ≠ "" ∧ cut " "%char token = None) →
    ∃ exp, (clk_now (s_w s0)).1 + Auth.jwtExpire svc - Second < exp <= (clk_now (s_w s0)).1 + Auth.jwtExpire svc ∧
      JWTAuth svc h c s =
        if (clk_now (s_w s)).1 <? exp then
          h (c <| g_userID := Some uid |> <| g_username := Some name |>) (s <| s_w := (clk_now (s_w s)).2 |>)
        else (Val tt, (Abort_ (ApiJSON 401 401 "invalid or expired token" None c), s <| s_w := (clk_now (s_w s)).2 |>)).
Proof.
  intros header. pose proof (JWTAuth_run svc h c s) as Hrun. fold header in Hrun. cbv zeta in Hrun.
  split.
  - intros Hno. rewrite Hrun. destruct (bool_decide_reflect (header = "")); [by eexists _, _|].
    destruct Hno as [|[e He]]; [done|]. destruct (Auth.ParseToken _ _ s) as [r s1]. cbn in He. subst r. by eexists _, _.
  - intros uid name s0 token secs s0' Hu Hg Hh.
    assert (Hb : header ≠ "" ∧ bearer header = token).
    { destruct Hh as [->|(-> & ? & ?)]; [by rewrite bearer_prefix|by rewrite bearer_raw]. }
    destruct Hb as [Hne Hb]. rewrite bool_decide_eq_false_2 in Hrun by done. rewrite Hb, Auth.ParseToken_run in Hrun.
    rewrite Auth.generateToken_run in Hg. set (expiry := (clk_now (s_w s0)).1 + Auth.jwtExpire svc) in *.
    destruct (jwt_sign _ _ _ _ _) as [e|tok] eqn:Es; [done|]. injection Hg as -> _ _.
    exists (Auth.Unix expiry * Second). split; [apply Auth.Unix_bounds|].
    assert (Hu' : 0 <= uid < 2 ^ 64) by lia. rewrite Hrun.
    destruct (Z.ltb_spec (clk_now (s_w s)).1 (Auth.Unix expiry * Second)) as [Ht|Ht].
    + rewrite (Auth.jwt_verify _ _ _ _ _ _ _ Hu' Es Ht). cbn [jc_user_id jc_username].
      by rewrite Auth.uint64_of_float.
    + by rewrite (Auth.jwt_expired _ _ _ _ _ _ _ Hu' Es Ht).
Qed.

(** ** Origins *)

(** The two defaults in the code are the same. *)
Lemma defaults_agree : Config.CORS Config.defaultConfig = DefaultCORSConfig.
Proof using Type. reflexivity. Qed.

Abbreviation ACAO := "Access-Control-Allow-Origin".
Abbreviation ACAC := "Access-Control-Allow-Credentials".

Definition is_wildcard (l : list string) : bool := existsb (λ o, bool_decide (TrimSpace o = "*")) l.
Definition is_listed (origin : string) (l : list string) : bool :=
  existsb (λ o, bool_decide (toLower (TrimSpace o) = toLower origin)) l.

Lemma origins_spec l :
  (origins l).2 = is_wildcard l ∧
  (is_wildcard l = false → ∀ origin, bool_decide (toLower origin ∈ (origins l).1) = is_listed origin l).
Proof.
  induction l as [|o l [IH1 IH2]].
  - split; [done|]. intros _ origin. by apply bool_decide_eq_false_2, not_elem_of_nil.
  - cbn [origins is_wildcard is_listed existsb]. destruct (bool_decide_reflect (TrimSpace o = "*")) as [E|E]; [done|].
    fold (is_wildcard l). destruct (origins l) as [os all]. cbn [fst snd orb] in *. split; [done|].
    intros Hw origin. fold (is_listed origin l). rewrite <-(IH2 Hw origin).
    rewrite <-(bool_decide_ext _ _ (symmetry (elem_of_cons os (toLower origin) (toLower (TrimSpace o))))).
    rewrite bool_decide_or. f_equal. by apply bool_decide_ext.
Qed.

(** Case analysis on what the configuration adds to the headers. *)
Ltac headers :=
  unfold cors_headers, set_if, Header;
  match goal with w : bool |- _ => destruct w end;
  match goal with cfg : Config.CORSConfig |- _ =>
    destruct (Config.AllowCredentials cfg), (bool_decide_reflect (Text.join ", " (Config.ExposedHeaders cfg) = "")) end;
  cbn [negb andb g_Out g_Writes g_Method g_Host set_field]; rewrite ?put_set by done; rewrite ?assoc_set_ne by done.

(** They are all it touches. *)
Lemma cors_headers_out cfg all origin c : ∃ out, cors_headers cfg all origin c = c <| g_Out := out |>.
Proof.
  unfold cors_headers, set_if, Header. destruct all, (_ && _), (negb (bool_decide (_ = ""))); by eexists.
Qed.

Lemma preflight_out cfg c : ∃ out, preflight cfg c = AbortWithStatus 204 (c <| g_Out := out |>).
Proof. unfold preflight, set_if, Header. destruct (0 <? _); by eexists. Qed.

(** The decision of the middleware. *)
Lemma CORS_run cfg (next : HM unit) c s :
  let origin := GetHeader "Origin" c in
  let wildcard := is_wildcard (Config.AllowedOrigins cfg) in
  CORS cfg next c s =
    if negb (Config.cors_Enabled cfg) || bool_decide (origin = "") then next c s
    else if wildcard || is_listed origin (Config.AllowedOrigins cfg) || same_origin origin (g_Host c) then
      let c1 := cors_headers cfg wildcard origin c in
      if bool_decide (g_Method c = "OPTIONS") then (Val tt, (preflight cfg c1, s)) else next c1 s
    else (Val tt, (AbortWithStatus 403 c, s)).
Proof.
  intros origin wildcard. destruct (origins_spec (Config.AllowedOrigins cfg)) as [E1 E2].
  unfold CORS. destruct (Config.cors_Enabled cfg); [|done]. cbn [negb orb].
  destruct (origins _) as [os all]. cbn [fst snd] in *. subst all. fold wildcard in E2 |- *.
  rewrite !hbind_run. unfold getg. rewrite hbind_run. fold origin. destruct (bool_decide (origin = "")); [done|].
  assert (Hnext : ∀ b : bool, b = wildcard →
    (_ ← modg (cors_headers cfg b origin);
     method ← (λ c0 s0, (Val (g_Method c0), (c0, s0)) : res string * (Gin * Sys));
     if bool_decide (method = "OPTIONS") then modg (preflight cfg) else next : HM unit) c s =
    let c1 := cors_headers cfg wildcard origin c in
    if bool_decide (g_Method c = "OPTIONS") then (Val tt, (preflight cfg c1, s)) else next c1 s).
  { intros b ->. rewrite hbind_run. unfold modg at 1. rewrite hbind_run.
    destruct (cors_headers_out cfg wildcard origin c) as [out ->]. cbn [g_Method set_field]. cbv zeta. by destruct (bool_decide _). }
  destruct wildcard; cbn [negb andb orb]; [by apply Hnext|].
  rewrite (E2 eq_refl). destruct (is_listed origin _), (same_origin origin (g_Host c)); cbn [negb andb orb]; by try apply Hnext.
Qed.

(** C38: Cross-origin requests: an origin is let through exactly when the
    configuration holds a wildcard, lists it up to case and surrounding
    spaces, or it is the server's own; otherwise the answer is 403 and the
    handler is not run.  The response then names the origin, or the wildcard
    when there is one, and allows credentials only without a wildcard; a
    preflight is answered 204 by the middleware alone. *)
Theorem cors_decision cfg (next : HM unit) c s :
  Config.cors_Enabled cfg = true → GetHeader "Origin" c ≠ "" → assoc ACAC (g_Out c) = None →
  let origin := GetHeader "Origin" c in
  let wildcard := is_wildcard (Config.AllowedOrigins cfg) in
  if wildcard || is_listed origin (Config.AllowedOrigins cfg) || same_origin origin (g_Host c) then
    let c1 := cors_headers cfg wildcard origin c in
    assoc ACAO (g_Out c1) = Some (if wildcard then "*" else origin) ∧
    assoc ACAC (g_Out c1) = (if Config.AllowCredentials cfg && negb wildcard then Some "true" else None) ∧
    g_Writes c1 = g_Writes c ∧
    CORS cfg next c s =
      if bool_decide (g_Method c = "OPTIONS") then (Val tt, (preflight cfg c1, s)) else next c1 s
  else CORS cfg next c s = (Val tt, (AbortWithStatus 403 c, s)).
Proof.
  intros He Ho Hc origin wildcard. rewrite CORS_run, He, bool_decide_eq_false_2 by done. cbn [negb orb].
  fold origin wildcard. destruct (_ || same_origin _ _); [|done]. cbv zeta. fold origin in Ho.
  split; [headers; by rewrite ?assoc_set|]. split; [headers; by rewrite ?assoc_set|]. split; [|done].
  by destruct (cors_headers_out cfg wildcard origin c) as [out ->].
Qed.

End runs.

(** ** Witnesses *)

Definition demo_request (method : string) (headers : list (string * string)) (text : string) : Gin :=
  mkGin method "api.example.com" "/" headers [] [] text None None None None Mq.Background [] [] false [].

Definition demo_authorized : Gin := demo_request "GET" [("Authorization", "Bearer " +:+ Auth.demo_token)] "".

Lemma auth_gate_witness :
  ∃ c s', JWTAuth Auth.demo_svc (mret tt) demo_authorized demo_sys = (Val tt, (c, s')) ∧ g_userID c = Some 7.
Proof.
  assert (E : Auth.generateToken Auth.demo_svc 7 "alice" demo_sys =
    (Val (inr (Auth.demo_token, 3600)), (Auth.generateToken Auth.demo_svc 7 "alice" demo_sys).2)).
  { rewrite (surjective_pairing (Auth.generateToken Auth.demo_svc 7 "alice" demo_sys)) at 1.
    f_equal; vm_compute; reflexivity. }
  destruct (auth_gate Auth.demo_svc (mret tt) demo_authorized demo_sys) as [_ H].
  destruct (H 7 "alice" demo_sys Auth.demo_token 3600 _ ltac:(lia) E ltac:(by left)) as (exp & Hexp & Hr).
  assert (H0 : (clk_now (s_w demo_sys)).1 = 0) by reflexivity. rewrite H0 in *.
  assert (H1 : Auth.jwtExpire Auth.demo_svc = 3600 * Second) by reflexivity. rewrite H1 in Hexp. unfold Second in Hexp.
  destruct (Z.ltb_spec 0 exp); [|lia]. eexists _, _. split; [exact Hr|reflexivity].
Defined.

Definition demo_cors : Config.CORSConfig := {|
  Config.cors_Enabled := true; Config.AllowedOrigins := [" https://App.example.com "]; Config.AllowedMethods := ["GET"];
  Config.AllowedHeaders := []; Config.ExposedHeaders := ["X-Trace-Id"]; Config.AllowCredentials := true;
  Config.MaxAge := 60 |}.

Lemma cors_decision_witness :
  CORS demo_cors (mret tt) (demo_request "GET" [("Origin", "https://evil.example.com")] "") demo_sys =
    (Val tt, (AbortWithStatus 403 (demo_request "GET" [("Origin", "https://evil.example.com")] ""), demo_sys)).
Proof.
  assert (Ho : GetHeader "Origin" (demo_request "GET" [("Origin", "https://evil.example.com")] "") ≠ "") by discriminate.
  pose proof (cors_decision demo_cors (mret tt) (demo_request "GET" [("Origin", "https://evil.example.com")] "")
    demo_sys eq_refl Ho eq_refl) as H. exact H.
Defined.

End Http.
