(* ===== verification/Swagger.v ===== *)
(** * The API documentation ([internal/middleware/swagger.go])

    The middleware around the handler of the generated pages: it collects the
    document and puts dates in place of its two placeholders.  The wrapped
    handler is an argument: the status, the headers and the body that it
    answers to a request. *)

From S2P Require Export Http.

Module Swagger.
Import Http.

Definition placeholder_7days : string := "__7DAYS_AGO__".
Definition placeholder_today : string := "__TODAY__".

Section swagger.
Context `{EN : Env} `{CO : Codec}.

(** What the wrapped handler sends: status, headers, body. *)
Definition pages : Type := Gin → W → (Z * list (string * string) * string) * W.

Definition is_document (path : string) : bool := hasSuffix "doc.json" path || hasSuffix "swagger.json" path.

Definition SwaggerWithRuntimeDefaults (base : pages) : HM unit :=
  path ← getg g_Path;
  '(status, headers, content) ← (λ c, lift (world (base c)) c);
  _ ← modg (λ c, foldl (λ c kv, Header kv.1 kv.2 c) c headers);
  if is_document path then
    if bool_decide (content = "") then modg (write status BNone)
    else
      now1 ← lift Now;
      let today := date_local now1 in
      now2 ← lift Now;
      let days7Ago := date_local (add_days now2 (-7)) in
      let content := ReplaceAll content placeholder_7days days7Ago in
      let content := ReplaceAll content placeholder_today today in
      _ ← modg (Header "Content-Length" ""); modg (write 200 (BText content))
  else modg (write status (BText content)).

Lemma placeholder_gone m old text d :
  old = String "_" m +:+ String "_" "" → has "-" old = false → has "_" d = false ∧ has "-" d = true →
  contains old (ReplaceAll text old d) = false.
Proof. intros -> Ho [H1 H2]. by apply (replace_none "_" "-"). Qed.

Lemma placeholder_stays m m' old text d :
  contains (String "_" m +:+ String "_" "") text = false → m' = String "_" m +:+ String "_" "" → has "-" m' = false →
  has "_" d = false ∧ has "-" d = true → contains m' (ReplaceAll text old d) = false.
Proof.
  intros Ht -> Ho [H1 H2]. apply not_true_is_false. intros H.
  by rewrite (replace_contains "_" "-" old d H1 H2 m 0 text Ho H) in Ht.
Qed.

(** The document is served with status 200 and the dates of the clock in
    place of the placeholders, of which none is left, and without the length
    the wrapped handler announced; a document without placeholders is served
    as it is; every other page, and an empty document, is the wrapped
    handler's answer. *)
Theorem swagger_dates `{CL : !CodecLaws} base c s :
  let '((status, headers, content), w1) := base c (s_w s) in
  let c1 := foldl (λ c kv, Header kv.1 kv.2 c) c headers in
  if is_document (g_Path c) && negb (bool_decide (content = "")) then
    ∃ text s', SwaggerWithRuntimeDefaults base c s = (Val tt, (write 200 (BText text) (Header "Content-Length" "" c1), s')) ∧
      contains placeholder_7days text = false ∧ contains placeholder_today text = false ∧
      assoc "Content-Length" (g_Out (Header "Content-Length" "" c1)) = None ∧
      (contains placeholder_7days content = false → contains placeholder_today content = false → text = content) ∧
      text = ReplaceAll (ReplaceAll content placeholder_7days (date_local (add_days (clk_now (clk_now w1).2).1 (-7))))
        placeholder_today (date_local (clk_now w1).1)
  else
    SwaggerWithRuntimeDefaults base c s =
      (Val tt, (write status (if is_document (g_Path c) then BNone else BText content) c1, s <| s_w := w1 |>)).
Proof.
  destruct (base c (s_w s)) as [[[status headers] content] w1] eqn:Eb. intros c1.
  unfold SwaggerWithRuntimeDefaults. rewrite hbind_run. unfold getg. rewrite hbind_run, lift_run, world_run, Eb. cbn [fst snd].
  rewrite hbind_run. unfold modg at 1. fold c1. destruct (is_document (g_Path c)); [|done].
  destruct (bool_decide_reflect (content = "")) as [->|Hne]; [done|]. cbn [negb andb].
  unfold Now. do 2 (rewrite hbind_run, lift_run, world_run; cbn [fst snd s_w set_field]).
  eexists _, _. split; [reflexivity|]. split; [|split; [|split; [|split]]].
  - eapply (placeholder_stays "_7DAYS_AGO_"); [|reflexivity..|apply date_local_text].
    by apply (placeholder_gone "_7DAYS_AGO_"), date_local_text.
  - by apply (placeholder_gone "_TODAY_"), date_local_text.
  - apply assoc_put.
  - intros H1 H2. by rewrite (replace_absent content), replace_absent.
  - done.
Qed.

End swagger.

(** A document with both placeholders, on the concrete clock. *)
Definition demo_pages : pages := λ _ w, (200, [("Content-Length", "31")], "from __7DAYS_AGO__ to __TODAY__", w).

Definition demo_document : Gin := (demo_request "GET" [] "") <| g_Path := "/swagger/doc.json" |>.

Lemma swagger_dates_witness :
  ∃ text s', SwaggerWithRuntimeDefaults demo_pages demo_document demo_sys =
      (Val tt, (write 200 (BText text) (Header "Content-Length" "" (Header "Content-Length" "31" demo_document)), s')) ∧
    contains placeholder_7days text = false ∧ contains placeholder_today text = false.
Proof.
  pose proof (swagger_dates demo_pages demo_document demo_sys) as H. cbv zeta in H.
  destruct H as (text & s' & E & H1 & H2 & _). exists text, s'. split; [exact E|]. split; [exact H1|exact H2].
Defined.

End Swagger.
