(* ===== verification/Handlers.v ===== *)
(** * The request handlers ([internal/handler])

    Binding and validation of the request bodies, the business, account,
    analytics and monitoring handlers, and the translation of service errors
    into answers.  The validator library is a class: its e-mail rule and the
    text it gives to a list of failed rules. *)

From S2P Require Export Http Schema.

Module Handlers.
Import Http.

Class Validator := {
  is_email : string → bool;
  validation_text : string → list (string * string) → string   (* struct; failed field and rule *)
}.

(** ** Request bodies *)

Definition order_req_field `{Codec} (k : string) (j : json) (r : CreateOrderRequest) : field_res CreateOrderRequest :=
  if bool_decide (k = "user_id") then
    dec_uint "CreateOrderRequest.user_id" j (λ n, mkCreateOrderRequest n (cor_Amount r))
  else if bool_decide (k = "amount") then
    dec_float "CreateOrderRequest.amount" j (λ f, mkCreateOrderRequest (cor_UserID r) f)
  else FOk r.

Definition register_field `{Codec} (k : string) (j : json) (r : RegisterRequest) : field_res RegisterRequest :=
  if bool_decide (k = "username") then
    dec_str "RegisterRequest.username" j (λ s, mkRegister s (rr_Password r) (rr_Email r) (rr_Phone r))
  else if bool_decide (k = "password") then
    dec_str "RegisterRequest.password" j (λ s, mkRegister (rr_Username r) s (rr_Email r) (rr_Phone r))
  else if bool_decide (k = "email") then
    dec_str "RegisterRequest.email" j (λ s, mkRegister (rr_Username r) (rr_Password r) s (rr_Phone r))
  else if bool_decide (k = "phone") then
    dec_str "RegisterRequest.phone" j (λ s, mkRegister (rr_Username r) (rr_Password r) (rr_Email r) s)
  else FOk r.

Definition login_field `{Codec} (k : string) (j : json) (r : LoginRequest) : field_res LoginRequest :=
  if bool_decide (k = "username") then dec_str "LoginRequest.username" j (λ s, mkLogin s (lr_Password r))
  else if bool_decide (k = "password") then dec_str "LoginRequest.password" j (λ s, mkLogin (lr_Username r) s)
  else FOk r.

Definition zero_order_req : CreateOrderRequest := mkCreateOrderRequest 0 f64_zero.
Definition zero_register : RegisterRequest := mkRegister "" "" "" "".
Definition zero_login : LoginRequest := mkLogin "" "".

Definition dec_order_req `{Codec} (j : json) := dec_struct "model.CreateOrderRequest" order_req_field j zero_order_req.
Definition dec_register `{Codec} (j : json) := dec_struct "model.RegisterRequest" register_field j zero_register.
Definition dec_login `{Codec} (j : json) := dec_struct "model.LoginRequest" login_field j zero_login.

(** ** Validation rules

    The rules of a field in order; the first that does not hold is reported. *)

Definition required_str (s : string) : string * bool := ("required", negb (bool_decide (s = ""))).
Definition min_len (n : Z) (s : string) : string * bool := ("min", n <=? rune_count s).
Definition max_len (n : Z) (s : string) : string * bool := ("max", rune_count s <=? n).
Definition omitempty (s : string) (rules : list (string * bool)) : list (string * bool) :=
  if bool_decide (s = "") then [] else rules.

Fixpoint failed_rule (rules : list (string * bool)) : option string :=
  match rules with
  | [] => None
  | (tag, ok) :: rules => if ok : bool then failed_rule rules else Some tag
  end.

Fixpoint failures (fields : list (string * list (string * bool))) : list (string * string) :=
  match fields with
  | [] => []
  | (field, rules) :: fields =>
      match failed_rule rules with Some tag => (field, tag) :: failures fields | None => failures fields end
  end.

Definition order_req_rules (r : CreateOrderRequest) : list (string * list (string * bool)) :=
  [("UserID", [("required", negb (cor_UserID r =? 0)); ("min", 1 <=? cor_UserID r)]);
   ("Amount", [("gt", f64_gtb (cor_Amount r) f64_zero)])].

Definition profile_rules (p : UserProfile) : list (string * list (string * bool)) :=
  [("UserID", [("required", negb (p_UserID p =? 0))])].

Definition register_rules `{Validator} (r : RegisterRequest) : list (string * list (string * bool)) :=
  [("Username", [required_str (rr_Username r); min_len 3 (rr_Username r); max_len 64 (rr_Username r)]);
   ("Password", [required_str (rr_Password r); min_len 6 (rr_Password r); max_len 128 (rr_Password r)]);
   ("Email", omitempty (rr_Email r) [("email", is_email (rr_Email r)); max_len 128 (rr_Email r)]);
   ("Phone", omitempty (rr_Phone r) [max_len 20 (rr_Phone r)])].

Definition login_rules (r : LoginRequest) : list (string * list (string * bool)) :=
  [("Username", [required_str (lr_Username r)]); ("Password", [required_str (lr_Password r)])].

(** [validate.Struct] *)
Definition validate `{Validator} (name : string) (fields : list (string * list (string * bool))) : option error :=
  match failures fields with [] => None | l => Some (Errorf (validation_text name l)) end.

(** [strconv.Atoi] *)
Definition Atoi (s : string) : option Z :=
  match s with
  | String "+" s => n ← parse_uint s; if n <? 2 ^ 63 then Some n else None
  | _ => parse_int s
  end.

(** What the handlers were built with: the services; the analytics service
    may be nil. *)
Record BusinessHandler `{Env} := NewBusinessHandler {
  orderSvc : OrderSvc.OrderService;
  profileSvc : Profile.UserProfileService;
  analyticsSvc : bool
}.

Record AuthHandler := NewAuthHandler { authSvc : Auth.AuthService }.

Section handlers.
Context `{Env} `{Codec} `{Validator}.

Definition JSON (status : Z) (message : string) (d : option data) : HM unit := modg (ApiJSON status status message d).

Definition ShouldBindJSON {S} (dec : json → S * option error) (zero : S) : HM (S * option error) :=
  body ← getg g_Body; mret (Decode dec zero body).

(** The body and its validation, as both handlers of a kind begin; [bad] and
    [invalid] word the refusals. *)
Definition bind_valid {S} (dec : json → S * option error) (zero : S) (rules : S → option error)
    (bad invalid : error → string) (handle : S → HM unit) : HM unit :=
  '(req, err) ← ShouldBindJSON dec zero;
  match err with
  | Some e => JSON 400 (bad e) None
  | None => match rules req with Some e => JSON 400 (invalid e) None | None => handle req end
  end.

(** ** Orders and profiles ([business_handler.go]) *)

Section business.
Context (h : BusinessHandler).

Definition handleCreateOrder (successMsg : string) (forceSync : bool) : HM unit :=
  bind_valid dec_order_req zero_order_req (λ r, validate "CreateOrderRequest" (order_req_rules r))
    (λ e, "invalid request body: " +:+ err_text e) (λ e, "validation failed: " +:+ err_text e)
    (λ req,
      let order := zero_Order <| o_UserID := cor_UserID req |> <| o_Amount := cor_Amount req |> in
      ctx ← getg g_ctx;
      '(channel, orderNo, err) ← lift
        (if forceSync then OrderSvc.CreateOrderForceSync (orderSvc h) ctx order
         else OrderSvc.CreateOrder (orderSvc h) ctx order);
      match err with
      | Some e => JSON 500 (err_text e) None
      | None =>
          _ ← (if analyticsSvc h then lift (Analytics.LogOrderCreated (o_UserID order) orderNo) else mret tt);
          JSON 200 successMsg (Some (DCreated orderNo channel))
      end).

Definition CreateOrder : HM unit := handleCreateOrder "order accepted" false.
Definition CreateOrderSync : HM unit := handleCreateOrder "order created" true.

Definition GetOrder : HM unit :=
  orderNo ← getg (Param "orderNo");
  '(order, err) ← lift (OrderSvc.GetOrder (orderSvc h) orderNo);
  match err with
  | Some e => JSON 404 (err_text e) None
  | None => JSON 200 "success" (Some (DOrder order))
  end.

(** Status and message of a service's error. *)
Definition handleServiceError (err : error) (operation : string) : Z * string :=
  let errMsg := err_text err in
  if contains "not available" errMsg || contains "mongodb not available" errMsg ||
     contains "elasticsearch not available" errMsg
  then (503, operation +:+ " temporarily unavailable, service degraded")
  else (500, operation +:+ " failed: " +:+ errMsg).

Definition GetUserProfile : HM unit :=
  userIDStr ← getg (Param "userID");
  match parse_uint userIDStr with
  | None => JSON 400 "invalid user_id" None
  | Some userID =>
      '(profile, err) ← lift (Profile.GetProfile (profileSvc h) userID);
      match err with
      | Some e =>
          let '(statusCode, message) := handleServiceError e "profile lookup" in
          if statusCode =? 503 then JSON statusCode message None else JSON 404 (err_text e) None
      | None => JSON 200 "success" (Some (DProfile profile))
      end
  end.

Definition GetCacheStats : HM unit :=
  stats ← lift OrderSvc.GetCacheStats; JSON 200 "success" (Some (DCache stats)).

(** [None]: the refusal is written. *)
Definition parseSearchParams : HM (option (string * Z * Z)) :=
  keyword ← getg (DefaultQuery "q" EmptyString);
  if bool_decide (keyword = "") then
    _ ← JSON 400 "query parameter 'q' is required" None; mret None
  else
    p ← getg (DefaultQuery "page" "1");
    s ← getg (DefaultQuery "size" "20");
    let page := match Atoi p with Some p => if 0 <? p then p else 1 | None => 1 end in
    let size := match Atoi s with Some s => if (0 <? s) && (s <=? 100) then s else 20 | None => 20 end in
    mret (Some (keyword, page, size)).

(** The body both searches share. *)
Definition search {T} (operation : string) (run : string → Z → Z → M (Es.found T))
    (answer : list T → Z → Z → Z → data) : HM unit :=
  params ← parseSearchParams;
  match params with
  | None => mret tt
  | Some (keyword, page, size) =>
      r ← lift (run keyword page size);
      match r with
      | inl e => let '(statusCode, message) := handleServiceError e operation in JSON statusCode message None
      | inr (l, total) => JSON 200 "success" (Some (answer l total page size))
      end
  end.

Definition SearchOrders : HM unit := search "order search" (OrderSvc.SearchOrders (orderSvc h)) DOrders.
Definition SearchUsers : HM unit := search "user search" (Profile.SearchUsers (profileSvc h)) DUsers.

Definition UpsertUserProfile : HM unit :=
  bind_valid dec_profile zero_Profile (λ p, validate "UserProfile" (profile_rules p))
    (λ e, "invalid request body: " +:+ err_text e) (λ e, "validation failed: " +:+ err_text e)
    (λ profile,
      err ← lift (Profile.UpsertProfile (profileSvc h) profile);
      match err with
      | Some e => let '(statusCode, message) := handleServiceError e "profile upsert" in JSON statusCode message None
      | None => JSON 200 "profile saved" (Some (DProfile (Some profile)))
      end).

End business.

(** ** Accounts ([auth_handler.go]) *)

Section auth.
Context (h : AuthHandler).

Definition Register : HM unit :=
  bind_valid dec_register zero_register (λ r, validate "RegisterRequest" (register_rules r))
    (λ _, "invalid request body") err_text
    (λ req,
      r ← lift (Auth.Register (authSvc h) req);
      match r with
      | inl e =>
          if bool_decide (e = Auth.ErrUserExists) then JSON 409 "username already exists" None
          else if bool_decide (e = Auth.ErrEmailExists) then JSON 409 "email already exists" None
          else JSON 500 "internal server error" None
      | inr resp => JSON 200 "register success" (Some (DToken resp))
      end).

Definition Login : HM unit :=
  bind_valid dec_login zero_login (λ r, validate "LoginRequest" (login_rules r))
    (λ _, "invalid request body") err_text
    (λ req,
      r ← lift (Auth.Login (authSvc h) req);
      match r with
      | inl e =>
          if bool_decide (e = Auth.ErrInvalidLogin) then JSON 401 "invalid username or password" None
          else if bool_decide (e = Auth.ErrUserDisabled) then JSON 403 "user account is disabled" None
          else JSON 500 "internal server error" None
      | inr resp => JSON 200 "login success" (Some (DToken resp))
      end).

Definition GetMe : HM unit :=
  userID ← getg GetUserID;
  r ← lift (Auth.GetUserInfo userID);
  match r with
  | inl e =>
      if bool_decide (e = Auth.ErrUserNotFound) then JSON 404 "user not found" None
      else JSON 500 "internal server error" None
  | inr user => JSON 200 "success" (Some (DUser user))
  end.

End auth.

(** ** Reports ([analytics_handler.go]) *)

Definition GetDailyStats : HM unit :=
  now1 ← lift Now;
  fromStr ← getg (DefaultQuery "from" (date_local (add_days now1 (-7))));
  now2 ← lift Now;
  toStr ← getg (DefaultQuery "to" (date_local now2));
  match date_parse fromStr with
  | None => JSON 400 "invalid 'from' date, use YYYY-MM-DD" None
  | Some from =>
      match date_parse toStr with
      | None => JSON 400 "invalid 'to' date, use YYYY-MM-DD" None
      | Some to =>
          if to <? from then JSON 400 "'from' date must be before or equal to 'to' date" None
          else
            r ← lift (Analytics.GetDailyStats from (to + (24 * Hour - Second)));
            match r with
            | inl e => JSON 500 (err_text e) None
            | inr (_, Some e) => JSON 500 (err_text e) None
            | inr (stats, None) => JSON 200 "success" (Some (DDaily stats))
            end
      end
  end.

Definition GetBehaviorSummary : HM unit :=
  eventType ← getg (DefaultQuery "type" EmptyString);
  r ← lift (Analytics.GetBehaviorSummary eventType);
  match r with
  | inl e => JSON 500 (err_text e) None
  | inr (_, Some e) => JSON 500 (err_text e) None
  | inr (summary, None) => JSON 200 "success" (Some (DSummary eventType summary))
  end.

(** ** Monitoring ([monitor_handler.go]) *)

Definition Metrics : HM unit :=
  cacheStats ← lift (gets (λ s, Cache.Stats (s_mc s)));
  cbMetrics ← lift (gets (λ s, CB.Metrics (s_cb s)));
  now ← lift Now;
  tokens ← lift (λ s, let '(n, rl) := RL.Tokens now (s_rl s) in (Val n, s <| s_rl := rl |>));
  JSON 200 "success" (Some (DMetrics cacheStats cbMetrics tokens)).

Definition CircuitBreakerState : HM unit :=
  state ← lift (gets (λ s, CB.GetState (s_cb s)));
  metrics ← lift (gets (λ s, CB.Metrics (s_cb s)));
  JSON 200 "success" (Some (DBreaker state metrics)).

End handlers.

(** ** Properties *)

Section runs.
Context `{EN : Env} `{CO : Codec} `{VA : !Validator}.

Lemma JSON_run status message d c s : JSON status message d c s = (Val tt, (ApiJSON status status message d c, s)).
Proof. done. Qed.

Lemma ApiJSON_writes status message d c :
  g_Writes (ApiJSON status status message d c) =
    (g_Writes c ++ [(status, BApi (mkResp status message d (GetTraceID c)))])%list.
Proof. done. Qed.

Lemma bind_valid_run {T} (dec : json → T * option error) zero rules bad invalid handle c s :
  bind_valid dec zero rules bad invalid handle c s =
    match Decode dec zero (g_Body c) with
    | (_, Some e) => JSON 400 (bad e) None c s
    | (req, None) => match rules req with Some e => JSON 400 (invalid e) None c s | None => handle req c s end
    end.
Proof.
  unfold bind_valid, ShouldBindJSON. rewrite !hbind_run. unfold getg at 1. rewrite hret_run.
  destruct (Decode dec zero (g_Body c)) as [req [e|]]; [done|]. by destruct (rules req).
Qed.

(** Logging for analytics only touches its buffer. *)
Lemma LogOrderCreated_world uid no s :
  ∃ s', Analytics.LogOrderCreated uid no s = (Val tt, s') ∧ s_w s' = s_w s.
Proof.
  unfold Analytics.LogOrderCreated. rewrite bind_run, Analytics.try_send_run. destruct (_ <? _); [by eexists|].
  unfold Analytics.signalFlush. rewrite bind_run. unfold modify at 1. rewrite bind_run, Analytics.try_send_run.
  destruct (_ <? _); by eexists.
Qed.

End runs.

(** *** What a request can hold *)

Definition id64 (n : Z) : Prop := 0 <= n < 2 ^ 64.

(** One case per field name. *)
Ltac by_field := repeat (case_bool_decide;
  [first [apply dec_uint_keeps|apply dec_str_keeps|apply dec_float_keeps|apply dec_time_keeps|apply dec_tags_keeps];
   intros; unfold id64 in *; cbn; lia|]); done.

Lemma order_req_range `{Codec} text :
  id64 (cor_UserID (Decode dec_order_req zero_order_req text).1).
Proof.
  apply (Decode_keeps (λ r, id64 (cor_UserID r))); [|done]. intros j. unfold dec_order_req. apply dec_struct_keeps; [|done].
  intros k j' r Hr. unfold order_req_field. by_field.
Qed.

Lemma profile_range `{Codec} text :
  let p := (Decode dec_profile zero_Profile text).1 in id64 (p_ID p) ∧ id64 (p_UserID p).
Proof.
  apply (Decode_keeps (λ p, id64 (p_ID p) ∧ id64 (p_UserID p))); [|done]. intros j. unfold dec_profile. apply dec_struct_keeps; [|done].
  intros k j' p [H1 H2]. unfold profile_field. by_field.
Qed.

Lemma validate_none `{Validator} name fields :
  validate name fields = None ↔ Forall (λ f : string * list (string * bool), Forall (λ r, r.2 = true) f.2) fields.
Proof.
  assert (Hr : ∀ rules, failed_rule rules = None ↔ Forall (λ r : string * bool, r.2 = true) rules).
  { induction rules as [|[tag []] rules IH]; cbn [failed_rule]; [by split| |].
    - rewrite Forall_cons, IH. cbn. intuition.
    - rewrite Forall_cons. cbn. by split; [|intros []]. }
  unfold validate. transitivity (failures fields = []); [by destruct (failures fields)|].
  induction fields as [|[f rules] fields IH]; cbn [failures]; [by split|].
  rewrite Forall_cons, <-IH. cbn [snd]. rewrite <-Hr. destruct (failed_rule rules); split; try done; intros [? ?]; done.
Qed.

Ltac rules := rewrite !Forall_cons, ?Forall_nil; cbn [fst snd]; rewrite ?Forall_cons, ?Forall_nil; cbn [fst snd].

Abbreviation hold := (Forall (λ r : string * bool, r.2 = true)).

Lemma omitempty_hold s rs : hold (omitempty s rs) ↔ s = "" ∨ hold rs.
Proof. unfold omitempty. case_bool_decide; [split; [by left|by intros; apply Forall_nil]|]. split; [by right|by intros [|]]. Qed.

Lemma required_hold a b s : 1 <= a → hold [required_str s; min_len a s; max_len b s] ↔ a <= rune_count s <= b.
Proof.
  intros Ha. unfold required_str, min_len, max_len. rules. rewrite negb_true_iff, bool_decide_eq_false, !Z.leb_le.
  split; [by intros (_ & ? & ? & _)|]. intros [H1 H2]. split; [|done]. intros ->. cbn in H1. lia.
Qed.

(** C22: What a request body can hold.  Whatever its text, decoded identifiers
    are 64-bit unsigned integers; and the rules let a decoded body through
    exactly when: an order has a user and a positive amount; a profile has a
    user; a registration has a name of 3 to 64 characters, a password of 6 to
    128, no e-mail or a well-formed one of at most 128, no phone or one of at
    most 20; a login has a name and a password. *)
Theorem request_types `{CO : Codec} `{VA : !Validator} text :
  (let r := (Decode dec_order_req zero_order_req text).1 in
   id64 (cor_UserID r) ∧
   (validate "CreateOrderRequest" (order_req_rules r) = None ↔
    1 <= cor_UserID r ∧ f64_gtb (cor_Amount r) f64_zero = true)) ∧
  (let p := (Decode dec_profile zero_Profile text).1 in
   id64 (p_ID p) ∧ id64 (p_UserID p) ∧
   (validate "UserProfile" (profile_rules p) = None ↔ 1 <= p_UserID p)) ∧
  (let r := (Decode dec_register zero_register text).1 in
   validate "RegisterRequest" (register_rules r) = None ↔
   3 <= rune_count (rr_Username r) <= 64 ∧ 6 <= rune_count (rr_Password r) <= 128 ∧
   (rr_Email r = "" ∨ is_email (rr_Email r) = true ∧ rune_count (rr_Email r) <= 128) ∧
   (rr_Phone r = "" ∨ rune_count (rr_Phone r) <= 20)) ∧
  (let r := (Decode dec_login zero_login text).1 in
   validate "LoginRequest" (login_rules r) = None ↔ lr_Username r ≠ "" ∧ lr_Password r ≠ "").
Proof.
  cbv zeta. rewrite !validate_none. pose proof (order_req_range text) as Ho. pose proof (profile_range text) as [Hp Hp'].
  unfold id64 in *. split_and?; try done; try lia.
  - unfold order_req_rules. rules. rewrite negb_true_iff, Z.eqb_neq, Z.leb_le.
    intuition lia.
  - unfold profile_rules. rules. rewrite negb_true_iff, Z.eqb_neq. intuition lia.
  - set (r := (Decode dec_register zero_register text).1).
    unfold register_rules. rewrite !Forall_cons, Forall_nil. cbn [snd].
    rewrite !required_hold, !omitempty_hold by lia. unfold max_len. rules. rewrite !Z.leb_le. tauto.
  - unfold login_rules, required_str. rules. rewrite !negb_true_iff, !bool_decide_eq_false. intuition.
Qed.

(** C11: Creating an order over HTTP, on a process with a MySQL master and a
    Kafka producer: whichever of the two routes, a request that is answered
    is answered 200, 400 or 500; a body that does not decode
    or breaks a rule gets 400 and changes nothing; and 200 means that the
    order is on record: the body held a user of at least 1 and a positive
    amount, and under the number and channel of the answer the master has
    executed the insert of that user's and amount's order, or Kafka has
    accepted its message, which on the synchronous route is never the case.
    Without MySQL a creation is answered 200 too, with the order only in the
    cache ([OrderSvc.degraded_order_lost]). *)
Theorem created_means_recorded `{EN : Env} `{CO : Codec} `{VA : !Validator} `{JO : !Journal} `{JL : !JournalLaws}
    h msg forceSync c s rw cn ep c' s' :
  s_mysql s = Some rw → master rw = Some cn → OrderSvc.os_producer (orderSvc h) = Some ep →
  handleCreateOrder h msg forceSync c s = (Val tt, (c', s')) →
  ∃ status resp, g_Writes c' = (g_Writes c ++ [(status, BApi resp)])%list ∧
  match r_Data resp with
  | Some (DCreated no channel) => status = 200 ∧ ∃ req now,
      Decode dec_order_req zero_order_req (g_Body c) = (req, None) ∧
      1 <= cor_UserID req ∧ f64_gtb (cor_Amount req) f64_zero = true ∧
      OrderSvc.recorded (g_ctx c) ep cn
        (OrderSvc.filled (zero_Order <| o_UserID := cor_UserID req |> <| o_Amount := cor_Amount req |>) no now)
        channel (s_w s') ∧
      (forceSync = true → channel = "sync")
  | Some _ => False
  | None => status = 500 ∨ (status = 400 ∧ s' = s)
  end.
Proof.
  intros Hdb Hc Hp Hr. unfold handleCreateOrder in Hr. rewrite bind_valid_run in Hr.
  destruct (Decode dec_order_req zero_order_req (g_Body c)) as [req [e|]] eqn:Ed.
  { rewrite JSON_run in Hr. injection Hr as <- <-. rewrite ApiJSON_writes. eexists _, _. split; [done|]. by right. }
  destruct (validate "CreateOrderRequest" (order_req_rules req)) as [e|] eqn:Ev.
  { rewrite JSON_run in Hr. injection Hr as <- <-. rewrite ApiJSON_writes. eexists _, _. split; [done|]. by right. }
  assert (Hv : 1 <= cor_UserID req ∧ f64_gtb (cor_Amount req) f64_zero = true).
  { unfold validate, order_req_rules in Ev. cbn in Ev.
    destruct (cor_UserID req =? 0); [done|]. cbn in Ev. destruct (Z.leb_spec 1 (cor_UserID req)); [|done].
    by destruct (f64_gtb _ _). }
  destruct Hv as [Hu Ha]. cbv zeta in Hr. rewrite hbind_run in Hr. unfold getg at 1 in Hr.
  set (order := zero_Order <| o_UserID := _ |> <| o_Amount := _ |>) in *.
  rewrite hbind_run, lift_run in Hr.
  destruct ((if forceSync then OrderSvc.CreateOrderForceSync (orderSvc h) (g_ctx c) order
             else OrderSvc.CreateOrder (orderSvc h) (g_ctx c) order) s) as [[[[channel no] err]|e|] s1] eqn:E; cbn [fst snd] in Hr; [|done..].
  destruct err as [e|].
  { rewrite JSON_run in Hr. injection Hr as <- <-. rewrite ApiJSON_writes. eexists _, _. split; [done|]. by left. }
  assert (Hrec : ∃ now, OrderSvc.recorded (g_ctx c) ep cn (OrderSvc.filled order no now) channel (s_w s1) ∧
    (forceSync = true → channel = "sync")).
  { destruct forceSync.
    - destruct (OrderSvc.ForceSync_recorded _ _ _ _ _ _ _ _ _ _ Hdb Hc E) as [-> [now Hx]].
      exists now. split; [|done]. left. auto.
    - destruct (OrderSvc.CreateOrder_recorded _ _ _ _ _ _ _ _ _ _ _ Hdb Hc Hp E) as [now Hx]. by exists now. }
  destruct Hrec as (now & Hrec & Hsync). rewrite hbind_run in Hr.
  assert (Hlog : ∃ s2, (if analyticsSvc h then lift (Analytics.LogOrderCreated (o_UserID order) no) else mret tt) c s1 =
    (Val tt, (c, s2)) ∧ s_w s2 = s_w s1).
  { destruct (analyticsSvc h); [|by exists s1].
    destruct (LogOrderCreated_world (o_UserID order) no s1) as (s2 & E2 & Ew). exists s2. by rewrite lift_run, E2. }
  destruct Hlog as (s2 & E2 & Ew). rewrite E2, JSON_run in Hr. injection Hr as <- <-.
  rewrite ApiJSON_writes. eexists _, _. split; [done|]. cbn. split; [done|]. exists req, now. rewrite Ew. done.
Qed.

(** The rules of the e-mail library, as far as the witnesses need them. *)
#[global] Instance demo_validator : Validator := {
  is_email := contains "@";
  validation_text := λ name l, name +:+ Text.join "," (map snd l)
}.

Definition demo_handler : BusinessHandler := NewBusinessHandler _ OrderSvc.demo_os (Profile.wired true None) true.

Definition demo_order_body : string := json_text (JObj [("user_id", JNum "7"); ("amount", JNum "3")]).

Lemma created_means_recorded_witness :
  ∃ c' s' no channel resp, handleCreateOrder demo_handler "order accepted" false (demo_request "POST" [] demo_order_body) demo_sys =
    (Val tt, (c', s')) ∧ g_Writes c' = [(200, BApi resp)] ∧ r_Data resp = Some (DCreated no channel).
Proof.
  set (c := demo_request "POST" [] demo_order_body).
  assert (E : handleCreateOrder demo_handler "order accepted" false c demo_sys =
    (Val tt, (handleCreateOrder demo_handler "order accepted" false c demo_sys).2)).
  { rewrite (surjective_pairing (handleCreateOrder demo_handler "order accepted" false c demo_sys)) at 1.
    f_equal; vm_compute; reflexivity. }
  destruct (handleCreateOrder demo_handler "order accepted" false c demo_sys).2 as [c' s'] eqn:E2.
  pose proof (created_means_recorded demo_handler "order accepted" false c demo_sys demo_rwdb 0%nat OrderSvc.demo_ep c' s'
    eq_refl eq_refl eq_refl E) as (status & resp & Hw & H).
  assert (Hd : g_Writes c' = [(200, BApi (mkResp 200 "order accepted" (Some (DCreated "ORD700001464" "sync")) ""))]).
  { replace c' with (handleCreateOrder demo_handler "order accepted" false c demo_sys).2.1 by by rewrite E2.
    vm_compute. reflexivity. }
  eexists _, _, _, _, _. split; [exact E|]. split; [exact Hd|reflexivity].
Defined.

End Handlers.
