(* ===== verification/Health.v ===== *)
(** * Probes ([internal/health/health.go])

    Liveness, readiness and startup.  The pointers the checker was built
    with may be nil; the Kafka check is a function it is given. *)

From S2P Require Export Http Mq.

Module Health.
Import Http.

Section health.
Context `{Env}.

(** [KafkaChecker] *)
Definition KafkaChecker : Type := M (option error).

Record HealthChecker := mkChecker {
  hc_redis : bool; hc_cache : bool; hc_cb : bool;      (* not nil *)
  kafkaChecker : option KafkaChecker;
  startupTime : Z
}.

Definition NewHealthChecker (redis cache cb : bool) (kafkaChecker : option KafkaChecker) : M HealthChecker :=
  now ← Now; mret (mkChecker redis cache cb kafkaChecker now).

(** The flag is in the process's state. *)
Definition SetStartupCompleted : M unit := modify (λ s, s <| s_started := true |>).
Definition IsStarted : M bool := gets s_started.

Context (h : HealthChecker).

Definition uptime : HM Z := now ← lift Now; mret (time_sub now (startupTime h)).

Definition LivenessHandler : HM unit := up ← uptime; modg (write 200 (BProbe "UP" up)).

(** Whether a dependency answers, and what is reported of it. *)
Definition dependency (check : option (M (option error))) : HM (bool * string) :=
  match check with
  | Some ping =>
      r ← lift ping;
      mret (match r with Some e => (false, "disconnected: " +:+ err_text e) | None => (true, "connected") end)
  | None => mret (false, "not configured")
  end.

Definition redis_check : option (M (option error)) :=
  if hc_redis h then Some (r ← world redis_ping; mret (Errorf <$> r)) else None.

Definition ReadinessHandler : HM unit :=
  '(redisOK, redis) ← dependency redis_check;
  cbState ← (if hc_cb h then lift (gets (λ s, CB.GetState (s_cb s))) else mret "NONE");
  rates ← (if hc_cache h then
      lift (gets (λ s, let stats := Cache.Stats (s_mc s) in Some (Cache.st_l1_hit_rate stats, Cache.st_combo_hit_rate stats)))
    else mret None);
  '(kafkaOK, kafka) ← dependency (kafkaChecker h);
  let status := if negb redisOK || negb kafkaOK || bool_decide (cbState = "OPEN") then 503 else 200 in
  modg (write status (BReady (if status =? 200 then "READY" else "NOT_READY") redis cbState kafka rates)).

(** What the probe does while the flag is not set. *)
Definition checkStarted : HM unit :=
  total ← lift (gets (λ s, if hc_cache h then Cache.st_total (Cache.Stats (s_mc s)) else 0));
  _ ← (if 0 <? total then lift SetStartupCompleted else mret tt);
  started ← lift IsStarted;
  if started : bool then mret tt else
    up ← uptime;
    if 60 * Second <? up then lift SetStartupCompleted else mret tt.

Definition StartupHandler : HM unit :=
  started ← lift IsStarted;
  _ ← (if started : bool then mret tt else checkStarted);
  started ← lift IsStarted;
  up ← uptime;
  modg (if started : bool then write 200 (BProbe "STARTED" up) else write 503 (BProbe "STARTING" up)).

End health.

(** ** Properties *)

Section runs.
Context `{EN : Env} `{CO : Codec}.

Lemma dependency_run ping c s r s' :
  ping s = (Val r, s') →
  dependency (Some ping) c s =
    (Val (match r with Some e => (false, "disconnected: " +:+ err_text e) | None => (true, "connected") end), (c, s')).
Proof. intros E. unfold dependency. by rewrite hbind_run, lift_run, E. Qed.

(** Readiness: the probe answers 200 exactly when Redis answers a ping,
    the first Kafka broker accepts a connection and the breaker is not open;
    the answer depends on nothing else: neither database is asked, whatever
    the state of the pools, and the probe changes nothing but the outside. *)
Theorem readiness_exact hc ep c s :
  hc_redis hc = true → hc_cache hc = true → hc_cb hc = true → kafkaChecker hc = Some (Mq.Ping ep) →
  let '(redis, w1) := redis_ping (s_w s) in
  let '(kafka, w2) := match ep_brokers ep with
    | [] => (Some "no brokers configured", w1) | b :: _ => kafka_dial b w1 end in
  let up := bool_decide (redis = None) && bool_decide (kafka = None) && negb (CB.cb_state (s_cb s) =? CB.StateOpen) in
  ∃ detail_redis detail_kafka rates,
    ReadinessHandler hc c s = (Val tt,
      (write (if up then 200 else 503)
        (BReady (if up then "READY" else "NOT_READY") detail_redis (CB.GetState (s_cb s)) detail_kafka rates) c,
       s <| s_w := w2 |>)) ∧
    ∀ mysql pg, (ReadinessHandler hc c (s <| s_mysql := mysql |> <| s_pg := pg |>)).2.1 = (ReadinessHandler hc c s).2.1.
Proof.
  intros Hr Hc Hb Hk. destruct (redis_ping (s_w s)) as [redis w1] eqn:Er.
  destruct (match ep_brokers ep with [] => _ | b :: _ => _ end) as [kafka w2] eqn:Ek. intros up.
  assert (Hopen : bool_decide (CB.GetState (s_cb s) = "OPEN") = (CB.cb_state (s_cb s) =? CB.StateOpen)).
  { unfold CB.GetState, CB.State_String. destruct (Z.eqb_spec (CB.cb_state (s_cb s)) CB.StateClosed) as [->|]; [done|].
    destruct (_ =? CB.StateOpen); [done|]. by destruct (_ =? CB.StateHalfOpen). }
  assert (Hrun : ∀ t, s_w t = s_w s → s_cb t = s_cb s → s_mc t = s_mc s → ∃ detail_redis detail_kafka rates,
    ReadinessHandler hc c t = (Val tt,
      (write (if up then 200 else 503)
        (BReady (if up then "READY" else "NOT_READY") detail_redis (CB.GetState (s_cb s)) detail_kafka rates) c,
       t <| s_w := w2 |>)) ∧
    detail_redis = match redis with Some e => "disconnected: " +:+ e | None => "connected" end ∧
    detail_kafka = match kafka with Some e => "disconnected: " +:+ e | None => "connected" end ∧
    rates = Some (Cache.st_l1_hit_rate (Cache.Stats (s_mc s)), Cache.st_combo_hit_rate (Cache.Stats (s_mc s)))).
  { intros t Ew Ecb Emc. unfold ReadinessHandler. rewrite hbind_run. unfold redis_check. rewrite Hr.
    assert (Hp1 : (r ← world redis_ping; mret (Errorf <$> r)) t = (Val (Errorf <$> redis), t <| s_w := w1 |>))
      by (rewrite bind_run, world_run, Ew, Er; reflexivity).
    rewrite (dependency_run _ _ _ _ _ Hp1).
    rewrite Hb, Hc, Hk.
    assert (Hp2 : Mq.Ping ep (t <| s_w := w1 |>) = (Val (Errorf <$> kafka), t <| s_w := w2 |>)).
    { unfold Mq.Ping. destruct (ep_brokers ep); [by injection Ek as <- <-|by rewrite bind_run, world_run, s_w_set, Ek]. }
    destruct redis as [e1|]; cbn [fmap option_fmap option_map err_text]; cbv beta iota;
    rewrite hbind_run, lift_gets; cbv beta iota; rewrite hbind_run, lift_gets; cbv beta iota zeta;
    rewrite hbind_run, (dependency_run _ _ _ _ _ Hp2);
    change (s_cb (t <| s_w := w1 |>)) with (s_cb t); change (s_mc (t <| s_w := w1 |>)) with (s_mc t);
    rewrite Ecb, Emc, ?Hopen; (destruct kafka as [e2|]; cbn [fmap option_fmap option_map err_text]; cbv beta iota);
    unfold up; cbn; try (eexists _, _, _; split; [reflexivity|done]).
    destruct (CB.cb_state (s_cb s) =? CB.StateOpen); cbn; eexists _, _, _; (split; [reflexivity|done]). }
  destruct (Hrun s eq_refl eq_refl eq_refl) as (d1 & d2 & rt & E & -> & -> & ->).
  eexists _, _, _. split; [exact E|]. intros mysql pg.
  lazymatch goal with |- (ReadinessHandler _ _ ?t).2.1 = _ =>
    destruct (Hrun t eq_refl eq_refl eq_refl) as (? & ? & ? & E' & -> & -> & ->); by rewrite E', E
  end.
Qed.

Lemma uptime_run hc c s :
  uptime hc c s = (Val (time_sub (clk_now (s_w s)).1 (startupTime hc)), (c, s <| s_w := (clk_now (s_w s)).2 |>)).
Proof. unfold uptime, Now. by rewrite hbind_run, lift_run, world_run. Qed.

(** Whether the start counts as completed. *)
Definition completed (hc : HealthChecker) (s : Sys) : bool :=
  s_started s || (hc_cache hc && (0 <? l1Total (s_mc s))) ||
  (60 * Second <? time_sub (clk_now (s_w s)).1 (startupTime hc)).

Lemma started_eta s b : s_started s = b → s = s <| s_w := s_w s |> <| s_started := b |>.
Proof. intros <-. by destruct s. Qed.

Lemma checkStarted_run hc c s :
  s_started s = false → ∃ w, checkStarted hc c s = (Val tt, (c, s <| s_w := w |> <| s_started := completed hc s |>)).
Proof.
  intros Hs. unfold checkStarted, completed. rewrite hbind_run, lift_gets, Hs. cbv zeta. cbn [orb].
  assert (Ht : (0 <? (if hc_cache hc then Cache.st_total (Cache.Stats (s_mc s)) else 0)) =
    hc_cache hc && (0 <? l1Total (s_mc s))) by (by destruct (hc_cache hc)).
  rewrite Ht. destruct (_ && _); cbn [orb].
  - exists (s_w s). rewrite hbind_run, lift_run, hbind_run. unfold IsStarted. rewrite lift_gets. by destruct s.
  - rewrite hbind_run, hret_run, hbind_run. unfold IsStarted. rewrite lift_gets, Hs, hbind_run, uptime_run.
    cbv beta iota. destruct (60 * Second <? time_sub _ _); exists (clk_now (s_w s)).2.
    + rewrite lift_run. reflexivity.
    + rewrite hret_run. f_equal. f_equal. destruct s; cbn in Hs. by subst.
Qed.

(** Startup: the probe answers 200 exactly when it finds the flag set, a
    lookup counted by the cache, or more than sixty seconds elapsed, and 503
    otherwise; a 200 sets the flag, which is never cleared.  The process sets
    the flag before it listens, and from then on the answer is 200. *)
Theorem startup_answer hc c s :
  let started := completed hc s in
  (∃ up w, StartupHandler hc c s = (Val tt,
    (write (if started then 200 else 503) (BProbe (if started then "STARTED" else "STARTING") up) c,
     s <| s_w := w |> <| s_started := started |>))) ∧
  ∀ s0, (SetStartupCompleted s0).1 = Val tt ∧ completed hc (SetStartupCompleted s0).2 = true.
Proof.
  intros started. split; [|by split]. unfold StartupHandler. rewrite hbind_run. unfold IsStarted at 1. rewrite lift_gets.
  assert (H : ∃ w, (if s_started s then mret tt else checkStarted hc : HM unit) c s =
    (Val tt, (c, s <| s_w := w |> <| s_started := started |>))).
  { destruct (s_started s) eqn:Hs; [|by apply checkStarted_run]. exists (s_w s). unfold started, completed.
    rewrite Hs. cbn [orb]. by rewrite <-started_eta. }
  destruct H as [w H]. rewrite hbind_run, H, hbind_run. unfold IsStarted at 1. rewrite lift_gets, hbind_run, uptime_run.
  destruct started; by eexists _, _.
Qed.

Definition demo_checker : HealthChecker := mkChecker true true true (Some (Mq.Ping (Mq.NewEventProducer ["kafka:9092"] "order-create" 3))) 0.

End runs.

Lemma readiness_exact_witness :
  ∃ r k rates s', ReadinessHandler demo_checker (demo_request "GET" [] "") demo_sys =
    (Val tt, (write 200 (BReady "READY" r "CLOSED" k rates) (demo_request "GET" [] ""), s')).
Proof.
  pose proof (readiness_exact demo_checker (Mq.NewEventProducer ["kafka:9092"] "order-create" 3)
    (demo_request "GET" [] "") demo_sys eq_refl eq_refl eq_refl eq_refl) as H.
  assert (E1 : redis_ping (s_w demo_sys) = (None, s_w demo_sys)) by reflexivity. rewrite E1 in H.
  cbn [ep_brokers Mq.NewEventProducer] in H.
  assert (E2 : kafka_dial "kafka:9092" (s_w demo_sys) = (None, s_w demo_sys)) by reflexivity. rewrite E2 in H.
  destruct H as (r & k & rates & H & _). exists r, k, rates. eexists. exact H.
Defined.

End Health.
