(* ===== verification/System.v ===== *)
(** * The process ([cmd/server/main.go])

    Building the components from the configuration, the table of routes with
    their middlewares, the goroutines behind the tasks, shutting down, and the
    process as a step relation: requests, tasks, the Kafka worker, the
    analytics writer and the tickers in any order. *)

From S2P Require Export Handlers Health Swagger Logging.

Module System.
Import Http Handlers Health.

(** ** Building the components *)

(** What [main] keeps for serving and for the background. *)
Record Server `{Env} := mkServer {
  srv_business : BusinessHandler;
  srv_auth : AuthHandler;
  srv_health : HealthChecker;
  srv_cors : Config.CORSConfig;
  srv_consumer : Mq.EventConsumer;
  srv_mongo : bool;                   (* dbManager.MongoDB ≠ nil *)
  srv_swagger : bool                  (* the route of the documentation exists *)
}.

(** The constructors of the drivers, what creates collections and indexes,
    the files beside the program, fresh ids, the generated pages, and what
    closes the server and its clients. *)
Class Drivers `{Env} := {
  sql_Open : string → string → W → (string + conn) * W;
  mongo_connect : Manager.ClientOptions → W → option string * W;
  mongo_ping : Z → W → option string * W;
  es_newClient : list string → option (string * string) → W → option string * W;
  es_ping : W → option string * W;
  ristretto_new : Z → Z → Z → W → option string * W;   (* NumCounters, MaxCost, BufferItems *)
  os_ReadFile : string → string + string;
  mongo_createMany : string → list Schema.IndexModel → W → option string * W;
  es_exists : string → W → (string + Z) * W;
  es_create : string → string → W → option string * W;
  yaml_Unmarshal : string → Config.Config → string + Config.Config;
  config_ReadFile : string → Config.file_res;
  os_MkdirAll : string → Z → W → option string * W;
  new_uuid : W → string * W;
  swagger_pages : Swagger.pages;
  server_Shutdown : Z → W → option string * W;         (* it waits at most so long *)
  writer_Close : string → W → option string * W;       (* the Kafka writer of a topic *)
  reader_Close : W → W;
  mongo_Disconnect : W → W;
  redis_Close : W → W
}.

Section build.
Context `{Env} `{Codec} `{!Drivers}.

Definition new_breaker (cfg : Config.CircuitBreakerConfig) (now : Z) : CB.CircuitBreaker :=
  CB.NewCircuitBreaker "cdcdx-cb" (Config.MaxRequests cfg) (Config.IntervalSeconds cfg) (Config.TimeoutSeconds cfg)
    (Config.FailureThreshold cfg) (Config.SlowCallThresholdMs cfg) now.

Definition new_limiter (cfg : Config.RateLimiterConfig) (now : Z) : RL.WriteRateLimiter :=
  RL.NewWriteRateLimiter (Config.BucketCapacity cfg) (Config.RefillRate cfg) now.

Definition new_detector (cfg : Config.HotKeyConfig) : HK.HotKeyDetector :=
  HK.NewHotKeyDetector (Config.WindowSeconds cfg) (Config.Slots cfg) (Config.Threshold cfg).

Definition new_cache (cfg : Config.CacheConfig) : MultiLevelCache :=
  let mc := Cache.SetJitterPct (Config.JitterPercent cfg) (Cache.NewMultiLevelCache true true) in
  let mc := Cache.SetNullTTL (Config.NullTTL cfg) mc in
  let mc := Cache.SetL1BaseTTL (dur_of (Config.L1_TTLSeconds (Config.L1 cfg)) Second) mc in
  if 0 <? Config.L2_TTLSeconds (Config.L2 cfg)
  then Cache.SetL2BaseTTL (dur_of (Config.L2_TTLSeconds (Config.L2 cfg)) Second) mc else mc.

Definition new_producer (cfg : Config.KafkaConfig) (topic : string) : EventProducer :=
  Mq.NewEventProducer (Config.Brokers cfg) topic (Config.prod_MaxRetries (Config.Producer cfg)).

Definition new_orders (cfg : Config.KafkaConfig) (mongoDB : bool) (search : option Es.SearchClient) : OrderSvc.OrderService :=
  OrderSvc.NewOrderService _ (Some (Loader.newDataLoader mongoDB (Mongo.NewUserProfileRepo mongoDB)))
    (Some (new_producer cfg (Config.prod_Topic (Config.Producer cfg)))) true search.

Definition new_consumer (cfg : Config.KafkaConfig) : Mq.EventConsumer :=
  let c := Config.Consumer cfg in
  Mq.NewEventConsumer (Config.Brokers cfg) (Config.cons_Topic c) (Config.GroupID c) (Config.Concurrency c)
    (Config.RateLimit c) (Config.cons_MaxRetries c) (Some (new_producer cfg (Config.DLQTopic c)))
    (Config.StartFromLatest c).

(** The databases; without one its pointer stays nil. *)
Definition connect (cfg : Config.MultiDatabaseConfig) : M (option RWDB * option RWDB * bool * option Es.SearchClient) :=
  mysql ← Loader.initRWDB sql_Open (Config.MySQL cfg);
  pg ← Loader.initRWDB sql_Open (Config.Postgres cfg);
  m ← Manager.ConnectMongoDB mongo_connect mongo_ping (Config.MongoDB cfg);
  e ← Es.ConnectElasticsearch es_newClient es_ping (Config.Elasticsearch cfg);
  mret (mysql, pg, match m with inr b => b | inl _ => false end,
    match e with inr true => Some (Es.NewSearchClient true) | _ => None end).

(** The loops of the breaker and of the detector have their tickers. *)
Definition ticking (s : Sys) : bool :=
  match CB.windowResetLoop [] (s_cb s), HK.cleanupLoop [] (s_hk s) with Some _, Some _ => true | _, _ => false end.

(** [logger.Fatalw] ends the process. *)
Definition fatal {A} (msg : string) : M A := panic msg.

(** From the configuration to the routes; the Redis client takes the first
    address of the list. *)
Definition setup (cfg : Config.Config) : M Server :=
  match Config.L2_Addresses (Config.L2 (Config.Cache cfg)) with
  | [] => panic "index out of range [0] with length 0"
  | _ =>
      _ ← world redis_ping;
      '(mysql, pg, mongoDB, search) ← connect (Config.Databases cfg);
      _ ← modify (λ s, s <| s_mysql := mysql |> <| s_pg := pg |>);
      let maxEntries := Config.MaxEntries (Config.L1 (Config.Cache cfg)) in
      l1 ← world (ristretto_new (wrap64 (maxEntries * 10)) maxEntries 64);
      _ ← (match l1 with Some e => fatal "failed to init L1 cache" | None => mret tt end);
      _ ← modify (λ s, s <| s_hk := new_detector (Config.HotKey cfg) |> <| s_mc := new_cache (Config.Cache cfg) |>);
      now ← Now; _ ← modify (λ s, s <| s_cb := new_breaker (Config.CircuitBreaker cfg) now |>);
      now ← Now; _ ← modify (λ s, s <| s_rl := new_limiter (Config.RateLimiter cfg) now |>);
      let orders := new_orders (Config.Kafka cfg) mongoDB search in
      let auth := Auth.NewAuthService (Config.Secret (Config.JWT cfg)) (Config.ExpireSeconds (Config.JWT cfg)) in
      _ ← Mq.make_doneCh (Config.Concurrency (Config.Consumer (Config.Kafka cfg)));
      health ← NewHealthChecker true true true
        (Some (Mq.Ping (new_producer (Config.Kafka cfg) (Config.prod_Topic (Config.Producer (Config.Kafka cfg))))));
      _ ← SetStartupCompleted;
      mret (mkServer _ (NewBusinessHandler _ orders (Profile.wired mongoDB search) true) (NewAuthHandler auth)
        health (Config.CORS cfg) (new_consumer (Config.Kafka cfg)) mongoDB
        (Config.swagger_Enabled (Config.Swagger cfg)))
  end.

(** The process up to its listening: the configuration, logging, the
    components; [log.Fatalf] when the configuration cannot be read. *)
Definition boot : M (Config.Config * Logging.logger * Server) :=
  match Config.Load config_ReadFile yaml_Unmarshal "config.yaml" with
  | inl e => fatal ("load config: " +:+ err_text e)
  | inr cfg =>
      logger ← Logging.initLogger os_MkdirAll (Config.Logging cfg);
      srv ← setup cfg; mret (cfg, logger, srv)
  end.

(** What [main] does after the signal: closing the channels of the
    components, in its order; the analytics writer sees its own close as an
    event, and [main] waits for it ([written] below). *)
Definition shutdown : M unit :=
  cb ← gets s_cb;
  match CB.Stop cb with
  | None => panic "close of closed channel"
  | Some cb =>
      _ ← modify (λ s, s <| s_cb := cb |>);
      hk ← gets s_hk;
      match HK.Stop hk with
      | None => panic "close of closed channel"
      | Some hk => _ ← modify (λ s, s <| s_hk := hk |>); Cache.Close
      end
  end.

End build.

(** ** Routes *)

Inductive endpoint :=
| EpRegister | EpLogin
| EpMe | EpCreateOrder | EpCreateOrderSync | EpGetOrder | EpSearchOrders
| EpUpsertProfile | EpUserProfile | EpSearchUsers | EpDaily | EpBehaviors
| EpMetrics | EpBreaker | EpCacheStats
| EpLiveness | EpReadiness | EpStartup
| EpSwagger.

#[export] Instance endpoint_eq_dec : EqDecision endpoint.
Proof. solve_decision. Defined.

Definition route (e : endpoint) : string * string :=
  match e with
  | EpRegister => ("POST", "/api/v1/auth/register")
  | EpLogin => ("POST", "/api/v1/auth/login")
  | EpMe => ("GET", "/api/v1/auth/me")
  | EpCreateOrder => ("POST", "/api/v1/orders")
  | EpCreateOrderSync => ("POST", "/api/v1/orders/sync")
  | EpGetOrder => ("GET", "/api/v1/orders/:orderNo")
  | EpSearchOrders => ("GET", "/api/v1/orders/search")
  | EpUpsertProfile => ("POST", "/api/v1/users/profile")
  | EpUserProfile => ("GET", "/api/v1/users/:userID/profile")
  | EpSearchUsers => ("GET", "/api/v1/users/search")
  | EpDaily => ("GET", "/api/v1/analytics/daily")
  | EpBehaviors => ("GET", "/api/v1/analytics/behaviors")
  | EpMetrics => ("GET", "/api/v1/monitor/metrics")
  | EpBreaker => ("GET", "/api/v1/monitor/circuit-breaker")
  | EpCacheStats => ("GET", "/api/v1/monitor/cache-stats")
  | EpLiveness => ("GET", "/health/liveness")
  | EpReadiness => ("GET", "/health/readiness")
  | EpStartup => ("GET", "/health/startup")
  | EpSwagger => ("GET", "/swagger/*any")
  end.

(** The routes of the group behind [JWTAuth]. *)
Definition is_protected (e : endpoint) : bool :=
  match e with
  | EpMe | EpCreateOrder | EpCreateOrderSync | EpGetOrder | EpSearchOrders
  | EpUpsertProfile | EpUserProfile | EpSearchUsers | EpDaily | EpBehaviors => true
  | _ => false
  end.

Section serve.
Context `{Env} `{Codec} `{Validator} `{!Drivers}.
Context (srv : Server).

(** A path without a route: gin answers after the global middlewares. *)
Definition NoRoute : HM unit := modg (write 404 (BText "404 page not found")).

Definition handle (e : endpoint) : HM unit :=
  match e with
  | EpRegister => Register (srv_auth srv)
  | EpLogin => Login (srv_auth srv)
  | EpMe => GetMe
  | EpCreateOrder => CreateOrder (srv_business srv)
  | EpCreateOrderSync => CreateOrderSync (srv_business srv)
  | EpGetOrder => GetOrder (srv_business srv)
  | EpSearchOrders => SearchOrders (srv_business srv)
  | EpUpsertProfile => UpsertUserProfile (srv_business srv)
  | EpUserProfile => GetUserProfile (srv_business srv)
  | EpSearchUsers => SearchUsers (srv_business srv)
  | EpDaily => GetDailyStats
  | EpBehaviors => GetBehaviorSummary
  | EpMetrics => Metrics
  | EpBreaker => CircuitBreakerState
  | EpCacheStats => GetCacheStats
  | EpLiveness => LivenessHandler (srv_health srv)
  | EpReadiness => ReadinessHandler (srv_health srv)
  | EpStartup => StartupHandler (srv_health srv)
  | EpSwagger => if srv_swagger srv then Swagger.SwaggerWithRuntimeDefaults swagger_pages else NoRoute
  end.

Definition gate (e : endpoint) : list Middleware :=
  if is_protected e then [JWTAuth (authSvc (srv_auth srv))] else [].

Definition serve (uuid : W → string * W) (e : endpoint) : HM unit :=
  chain (global uuid (srv_cors srv) ++ gate e) (handle e).

(** ** Goroutines *)

Definition orders : OrderSvc.OrderService := orderSvc (srv_business srv).
Definition profiles : Profile.UserProfileService := profileSvc (srv_business srv).

(** The search client may be nil only if nothing was ever indexed. *)
Definition run_task (t : task) : M unit :=
  match t with
  | TSecondDelete delayMs key => Cache.secondDelete delayMs key
  | TIndexOrder o =>
      match OrderSvc.os_search orders with Some sc => OrderSvc.indexOrderTask sc o | None => Rwdb.nil_deref end
  | TIndexProfile p =>
      match Profile.us_search profiles with Some sc => Profile.indexProfileTask sc p | None => Rwdb.nil_deref end
  | TSend ep traceID key e => Mq.sendTask ep traceID key e
  | TUpdateLastLogin userID => Auth.updateLastLoginTask userID
  | TLogBatch l => Analytics.logBatchTask l
  end.

(** One round of a Kafka worker; its context carries no trace id. *)
Definition consume : M bool :=
  Mq.consume_once (OrderSvc.HandleOrderEvent orders) (srv_consumer srv) Mq.Background.

(** The goroutine that creates tables, collections and search indexes. *)
Definition initDatabases : M unit :=
  _ ← Schema.EnsureAllSQLTables os_ReadFile;
  _ ← Schema.EnsureMongoCollections os_ReadFile mongo_createMany (srv_mongo srv);
  match OrderSvc.os_search orders with
  | Some sc => _ ← Es.EnsureSearchIndexes es_exists es_create sc; mret tt
  | None => mret tt
  end.

(** ** The end of [main]

    It has closed the channels ([shutdown]); it goes on when the analytics
    writer has returned and its batches are written, [written]. *)

Definition is_batch (t : task) : bool := match t with TLogBatch _ => true | _ => false end.

Definition written (writer : bool) (s : Sys) : bool := negb writer && negb (existsb is_batch (s_tasks s)).

(** [Close] of a producer: the writer of the dead letters, its own. *)
Definition Close (ep : EventProducer) : M (option error) :=
  _ ← world (writer_Close (ep_dlqTopic ep)); r ← world (writer_Close (ep_topic ep)); mret (Errorf <$> r).

Definition close_producer (ep : option EventProducer) : M unit :=
  match ep with Some ep => _ ← Close ep; mret tt | None => Rwdb.nil_deref end.

(** The server stops serving, then the deferred calls, the last one first:
    the consumer, which waits for its workers' reports, the producer of the
    dead letters, that of the orders, the databases, Redis. *)
Definition finish (events : list Mq.stop_event) : M unit :=
  _ ← world (server_Shutdown (30 * Second));
  match Mq.Stop events (srv_consumer srv) false with
  | None => panic "close of closed channel"
  | Some None => unfinished
  | Some (Some _) =>
      _ ← world_ reader_Close;
      _ ← close_producer (Mq.ec_producer (srv_consumer srv));
      _ ← close_producer (OrderSvc.os_producer orders);
      _ ← Manager.CloseAll mongo_Disconnect {| Manager.mg_MongoClient := srv_mongo srv |};
      world_ redis_Close
  end.

(** ** Interleavings

    Every step is one whole operation; the operations of the order service
    that a breaker or a bucket must interleave with are treated in their own
    files.  [sy_closing] tells that the shutdown has begun. *)

Record system := mkSystem { sy_s : Sys; sy_batch : list BehaviorEntry; sy_writer : bool; sy_closing : bool }.

(** A request as it arrives. *)
Definition fresh (c : Gin) : Prop := g_Writes c = [] ∧ g_Errors c = [].

(** What happens next. *)
Inductive action :=
| ARequest (e : endpoint) (c : Gin) | ATask (i : nat) | AInit | AConsume | AWrite (ev : Analytics.event)
| ATick (now : Z) | AWindow | ACleanup | AShutdown.

Inductive does : action → system → system → Prop :=
| does_request e c s b wr cl r c' s' :
    fresh c → serve new_uuid e c s = (r, (c', s')) → does (ARequest e c) (mkSystem s b wr cl) (mkSystem s' b wr cl)
| does_task i t s b wr cl s' :
    s_tasks s !! i = Some t → run_task t (s <| s_tasks ::= delete i |>) = (Val tt, s') →
    does (ATask i) (mkSystem s b wr cl) (mkSystem s' b wr cl)
| does_init s b wr cl s' :
    initDatabases s = (Val tt, s') → does AInit (mkSystem s b wr cl) (mkSystem s' b wr cl)
| does_consume s b wr cl again s' :
    consume s = (Val again, s') → does AConsume (mkSystem s b wr cl) (mkSystem s' b wr cl)
| does_write ev s b cl b' wr' s' :
    (ev = Analytics.EvClose → cl = true) → Analytics.batchWriter ev b s = (Val (Some (wr', b')), s') →
    does (AWrite ev) (mkSystem s b true cl) (mkSystem s' b' wr' cl)
| does_tick now s b wr cl :
    does (ATick now) (mkSystem s b wr cl) (mkSystem (s <| s_cb ::= CB.stateTransitionTick now |>) b wr cl)
| does_window s b wr cl :
    does AWindow (mkSystem s b wr cl) (mkSystem (s <| s_cb ::= CB.windowResetTick |>) b wr cl)
| does_cleanup s b wr cl :
    does ACleanup (mkSystem s b wr cl) (mkSystem (s <| s_hk ::= HK.cleanup |>) b wr cl)
| does_shutdown s b wr s' :
    shutdown s = (Val tt, s') → does AShutdown (mkSystem s b wr false) (mkSystem s' b wr true).

Definition step (x y : system) : Prop := ∃ a, does a x y.

(** Several in a row. *)
Inductive history : list action → system → system → Prop :=
| history_nil x : history [] x x
| history_cons a l x y z : does a x y → history l y z → history (a :: l) x z.

End serve.
End System.
