(* ===== verification/Store.v ===== *)
(** * The order service as a map

    The caches in front of the [orders] table are transparent: run one
    operation after another, the order service behaves as a map from order
    numbers to rows.  [coherent t s] ties the process to the map: the table
    is [t], and whatever either cache tier holds under the key of an order
    says what [t] says.  Every operation of the service is proved against
    the map, then whole histories. *)

From S2P Require Export Table System.

Module Store.
Import OrderSvc Table.

Section store.
Context `{EN : Env} `{CO : Codec} `{CL : !CodecLaws} `{VI : !Views} `{RE : !RedisLaws} `{LL : !L1Laws}
  `{CK : !ClockLaws} `{FR : !FrameLaws} `{SF : !ServiceFrames} `{OT : !OrderTable} `{OL : !OrderTableLaws}.
#[local] Set Default Proof Using "All".

Implicit Types (t : gmap string Order) (o : Order) (no : string).

(** ** The invariant *)

Definition order_keys (k : string) : Prop := ∃ no, numbered no ∧ k = order_key no.

(** A row is stored under its number, can be written as JSON, and its
    identifiers survive float64. *)
Definition row_ok no o : Prop := o_OrderNo o = no ∧ order_wf o ∧ o_ID o <= 2 ^ 53 ∧ o_UserID o <= 2 ^ 53.
Definition rows_ok t : Prop := ∀ no o, numbered no → t !! no = Some o → row_ok no o.

(** What may be cached: the row, or the row decoded without its type. *)
Definition Valid t (k : string) (v : gval) : Prop :=
  ∃ no o, k = order_key no ∧ t !! no = Some o ∧ (v = VOrder o ∨ v = order_map o).
Definition Absent t (k : string) : Prop := ∃ no, k = order_key no ∧ t !! no = None.

Definition pool_up (db : option RWDB) : Prop := ∃ rw c, db = Some rw ∧ master rw = Some c.

Definition coh (dk : string → Prop) t (s : Sys) : Prop :=
  Cache.cache_ok (Valid t) (Absent t) dk (table_is t) pool_up true s.

Definition coherent t (s : Sys) : Prop := rows_ok t ∧ coh order_keys t s.

Lemma order_key_inj no no' : order_key no = order_key no' → no = no'.
Proof. unfold order_key. intros E. by simplify_eq. Qed.

Lemma order_keys_key no : order_keys (order_key no) ↔ numbered no.
Proof. split; [|by exists no]. intros (no' & Hn & E%order_key_inj). by subst. Qed.

Lemma order_keys_no_lock k : order_keys k → hasPrefix "cache:lock:" k = false.
Proof. by intros (no & _ & ->). Qed.

Lemma lock_key_no_order no : ¬ order_keys (lock_key no).
Proof. intros (no' & (u & q & r & _ & _ & _ & ->) & E). discriminate E. Qed.

Lemma valid_order t no v : Valid t (order_key no) v → ∃ o, t !! no = Some o ∧ (v = VOrder o ∨ v = order_map o).
Proof. intros (no' & o & <-%order_key_inj & H). by exists o. Qed.

Lemma absent_order t no : Absent t (order_key no) ↔ t !! no = None.
Proof. split; [by intros (no' & <-%order_key_inj & H)|by exists no]. Qed.

(** A text of a row is no null marker, and reads back as the row's map. *)
Lemma row_text no o :
  row_ok no o → Cache.jsonText (VOrder o) ≠ Cache.NullMarker ∧ Cache.parseValue (Cache.jsonText (VOrder o)) = order_map o.
Proof.
  intros (_ & Hwf & _). unfold Cache.jsonText, Marshal. cbn [enc_val]. rewrite enc_order_wf by done. cbn [fmap option_fmap option_map].
  pose proof (json_roundtrip (order_json o) (order_json_wf o Hwf)) as Hj. split.
  - intros E. unfold Cache.NullMarker in E. rewrite E, json_parse_bare in Hj. done.
  - unfold Cache.parseValue. rewrite Hj. by rewrite dec_val_order.
Qed.

(** The map that a row became reads back as the row. *)
Lemma order_back no o : row_ok no o → (Unmarshal dec_order zero_Order (Cache.jsonText (order_map o))).1 = o.
Proof.
  intros (_ & Hwf & Hi & Hu). pose proof Hwf as ([H1 _] & [H2 _] & _).
  pose proof (remarshal_order o (o_ID o) (o_UserID o) Hwf (via_float_exact _ (conj H1 Hi)) (via_float_exact _ (conj H2 Hu))) as Hm.
  unfold remarshalTo, Cache.jsonText in *. destruct (Marshal (order_map o)) as [b|]; [|done]. rewrite Hm. cbn [fst].
  by destruct o.
Qed.

Lemma row_cached t no o :
  numbered no → rows_ok t → t !! no = Some o →
  Cache.good (Valid t) (order_key no) (VOrder o) ∧ Cache.ok_l2 (Valid t) (Absent t) (order_key no) (Cache.jsonText (VOrder o)).
Proof.
  intros Hn Hr Ho. assert (Hg : ∀ v, v = VOrder o ∨ v = order_map o → Cache.good (Valid t) (order_key no) v).
  { intros v Hv. split; [destruct Hv as [-> | ->]; discriminate|].
    split; [destruct Hv as [-> | ->]; discriminate|]. by exists no, o. }
  split; [by apply Hg; left|]. destruct (row_text no o (Hr _ _ Hn Ho)) as [H1 H2]. right. split; [done|].
  rewrite H2. apply Hg. by right.
Qed.

Ltac t_seq := apply triple_bind with (λ _, True); [|intros ? _].

(** ** Reading *)

Definition triple t {A} (Q : A → Prop) (m : M A) : Prop := State.triple (coh order_keys t) Q m.

Lemma pool_replica rw c : master rw = Some c → ∃ c' rw', Rwdb.replica rw = (Some c', rw') ∧ master rw' = Some c.
Proof.
  intros Hm. destruct (replicas rw) as [|x l] eqn:E.
  - exists c, rw. unfold Rwdb.replica. by rewrite E, Hm.
  - destruct (Rwdb.replica_spec rw) as (Er & Hn & Hi); [by rewrite E|]. rewrite Er.
    assert (Hlt : (Z.to_nat (wrapu32 (nextIdx rw + 1) mod Z.of_nat (Datatypes.length (replicas rw))) < Datatypes.length (replicas rw))%nat).
    { pose proof (Z.mod_pos_bound (wrapu32 (nextIdx rw + 1)) _ Hn). lia. }
    destruct (lookup_lt_is_Some_2 _ _ Hlt) as [c' Ec]. rewrite Ec. by eexists _, _.
Qed.

(** The pool is there, so a lookup by number asks it and answers the row. *)
Lemma pool_available t s : coh order_keys t s → Rwdb.unavailable Rwdb.MySQL s = (Val false, s).
Proof.
  intros (_ & (rw & c & E & Em) & _). rewrite Rwdb.unavailable_run. cbn [Rwdb.get_db]. rewrite E.
  unfold Rwdb.IsNil. by rewrite Em.
Qed.

Definition row_answer t no (r : option row_res) : Prop :=
  match r with
  | Some (RowOk l) => ∃ o, t !! no = Some o ∧ Rwdb.scan_order l = inr o
  | Some RowNone => t !! no = None
  | _ => False
  end.

Lemma t_select t q no :
  numbered no → q = Loader.select_order ∨ q = select_order →
  triple t (row_answer t no) (Rwdb.QueryRowContext Rwdb.MySQL q [SStr no]).
Proof.
  intros Hn Hq s (Hw & (rw & c & E & Em) & Hc). destruct (pool_replica rw c Em) as (c' & rw' & Er & Em').
  rewrite (Rwdb.query_row_run Rwdb.MySQL q _ s rw c' rw' E Er). cbn [fst snd].
  pose proof Hw as [_ [Ht Hh]]. split.
  - split; [|split; [by exists rw', c|exact Hc]]. cbn [s_w set_field].
    destruct (sql_row_frames c' q [SStr no] (s_w s)). eapply (Cache.world_ok_frames _ _ _ (table_is t)); [exact Hw|done|done|].
    apply table_query.
  - pose proof (table_select c' q no (s_w s) Hh Hn Hq) as Hs. unfold row_answer. rewrite Ht in Hs.
    by destruct (sql_query_row _ _ _ _).1.
Qed.

(** The loader on the key of an order. *)
Lemma loader_order mongoDB repo no s :
  numbered no →
  Loader.newDataLoader mongoDB repo (order_key no) s =
    (down ← Rwdb.unavailable Rwdb.MySQL;
     if down : bool then mret (VNil, None)
     else
       row ← Rwdb.QueryRowContext Rwdb.MySQL Loader.select_order [SStr no];
       match row with
       | None => Rwdb.nil_deref
       | Some (RowOk l) => match Rwdb.scan_order l with inr o => mret (VOrder o, None) | inl _ => mret (VNil, None) end
       | Some _ => mret (VNil, None)
       end) s.
Proof.
  intros Hn. unfold Loader.newDataLoader. rewrite Loader.profile_branch_dead, andb_false_r.
  assert (E1 : str_take 6 (order_key no) = "order:") by reflexivity.
  assert (E2 : str_drop 6 (order_key no) = no) by reflexivity.
  assert (E3 : (6 <? len (order_key no)) = true).
  { destruct Hn as (u & q & r & _ & _ & _ & ->). apply Z.ltb_lt. unfold len, order_key, order_no. rewrite !length_append. cbn [String.length]. lia. }
  rewrite E1, E2, E3. by rewrite bool_decide_true.
Qed.

Lemma t_loader mongoDB repo no t :
  numbered no → rows_ok t →
  triple t (Cache.load_ok (Valid t) (Absent t) (λ _, False) (order_key no)) (Loader.newDataLoader mongoDB repo (order_key no)).
Proof.
  intros Hn Hr s Hs. rewrite loader_order, bind_run, (pool_available t) by done. revert s Hs.
  eapply triple_bind; [by apply t_select; [|left]|]. intros [[l| |e]|] Hrow; try done.
  - destruct Hrow as (o & Ho & ->). apply triple_ret. right. by apply row_cached.
  - apply triple_ret. left. split; [done|]. by apply absent_order.
Qed.

(** The answer of the map. *)
Definition lookup_answer t no : option Order * option error :=
  match t !! no with
  | Some o => (Some o, None)
  | None => (None, Some (Errorf ("order not found: " +:+ no)))
  end.

Lemma t_dbQuery t no :
  numbered no → rows_ok t → triple t (λ r, r = lookup_answer t no) (dbQuery no).
Proof.
  intros Hn Hr s Hs. unfold dbQuery. rewrite bind_run, (pool_available t) by done. revert s Hs.
  eapply triple_bind; [by apply t_select; [|right]|]. unfold lookup_answer. intros [[l| |e]|] Hrow; try done.
  - destruct Hrow as (o & Ho & ->). rewrite Ho. apply triple_bind with (λ _, True); [|intros; by apply triple_ret].
    by_class Cache.t_Set; [|done]. intros _. destruct (row_cached t no o Hn Hr Ho). split; [by right|done].
  - rewrite Hrow. apply triple_bind with (λ _, True); [|intros; by apply triple_ret].
    by_class Cache.t_SetNull; [|done]. intros _. by apply absent_order.
Qed.

Lemma lock_answers t k v ttl w :
  table_is t w → match (redis_setnx k v ttl w).1 with ROk _ => True | _ => False end.
Proof. intros [_ Hh]. by destruct (healthy_setnx k v ttl w Hh) as [b ->]. Qed.

(** The loader of [main.go]. *)
Definition loads (os : OrderService) : Prop := ∃ mongoDB repo, os_loader os = Some (Loader.newDataLoader mongoDB repo).

Lemma t_GetOrder os t no :
  loads os → numbered no → rows_ok t → triple t (λ r, r = lookup_answer t no) (GetOrder os no).
Proof.
  intros (m & r & El) Hn Hr. unfold GetOrder. rewrite El.
  eapply triple_bind.
  { apply (Cache.t_Get (Valid t) (Absent t) order_keys order_keys_no_lock (table_is t) pool_up true (λ _, False)).
    - intros k v ttl w Hw. pose proof (lock_answers t k v ttl w Hw). by destruct (redis_setnx k v ttl w).1.
    - by apply order_keys_key.
    - done.
    - intros load [= <-]. by apply t_loader. }
  intros [[val found] [e|]] Hok; [by destruct Hok as (_ & _ & [])|]. cbn [Cache.get_ok] in Hok.
  destruct found; [|by apply t_dbQuery]. destruct Hok as [[-> Ha]|[_ Hv]].
  - apply triple_ret. unfold lookup_answer. by apply absent_order in Ha as ->.
  - destruct (valid_order _ _ _ Hv) as (o & Ho & Hval). unfold lookup_answer. rewrite Ho.
    destruct Hval as [-> | ->]; [by apply triple_ret|]. unfold order_map. fold (order_map o). apply triple_ret.
    by rewrite (order_back no) by auto.
Qed.

(** ** Operations that leave the map alone

    [keeps m]: from a coherent state, [m] returns, in a coherent state, with
    the hot-key detector as it was; for any set of keys among those of
    orders. *)

Section keeps.
Context (dk : string → Prop) (t : gmap string Order) (Hdk : ∀ k, dk k → order_keys k).
#[local] Set Default Proof Using "Type CL RE LL CK FR SF OL".

Definition keeps {A} (m : M A) : Prop :=
  ∀ s, coh dk t s → ∃ a s', m s = (Val a, s') ∧ coh dk t s' ∧ s_hk s' = s_hk s.

Lemma coh_bind {A B} (m : M A) (f : A → M B) : keeps m → (∀ a, keeps (f a)) → keeps (m ≫= f).
Proof.
  intros Hm Hf s Hs. destruct (Hm s Hs) as (a & s1 & E & H1 & K1).
  destruct (Hf a s1 H1) as (b & s2 & E2 & H2 & K2). exists b, s2. rewrite bind_run, E. by rewrite K2, K1.
Qed.

Lemma coh_ret {A} (a : A) : keeps (mret a).
Proof. intros s Hs. by exists a, s. Qed.

Lemma coh_gets {A} (f : Sys → A) : keeps (gets f).
Proof. intros s Hs. by exists (f s), s. Qed.

Lemma keeps_modify f :
  (∀ s, s_w (f s) = s_w s ∧ s_mysql (f s) = s_mysql s ∧ s_mc (f s) = s_mc s ∧ s_hk (f s) = s_hk s) → keeps (modify f).
Proof.
  intros Hf s Hs. destruct (Hf s) as (E1 & E2 & E3 & E4). exists tt, (f s). split; [done|]. split; [|done].
  unfold coh, Cache.cache_ok. by rewrite E1, E2, E3.
Qed.

Lemma coh_when b m : keeps m → keeps (when b m).
Proof. destruct b; [done|]. intros _. apply coh_ret. Qed.

Lemma coh_deferred {A} d (m : M A) : keeps d → keeps m → keeps (deferred d m).
Proof.
  intros Hd Hm s Hs. destruct (Hm s Hs) as (a & s1 & E & H1 & K1). destruct (Hd s1 H1) as (u & s2 & E2 & H2 & K2).
  exists a, s2. unfold deferred. rewrite E, E2. by rewrite K2, K1.
Qed.

(** A call that touches no tier, and one of the cache. *)
Lemma coh_world {A} (op : W → A * W) :
  (∀ w, redis_frame w (op w).2 ∧ l1_frame w (op w).2) → (∀ w, table_is t w → table_is t (op w).2) → keeps (world op).
Proof.
  intros Hf Ht s (Hw & Hp & Hc). rewrite world_run. eexists _, _. split; [reflexivity|]. split; [|done].
  split; [|by split]. destruct (Hf (s_w s)). eapply (Cache.world_ok_frames _ _ _ (table_is t)); [exact Hw|done|done|apply Ht].
Qed.

Lemma keeps_triple {A} (m : M A) :
  State.triple (coh dk t) (λ _, True) m → (∀ s, ∃ a w, m s = (Val a, s <| s_w := w |>)) → keeps m.
Proof.
  intros Hm Hr s Hs. destruct (Hm s Hs) as [H1 _]. destruct (Hr s) as (a & w & E). rewrite E in H1.
  exists a, (s <| s_w := w |>). done.
Qed.

Create HintDb keeps.
Hint Resolve coh_ret coh_gets coh_when coh_deferred : keeps.
Hint Extern 1 (keeps (modify _)) => apply keeps_modify; intros; by split : keeps.
Ltac keeps := intros;
  lazymatch goal with
  | |- keeps (_ ≫= _) => apply coh_bind; [keeps|intros ?; keeps]
  | |- keeps (when _ _) => apply coh_when; keeps
  | |- keeps (deferred _ _) => apply coh_deferred; keeps
  | |- _ => first [solve [eauto 3 with keeps] | case_match; keeps | idtac]
  end.

Lemma keeps_Now : keeps Now.
Proof. apply coh_world; [apply clk_now_frames|apply kept_now]. Qed.
Lemma keeps_rand n : keeps (world (rand_read n)).
Proof. apply coh_world; [apply rand_frames|apply kept_rand]. Qed.
Lemma keeps_kafka topic m : keeps (world (kafka_write topic m)).
Proof. apply coh_world; [apply kafka_write_frames|apply table_kafka]. Qed.
Lemma keeps_index i d b : keeps (world (es_index i d b)).
Proof. apply coh_world; [apply es_index_frames|apply table_index]. Qed.
Hint Resolve keeps_Now keeps_rand keeps_kafka keeps_index : keeps.

Lemma keeps_Set k v : ¬ dk k → keeps (Cache.Set_ k v).
Proof.
  intros Hk. apply keeps_triple; [by by_class Cache.t_Set|]. intros s. exists tt. apply Cache.Set_val.
Qed.

Lemma keeps_secondDelete d k : keeps (Cache.secondDelete d k).
Proof.
  apply keeps_triple; [by by_class Cache.t_secondDelete|]. intros s. exists tt.
  unfold Cache.secondDelete, Cache.mc, Cache.l2Del, Cache.l1Del, Sleep. rewrite bind_run, world__run, bind_run.
  unfold gets at 1. rewrite bind_run. destruct (mc_l2 _); cbn [when].
  - rewrite bind_run, world_run, ret_run, world__run. by eexists.
  - rewrite ret_run, world__run. by eexists.
Qed.

(** The lock of a creation is no key of an order. *)
Lemma keeps_setnx no v ttl : keeps (world (redis_setnx (lock_key no) v ttl)).
Proof using All.
  apply keeps_triple; [|intros s; rewrite world_run; by eexists _, _].
  by_class Cache.t_world. intros w Hw. split; [|done]. by_class Cache.setnx_ok; [done|].
  intros Hk. by apply (lock_key_no_order no), Hdk.
Qed.

Lemma keeps_eval k v : keeps (world (redis_eval unlockScript k v)).
Proof.
  apply keeps_triple; [|intros s; rewrite world_run; by eexists _, _].
  by_class Cache.t_world. intros w Hw. split; [|done]. by by_class Cache.eval_ok.
Qed.
Hint Resolve keeps_Set keeps_secondDelete keeps_setnx keeps_eval : keeps.

Lemma keeps_Sleep d : keeps (Sleep d).
Proof.
  apply keeps_triple; [by by_class Cache.t_Sleep|]. intros s. unfold Sleep. rewrite world__run. by eexists _, _.
Qed.
Hint Resolve keeps_Sleep : keeps.

Lemma keeps_unlock no token : keeps (unlock (lock_key no) token).
Proof. unfold unlock, Lock.Unlock. keeps. Qed.

Lemma triple_of_keeps {A} (m : M A) : keeps m → State.triple (coh dk t) (λ _, True) m.
Proof. intros Hm s Hs. destruct (Hm s Hs) as (a & s' & E & H & _). by rewrite E. Qed.

Lemma lock_loop_coh fuel no token ttl wait deadline :
  State.triple (coh dk t) (λ _, True) (Lock.lock_loop fuel (lock_key no) token ttl wait deadline).
Proof using All.
  induction fuel as [|fuel IH]; [by apply triple_unfinished|]. cbn [Lock.lock_loop].
  eapply triple_bind; [by apply triple_of_keeps, keeps_setnx|]. intros [[]| |e] _; [by apply triple_ret| |by apply triple_ret..].
  eapply triple_bind; [apply triple_of_keeps; unfold Lock.out_of_time; keeps|]. intros [] _; [by apply triple_ret|].
  eapply triple_bind; [apply triple_of_keeps, keeps_Sleep|]. by intros.
Qed.

Lemma keeps_Lock no ttl wait : 0 <= wait → keeps (Lock.Lock (lock_key no) ttl wait).
Proof using All.
  intros Hw. apply keeps_triple.
  - unfold Lock.Lock, Lock.randomHex. do 3 (eapply triple_bind; [apply triple_of_keeps; keeps|intros ? _]).
    apply lock_loop_coh.
  - intros s. destruct (Lock.Lock_run (lock_key no) ttl wait s) as (w0 & w1 & token & _ & E & Hd). rewrite E.
    set (t' := s <| s_w := w1 |>).
    destruct (Lock.lock_enough (lock_key no) token ttl wait (clk_now w0).1 t' Hw Hd) as (r & s' & E').
    destruct (Lock.lock_loop_world (Lock.lock_fuel wait) (lock_key no) token ttl wait ((clk_now w0).1 + wait) t') as [w Ew].
    rewrite E' in Ew |- *. cbn in Ew. subst s'. by eexists _, _.
Qed.

Lemma keeps_breaker :
  (∀ d, keeps (cbRecordSuccess d)) ∧ keeps cbRecordFailure ∧ keeps cbAllow ∧ keeps rlTryAcquire.
Proof. unfold cbRecordSuccess, cbRecordFailure, cbAllow, rlTryAcquire, cb_update. split_and?; keeps. Qed.

Lemma keeps_Send ep ctx key v : keeps (Mq.Send ep ctx key v).
Proof. unfold Mq.Send, Mq.compensationLog. keeps. Qed.
Hint Resolve keeps_unlock keeps_Send : keeps.

Lemma keeps_publish os ctx o : keeps (publishOrderEvent os ctx o).
Proof. unfold publishOrderEvent, order_event, Mq.SendAsync, go. keeps. Qed.

Lemma keeps_createAsync os ctx o : keeps (createAsync os ctx o).
Proof. unfold createAsync, order_event. keeps. Qed.

Lemma keeps_indexOrder o : keeps (indexOrderToES o).
Proof. unfold indexOrderToES, go. keeps. Qed.

Lemma keeps_indexTask sc o : keeps (indexOrderTask sc o).
Proof. unfold indexOrderTask, Es.IndexOrder. keeps. Qed.

Lemma keeps_sendTask ep trace key e : keeps (Mq.sendTask ep trace key e).
Proof. unfold Mq.sendTask. keeps. Qed.

End keeps.

(** ** Writing *)

Definition but (no : string) (k : string) : Prop := order_keys k ∧ k ≠ order_key no.

Lemma but_keys no k : but no k → order_keys k.
Proof. by intros []. Qed.

Lemma upserted_ok t id o no :
  storable o → o_OrderNo o = no → 0 <= id <= 2 ^ 53 → (∀ old, t !! no = Some old → row_ok no old) →
  row_ok no (upserted id o (t !! no)).
Proof.
  intros [Hn Hu] <- Hid Hold. destruct (column_keys (o <| o_ID := id |>)) as (E2 & E3).
  assert (Hwf : order_wf (column (o <| o_ID := id |>))) by (apply column_wf; cbn; [done|lia|lia]).
  unfold upserted. destruct (t !! o_OrderNo o) as [old|].
  - destruct (Hold old eq_refl) as (H1 & (W1 & W2 & W3 & W4 & W5 & W6 & W7) & H3 & H4).
    destruct Hwf as (_ & _ & V3 & _ & V5 & _ & V7). split; [done|]. split; [|done]. exact (conj W1 (conj W2 (conj V3 (conj W4 (conj V5 (conj W6 V7)))))).
  - split; [done|]. split; [done|]. split; [rewrite (column_id o id); cbn; lia|rewrite E2; cbn; lia].
Qed.

Lemma upsert_rows t id o : rows_ok t → storable o → 0 <= id <= 2 ^ 53 → rows_ok (upsert id o t).
Proof.
  intros Hr Ho Hid no r Hn. unfold upsert. destruct (decide (no = o_OrderNo o)) as [->|Hne].
  - rewrite lookup_insert_eq. intros [= <-]. apply upserted_ok; eauto.
  - rewrite lookup_insert_ne by done. eauto.
Qed.

(** The insert either is refused, or the table has the row and the tiers are
    right about every other order. *)
Lemma exec_insert t o s :
  coherent t s → storable o →
  ∃ r s', Rwdb.ExecContext Rwdb.MySQL insert_order (insert_args o) s = (Val r, s') ∧ s_hk s' = s_hk s ∧
    match r with
    | inl _ => coherent t s'
    | inr _ => ∃ id, 0 <= id <= 2 ^ 53 ∧ coh (but (o_OrderNo o)) (upsert id o t) s'
    end.
Proof.
  intros [Hr Hs] Ho. pose proof Hs as (Hw & (rw & c & E & Em) & Hc).
  rewrite (Rwdb.exec_run Rwdb.MySQL _ _ s rw c E Em). eexists _, _. split; [reflexivity|]. split; [done|].
  destruct Hw as [Ht [Eo Hh]]. pose proof (table_insert c o (s_w s) Hh Ho) as Hi.
  destruct (sql_exec_frames c insert_order (insert_args o) (s_w s)) as [Hrf Hlf].
  destruct (sql_exec c insert_order (insert_args o) (s_w s)) as [r w']. cbn [fst snd] in *. destruct Hi as [Hh' Hi].
  set (s' := s <| s_w := w' |>).
  assert (Hx : Cache.cache_ok (Valid t) (Absent t) order_keys (λ _, True) pool_up true s').
  { split; [|split; [by exists rw, c|exact Hc]]. split; [|done].
    eapply (Cache.tiers_shrink _ _ _ (λ _, True)); [exact Ht|]. intros k _. split; [apply Hlf|apply only_expiry_shrinks, Hrf]. }
  destruct r as [e|r].
  - split; [done|]. eapply Cache.cache_ok_sub; [..|exact Hx]; [done|]. intros _. split; [cbn; congruence|done].
  - destruct Hi as (id & Hid & Hi). exists id. split; [done|]. eapply Cache.cache_ok_sub; [..|exact Hx].
    + intros k [Hk Hne]. split; [done|]. split.
      * intros v (no & o' & -> & Hl & Hv). exists no, o'. split; [done|]. split; [|done]. unfold upsert.
        rewrite lookup_insert_ne; [done|congruence].
      * intros (no & -> & Hl). exists no. split; [done|]. unfold upsert. rewrite lookup_insert_ne; [done|congruence].
    + intros _. split; [cbn; congruence|done].
Qed.

Lemma dbWrite_spec os t o s :
  coherent t s → storable o →
  ∃ r s', dbWrite os o s = (Val r, s') ∧ s_hk s' = s_hk s ∧
    match r with
    | Some _ => coherent t s'
    | None => ∃ id, 0 <= id <= 2 ^ 53 ∧ coh (but (o_OrderNo o)) (upsert id o t) s'
    end.
Proof.
  intros Hs Ho. unfold dbWrite. rewrite bind_run, (pool_available t) by apply Hs.
  destruct (exec_insert t o s Hs Ho) as ([e|r] & s1 & E & K1 & H1); rewrite bind_run, E; [by eexists _, _|].
  destruct H1 as (id & Hid & H1).
  assert (Hk : keeps (but (o_OrderNo o)) (upsert id o t)
    (_ ← Cache.Set_ (order_key (o_OrderNo o)) (VOrder o);
     _ ← match os_search os with Some _ => indexOrderToES o | None => mret tt end; mret (@None error))).
  { apply coh_bind; [apply keeps_Set; by intros [_ ?]|]. intros _. apply coh_bind; [|intros; apply coh_ret].
    destruct (os_search os); [apply keeps_indexOrder|apply coh_ret]. }
  destruct (Hk s1 H1) as (a & s2 & E2 & H2 & K2). rewrite E2. exists a, s2. split; [done|]. split; [congruence|].
  assert (Ha : a = None); [|subst a; by exists id].
  apply bind_inv in E2 as (? & ? & _ & E2). by apply bind_inv in E2 as (? & ? & _ & [= <- _]).
Qed.

(** ** Deleting *)

(** A key that its deletions have removed from both tiers is right again. *)
Lemma forgotten no t s :
  coh (but no) t s → l1_view (s_w s) (order_key no) = None → r_entry (s_w s) (order_key no) = None → coh order_keys t s.
Proof. intros Hs E1 E2. eapply Cache.cache_ok_join; [exact Hs|done|]. unfold r_view. by rewrite E2. Qed.

Lemma t_del_both dk t k d : State.triple (coh dk t) (λ _, True) (Cache.InvalidateWithDelay k d).
Proof.
  unfold Cache.InvalidateWithDelay, Cache.mc, go. t_seq; [by apply triple_gets|].
  t_seq; [apply triple_when; [done|by by_class Cache.t_l2Del]|]. t_seq; [by by_class Cache.t_l1Del|].
  by by_class Cache.t_modify.
Qed.

Lemma forget_delay no d t s :
  coh (but no) t s →
  ∃ s', Cache.InvalidateWithDelay (order_key no) d s = (Val tt, s') ∧ coh order_keys t s' ∧ s_hk s' = s_hk s.
Proof.
  intros Hs. pose proof (t_del_both (but no) t (order_key no) d s Hs) as [H1 _].
  pose proof Hs as ([_ [_ Hh]] & _ & _ & Hl2). rewrite Cache.invalidate_delay_run, Hl2 in H1 |- *.
  eexists. split; [reflexivity|]. split; [|done]. eapply forgotten; [exact H1|apply l1_del_key|].
  by apply Cache.deleted_both, healthy_del.
Qed.

Lemma forget no t s :
  coh (but no) t s →
  ∃ s', Cache.Invalidate (order_key no) s = (Val tt, s') ∧ coh order_keys t s' ∧ s_hk s' = s_hk s.
Proof.
  intros Hs. assert (H1 : State.triple (coh (but no) t) (λ _, True) (Cache.Invalidate (order_key no))).
  { unfold Cache.Invalidate. t_seq; [by by_class Cache.t_l1Del|]. t_seq; [by apply triple_gets|].
    apply triple_when; [done|by by_class Cache.t_l2Del]. }
  pose proof (H1 s Hs) as [H2 _]. pose proof Hs as ([_ Hx] & _ & _ & Hl2).
  set (w1 := l1_del (order_key no) (s_w s)).
  assert (E : Cache.Invalidate (order_key no) s = (Val tt, s <| s_w := (redis_del (order_key no) w1).2 |>)).
  { unfold Cache.Invalidate, Cache.l1Del, Cache.mc, Cache.l2Del. rewrite bind_run, world__run, bind_run. unfold gets.
    cbn [s_mc set_field]. rewrite Hl2. cbn [when]. by rewrite bind_run, world_run. }
  rewrite E in H2 |- *. eexists. split; [reflexivity|]. split; [|done]. eapply forgotten; [exact H2|..]; cbn [s_w set_field].
  - pose proof (l1_del_key (order_key no) (s_w s)) as Hk. fold w1 in Hk.
    destruct (redis_del_l1 (order_key no) w1 (order_key no)) as [E'|E']; congruence.
  - pose proof (kept_l1_del (P := table_is _) (order_key no) _ Hx) as [_ Hh]. fold w1 in Hh.
    destruct (healthy_del (order_key no) w1 Hh) as [n En].
    destruct (redis_del_key (order_key no) w1) as [?|[Hn _]]; [done|by destruct (Hn n)].
Qed.

Lemma forget_second no d t s :
  in_int64 (d * Millisecond) → coh (but no) t s →
  ∃ s', Cache.secondDelete d (order_key no) s = (Val tt, s') ∧ coh order_keys t s' ∧ s_hk s' = s_hk s.
Proof.
  intros Hd Hs. destruct (keeps_secondDelete (but no) t d (order_key no) s Hs) as (u & s1 & E1 & H1 & K1).
  pose proof Hs as ([_ Hx] & _ & _ & Hl2). rewrite Cache.second_delete_run, Hl2 in E1 |- * by done.
  injection E1 as <- <-. eexists. split; [reflexivity|]. split; [|done]. eapply forgotten; [exact H1|apply l1_del_key|].
  apply Cache.deleted_both, healthy_del. by pose proof (kept_sleep (P := table_is _) (d * Millisecond) _ Hx) as [_ Hh].
Qed.

(** ** The operations of the service *)

Lemma kept_coherent {A} t (m : M A) s :
  keeps order_keys t m → coherent t s → ∃ a s', m s = (Val a, s') ∧ coherent t s' ∧ s_hk s' = s_hk s.
Proof. intros Hm [Hr Hs]. destruct (Hm s Hs) as (a & s' & E & H & K). by exists a, s'. Qed.

(** What a creation of [o] answers, and the map it leaves; [label] is the
    channel reported with an error, and only [async] may queue the order. *)
Definition outcome (label : string) t o (r : created) (t' : gmap string Order) : Prop :=
  let '(l, no, err) := r in
  no = o_OrderNo o ∧
  match err with
  | None => (l = "sync" ∧ ∃ id, 0 <= id <= 2 ^ 53 ∧ t' = upsert id o t) ∨ (l = "async" ∧ label = "async" ∧ t' = t)
  | Some _ => l = label ∧ t' = t
  end.

(** It returns, and leaves the map that its answer tells. *)
Definition creates label t o (m : M created) : Prop :=
  ∀ s, coherent t s → ∃ r s' t', m s = (Val r, s') ∧ outcome label t o r t' ∧ coherent t' s' ∧ s_hk s' = s_hk s.

Lemma creates_write os label start ctx o t : storable o → creates label t o (writeAndPublish os label start ctx o).
Proof.
  intros Ho s Hs. unfold writeAndPublish.
  destruct (dbWrite_spec os t o s Hs Ho) as (we & s1 & E1 & K1 & H1). rewrite bind_run, E1. destruct we as [e|].
  - destruct (kept_coherent t (_ ← Now; cbRecordFailure) s1) as (u & s2 & E2 & H2 & K2); [|done|].
    { apply coh_bind; [apply keeps_Now|]. intros. apply keeps_breaker. }
    apply bind_inv in E2 as (now & s3 & E3 & E2). rewrite bind_run, E3, bind_run, E2. eexists _, s2, t.
    split; [reflexivity|]. split; [done|]. split; [done|congruence].
  - destruct H1 as (id & Hid & H1).
    destruct (keeps_Now (but (o_OrderNo o)) (upsert id o t) s1 H1) as (now & s2 & E2 & H2 & K2). rewrite bind_run, E2.
    destruct (keeps_breaker (but (o_OrderNo o)) (upsert id o t)) as (Hcb & _).
    destruct (Hcb (time_sub now start) s2 H2) as (u & s3 & E3 & H3 & K3). rewrite bind_run, E3.
    destruct (forget_delay (o_OrderNo o) 500 (upsert id o t) s3 H3) as (s4 & E4 & H4 & K4). rewrite bind_run, E4.
    destruct (keeps_publish order_keys (upsert id o t) os ctx o s4 H4) as (v & s5 & E5 & H5 & K5). rewrite bind_run, E5.
    eexists _, s5, (upsert id o t). split; [reflexivity|]. split; [split; [done|]; left; split; [done|]; by exists id|].
    split; [|congruence]. split; [|done]. apply upsert_rows; [apply Hs|done|done].
Qed.

Lemma creates_async os ctx o t : creates "async" t o (createAsync os ctx o).
Proof.
  intros s Hs. destruct (kept_coherent t (createAsync os ctx o) s) as ([[l no] err] & s' & E & H & K); [apply keeps_createAsync|done|].
  exists (l, no, err), s', t. split; [done|]. split; [|done].
  unfold createAsync in E. apply bind_inv in E as (ev & s1 & _ & E).
  destruct (os_producer os); [apply bind_inv in E as ([err1|] & s2 & _ & E)|]; injection E as <- <- <- _; cbn; auto.
Qed.

Lemma creates_bind {A} label t o (m : M A) (f : A → M created) :
  keeps order_keys t m → (∀ a, creates label t o (f a)) → creates label t o (m ≫= f).
Proof.
  intros Hm Hf s Hs. destruct (kept_coherent t m s Hm Hs) as (a & s1 & E & H1 & K1). rewrite bind_run, E.
  destruct (Hf a s1 H1) as (r & s2 & t' & E2 & Ho & H2 & K2). exists r, s2, t'. by rewrite K2, K1.
Qed.

(** The lock of the creation is given back whatever the write answered. *)
Lemma creates_locked label t o token m :
  creates label t o m → creates label t o (deferred (unlock (lock_key (o_OrderNo o)) token) m).
Proof.
  intros Hm s Hs. destruct (Hm s Hs) as (r & s1 & t' & E & Ho & H1 & K1).
  destruct (kept_coherent t' (unlock (lock_key (o_OrderNo o)) token) s1) as (u & s2 & E2 & H2 & K2); [apply keeps_unlock|done|].
  exists r, s2, t'. unfold deferred. rewrite E, E2. by rewrite K2, K1.
Qed.

Lemma creates_sync os ctx o t : storable o → creates "async" t o (createSync os ctx o).
Proof.
  intros Ho. unfold createSync. apply creates_bind; [apply keeps_Now|]. intros start.
  destruct (os_lock os); [|by apply creates_write].
  apply creates_bind; [by apply keeps_Lock|]. intros [token [e|]]; [apply creates_async|].
  by apply creates_locked, creates_write.
Qed.

Lemma fill_spec t order s :
  0 <= o_UserID order → coherent t s →
  ∃ no now s', fill order s = (Val (filled order no now), s') ∧ numbered no ∧ coherent t s' ∧ s_hk s' = s_hk s.
Proof.
  intros Hu [Hr Hs]. unfold fill. rewrite bind_run, generate_run.
  set (s1 := s <| s_orderSeq := _ |>). assert (H1 : coh order_keys t s1) by exact Hs.
  destruct (keeps_Now order_keys t s1 H1) as (now & s2 & E & H2 & K). rewrite bind_run, E.
  eexists _, now, s2. split; [reflexivity|]. split; [|by split].
  eexists _, _, _. split; [exact Hu|]. split; [|split; [|reflexivity]]; apply Z.mod_pos_bound; lia.
Qed.

(** A creation of either kind, of the order it fills in. *)
Definition creation (os : OrderService) (forced : bool) (ctx : Mq.context) (order : Order) : M created :=
  if forced then CreateOrderForceSync os ctx order else CreateOrder os ctx order.

Definition user_ok (order : Order) : Prop := 0 <= o_UserID order <= 2 ^ 53.

(** The channel an error is reported with. *)
Definition error_label (forced : bool) : string := if forced then "sync" else "async".

Lemma creates_creation os forced ctx order t s :
  user_ok order → coherent t s →
  ∃ no now r s' t', creation os forced ctx order s = (Val r, s') ∧ numbered no ∧
    outcome (error_label forced) t (filled order no now) r t' ∧ coherent t' s' ∧ s_hk s' = s_hk s.
Proof.
  intros Hu Hs. destruct (fill_spec t order s (proj1 Hu) Hs) as (no & now & s1 & E1 & Hn & H1 & K1).
  set (o := filled order no now). assert (Ho : storable o) by (split; [exact Hn|exact Hu]). exists no, now. fold o.
  set (rest := if forced then start ← Now;
      if os_lock os then '(token, err) ← Lock.Lock (lock_key (o_OrderNo o)) lockTTL lockWait;
        match err with
        | None => deferred (unlock (lock_key (o_OrderNo o)) token) (writeAndPublish os "sync" start ctx o)
        | Some _ => writeAndPublish os "sync" start ctx o
        end
      else writeAndPublish os "sync" start ctx o
    else allowed ← cbAllow; if negb allowed then createAsync os ctx o
      else token ← rlTryAcquire; if token : bool then createSync os ctx o else createAsync os ctx o).
  assert (E2 : creation os forced ctx order s = rest s1).
  { unfold creation, rest. destruct forced; [unfold CreateOrderForceSync|unfold CreateOrder]; by rewrite bind_run, E1. }
  assert (Hc : creates (error_label forced) t o rest).
  { unfold rest. destruct forced.
    - apply creates_bind; [apply keeps_Now|]. intros start. destruct (os_lock os); [|by apply creates_write].
      apply creates_bind; [by apply keeps_Lock|]. intros [token [e|]]; [by apply creates_write|].
      by apply creates_locked, creates_write.
    - destruct (keeps_breaker order_keys t) as (_ & _ & Ha & Ht).
      apply creates_bind; [done|]. intros allowed. destruct (negb allowed); [apply creates_async|].
      apply creates_bind; [done|]. intros []; [by apply creates_sync|apply creates_async]. }
  destruct (Hc s1 H1) as (r & s2 & t' & E3 & Hout & H2 & K2). exists r, s2, t'. rewrite E2. by rewrite K2, K1.
Qed.

Lemma handle_spec os ctx key value t s :
  fit value → coherent t s →
  ∃ r s' t', HandleOrderEvent os ctx key value s = (Val r, s') ∧ coherent t' s' ∧ s_hk s' = s_hk s ∧
    match r with
    | None => ∃ o id, event_order value = inr o ∧ 0 <= id <= 2 ^ 53 ∧ t' = upsert id o t
    | Some _ => t' = t
    end.
Proof.
  intros Ho Hs. unfold HandleOrderEvent, fit, event_order in *.
  destruct (Unmarshal dec_event zero_Event value) as [event [e|]]; [by eexists _, s, t|].
  destruct (remarshalTo (e_Payload event)) as [o [e|]]; [by eexists _, s, t|]. specialize (Ho o eq_refl).
  destruct (dbWrite_spec os t o s Hs Ho) as (r & s1 & E & K & H1). rewrite bind_run, E.
  destruct r as [e|]; [by eexists _, s1, t|]. destruct H1 as (id & Hid & H1).
  destruct (forget (o_OrderNo o) _ s1 H1) as (s2 & E2 & H2 & K2). rewrite bind_run, E2.
  eexists _, s2, (upsert id o t). split; [reflexivity|].
  split; [split; [apply upsert_rows; [apply Hs|done|done]|done]|]. split; [congruence|]. by exists o, id.
Qed.

(** ** A lookup returns

    With a pool and a usable detector nothing on the way of a lookup can
    panic. *)

Definition up (s : Sys) : Prop := pool_up (s_mysql s) ∧ HK.usable (s_hk s).

Definition safe {A} (m : M A) : Prop := ∀ s, up s → ∃ a s', m s = (Val a, s') ∧ up s'.

Lemma safe_bind {A B} (m : M A) (f : A → M B) : safe m → (∀ a, safe (f a)) → safe (m ≫= f).
Proof. intros Hm Hf s Hs. destruct (Hm s Hs) as (a & s1 & E & H1). rewrite bind_run, E. by apply Hf. Qed.

Lemma safe_ret {A} (a : A) : safe (mret a).
Proof. intros s Hs. by exists a, s. Qed.
Lemma safe_gets {A} (f : Sys → A) : safe (gets f).
Proof. intros s Hs. by exists (f s), s. Qed.
Lemma safe_world {A} (op : W → A * W) : safe (world op).
Proof. intros s Hs. rewrite world_run. by eexists _, _. Qed.
Lemma safe_world_ op : safe (world_ op).
Proof. intros s Hs. by eexists _, _. Qed.
Lemma safe_when b m : safe m → safe (when b m).
Proof. destruct b; [done|]. intros _. apply safe_ret. Qed.
Lemma safe_deferred {A} d (m : M A) : safe d → safe m → safe (deferred d m).
Proof.
  intros Hd Hm s Hs. destruct (Hm s Hs) as (a & s1 & E & H1). destruct (Hd s1 H1) as (u & s2 & E2 & H2).
  exists a, s2. unfold deferred. by rewrite E, E2.
Qed.
Lemma safe_update f : safe (Cache.update f).
Proof. intros s Hs. by eexists _, _. Qed.

(** A query by row always has a pool to ask. *)
Lemma safe_query {A} q args (f : option row_res → M A) :
  (∀ row, safe (f (Some row))) → safe (Rwdb.QueryRowContext Rwdb.MySQL q args ≫= f).
Proof.
  intros Hf s [(rw & c & E & Em) Hk]. destruct (pool_replica rw c Em) as (c' & rw' & Er & Em').
  rewrite bind_run, (Rwdb.query_row_run Rwdb.MySQL q args s rw c' rw' E Er). apply Hf.
  split; [by exists rw', c|exact Hk].
Qed.

Lemma safe_access k : safe (Cache.recordAccess k).
Proof.
  intros s [Hp Hk]. unfold Cache.recordAccess, Now. rewrite bind_run. unfold gets.
  assert (Hrest : ∀ now1 s1, up s1 → s_hk s1 = s_hk s → ∃ b s2, (now2 ← world clk_now;
    match HK.RecordAccess k now1 now2 (s_hk s) with
    | Some (b, h) => _ ← modify (λ s, s <| s_hk := h |>); mret b
    | None => panic "runtime error"
    end) s1 = (Val b, s2) ∧ up s2).
  { intros now1 s1 [Hp1 _] E1. rewrite bind_run, world_run.
    destruct (HK.RecordAccess_usable k now1 (clk_now (s_w s1)).1 (s_hk s) Hk) as (b & h' & E & Hu). rewrite E.
    eexists b, _. split; [reflexivity|]. by split. }
  destruct (HK.keyCounters (s_hk s) !! k); rewrite bind_run, ?ret_run, ?world_run; by apply Hrest.
Qed.

Create HintDb safe.
Hint Resolve safe_ret safe_gets safe_world safe_world_ safe_when safe_deferred safe_update safe_access : safe.
Ltac safe := intros;
  lazymatch goal with
  | |- safe (Rwdb.QueryRowContext _ _ _ ≫= _) => apply safe_query; intros ?; safe
  | |- safe (_ ≫= _) => apply safe_bind; [safe|intros ?; safe]
  | |- safe (when _ _) => apply safe_when; safe
  | |- safe (deferred _ _) => apply safe_deferred; safe
  | |- _ => first [solve [eauto 3 with safe] | case_match; safe | idtac]
  end.

Lemma safe_jitter base pct : safe (Config.JitterDuration base pct).
Proof. unfold Config.JitterDuration. safe. Qed.
Lemma safe_Set k v : safe (Cache.Set_ k v).
Proof.
  intros s Hs. destruct (Cache.Set_val k v s) as [w E]. exists tt, (s <| s_w := w |>). done.
Qed.
Lemma safe_SetNull k : safe (Cache.SetNull k).
Proof. intros s Hs. rewrite Cache.SetNull_val. by eexists _, _. Qed.
Hint Resolve safe_jitter safe_Set safe_SetNull : safe.

Lemma safe_loader mongoDB repo k : safe (Loader.newDataLoader mongoDB repo k).
Proof. unfold Loader.newDataLoader, Mongo.FindByUserID, Rwdb.unavailable. safe. Qed.
Hint Resolve safe_loader : safe.

Lemma safe_GetOrder os no : loads os → safe (GetOrder os no).
Proof.
  intros (m & r & El). unfold GetOrder. rewrite El.
  assert (Hq : safe (dbQuery no)) by (unfold dbQuery, Rwdb.unavailable; safe).
  assert (Hdb : safe (Cache.loadFromDB (Some (Loader.newDataLoader m r)) (order_key no))).
  { unfold Cache.loadFromDB, Cache.mc, Cache.l2TTL, Cache.l1TTL, Cache.l2Set, Cache.l1SetWithTTL, Cache.l1Wait, Cache.mc. safe. }
  apply safe_bind; [|safe].
  unfold Cache.Get, Cache.fromL3, Cache.loadWithLock, Cache.mc, Cache.l1TTL, Cache.l1SetWithTTL, Cache.l1Wait,
    Cache.l2Del, Sleep, Cache.mc. safe.
Qed.

(** A lookup answers what the map says. *)
Lemma get_spec os no t s :
  loads os → numbered no → coherent t s → HK.usable (s_hk s) →
  ∃ s', GetOrder os no s = (Val (lookup_answer t no), s') ∧ coherent t s' ∧ HK.usable (s_hk s').
Proof.
  intros Hl Hn [Hr Hs] Hk. destruct (t_GetOrder os t no Hl Hn Hr s Hs) as [H1 H2].
  destruct (safe_GetOrder os no Hl s) as (a & s' & E & Hup); [split; [apply Hs|done]|].
  rewrite E in H1, H2. cbn in H1, H2. subst a. exists s'. split; [done|]. split; [by split|]. apply Hup.
Qed.

(** ** Histories

    The operations of the service one after another, against the map. *)

Inductive op :=
| OpCreate (forced : bool) (ctx : Mq.context) (order : Order)
| OpDeliver (ctx : Mq.context) (key value : string)
| OpGet (orderNo : string)
| OpTask (tk : task).

Inductive answer :=
| ACreated (r : created) | AHandled (err : option error) | AGot (r : option Order * option error) | ADone.

Definition perform (srv : System.Server) (x : op) : M answer :=
  let os := System.orders srv in
  match x with
  | OpCreate forced ctx order => r ← creation os forced ctx order; mret (ACreated r)
  | OpDeliver ctx key value => err ← HandleOrderEvent os ctx key value; mret (AHandled err)
  | OpGet no => r ← GetOrder os no; mret (AGot r)
  | OpTask tk => _ ← System.run_task srv tk; mret ADone
  end.

Fixpoint performs (srv : System.Server) (l : list op) : M (list answer) :=
  match l with
  | [] => mret []
  | x :: l => a ← perform srv x; rest ← performs srv l; mret (a :: rest)
  end.

(** Operations the map speaks of: users that float64 holds, numbers of the
    generated form, the goroutines of orders. *)
Definition admissible (srv : System.Server) (x : op) : Prop :=
  match x with
  | OpCreate _ _ order => user_ok order
  | OpDeliver _ _ value => fit value
  | OpGet no => numbered no
  | OpTask (TSecondDelete _ _) | OpTask (TSend _ _ _ _) => True
  | OpTask (TIndexOrder _) => is_Some (os_search (System.orders srv))
  | OpTask _ => False
  end.

(** The map: a stored order is inserted, or replaces the amount, the status
    and the last update of the one with its number; a queued or refused one
    changes nothing, and neither do lookups and goroutines. *)
Inductive spec (t : gmap string Order) : op → answer → gmap string Order → Prop :=
| spec_stored forced ctx order no now id :
    numbered no → 0 <= id <= 2 ^ 53 →
    spec t (OpCreate forced ctx order) (ACreated ("sync", no, None)) (upsert id (filled order no now) t)
| spec_queued ctx order no :
    numbered no → spec t (OpCreate false ctx order) (ACreated ("async", no, None)) t
| spec_refused forced ctx order no e :
    numbered no → spec t (OpCreate forced ctx order) (ACreated (error_label forced, no, Some e)) t
| spec_delivered ctx key value o id :
    event_order value = inr o → 0 <= id <= 2 ^ 53 →
    spec t (OpDeliver ctx key value) (AHandled None) (upsert id o t)
| spec_failed ctx key value e : spec t (OpDeliver ctx key value) (AHandled (Some e)) t
| spec_got no : spec t (OpGet no) (AGot (lookup_answer t no)) t
| spec_ran tk : spec t (OpTask tk) ADone t.

Inductive specs : gmap string Order → list op → list answer → gmap string Order → Prop :=
| specs_nil t : specs t [] [] t
| specs_cons t x a t1 l r t2 : spec t x a t1 → specs t1 l r t2 → specs t (x :: l) (a :: r) t2.

(** The process tied to the map, and able to serve. *)
Definition ready t (s : Sys) : Prop := coherent t s ∧ HK.usable (s_hk s).

Lemma perform_refines srv x t s :
  loads (System.orders srv) → admissible srv x → ready t s →
  ∃ a s' t', perform srv x s = (Val a, s') ∧ spec t x a t' ∧ ready t' s'.
Proof.
  intros Hl Hx [Hs Hk]. destruct x as [forced ctx order|ctx key value|no|tk]; cbn [perform admissible] in *.
  - destruct (creates_creation (System.orders srv) forced ctx order t s Hx Hs)
      as (no & now & [[l no'] err] & s' & t' & E & Hn & [-> Ho] & H1 & K).
    rewrite bind_run, E. eexists _, s', t'. split; [reflexivity|]. split; [|split; [done|by rewrite K]].
    destruct err as [e|]; [destruct Ho as [-> ->]; by constructor|].
    destruct Ho as [[-> (id & Hid & ->)]|(-> & Hf & ->)]; [by constructor|].
    destruct forced; [done|]. by constructor.
  - destruct (handle_spec (System.orders srv) ctx key value t s Hx Hs) as (r & s' & t' & E & H1 & K & Hr).
    rewrite bind_run, E. eexists _, s', t'. split; [reflexivity|]. split; [|split; [done|by rewrite K]].
    destruct r as [e|]; [rewrite Hr; constructor|]. destruct Hr as (o & id & Ho & Hid & ->). by constructor.
  - destruct (get_spec (System.orders srv) no t s Hl Hx Hs Hk) as (s' & E & H1 & Hk').
    rewrite bind_run, E. eexists _, s', t. split; [reflexivity|]. split; [constructor|by split].
  - assert (Hkeep : keeps order_keys t (System.run_task srv tk)).
    { destruct tk; try done; cbn [System.run_task].
      - apply keeps_secondDelete.
      - destruct Hx as [sc ->]. apply keeps_indexTask.
      - apply keeps_sendTask. }
    destruct (kept_coherent t _ s Hkeep Hs) as (u & s' & E & H1 & K). rewrite bind_run, E.
    eexists _, s', t. split; [reflexivity|]. split; [constructor|]. split; [done|by rewrite K].
Qed.

Lemma performs_refine srv l t s :
  loads (System.orders srv) → Forall (admissible srv) l → ready t s →
  ∃ r s' t', performs srv l s = (Val r, s') ∧ specs t l r t' ∧ ready t' s'.
Proof.
  intros Hl Hall. revert t s. induction Hall as [|x l Hx _ IH]; intros t s Hs.
  - exists [], s, t. split; [done|]. split; [constructor|done].
  - destruct (perform_refines srv x t s Hl Hx Hs) as (a & s1 & t1 & E1 & S1 & H1).
    destruct (IH t1 s1 H1) as (r & s2 & t2 & E2 & S2 & H2). cbn [performs]. rewrite bind_run, E1, bind_run, E2.
    exists (a :: r), s2, t2. split; [done|]. split; [by econstructor|done].
Qed.

(** ** The same message again *)

Lemma upsert_again t id id' o : upsert id' o (upsert id o t) = upsert id o t.
Proof.
  unfold upsert. rewrite insert_insert_eq, lookup_insert_eq. f_equal. unfold upserted.
  rewrite !column_id. by destruct (t !! o_OrderNo o).
Qed.

Lemma upserted_fields t id o :
  storable o → let row := upserted id o (t !! o_OrderNo o) in
  upsert id o t !! o_OrderNo o = Some row ∧
  o_Amount row = o_Amount (column o) ∧ o_Status row = o_Status (column o) ∧
  (t !! o_OrderNo o = None → row = column (o <| o_ID := id |>)).
Proof.
  intros Ho row. split; [apply lookup_insert_eq|]. unfold row, upserted. rewrite !column_id.
  by destruct (t !! o_OrderNo o).
Qed.

(** The message of an order carries that order. *)
Lemma event_order_message ctx tms o value :
  order_wf o → o_ID o <= 2 ^ 53 → o_UserID o <= 2 ^ 53 → utf8_valid ctx = true → 0 <= tms < 2 ^ 63 →
  MarshalEvent (mkEvent (o_OrderNo o) "ORDER_CREATE" tms ctx (VOrder o)) = Some value →
  event_order value = inr o.
Proof.
  intros Hwf Hi Hu Hc Ht Hm. rewrite marshal_event in Hm by done. injection Hm as <-.
  unfold event_order. rewrite unmarshal_event by done. cbn [e_Payload].
  pose proof Hwf as ([H1 _] & [H2 _] & _).
  rewrite (remarshal_order o (o_ID o) (o_UserID o)) by (done || by apply via_float_exact). by destruct o.
Qed.

End store.

(** ** Properties *)

Section properties.
Context `{EN : Env} `{CO : Codec} `{CL : !CodecLaws} `{VI : !Views} `{RE : !RedisLaws} `{LL : !L1Laws}
  `{CK : !ClockLaws} `{FR : !FrameLaws} `{SF : !ServiceFrames} `{OT : !OrderTable} `{OL : !OrderTableLaws}.
#[local] Set Default Proof Using "All".

(** C5: The order service refines a map: from a state in which the table is
    [t] and the two cache tiers say nothing else, any sequence of creations,
    message deliveries, lookups and goroutines returns; its answers are those
    of the map, lookups answering exactly the row under their number; and
    the table and the tiers are those of the map again.  The services answer
    throughout; the L1 may lose any entry and Redis any expired one. *)
Theorem orders_refine_map srv l t s :
  loads (System.orders srv) → Forall (admissible srv) l → ready t s →
  ∃ r s' t', performs srv l s = (Val r, s') ∧ specs t l r t' ∧ ready t' s' ∧ orders_of (s_w s') = t'.
Proof.
  intros Hl Hall Hs. destruct (performs_refine srv l t s Hl Hall Hs) as (r & s' & t' & E & S & H).
  exists r, s', t'. split; [done|]. split; [done|]. split; [done|]. apply H.
Qed.

(** An order taken over the asynchronous channel can be read once its
    message has been handled: when the handler accepts the message of a
    storable order, [GetOrder] answers a row with that order's number, user,
    amount and status as the columns hold them. *)
Theorem delivered_readable os ctx tms o value ctx' key t s :
  loads os → order_wf o → o_ID o <= 2 ^ 53 → storable o → utf8_valid ctx = true → 0 <= tms < 2 ^ 63 →
  MarshalEvent (mkEvent (o_OrderNo o) "ORDER_CREATE" tms ctx (VOrder o)) = Some value → ready t s →
  ∃ r s1, HandleOrderEvent os ctx' key value s = (Val r, s1) ∧
    match r with
    | Some _ => ready t s1
    | None => ∃ row s2, GetOrder os (o_OrderNo o) s1 = (Val (Some row, None), s2) ∧
        o_OrderNo row = o_OrderNo o ∧ o_Amount row = o_Amount (column o) ∧ o_Status row = o_Status (column o) ∧
        (t !! o_OrderNo o = None → o_UserID row = o_UserID o)
    end.
Proof.
  intros Hl Hwf Hi Ho Hc Ht Hm [Hs Hk]. pose proof Ho as [Hn Hu].
  assert (Hv : event_order value = inr o) by (eapply event_order_message; [..|exact Hm]; done || lia).
  destruct (handle_spec os ctx' key value t s) as (r & s1 & t' & E & H1 & K & Hr); [unfold fit; by rewrite Hv; intros ? [= <-]|done|].
  exists r, s1. split; [done|]. destruct r as [e|]; [subst t'; by split; [|rewrite K]|].
  destruct Hr as (o' & id & Ho' & Hid & ->). rewrite Hv in Ho'. injection Ho' as <-.
  destruct (get_spec os (o_OrderNo o) (upsert id o t) s1 Hl Hn H1) as (s2 & E2 & _); [by rewrite K|].
  destruct (upserted_fields t id o Ho) as (Hrow & Ha & Hst & Hnew). unfold lookup_answer in E2. rewrite Hrow in E2.
  eexists _, s2. split; [exact E2|]. destruct H1 as [Hr1 _]. destruct (Hr1 _ _ Hn Hrow) as (En & _).
  split; [exact En|]. split; [exact Ha|]. split; [exact Hst|]. intros Hnone. rewrite (Hnew Hnone).
  by destruct (column_keys (o <| o_ID := id |>)) as [-> _].
Qed.

(** C15: At-least-once delivery is harmless: once an order is in the table,
    whether a creation wrote it or its message was handled before, handling
    the message of that order leaves the table as it is, so a message may be
    delivered any number of times, and the event that a synchronous creation
    publishes changes nothing. *)
Theorem redelivery_idempotent os ctx tms o value t0 id l s :
  order_wf o → o_ID o <= 2 ^ 53 → storable o → utf8_valid ctx = true → 0 <= tms < 2 ^ 63 →
  MarshalEvent (mkEvent (o_OrderNo o) "ORDER_CREATE" tms ctx (VOrder o)) = Some value →
  ready (upsert id o t0) s →
  ∃ r s', mapM (λ '(ctx', key), HandleOrderEvent os ctx' key value) l s = (Val r, s') ∧ ready (upsert id o t0) s'.
Proof.
  intros Hwf Hi Ho Hc Ht Hm.
  assert (Hv : event_order value = inr o) by (eapply event_order_message; [..|exact Hm]; done || apply Ho).
  revert s. induction l as [|[ctx' key] l IH]; intros s Hs; [by eexists [], s|].
  destruct Hs as [Hs Hk].
  destruct (handle_spec os ctx' key value (upsert id o t0) s) as (r & s1 & t' & E & H1 & K & Hr);
    [unfold fit; by rewrite Hv; intros ? [= <-]|done|].
  assert (Ht' : t' = upsert id o t0).
  { destruct r as [e|]; [done|]. destruct Hr as (o' & id' & Ho' & _ & ->). rewrite Hv in Ho'. injection Ho' as <-.
    apply upsert_again. }
  subst t'. destruct (IH s1) as (r2 & s2 & E2 & H2); [split; [done|by rewrite K]|].
  exists (r :: r2), s2. split; [|done]. cbn [mapM]. by rewrite bind_run, E, bind_run, E2.
Qed.

(** C26: A failing database is taken for an absent order: when the query of a
    lookup fails, the loader answers that there is no value, and null markers
    for the order go into both tiers; while the L1 answers with the marker,
    [GetOrder] answers that the order does not exist, whatever the table
    holds and although the database is back. *)
Theorem outage_poisons os no s rw c rw' e :
  loads os → numbered no → s_mysql s = Some rw → master rw ≠ None → Rwdb.replica rw = (Some c, rw') →
  (sql_query_row c Loader.select_order [SStr no] (s_w s)).1 = RowErr e →
  let w := (sql_query_row c Loader.select_order [SStr no] (s_w s)).2 in
  (∃ s1, Cache.loadFromDB (os_loader os) (order_key no) s = (Val (VNil, true, None), s1) ∧
    s_w s1 = l1_set (order_key no) (VStr Cache.NullMarker) 1 (nullTTL (s_mc s))
      (if mc_l2 (s_mc s) then (redis_set (order_key no) Cache.NullMarker (nullTTL (s_mc s)) w).2 else w)) ∧
  ∀ s2, (l1_get (order_key no) (s_w s2)).1 = Some (VStr Cache.NullMarker) →
    (GetOrder os no s2).1 = Val (None, Some (Errorf ("order not found: " +:+ no))).
Proof.
  intros (m & r & El) Hn E Em Er Eq w. split.
  - rewrite El.
    assert (Hload : Loader.newDataLoader m r (order_key no) s = (Val (VNil, None), (s <| s_mysql := Some rw' |>) <| s_w := w |>)).
    { rewrite loader_order, bind_run, Rwdb.unavailable_run by done. cbn [Rwdb.get_db]. rewrite E. unfold Rwdb.IsNil.
      destruct (master rw); [|done]. rewrite bind_run, (Rwdb.query_row_run Rwdb.MySQL _ _ s rw c rw' E Er). by rewrite Eq. }
    destruct (Cache.load_null _ _ _ _ Hload) as (s1 & E1 & E2). by exists s1.
  - intros s2 Hm. destruct (Cache.marker_answers _ _ Hm) as [s3 E3]. unfold GetOrder. by rewrite bind_run, E3.
Qed.

End properties.

(** ** Witnesses: a server over the empty concrete world *)

Definition demo_srv : System.Server := System.mkServer _
  (Handlers.NewBusinessHandler _ (System.new_orders (Config.Kafka Config.defaultConfig) false None)
    (Profile.wired false None) true)
  (Handlers.NewAuthHandler (Auth.NewAuthService "secret" 3600)) (Health.mkChecker true true true None 0)
  (Config.CORS Config.defaultConfig) (System.new_consumer (Config.Kafka Config.defaultConfig)) false true.

Lemma demo_loads : loads (System.orders demo_srv).
Proof. by exists false, (Mongo.NewUserProfileRepo false). Qed.

(** Over an empty world with every service up and only orders queued. *)
Lemma fresh_ready (s : Sys) :
  Forall (λ m, fit (k_Value m)) (dw_inbox (s_w s)) → (dw_redis (s_w s), dw_l1 (s_w s), dw_rows (s_w s)) = (∅, ∅, ∅) →
  (dw_redis_up (s_w s), dw_sql_up (s_w s), mc_l2 (s_mc s), lockKeyPrefix (s_mc s)) = (true, true, true, "cache:lock:") →
  master <$> s_mysql s = Some (Some 0%nat) → HK.usable (s_hk s) → ready ∅ s.
Proof.
  intros Hin [= E1 E2 E3] [= U1 U2 U3 U4] Em Hk. split; [split; [|split; [split|split; [|done]]]|exact Hk].
  - intros no o _. by rewrite lookup_empty.
  - intros k _. split; intros ?; unfold r_view; cbn; unfold dw_entry; cbn; by rewrite ?E1, ?E2, lookup_empty.
  - split; [cbn; rewrite E3; apply omap_empty|]. split; [exact U1|]. split; [exact U2|]. rewrite E3.
    split; [apply map_Forall_empty|exact Hin].
  - destruct (s_mysql s) as [rw|]; [|done]. injection Em as Em. by exists rw, 0%nat.
Qed.

Lemma demo_ready : ready ∅ demo_sys.
Proof. apply fresh_ready; [apply Forall_nil_2|reflexivity..|by apply HK.New_usable]. Qed.

Definition demo_no : string := "ORD700001464".

Definition demo_message : string := default "" (MarshalEvent (mkEvent demo_no "ORDER_CREATE" 0 "t1"
  (VOrder (filled demo_request demo_no 0)))).

(** A lookup before the creation, the creation, a lookup, the event handled
    twice, a lookup, and the deletion of the creation. *)
Definition demo_history : list op :=
  [OpGet demo_no; OpCreate true "t1" demo_request; OpGet demo_no; OpDeliver "" "7" demo_message;
   OpDeliver "" "7" demo_message; OpGet demo_no; OpTask (TSecondDelete 500 (order_key demo_no)); OpGet demo_no].

Lemma demo_numbered : numbered demo_no.
Proof. exists 7, 1, 464. split; [lia|]. split; [lia|]. split; [lia|reflexivity]. Qed.

Lemma demo_event : event_order demo_message = inr (filled demo_request demo_no 0).
Proof. vm_compute. reflexivity. Qed.

Lemma demo_admissible : Forall (admissible demo_srv) demo_history.
Proof.
  assert (Hm : ∀ o, event_order demo_message = inr o → storable o).
  { rewrite demo_event. intros ? [= <-]. split; [apply demo_numbered|split; [done|vm_compute; discriminate]]. }
  pose proof demo_numbered as Hn.
  assert (Hu : user_ok demo_request) by (split; vm_compute; discriminate).
  unfold demo_history. repeat (apply Forall_cons; split; [assumption || exact I|]). apply Forall_nil_2.
Qed.

(** The orders that the lookups of the history found. *)
Definition demo_found (r : list answer) : list bool :=
  omap (λ a, match a with AGot (Some _, _) => Some true | AGot (None, _) => Some false | _ => None end) r.

Lemma demo_history_found :
  match (performs demo_srv demo_history demo_sys).1 with Val r => demo_found r | _ => [] end = [false; true; true; true].
Proof. vm_compute. reflexivity. Qed.

Lemma orders_refine_map_witness :
  ∃ r s' t', performs demo_srv demo_history demo_sys = (Val r, s') ∧ specs ∅ demo_history r t' ∧
    orders_of (s_w s') = t' ∧ demo_found r = [false; true; true; true].
Proof.
  destruct (orders_refine_map demo_srv demo_history ∅ demo_sys demo_loads demo_admissible demo_ready)
    as (r & s' & t' & E & H1 & _ & H2).
  exists r, s', t'. split; [exact E|]. split; [exact H1|]. split; [exact H2|].
  pose proof demo_history_found as F. rewrite E in F. exact F.
Defined.

Definition demo_order : Order := filled demo_request demo_no 0.

Lemma demo_order_storable : storable demo_order.
Proof. split; [apply demo_numbered|split; [done|vm_compute; discriminate]]. Qed.

Lemma demo_stored_wf : order_wf demo_order.
Proof. repeat split; vm_compute; (reflexivity || discriminate). Qed.

Lemma demo_message_eq :
  MarshalEvent (mkEvent (o_OrderNo demo_order) "ORDER_CREATE" 0 "t1" (VOrder demo_order)) = Some demo_message.
Proof. vm_compute. reflexivity. Qed.

(** The table has the order, but the database does not answer. *)
Definition demo_outage : Sys := demo_with (demo_w <| dw_rows := {[ demo_no := Rwdb.order_row demo_order ]} |> <| dw_sql_up := false |>).

Lemma outage_poisons_witness :
  ∃ s1, Cache.loadFromDB (os_loader (System.orders demo_srv)) (order_key demo_no) demo_outage = (Val (VNil, true, None), s1) ∧
    (GetOrder (System.orders demo_srv) demo_no (s1 <| s_w := (s_w s1 : dworld) <| dw_sql_up := true |> |>)).1 =
      Val (None, Some (Errorf ("order not found: " +:+ demo_no))).
Proof.
  destruct (outage_poisons (System.orders demo_srv) demo_no demo_outage demo_rwdb 2%nat (demo_rwdb <| nextIdx := 1 |>)
    "connection refused" demo_loads demo_numbered eq_refl ltac:(discriminate) eq_refl eq_refl) as [(s1 & E & Ew) H].
  exists s1. split; [exact E|]. apply H. rewrite Ew. reflexivity.
Defined.

Lemma delivered_readable_witness :
  ∃ row s1 s2, HandleOrderEvent (System.orders demo_srv) "" "7" demo_message demo_sys = (Val None, s1) ∧
    GetOrder (System.orders demo_srv) demo_no s1 = (Val (Some row, None), s2) ∧ o_UserID row = 7.
Proof.
  destruct (delivered_readable (System.orders demo_srv) "t1" 0 demo_order demo_message "" "7" ∅ demo_sys
    demo_loads demo_stored_wf ltac:(vm_compute; discriminate) demo_order_storable eq_refl ltac:(lia) demo_message_eq demo_ready)
    as (r & s1 & E & H).
  assert (Er : (HandleOrderEvent (System.orders demo_srv) "" "7" demo_message demo_sys).1 = Val None) by (vm_compute; reflexivity).
  rewrite E in Er. cbn [fst] in Er. injection Er as ->. destruct H as (row & s2 & E2 & _ & _ & _ & Hu).
  exists row, s1, s2. split; [exact E|]. split; [exact E2|]. apply Hu. apply lookup_empty.
Defined.

Lemma redelivery_idempotent_witness :
  ∃ r s1 r2 s2, HandleOrderEvent (System.orders demo_srv) "" "7" demo_message demo_sys = (Val r, s1) ∧
    mapM (λ '(ctx', key), HandleOrderEvent (System.orders demo_srv) ctx' key demo_message) [("", "7"); ("", "7")] s1 =
      (Val r2, s2) ∧ orders_of (s_w s2) = orders_of (s_w s1).
Proof.
  destruct (handle_spec (System.orders demo_srv) "" "7" demo_message ∅ demo_sys) as (r & s1 & t' & E & H1 & K & Hr);
    [unfold fit; rewrite demo_event; intros ? [= <-]; apply demo_order_storable|apply demo_ready|].
  assert (Er : (HandleOrderEvent (System.orders demo_srv) "" "7" demo_message demo_sys).1 = Val None) by (vm_compute; reflexivity).
  rewrite E in Er. cbn [fst] in Er. injection Er as ->. destruct Hr as (o & id & Ho & Hid & ->).
  rewrite demo_event in Ho. injection Ho as <-.
  assert (Hs : ready (upsert id demo_order ∅) s1) by (split; [exact H1|rewrite K; apply demo_ready]).
  destruct (redelivery_idempotent (System.orders demo_srv) "t1" 0 demo_order demo_message ∅ id [("", "7"); ("", "7")] s1
    demo_stored_wf ltac:(vm_compute; discriminate) demo_order_storable eq_refl ltac:(lia) demo_message_eq Hs)
    as (r2 & s2 & E2 & H2).
  exists None, s1, r2, s2. split; [exact E|]. split; [exact E2|].
  pose proof H2 as [[_ ([_ [T2 _]] & _)] _]. destruct H1 as [_ ([_ [T1 _]] & _)].
  etrans; [exact T2|symmetry; exact T1].
Defined.

End Store.
