(* ===== verification/Mutex.v ===== *)
(** * Clients of the distributed lock at the same time

    The methods of [Lock.v] cut at their accesses to Redis and the clock, and
    any number of them interleaved over one server: whatever the schedule,
    two are between [Lock] and [Unlock] together only after the lifetime of
    the first one's lock has run out. *)

From S2P Require Export Programs Lock.

Module Mutex.
Import Programs Lock.

(** ** The methods, cut up *)

Section cuts.
Context `{EN : Env}.

Definition pOutOfTime (waitTimeout deadline : Z) : prog bool :=
  if waitTimeout =? 0 then Done true else now <~ act Now; Done (deadline <? now).

Fixpoint pLockLoop (fuel : nat) (key token : string) (ttl waitTimeout deadline : Z) : prog (string * option error) :=
  match fuel with
  | O => act unfinished
  | S fuel =>
      r <~ act (world (redis_setnx key token ttl));
      match r with
      | RErr e => Done (EmptyString, Some (Errorf ("redis setnx: " +:+ e)))
      | RNil => Done (EmptyString, Some (Errorf "redis setnx: redis: nil"))
      | ROk true => Done (token, None)
      | ROk false =>
          late <~ pOutOfTime waitTimeout deadline;
          if late : bool then Done (EmptyString, Some (Errorf ("acquire lock timeout: " +:+ key)))
          else _ <~ act (Sleep retryInterval); pLockLoop fuel key token ttl waitTimeout deadline
      end
  end.

Definition pLock (key : string) (ttl waitTimeout : Z) : prog (string * option error) :=
  t <~ act Now; hex <~ act (randomHex 8); start <~ act Now;
  pLockLoop (lock_fuel waitTimeout) key (show_Z t +:+ "-" +:+ hex) ttl waitTimeout (start + waitTimeout).

(** What a caller does with the answer: [inside] with the unlock deferred, or
    [otherwise]. *)
Definition bracket {A : Set} (key : string) (inside : prog A) (otherwise : error → prog A)
    (answer : string * option error) : prog A :=
  match answer.2 with
  | None => pdeferred (_ ← Unlock key answer.1; mret tt) inside
  | Some e => otherwise e
  end.

Definition pWithLock (key : string) (ttl waitTimeout : Z) (fn : prog (option error)) : prog (option error) :=
  pbind (pLock key ttl waitTimeout) (bracket key fn (λ e, Done (Some e))).

(** ** Uninterrupted, they are the methods *)

Lemma runs_outOfTime wait deadline : runs (pOutOfTime wait deadline) (out_of_time wait deadline).
Proof.
  unfold pOutOfTime, out_of_time. destruct (wait =? 0); [apply runs_ret|].
  apply runs_bind; [apply runs_act|intros now; apply runs_ret].
Qed.

Lemma runs_lockLoop fuel key token ttl wait deadline :
  runs (pLockLoop fuel key token ttl wait deadline) (lock_loop fuel key token ttl wait deadline).
Proof.
  induction fuel as [|fuel IH]; [apply runs_act|]. cbn [pLockLoop lock_loop].
  apply runs_bind; [apply runs_act|intros r]. destruct r as [[]| |e]; [apply runs_ret| |apply runs_ret..].
  apply runs_bind; [apply runs_outOfTime|intros []; [apply runs_ret|]].
  apply runs_bind; [apply runs_act|intros _; exact IH].
Qed.

Lemma runs_Lock key ttl wait : runs (pLock key ttl wait) (Lock key ttl wait).
Proof.
  do 3 (apply runs_bind; [apply runs_act|intros ?]). apply runs_lockLoop.
Qed.

Lemma runs_WithLock key ttl wait fn m : runs fn m → runs (pWithLock key ttl wait fn) (WithLock key ttl wait m).
Proof.
  intros Hf. apply runs_bind; [apply runs_Lock|]. intros [token [e|]]; cbn; [apply runs_ret|by apply runs_deferred].
Qed.

End cuts.

(** ** What a client does to the lock *)

Section mutex.
Context `{EN : Env} `{VI : !Views} `{RE : !RedisLaws} `{CK : !ClockLaws} `{FR : !FrameLaws}.
Context (key : string) (ttl : Z).
#[local] Set Default Proof Using "Type".

Definition later (s s' : Sys) : Prop := w_time (s_w s) <= w_time (s_w s').

(** The lock is left to its own expiry, taken under a token, released. *)
Definition silent (s s' : Sys) : Prop := later s s' ∧ only_expiry (s_w s) (s_w s') key.
Definition took (token : string) (s s' : Sys) : Prop :=
  later s s' ∧ free (s_w s) (s_w s') key ∧ written (s_w s) (s_w s') key token ttl.
Definition released (token : string) (s s' : Sys) : Prop :=
  later s s' ∧ r_view (s_w s) key = Some token ∧ r_entry (s_w s') key = None.
Definition lets_go (token : string) (s s' : Sys) : Prop := silent s s' ∨ released token s s'.
Definition effect (token : string) (s s' : Sys) : Prop := took token s s' ∨ lets_go token s s'.

#[local] Instance later_preorder : PreOrder later.
Proof. split; [intros s; unfold later; lia|]. intros x y z. unfold later. lia. Qed.

Lemma effect_later token s s' : effect token s s' → later s s'.
Proof. by intros [[? _]|[[? _]|[? _]]]. Qed.

(** ** Where a client is *)

(** Every access leaves the lock alone: the body of a critical section. *)
Fixpoint respectful {A : Set} (p : prog A) : Prop :=
  match p with
  | Done _ | Crash _ => True
  | Act op k => (∀ s, silent s (op s).2) ∧ ∀ b, respectful (k b)
  | Deferred d q k => (∀ s, silent s (d s).2) ∧ respectful q ∧ ∀ b, respectful (k b)
  end.

(** The same outside of it, with nothing deferred. *)
Fixpoint outside {A : Set} (p : prog A) : Prop :=
  match p with
  | Done _ | Crash _ => True
  | Act op k => (∀ s, silent s (op s).2) ∧ ∀ b, outside (k b)
  | Deferred _ _ _ => False
  end.

(** Between [Lock] and [Unlock]: the unlock is deferred. *)
Definition inside {A : Set} (p : prog A) : bool := match p with Deferred _ _ _ => true | _ => false end.

Definition entered (token : string) {A : Set} (p : prog A) : Prop :=
  match p with
  | Deferred d q k => (∀ s, lets_go token s (d s).2) ∧ respectful q ∧ ∀ b, outside (k b)
  | _ => False
  end.

Definition leaving (token : string) {A : Set} (p : prog A) : Prop :=
  match p with Act d k => (∀ s, lets_go token s (d s).2) ∧ ∀ b, outside (k b) | _ => False end.

Fixpoint waiting (token : string) {A : Set} (p : prog A) : Prop :=
  match p with
  | Done _ | Crash _ => True
  | Deferred _ _ _ => False
  | Act op k => ∀ s, let s' := (op s).2 in
      match (op s).1 with
      | Val b => (silent s s' ∨ took token s s') ∧ waiting token (k b) ∨ took token s s' ∧ entered token (k b)
      | _ => silent s s'
      end
  end.

Definition past (token : string) {A : Set} (p : prog A) : Prop := leaving token p ∨ outside p.
Definition stage (token : string) {A : Set} (p : prog A) : Prop := waiting token p ∨ entered token p ∨ past token p.

Lemma silent_refl s : silent s s.
Proof. split; [unfold later; lia|by left]. Qed.

(** ** One access *)

Lemma leave_respectful {A B : Set} d (q : prog B) (k : B → prog A) p' :
  (∀ s, silent s (d s).2) → (∀ b, respectful (k b)) → leave d q k = Some p' → respectful p'.
Proof. intros Hd Hk. destruct q; cbn; intros [= <-]; cbn; auto. Qed.

Lemma step_respectful {A : Set} (p : prog A) s :
  respectful p → respectful (step1 p s).1 ∧ silent s (step1 p s).2.
Proof.
  revert s. induction p as [A a|A e|A C op k IH|A C d q IHq k IH]; intros s Hp; cbn in *;
    [by split; [|apply silent_refl]..|destruct Hp as [H1 H2]|destruct Hp as (H1 & H2 & H3)].
  - pose proof (H1 s). destruct (op s) as [[b|e|] s']; cbn in *; auto.
  - destruct (leave d q k) as [p'|] eqn:E.
    + split; [by eapply leave_respectful|apply silent_refl].
    + destruct (IHq s H2) as [H4 H5]. by destruct (step1 q s).
Qed.

Lemma step_outside {A : Set} (p : prog A) s : outside p → outside (step1 p s).1 ∧ silent s (step1 p s).2.
Proof.
  destruct p as [A a|A e|A C op k|A C d q k]; cbn; intros Hp; [by split; [|apply silent_refl]..|destruct Hp as [H1 H2]|done].
  pose proof (H1 s). destruct (op s) as [[b|e|] s']; cbn in *; auto.
Qed.

Lemma outside_not_inside {A : Set} (p : prog A) : outside p → inside p = false.
Proof. by destruct p. Qed.

Lemma waiting_outside token {A : Set} (p : prog A) : outside p → waiting token p.
Proof.
  induction p as [A a|A e|A C op k IH|A C d q _ k _]; cbn; [done..| |done].
  intros [H1 H2] s. specialize (H1 s). destruct (op s) as [[b|e|] s']; cbn in *; [|done..].
  left. split; [by left|]. by apply IH.
Qed.

Lemma past_not_inside token {A : Set} (p : prog A) : past token p → inside p = false.
Proof. intros [Hp|Hp]; [by destruct p|by apply outside_not_inside]. Qed.

Lemma waiting_not_inside token {A : Set} (p : prog A) : waiting token p → inside p = false.
Proof. by destruct p. Qed.

Lemma step_past token {A : Set} (p : prog A) s : past token p → past token (step1 p s).1 ∧ lets_go token s (step1 p s).2.
Proof.
  intros [Hp|Hp]; [|destruct (step_outside p s Hp) as [H1 H2]; split; [by right|by left]].
  destruct p as [A a|A e|A C op k|A C d q k]; [done..| |done]. destruct Hp as [H1 H2]. cbn. pose proof (H1 s) as H3.
  destruct (op s) as [[b|e|] s']; cbn in *; (split; [|done]); [by right|by right|by left].
Qed.

Lemma step_entered token {A : Set} (p : prog A) s :
  entered token p → (entered token (step1 p s).1 ∨ past token (step1 p s).1) ∧ silent s (step1 p s).2.
Proof.
  destruct p as [A a|A e|A C op k|A C d q k]; [done..|]. intros (H1 & H2 & H3). cbn [step1].
  destruct (leave d q k) as [p'|] eqn:E.
  - split; [|apply silent_refl]. right. left. destruct q; simplify_eq/=; auto.
  - destruct (step_respectful q s H2) as [H4 H5]. destruct (step1 q s) as [q' s']. cbn in *. split; [|done]. by left.
Qed.

Lemma step_waiting token {A : Set} (p : prog A) s :
  waiting token p → let s' := (step1 p s).2 in
  waiting token (step1 p s).1 ∧ (silent s s' ∨ took token s s') ∨ entered token (step1 p s).1 ∧ took token s s'.
Proof.
  destruct p as [A a|A e|A C op k|A C d q k]; cbn [step1 waiting]; intros Hp;
    [left; split; [done|left; apply silent_refl]..| |done].
  pose proof (Hp s) as H1. destruct (op s) as [[b|e|] s'] eqn:E; cbn in *.
  - destruct H1 as [[H1 H2]|[H1 H2]]; [by left|by right].
  - left. split; [done|by left].
  - left. split; [|by left]. intros s0. apply Hp.
Qed.

(** ** Threads *)

Definition at_stage (token : string) (th : thread) : Prop := match th with Th p => stage token p end.
Definition is_past (token : string) (th : thread) : Prop := match th with Th p => past token p end.
Definition is_inside (th : thread) : bool := match th with Th p => inside p end.

Lemma turn_past token th s : is_past token th → is_past token (turn th s).1.
Proof.
  destruct th as [A p]. cbn. intros Hp. destruct (step_past token p s Hp) as [H1 _]. by destruct (step1 p s).
Qed.

Lemma turn_inside token th s :
  at_stage token th → is_inside th = true → let '(th', s') := turn th s in
  silent s s' ∧ at_stage token th' ∧ (is_inside th' = true ∨ is_past token th').
Proof.
  destruct th as [A p]. cbn. intros [Hp|[Hp|Hp]] Hi;
    [by rewrite (waiting_not_inside token) in Hi| |by rewrite (past_not_inside token) in Hi].
  destruct (step_entered token p s Hp) as [H1 H2]. destruct (step1 p s) as [p' s']. cbn in *. split; [done|].
  destruct H1 as [H1|H1]; [split; [by right; left|left; by destruct p']|split; [by right; right|by right]].
Qed.

Lemma turn_outside token th s :
  at_stage token th → is_inside th = false → let '(th', s') := turn th s in
  at_stage token th' ∧ effect token s s' ∧ (is_inside th' = true → took token s s').
Proof.
  destruct th as [A p]. cbn. intros [Hp|[Hp|Hp]] Hi.
  - pose proof (step_waiting token p s Hp) as H1. destruct (step1 p s) as [p' s']. cbn in *.
    destruct H1 as [[H1 H2]|[H1 H2]].
    + split; [by left|]. rewrite (waiting_not_inside token) by done. split; [|done]. destruct H2; [by right; left|by left].
    + split; [by right; left|]. split; [by left|done].
  - by destruct p.
  - destruct (step_past token p s Hp) as [H1 H2]. destruct (step1 p s) as [p' s']. cbn in *.
    split; [by right; right|]. split; [by right|]. by rewrite (past_not_inside token).
Qed.

Lemma turn_effect token th s :
  at_stage token th → let '(th', s') := turn th s in at_stage token th' ∧ effect token s s'.
Proof.
  intros H. destruct (is_inside th) eqn:E.
  - pose proof (turn_inside token th s H E). destruct (turn th s). destruct H0 as (H1 & H2 & _). split; [done|]. by right; left.
  - pose proof (turn_outside token th s H E). by destruct (turn th s) as [th' s'], H0 as (H1 & H2 & _).
Qed.

(** ** Leases *)

(** Until [e] the entry is the one of [token]. *)
Definition lease (token : string) (e : Z) (s : Sys) : Prop :=
  (∃ e', r_entry (s_w s) key = Some (token, e') ∧ e <= e') ∨ e <= w_time (s_w s).

Lemma silent_lease token e s s' : silent s s' → lease token e s → lease token e s'.
Proof.
  intros [Ht Hk] [(e' & E & He)|He]; [|right; unfold later in Ht; lia].
  destruct Hk as [Hk|(v & e2 & Hk & _ & He2)]; [left; exists e'; by rewrite Hk|].
  right. rewrite E in Hk. injection Hk as <- <-. lia.
Qed.

Lemma took_lease token s s' : took token s s' → lease token (w_time (s_w s) + ttl) s'.
Proof. intros (_ & _ & e & He & [Hk|[_ Hk]]); [left; by exists e|right; lia]. Qed.

(** Another client takes the lock only when the lease has run out. *)
Lemma took_ends token token' e s s' : took token' s s' → lease token e s → e <= w_time (s_w s').
Proof.
  intros (Ht & Hf & _) [(e' & E & He)|He]; [|unfold later in Ht; lia]. pose proof (Hf _ _ E). lia.
Qed.

Lemma effect_lease token token' e s s' :
  token' ≠ token → effect token' s s' → lease token e s → lease token e s'.
Proof.
  intros Hne [H|[H|(Ht & Hv & Hk)]] Hl; [right; by eapply took_ends|by eapply silent_lease|].
  destruct Hl as [(e' & E & _)|He]; [|right; unfold later in Ht; lia].
  unfold r_view in Hv. rewrite E in Hv. cbn in Hv. congruence.
Qed.

(** ** Any schedule *)

Definition inside_at (ths : list thread) (i : nat) : bool :=
  match ths !! i with Some th => is_inside th | None => false end.

Definition past_at (tokens : list string) (ths : list thread) (i : nat) : Prop :=
  ∃ token th, tokens !! i = Some token ∧ ths !! i = Some th ∧ is_past token th.

Lemma past_outside tokens ths i : past_at tokens ths i → inside_at ths i = false.
Proof. intros (token & [A p] & _ & E & Hp). unfold inside_at. rewrite E. by apply (past_not_inside token). Qed.

(** One turn of a schedule. *)
Lemma interleave_one i ths s :
  interleave [i] ths s = match ths !! i with
    | Some th => let '(th', s') := turn th s in (<[i:=th']> ths, s') | None => (ths, s) end.
Proof. cbn. destruct (ths !! i) as [th|]; [|done]. by destruct (turn th s). Qed.

Lemma interleave_cons i sched ths s :
  interleave (i :: sched) ths s = let '(ths', s') := interleave [i] ths s in interleave sched ths' s'.
Proof. cbn. destruct (ths !! i) as [th|]; [|done]. by destruct (turn th s). Qed.

Lemma one_stage tokens i ths s :
  Forall2 at_stage tokens ths → let '(ths', s') := interleave [i] ths s in Forall2 at_stage tokens ths' ∧ later s s'.
Proof.
  intros H. rewrite interleave_one. destruct (ths !! i) as [th|] eqn:E; [|by split].
  destruct (Forall2_lookup_r _ _ _ _ _ H E) as (token & Et & Hs).
  pose proof (turn_effect token th s Hs) as H1. destruct (turn th s) as [th' s']. destruct H1 as [H1 H2].
  split; [|by eapply effect_later]. rewrite <-(list_insert_id tokens i token) by done. by apply Forall2_insert.
Qed.

Lemma one_past tokens i j ths s : past_at tokens ths j → past_at tokens (interleave [i] ths s).1 j.
Proof.
  intros (token & th & Et & E & Hp). rewrite interleave_one. destruct (ths !! i) as [th'|] eqn:Ei; [|by exists token, th].
  pose proof (turn_past token th s Hp) as H1. destruct (decide (i = j)) as [->|Hij].
  - replace th' with th by congruence. destruct (turn th s) as [th2 s2]. exists token, th2. split; [done|]. split; [|done].
    apply list_lookup_insert_eq. by eapply lookup_lt_Some.
  - destruct (turn th' s) as [th2 s2]. exists token, th. split; [done|]. split; [|done].
    cbn. by rewrite list_lookup_insert_ne.
Qed.

Lemma many_stage tokens sched ths s :
  Forall2 at_stage tokens ths → let '(ths', s') := interleave sched ths s in Forall2 at_stage tokens ths' ∧ later s s'.
Proof.
  revert ths s. induction sched as [|i sched IH]; intros ths s H; [by split|]. rewrite interleave_cons.
  pose proof (one_stage tokens i ths s H) as H1. destruct (interleave [i] ths s) as [ths1 s1]. destruct H1 as [H1 H2].
  pose proof (IH ths1 s1 H1) as H3. destruct (interleave sched ths1 s1) as [ths2 s2]. destruct H3 as [H3 H4].
  split; [done|by etrans].
Qed.

Lemma many_past tokens sched ths s j : past_at tokens ths j → past_at tokens (interleave sched ths s).1 j.
Proof.
  revert ths s. induction sched as [|i sched IH]; intros ths s H; [done|]. rewrite interleave_cons.
  pose proof (one_past tokens i j ths s H) as H1. destruct (interleave [i] ths s) as [ths1 s1]. by apply IH.
Qed.

(** While a client stays inside, its lease is kept, and another client that
    gets inside meanwhile does so after the lease. *)
Lemma one_lease tokens a e i j ths s :
  NoDup tokens → Forall2 at_stage tokens ths → tokens !! i = Some a → inside_at ths i = true → lease a e s →
  let '(ths', s') := interleave [j] ths s in
  (inside_at ths' i = true ∨ past_at tokens ths' i) ∧ (inside_at ths' i = true → lease a e s') ∧
  ∀ k, k ≠ i → inside_at ths k = false → inside_at ths' k = true → e <= w_time (s_w s').
Proof.
  intros Hnd H Ha Hi Hl. rewrite interleave_one. destruct (ths !! j) as [th|] eqn:E; [|split; [by left|split; [done|congruence]]].
  destruct (Forall2_lookup_r _ _ _ _ _ H E) as (b & Eb & Hs). pose proof (lookup_lt_Some _ _ _ E) as Hj.
  destruct (decide (j = i)) as [->|Hji].
  - replace b with a in * by congruence. assert (Hin : is_inside th = true) by (unfold inside_at in Hi; by rewrite E in Hi).
    pose proof (turn_inside a th s Hs Hin) as H1. destruct (turn th s) as [th' s']. destruct H1 as (H1 & _ & H2).
    unfold inside_at at 1 2, past_at. rewrite !list_lookup_insert_eq by done. split.
    + destruct H2 as [H2|H2]; [by left|right; by exists a, th'].
    + split; [intros _; by eapply silent_lease|]. intros k Hk Hk1 Hk2. unfold inside_at in *.
      rewrite list_lookup_insert_ne in Hk2 by done. congruence.
  - assert (Hne : b ≠ a) by (intros ->; apply Hji; by eapply NoDup_lookup).
    pose proof (turn_effect b th s Hs) as H1. pose proof (turn_outside b th s Hs) as H2.
    destruct (turn th s) as [th' s']. destruct H1 as [_ H1]. unfold inside_at at 1 2. rewrite list_lookup_insert_ne by done.
    split; [left; exact Hi|]. split; [intros _; by eapply effect_lease|]. intros k Hk Hk1 Hk2. unfold inside_at in Hk1, Hk2.
    destruct (decide (k = j)) as [->|Hkj]; [|rewrite list_lookup_insert_ne in Hk2 by done; congruence].
    rewrite E in Hk1. rewrite list_lookup_insert_eq in Hk2 by done. destruct (H2 Hk1) as (_ & _ & H3). eapply took_ends; [by apply H3|exact Hl].
Qed.

Lemma many_lease tokens a e i sched ths s :
  NoDup tokens → Forall2 at_stage tokens ths → tokens !! i = Some a → inside_at ths i = true → lease a e s →
  let '(ths', s') := interleave sched ths s in inside_at ths' i = true → lease a e s'.
Proof.
  intros Hnd. revert ths s. induction sched as [|j sched IH]; intros ths s H Ha Hi Hl; [by intros _|]. rewrite interleave_cons.
  pose proof (one_lease tokens a e i j ths s Hnd H Ha Hi Hl) as H1. pose proof (one_stage tokens j ths s H) as H2.
  destruct (interleave [j] ths s) as [ths1 s1]. destruct H1 as (H1 & H3 & _). destruct H2 as [H2 _].
  destruct H1 as [H1|H1]; [by apply IH; auto|]. pose proof (many_past tokens sched ths1 s1 i H1) as H4.
  destruct (interleave sched ths1 s1) as [ths2 s2]. apply past_outside in H4. cbn in H4. congruence.
Qed.

(** ** The clients *)

(** A client with its token drawn, before its first attempt. *)
Inductive contends : string → thread → Prop :=
| contends_intro token fuel wait deadline {A : Set} (body : prog A) (otherwise : error → prog A) :
    respectful body → (∀ e, outside (otherwise e)) →
    contends token (Th (pbind (pLockLoop fuel key token ttl wait deadline) (bracket key body otherwise))).

Lemma unlock_lets_go token s : lets_go token s ((_ ← Unlock key token; mret tt : M unit) s).2.
Proof using All.
  assert (E : ((_ ← Unlock key token; mret tt : M unit) s).2 = s <| s_w := (redis_eval unlockScript key token (s_w s)).2 |>).
  { unfold Unlock. rewrite bind_run, bind_run, world_run. by destruct (redis_eval unlockScript key token (s_w s)) as [[n| |e] w]. }
  rewrite E. pose proof (redis_eval_time key token (s_w s)). destruct (redis_eval_key key token (s_w s)) as [[Hv Hk]|[_ Hk]];
    [right|left]; by split_and!.
Qed.

Lemma silent_world {A} (op : W → A * W) s :
  (∀ w, w_time w <= w_time (op w).2 ∧ only_expiry w (op w).2 key) → silent s (world op s).2.
Proof. intros H. rewrite world_run. destruct (H (s_w s)). by split. Qed.

Lemma silent_Now s : silent s (Now s).2.
Proof using All.
  apply silent_world. intros w. destruct (clk_now_time w), (clk_now_frames w) as [Hf _]. split; [lia|apply Hf].
Qed.

Lemma silent_Sleep d s : 0 <= d → silent s (Sleep d s).2.
Proof using All.
  intros Hd. unfold Sleep. rewrite world__run. cbn. pose proof (clk_sleep_time d (s_w s)).
  destruct (clk_sleep_frames d (s_w s)) as [Hf _]. split; [unfold later; cbn; lia|apply Hf].
Qed.

(** One attempt: the key taken, or nothing done to it. *)
Lemma setnx_effect token s :
  let s' := (world (redis_setnx key token ttl) s).2 in
  match (world (redis_setnx key token ttl) s).1 with
  | Val (ROk true) => took token s s'
  | Val (ROk false) => silent s s'
  | _ => silent s s' ∨ took token s s'
  end.
Proof using All.
  rewrite world_run. cbn. pose proof (redis_setnx_time key token ttl (s_w s)) as Ht.
  pose proof (redis_setnx_key key token ttl (s_w s)) as Hk.
  destruct (redis_setnx key token ttl (s_w s)) as [[[]| |e] w]; cbn in *.
  - by destruct Hk.
  - by split.
  - destruct Hk as [Hk|[? ?]]; [by left|by right].
  - destruct Hk as [Hk|[? ?]]; [by left|by right].
Qed.

Lemma waiting_act token {A B : Set} (op : M B) (k : B → prog A) :
  (∀ s, silent s (op s).2) → (∀ b, waiting token (k b)) → waiting token (Act op k).
Proof.
  intros Ho Hk s. pose proof (Ho s). destruct (op s) as [[b|e|] s']; cbn in *; [|done..]. left. split; [by left|apply Hk].
Qed.

Lemma waiting_loop token fuel wait deadline {A : Set} (body : prog A) otherwise :
  respectful body → (∀ e, outside (otherwise e)) →
  waiting token (pbind (pLockLoop fuel key token ttl wait deadline) (bracket key body otherwise)).
Proof using All.
  intros Hb Ho. induction fuel as [|fuel IH]; [intros s; apply silent_refl|]. intros s. cbn [pLockLoop pbind act].
  pose proof (setnx_effect token s) as H1. destruct (world (redis_setnx key token ttl) s) as [[r|e|] s1] eqn:E;
    [|by rewrite world_run in E..]. cbn in H1 |- *. destruct r as [[]| |e]; cbn [pbind bracket fst snd].
  - right. split; [done|]. split; [apply unlock_lets_go|]. by split.
  - left. split; [by left|]. unfold pOutOfTime. destruct (wait =? 0); cbn [pbind act]; [apply waiting_outside, Ho|].
    apply waiting_act; [apply silent_Now|intros now]. cbn [pbind].
    destruct (deadline <? now); cbn [pbind act]; [apply waiting_outside, Ho|].
    apply waiting_act; [intros s2; by apply silent_Sleep|intros _; exact IH].
  - left. split; [done|]. apply waiting_outside, Ho.
  - left. split; [done|]. apply waiting_outside, Ho.
Qed.

Lemma contends_waiting token th : contends token th → at_stage token th ∧ is_inside th = false.
Proof using All.
  intros [tk fuel wait deadline A body otherwise Hb Ho]. pose proof (waiting_loop tk fuel wait deadline body otherwise Hb Ho) as Hw.
  split; [by left|]. by apply (waiting_not_inside tk).
Qed.

(** ** Mutual exclusion *)

(** Getting inside takes the lock. *)
Lemma one_enters tokens i ths s :
  Forall2 at_stage tokens ths → inside_at ths i = false →
  let '(ths', s') := interleave [i] ths s in inside_at ths' i = true →
  ∃ a, tokens !! i = Some a ∧ took a s s'.
Proof using All.
  intros H Hi. rewrite interleave_one. unfold inside_at in *. destruct (ths !! i) as [th|] eqn:E; [|by rewrite E].
  destruct (Forall2_lookup_r _ _ _ _ _ H E) as (a & Ea & Hs). pose proof (turn_outside a th s Hs Hi) as H1.
  destruct (turn th s) as [th' s']. rewrite list_lookup_insert_eq by (by eapply lookup_lt_Some).
  destruct H1 as (_ & _ & H1). intros Hi'. exists a. auto.
Qed.

(** C28: Mutual exclusion.  Of any number of clients that contend for one key
    with different tokens, interleaved in any way with each other at every
    access to Redis and the clock: when [i] gets the lock and, [between]
    later, [j] gets it while [i] is still between its [Lock] and its deferred
    [Unlock], then the lifetime of the lock of [i] has run out. *)
Theorem mutual_exclusion tokens ths s before i between j :
  NoDup tokens → Forall2 contends tokens ths → i ≠ j →
  let '(ths1, s1) := interleave before ths s in
  let '(ths2, s2) := interleave [i] ths1 s1 in
  let '(ths3, s3) := interleave between ths2 s2 in
  let '(ths4, s4) := interleave [j] ths3 s3 in
  inside_at ths1 i = false → inside_at ths2 i = true →
  inside_at ths3 i = true → inside_at ths3 j = false → inside_at ths4 j = true →
  w_time (s_w s1) + ttl <= w_time (s_w s4).
Proof using All.
  intros Hnd Hc Hij. assert (H0 : Forall2 at_stage tokens ths) by (eapply Forall2_impl; [exact Hc|apply contends_waiting]).
  pose proof (many_stage tokens before ths s H0) as H1. destruct (interleave before ths s) as [ths1 s1]. destruct H1 as [H1 _].
  pose proof (one_stage tokens i ths1 s1 H1) as H2. pose proof (one_enters tokens i ths1 s1 H1) as He.
  destruct (interleave [i] ths1 s1) as [ths2 s2]. destruct H2 as [H2 _].
  pose proof (many_stage tokens between ths2 s2 H2) as H3.
  pose proof (λ a e, many_lease tokens a e i between ths2 s2 Hnd H2) as Hl.
  destruct (interleave between ths2 s2) as [ths3 s3]. destruct H3 as [H3 _].
  pose proof (λ a e, one_lease tokens a e i j ths3 s3 Hnd H3) as Ho.
  destruct (interleave [j] ths3 s3) as [ths4 s4]. intros Hi1 Hi2 Hi3 Hj3 Hj4.
  destruct (He Hi1 Hi2) as (a & Ea & Ht). apply took_lease in Ht.
  destruct (Ho a _ Ea Hi3 (Hl a _ Ea Hi2 Ht Hi3)) as (_ & _ & H). by apply (H j).
Qed.

End mutex.

(** ** Witnesses: a client that sleeps past its lock *)

Definition demo_client (token : string) (body : prog (option error)) : thread :=
  Th (pbind (pLockLoop 3 "k" token (5 * Second) 0 0) (bracket "k" body (λ e, Done (Some e)))).

Definition demo_clients : list thread :=
  [demo_client "a" (pbind (act (Sleep (6 * Second))) (λ _, Done None)); demo_client "b" (Done None)].

Lemma demo_contends : Forall2 (contends "k" (5 * Second)) ["a"; "b"] demo_clients.
Proof.
  apply Forall2_cons. split; [|apply Forall2_cons; split; [|apply Forall2_nil_2]].
  - apply contends_intro; [|done]. split; [|done]. intros s. apply (silent_Sleep "k" (5 * Second)). discriminate.
  - by apply contends_intro.
Qed.

(** The second client is turned away while the lease runs. *)
Example demo_turned_away :
  let ths := (interleave [0; 1]%nat demo_clients demo_sys).1 in
  (inside_at ths 0, inside_at ths 1, map finished ths) = (true, false, [false; true]).
Proof. vm_compute. reflexivity. Qed.

Lemma mutual_exclusion_witness :
  let '(ths, s) := interleave [0; 0; 1]%nat demo_clients demo_sys in
  inside_at ths 0 = true ∧ inside_at ths 1 = true ∧ 5 * Second <= w_time (s_w s).
Proof.
  pose proof (mutual_exclusion "k" (5 * Second) ["a"; "b"] demo_clients demo_sys [] 0 [0%nat] 1
    ltac:(by apply (bool_decide_unpack _); vm_compute) demo_contends ltac:(discriminate)) as H.
  vm_compute in H |- *. split; [reflexivity|]. split; [reflexivity|]. apply H; reflexivity.
Defined.

End Mutex.
