(* ===== verification/Race.v ===== *)
(** * Lookups and writes at the same time

    The goroutines that touch one order, cut at their shared accesses.  Each
    program run without interruption is the method of [Order.v].  The delayed
    second deletion is what makes the tiers right again after any
    interleaving; the consumer, which deletes once, leaves room for a stale
    entry. *)

From S2P Require Export Mutex Store.

Module Race.
Import Programs OrderSvc Table Store Mutex.

(** ** The methods of the cache and of the order service, cut up *)

Section cuts.
Context `{EN : Env} `{CO : Codec}.
Import Cache.

Definition pSet (key : string) (value : gval) : prog unit :=
  ttl <~ act l1TTL; _ <~ act (l1SetWithTTL key value ttl); _ <~ act l1Wait; c <~ act mc;
  pwhen (mc_l2 c) (ttl <~ act l2TTL; act (l2Set key (jsonText value) ttl)).

Definition pSetNull (key : string) : prog unit :=
  c <~ act mc; _ <~ act (l1SetWithTTL key (VStr NullMarker) (nullTTL c)); _ <~ act l1Wait;
  pwhen (mc_l2 c) (act (l2Set key NullMarker (nullTTL c))).

Definition pLoadFromDB (loader : option DataLoader) (key : string) : prog result :=
  match loader with
  | None => Done (VNil, false, Some (Errorf "no data loader configured"))
  | Some load =>
      '(data, err) <~ act (load key);
      match err with
      | Some e => Done (VNil, false, Some e)
      | None =>
          c <~ act mc;
          if is_nil data then
            _ <~ pwhen (mc_l2 c) (act (l2Set key NullMarker (nullTTL c)));
            _ <~ act (l1SetWithTTL key (VStr NullMarker) (nullTTL c));
            Done (VNil, true, None)
          else
            _ <~ pwhen (mc_l2 c) (ttl <~ act l2TTL; act (l2Set key (jsonText data) ttl));
            ttl <~ act l1TTL; _ <~ act (l1SetWithTTL key data ttl); _ <~ act l1Wait;
            Done (data, true, None)
      end
  end.

Definition pLoadWithLock (loader : option DataLoader) (key : string) : prog result :=
  c <~ act mc;
  if negb (mc_l2 c) then pLoadFromDB loader key
  else
    let lockKey := lockKeyPrefix c +:+ key in
    r <~ act (world (redis_setnx lockKey "1" (State.lockTTL c)));
    match r with
    | RErr e => Done (VNil, false, Some (Errorf e))
    | RNil => Done (VNil, false, Some (Sentinel "redis: nil"))
    | ROk true => pdeferred (l2Del lockKey) (pLoadFromDB loader key)
    | ROk false =>
        _ <~ act (Sleep (lockRetryWait c));
        r <~ act (world (redis_get key));
        match r with
        | ROk val =>
            if bool_decide (val = NullMarker) then Done (VNil, true, None)
            else Done (parseValue val, true, None)
        | _ => Done (VNil, false, None)
        end
    end.

Definition pFromL3 (loader : option DataLoader) (key : string) : prog result :=
  c <~ act mc;
  isHot <~ (if mc_hotKeys c then act (recordAccess key) else Done false);
  _ <~ act (update miss);
  if isHot : bool then pLoadWithLock loader key else pLoadFromDB loader key.

Definition pGet (loader : option DataLoader) (key : string) : prog result :=
  _ <~ act (update total);
  r1 <~ act (world (l1_get key));
  match r1 with
  | Some val =>
      _ <~ act (update hit1);
      match val with
      | VStr s => if bool_decide (s = NullMarker) then Done (VNil, true, None) else Done (val, true, None)
      | _ => Done (val, true, None)
      end
  | None =>
      c <~ act mc;
      r2 <~ (if mc_l2 c then act (world (redis_get key)) else Done RNil);
      match r2 with
      | ROk val =>
          _ <~ act (update hit2);
          if bool_decide (val = NullMarker) then
            _ <~ act (l1SetWithTTL key (VStr NullMarker) (nullTTL c)); _ <~ act l1Wait;
            Done (VNil, true, None)
          else
            let parsed := parseValue val in
            ttl <~ act l1TTL; _ <~ act (l1SetWithTTL key parsed ttl); _ <~ act l1Wait;
            Done (parsed, true, None)
      | _ => pFromL3 loader key
      end
  end.

Definition pInvalidate (key : string) : prog unit :=
  _ <~ act (l1Del key); c <~ act mc; pwhen (mc_l2 c) (act (l2Del key)).

Definition pInvalidateWithDelay (key : string) (delayMs : Z) : prog unit :=
  c <~ act mc; _ <~ pwhen (mc_l2 c) (act (l2Del key)); _ <~ act (l1Del key); act (go (TSecondDelete delayMs key)).

Definition pSecondDelete (delayMs : Z) (key : string) : prog unit :=
  _ <~ act (Sleep (dur_of delayMs Millisecond)); c <~ act mc; _ <~ pwhen (mc_l2 c) (act (l2Del key)); act (l1Del key).

Definition pDbQuery (orderNo : string) : prog (option Order * option error) :=
  down <~ act (Rwdb.unavailable Rwdb.MySQL);
  if down : bool then Done (None, Some (Errorf "database not available"))
  else
    row <~ act (Rwdb.QueryRowContext Rwdb.MySQL select_order [SStr orderNo]);
    match row with
    | None => act Rwdb.nil_deref
    | Some RowNone => _ <~ pSetNull (order_key orderNo); Done (None, Some (Errorf ("order not found: " +:+ orderNo)))
    | Some (RowErr e) => Done (None, Some (Errorf ("db query: " +:+ e)))
    | Some (RowOk l) =>
        match Rwdb.scan_order l with
        | inl e => Done (None, Some (Errorf ("db query: " +:+ e)))
        | inr o => _ <~ pSet (order_key orderNo) (VOrder o); Done (Some o, None)
        end
    end.

Definition pGetOrder (os : OrderService) (orderNo : string) : prog (option Order * option error) :=
  '(val, found, err) <~ pGet (os_loader os) (order_key orderNo);
  match err with
  | Some e => Done (None, Some e)
  | None =>
      if found : bool then
        match val with
        | VNil => Done (None, Some (Errorf ("order not found: " +:+ orderNo)))
        | VOrder o => Done (Some o, None)
        | VMap _ => Done (Some (Unmarshal dec_order zero_Order (jsonText val)).1, None)
        | _ => pDbQuery orderNo
        end
      else pDbQuery orderNo
  end.

Definition pDbWrite (os : OrderService) (order : Order) : prog (option error) :=
  down <~ act (Rwdb.unavailable Rwdb.MySQL);
  if down : bool then _ <~ pSet (order_key (o_OrderNo order)) (VOrder order); Done None
  else
    r <~ act (Rwdb.ExecContext Rwdb.MySQL insert_order (insert_args order));
    match r with
    | inl e => Done (Some (Errorf ("db insert: " +:+ err_text e)))
    | inr _ =>
        _ <~ pSet (order_key (o_OrderNo order)) (VOrder order);
        _ <~ match os_search os with Some _ => act (indexOrderToES order) | None => Done tt end;
        Done None
    end.

Definition pWriteAndPublish (os : OrderService) (label : string) (start : Z) (ctx : Mq.context) (order : Order) : prog created :=
  writeErr <~ pDbWrite os order;
  now <~ act Now;
  let elapsed := time_sub now start in
  match writeErr with
  | Some e => _ <~ act cbRecordFailure; Done (label, o_OrderNo order, Some e)
  | None =>
      _ <~ act (cbRecordSuccess elapsed);
      _ <~ pInvalidateWithDelay (order_key (o_OrderNo order)) 500;
      _ <~ act (publishOrderEvent os ctx order);
      Done ("sync", o_OrderNo order, None)
  end.

Definition pCreateSync (os : OrderService) (ctx : Mq.context) (order : Order) : prog created :=
  start <~ act Now;
  if os_lock os then
    answer <~ pLock (lock_key (o_OrderNo order)) lockTTL lockWait;
    bracket (lock_key (o_OrderNo order)) (pWriteAndPublish os "async" start ctx order)
      (λ _, act (createAsync os ctx order)) answer
  else pWriteAndPublish os "async" start ctx order.

Definition pHandleOrderEvent (os : OrderService) (ctx : Mq.context) (key value : string) : prog (option error) :=
  match Unmarshal dec_event zero_Event value with
  | (_, Some e) => Done (Some (Errorf ("unmarshal event: " +:+ err_text e)))
  | (event, None) =>
      match remarshalTo (e_Payload event) with
      | (_, Some e) => Done (Some (Errorf ("unmarshal order: " +:+ err_text e)))
      | (order, None) =>
          err <~ pDbWrite os order;
          match err with
          | Some e => Done (Some (Errorf ("async db write: " +:+ err_text e)))
          | None => _ <~ pInvalidate (order_key (o_OrderNo order)); Done None
          end
      end
  end.

(** ** Uninterrupted, they are the methods *)

Create HintDb runs.
Hint Resolve runs_act runs_ret runs_when runs_deferred : runs.
Ltac runs := intros;
  lazymatch goal with
  | |- runs (pbind _ _) (_ ≫= _) => apply runs_bind; [runs|intros ?; runs]
  | |- runs (pwhen _ _) (when _ _) => apply runs_when; runs
  | |- runs (pdeferred _ _) (deferred _ _) => apply runs_deferred; runs
  | |- _ => first [solve [eauto 3 with runs] | case_match; runs | idtac]
  end.

Lemma runs_Set k v : runs (pSet k v) (Set_ k v).
Proof. unfold pSet, Set_. runs. Qed.
Lemma runs_SetNull k : runs (pSetNull k) (SetNull k).
Proof. unfold pSetNull, SetNull. runs. Qed.
Lemma runs_loadFromDB loader k : runs (pLoadFromDB loader k) (loadFromDB loader k).
Proof. unfold pLoadFromDB, loadFromDB. runs. Qed.
Hint Resolve runs_Set runs_SetNull runs_loadFromDB : runs.
Lemma runs_loadWithLock loader k : runs (pLoadWithLock loader k) (loadWithLock loader k).
Proof. unfold pLoadWithLock, loadWithLock. runs. Qed.
Hint Resolve runs_loadWithLock : runs.
Lemma runs_fromL3 loader k : runs (pFromL3 loader k) (fromL3 loader k).
Proof. unfold pFromL3, fromL3. runs. Qed.
Hint Resolve runs_fromL3 : runs.
Lemma runs_Get loader k : runs (pGet loader k) (Get loader k).
Proof. unfold pGet, Get. runs. Qed.
Lemma runs_Invalidate k : runs (pInvalidate k) (Invalidate k).
Proof. unfold pInvalidate, Invalidate. runs. Qed.
Lemma runs_InvalidateWithDelay k d : runs (pInvalidateWithDelay k d) (InvalidateWithDelay k d).
Proof. unfold pInvalidateWithDelay, InvalidateWithDelay. runs. Qed.
Lemma runs_secondDelete d k : runs (pSecondDelete d k) (secondDelete d k).
Proof. unfold pSecondDelete, secondDelete. runs. Qed.
Lemma runs_dbQuery no : runs (pDbQuery no) (dbQuery no).
Proof. unfold pDbQuery, dbQuery. runs. Qed.
Lemma runs_dbWrite os o : runs (pDbWrite os o) (dbWrite os o).
Proof. unfold pDbWrite, dbWrite. runs. Qed.
Hint Resolve runs_Get runs_Invalidate runs_InvalidateWithDelay runs_dbQuery runs_dbWrite : runs.
Lemma runs_GetOrder os no : runs (pGetOrder os no) (GetOrder os no).
Proof. unfold pGetOrder, GetOrder. runs. Qed.
Lemma runs_writeAndPublish os label start ctx o : runs (pWriteAndPublish os label start ctx o) (writeAndPublish os label start ctx o).
Proof. unfold pWriteAndPublish, writeAndPublish. runs. Qed.
Lemma runs_createSync os ctx o : runs (pCreateSync os ctx o) (createSync os ctx o).
Proof.
  pose proof runs_writeAndPublish. unfold pCreateSync, createSync. apply runs_bind; [apply runs_act|intros start].
  destruct (os_lock os); [|done]. apply runs_bind; [apply runs_Lock|]. intros [token [e|]]; [apply runs_act|].
  by apply runs_deferred.
Qed.
Lemma runs_HandleOrderEvent os ctx k v : runs (pHandleOrderEvent os ctx k v) (HandleOrderEvent os ctx k v).
Proof. unfold pHandleOrderEvent, HandleOrderEvent. runs. Qed.

End cuts.

(** ** Any interleaving on one order *)

Section races.
Context `{EN : Env} `{CO : Codec} `{CL : !CodecLaws} `{VI : !Views} `{RE : !RedisLaws} `{LL : !L1Laws}
  `{CK : !ClockLaws} `{FR : !FrameLaws} `{SF : !ServiceFrames} `{OT : !OrderTable} `{OL : !OrderTableLaws}.
#[local] Set Default Proof Using "All".

Context (no : string) (Hno : numbered no) (t0 : gmap string Order).

(** The table may differ from [t0] at [no], and nowhere else; the tiers are
    right about every other order. *)
Definition near (t : gmap string Order) : Prop :=
  rows_ok t ∧ ∀ no', numbered no' → no' ≠ no → t !! no' = t0 !! no'.

Definition near_table (w : W) : Prop := ∃ t, near t ∧ table_is t w.

#[export] Instance kept_near : Kept near_table.
Proof.
  split; intros; destruct H as (t & Ht & Hw); exists t; (split; [done|]);
    first [by apply kept_now|by apply kept_sleep|by apply kept_rand|by apply kept_redis_get|by apply kept_redis_set
      |by apply kept_redis_setnx|by apply kept_redis_del|by apply kept_redis_eval|by apply kept_l1_get
      |by apply kept_l1_set|by apply kept_l1_wait|by apply kept_l1_del].
Qed.

Definition racing (s : Sys) : Prop := Cache.cache_ok (Valid t0) (Absent t0) (but no) near_table pool_up true s.

Lemma near_upsert t id o : near t → storable o → o_OrderNo o = no → 0 <= id <= 2 ^ 53 → near (upsert id o t).
Proof.
  intros [Hr Hn] Ho E Hid. split; [by apply upsert_rows|]. intros no' Hn' Hne. unfold upsert.
  rewrite E, lookup_insert_ne by done. by apply Hn.
Qed.

Lemma racing_start s : coherent t0 s → racing s.
Proof.
  intros [Hr Hs]. eapply Cache.cache_ok_sub; [..|exact Hs]; [by intros k []|]. intros Ht. by exists t0.
Qed.

(** When the key is deleted from both tiers, all is well again. *)
Lemma racing_repaired d s :
  in_int64 (d * Millisecond) → racing s →
  ∃ t s', Cache.secondDelete d (order_key no) s = (Val tt, s') ∧ coherent t s' ∧ near t.
Proof.
  intros Hd Hs. pose proof Hs as ([_ (t & Hn & Ht)] & _).
  assert (Hc : coh (but no) t s).
  { eapply Cache.cache_ok_sub; [..|exact Hs]; [|done]. intros k [(no' & Hn' & ->) Hne]. split; [by split; [exists no'|]|].
    assert (E : t !! no' = t0 !! no') by (apply Hn; [done|congruence]). split.
    - intros v (x & o & <-%order_key_inj & Ho & Hv). exists no', o. by rewrite E.
    - intros Ha. apply absent_order in Ha. apply absent_order. congruence. }
  destruct (forget_second no d t s Hd Hc) as (s' & E & H' & _). exists t, s'. split; [done|]. split; [|done].
  split; [apply Hn|done].
Qed.

(** *** Every access of a program keeps [racing] *)

Abbreviation holds := (holds racing).
Abbreviation guarded := (guarded racing).

Lemma holds_triple {A : Type} (m : M A) : State.triple racing (λ _, True) m → holds m.
Proof. intros Hm s Hs. by apply Hm. Qed.

Lemma holds_world {A : Type} (op : W → A * W) :
  (∀ w, redis_frame w (op w).2 ∧ l1_frame w (op w).2) → (∀ t w, table_is t w → table_is t (op w).2) → holds (world op).
Proof.
  intros Hf Ht. apply holds_triple. by_class Cache.t_world. intros w Hw. split; [|done]. destruct (Hf w).
  eapply (Cache.world_ok_frames _ _ _ near_table); [exact Hw|done|done|]. intros (t & Hn & Hx). exists t. auto.
Qed.

Lemma not_but : ¬ but no (order_key no).
Proof. by intros []. Qed.

Lemma holds_modify f :
  (∀ s, s_w (f s) = s_w s ∧ s_mysql (f s) = s_mysql s ∧ s_mc (f s) = s_mc s) → holds (modify f).
Proof. intros Hf. apply holds_triple. by by_class Cache.t_modify. Qed.

Lemma holds_update f :
  (∀ c, lockKeyPrefix (f c) = lockKeyPrefix c ∧ mc_l2 (f c) = mc_l2 c) → holds (Cache.update f).
Proof. intros Hf. apply holds_triple. by by_class Cache.t_update. Qed.

Lemma holds_gets {A : Type} (f : Sys → A) : holds (gets f).
Proof. by intros s. Qed.

Lemma holds_bind {A B : Type} (m : M A) (f : A → M B) : holds m → (∀ a, holds (f a)) → holds (m ≫= f).
Proof.
  intros Hm Hf s Hs. rewrite bind_run. specialize (Hm s Hs). destruct (m s) as [[a|e|] s']; [|done..]. by apply Hf.
Qed.

Lemma holds_ret {A : Type} (a : A) : holds (mret a).
Proof. by intros s. Qed.
Lemma holds_panic {A : Type} e : holds (@panic _ A e).
Proof. by intros s. Qed.

Lemma holds_Now : holds Now.
Proof. apply holds_world; [apply clk_now_frames|intros; by apply kept_now]. Qed.
Lemma holds_Sleep d : holds (Sleep d).
Proof. apply holds_triple. by by_class Cache.t_Sleep. Qed.
Lemma holds_l1TTL : holds Cache.l1TTL.
Proof. apply holds_triple. by by_class Cache.t_l1TTL. Qed.
Lemma holds_l2TTL : holds Cache.l2TTL.
Proof. apply holds_triple. by by_class Cache.t_l2TTL. Qed.
Lemma holds_l1Set v ttl : holds (Cache.l1SetWithTTL (order_key no) v ttl).
Proof. apply holds_triple. by_class Cache.t_l1Set; [|done]. by intros ?%not_but. Qed.
Lemma holds_l2Set x ttl : holds (Cache.l2Set (order_key no) x ttl).
Proof. apply holds_triple. by_class Cache.t_l2Set; [|done]. by intros ?%not_but. Qed.
Lemma holds_l1Wait : holds Cache.l1Wait.
Proof. apply holds_triple. by by_class Cache.t_l1Wait. Qed.
Lemma holds_l1Del k : holds (Cache.l1Del k).
Proof. apply holds_triple. by by_class Cache.t_l1Del. Qed.
Lemma holds_l2Del k : holds (Cache.l2Del k).
Proof. apply holds_triple. by by_class Cache.t_l2Del. Qed.
Lemma holds_l1_get k : holds (world (l1_get k)).
Proof. apply holds_world; [split; [apply l1_get_redis|apply l1_get_frame]|intros; by apply kept_l1_get]. Qed.
Lemma holds_redis_get k : holds (world (redis_get k)).
Proof. apply holds_world; [split; [apply redis_get_frame|apply redis_get_l1]|intros; by apply kept_redis_get]. Qed.
Lemma holds_access k : holds (Cache.recordAccess k).
Proof. apply holds_triple. by by_class Cache.t_recordAccess. Qed.

(** The lock of a hot load is no key of an order. *)
Lemma holds_setnx c v ttl :
  lockKeyPrefix c = "cache:lock:" → holds (world (redis_setnx (lockKeyPrefix c +:+ order_key no) v ttl)).
Proof.
  intros ->. apply holds_triple. by_class Cache.t_world. intros w Hw. split; [|done]. by_class Cache.setnx_ok; [done|].
  intros [(no' & _ & E) _]. discriminate E.
Qed.

(** Nor is the lock of a creation. *)
Lemma holds_lock_setnx v ttl : holds (world (redis_setnx (lock_key no) v ttl)).
Proof.
  apply holds_triple. by_class Cache.t_world. intros w Hw. split; [|done]. by_class Cache.setnx_ok; [done|].
  intros [Hk _]. by apply (lock_key_no_order no).
Qed.
Lemma holds_eval k v : holds (world (redis_eval unlockScript k v)).
Proof. apply holds_triple. by_class Cache.t_world. intros w Hw. split; [|done]. by by_class Cache.eval_ok. Qed.
Lemma holds_rand n : holds (world (rand_read n)).
Proof. apply holds_world; [apply rand_frames|intros; by apply kept_rand]. Qed.
Lemma holds_kafka topic m : holds (world (kafka_write topic m)).
Proof. apply holds_world; [apply kafka_write_frames|intros; by apply table_kafka]. Qed.

Lemma holds_unavailable : holds (Rwdb.unavailable Rwdb.MySQL).
Proof. by intros s. Qed.

(** Reading a row asks some replica, writing one changes the row of [no]. *)
Lemma holds_query q args : holds (Rwdb.QueryRowContext Rwdb.MySQL q args).
Proof.
  intros s (Hw & (rw & c & E & Em) & Hc). destruct (pool_replica rw c Em) as (c' & rw' & Er & Em').
  rewrite (Rwdb.query_row_run Rwdb.MySQL q args s rw c' rw' E Er).
  split; [|split; [by exists rw', c|exact Hc]]. destruct (sql_row_frames c' q args (s_w s)).
  eapply (Cache.world_ok_frames _ _ _ near_table); [exact Hw|done|done|].
  intros (t & Hn & Ht). exists t. split; [done|]. by apply table_query.
Qed.

Lemma holds_insert o :
  storable o → o_OrderNo o = no → holds (Rwdb.ExecContext Rwdb.MySQL insert_order (insert_args o)).
Proof.
  intros Ho Eo s (Hw & (rw & c & E & Em) & Hc). rewrite (Rwdb.exec_run Rwdb.MySQL _ _ s rw c E Em).
  split; [|split; [by exists rw, c|exact Hc]]. destruct (sql_exec_frames c insert_order (insert_args o) (s_w s)).
  eapply (Cache.world_ok_frames _ _ _ near_table); [exact Hw|done|done|].
  intros (t & Hn & Et & Hh). pose proof (table_insert c o (s_w s) Hh Ho) as Hi. cbn [snd s_w set_field].
  destruct (sql_exec _ _ _ _) as [[e|r] w']; cbn [snd]; destruct Hi as [Hh' Hi].
  - exists t. split; [done|]. split; [congruence|done].
  - destruct Hi as (id & Hid & Hi). exists (upsert id o t). split; [by apply near_upsert|]. split; [congruence|done].
Qed.

Lemma holds_loader mongoDB repo k : holds (Loader.newDataLoader mongoDB repo k).
Proof.
  unfold Loader.newDataLoader, Mongo.FindByUserID. rewrite Loader.profile_branch_dead, andb_false_r.
  destruct (_ && _); [|apply holds_ret]. apply holds_bind; [apply holds_unavailable|]. intros [].
  { apply holds_ret. }
  apply holds_bind; [apply holds_query|]. intros [[l| |e]|]; try apply holds_ret; [|apply holds_panic].
  destruct (Rwdb.scan_order l); apply holds_ret.
Qed.

Create HintDb holds.
Hint Resolve holds_gets holds_ret holds_Now holds_Sleep holds_l1TTL holds_l2TTL holds_l1Set holds_l2Set holds_l1Wait
  holds_lock_setnx holds_eval holds_rand holds_kafka
  holds_l1Del holds_l2Del holds_l1_get holds_redis_get holds_access holds_unavailable holds_query holds_loader : holds.
Hint Extern 1 (Programs.holds _ (modify _)) => apply holds_modify; intros; by split_and? : holds.
Hint Extern 1 (Programs.holds _ (Cache.update _)) => apply holds_update; by intros : holds.
Ltac holds := intros;
  lazymatch goal with
  | |- Programs.holds _ (_ ≫= _) => apply holds_bind; [holds|intros ?; holds]
  | |- _ => first [solve [eauto 3 with holds] | case_match; holds | idtac]
  end.

Lemma holds_breaker : (∀ d, holds (cbRecordSuccess d)) ∧ holds cbRecordFailure.
Proof. unfold cbRecordSuccess, cbRecordFailure, cb_update. split; holds. Qed.
Lemma holds_publish os ctx o : holds (publishOrderEvent os ctx o).
Proof. unfold publishOrderEvent, order_event, Mq.SendAsync, go. holds. Qed.
Lemma holds_index o : holds (indexOrderToES o).
Proof. unfold indexOrderToES, go. holds. Qed.
Lemma holds_go tk : holds (go tk).
Proof. unfold go. holds. Qed.
Lemma holds_mc : holds Cache.mc.
Proof. apply holds_gets. Qed.
Hint Resolve holds_publish holds_index holds_go holds_mc : holds.

(** ** Every program on the order is guarded *)

Create HintDb guarded.
Hint Resolve guarded_act guarded_ret guarded_when guarded_deferred : guarded.
Ltac guarded := intros;
  lazymatch goal with
  | |- Programs.guarded _ (pbind _ _) => apply guarded_bind; [guarded|intros ?; guarded]
  | |- Programs.guarded _ (act _) => apply guarded_act; holds
  | |- Programs.guarded _ (pwhen _ _) => apply guarded_when; guarded
  | |- Programs.guarded _ (pdeferred _ _) => apply guarded_deferred; [holds|guarded]
  | |- _ => first [solve [eauto 3 with guarded] | case_match; guarded | idtac]
  end.

#[local] Abbreviation key := (order_key no).

Lemma guarded_Set v : guarded (pSet key v).
Proof. unfold pSet. guarded. Qed.
Lemma guarded_SetNull : guarded (pSetNull key).
Proof. unfold pSetNull. guarded. Qed.
Lemma guarded_Invalidate : guarded (pInvalidate key).
Proof. unfold pInvalidate. guarded. Qed.
Lemma guarded_InvalidateWithDelay d : guarded (pInvalidateWithDelay key d).
Proof. unfold pInvalidateWithDelay. guarded. Qed.
Lemma guarded_secondDelete d : guarded (pSecondDelete d key).
Proof. unfold pSecondDelete. guarded. Qed.
Hint Resolve guarded_Set guarded_SetNull guarded_Invalidate guarded_InvalidateWithDelay : guarded.

Lemma guarded_loadFromDB os : loads os → guarded (pLoadFromDB (os_loader os) key).
Proof. intros (m & r & ->). unfold pLoadFromDB. guarded. Qed.

Lemma guarded_Get os : loads os → guarded (pGet (os_loader os) key).
Proof.
  intros Hl. pose proof (guarded_loadFromDB os Hl) as Hdb.
  assert (Hlock : guarded (pLoadWithLock (os_loader os) key)).
  { unfold pLoadWithLock. apply guarded_act_bind with (λ c, lockKeyPrefix c = "cache:lock:"); [by by_class Cache.t_mc|].
    intros c Hc. destruct (negb (mc_l2 c)); [done|]. apply guarded_bind; [by apply guarded_act, holds_setnx|].
    intros [[]| |e]; guarded. }
  unfold pGet, pFromL3. guarded.
Qed.

Lemma guarded_GetOrder os : loads os → guarded (pGetOrder os no).
Proof.
  intros Hl. pose proof (guarded_Get os Hl). assert (Hq : guarded (pDbQuery no)).
  { unfold pDbQuery. apply guarded_bind; [guarded|]. intros []; [guarded|]. apply guarded_bind; [guarded|].
    intros [[l| |e]|]; [|guarded..|]; [|apply guarded_act, holds_panic]. guarded. }
  unfold pGetOrder. guarded.
Qed.

Lemma guarded_dbWrite os o : storable o → o_OrderNo o = no → guarded (pDbWrite os o).
Proof.
  intros Ho Eo. pose proof (holds_insert o Ho Eo). unfold pDbWrite. rewrite Eo.
  apply guarded_bind; [guarded|]. intros []; [guarded|]. apply guarded_bind; [by apply guarded_act|]. guarded.
Qed.

Lemma guarded_write os label start ctx o :
  storable o → o_OrderNo o = no → guarded (pWriteAndPublish os label start ctx o).
Proof.
  intros Ho Eo. pose proof (guarded_dbWrite os o Ho Eo). destruct holds_breaker as [H1 H2].
  unfold pWriteAndPublish. rewrite Eo. apply guarded_bind; [done|]. intros we. apply guarded_bind; [guarded|]. intros now.
  destruct we; (apply guarded_bind; [by apply guarded_act|]); guarded.
Qed.

Lemma guarded_lock ttl wait : guarded (pLock (lock_key no) ttl wait).
Proof.
  assert (Hl : ∀ fuel token deadline, guarded (pLockLoop fuel (lock_key no) token ttl wait deadline)).
  { intros fuel token deadline. induction fuel as [|fuel IH]; [by apply guarded_act; intros s|]. cbn [pLockLoop].
    apply guarded_bind; [apply guarded_act, holds_lock_setnx|]. unfold pOutOfTime. guarded. }
  unfold pLock, Lock.randomHex. guarded.
Qed.

Lemma guarded_createSync os ctx o : storable o → o_OrderNo o = no → guarded (pCreateSync os ctx o).
Proof.
  intros Ho Eo. pose proof (λ start, guarded_write os "async" start ctx o Ho Eo) as Hw. unfold pCreateSync. rewrite Eo.
  apply guarded_bind; [guarded|intros start]. destruct (os_lock os); [|apply Hw].
  apply guarded_bind; [apply guarded_lock|]. intros [token [e|]]; cbn [bracket fst snd].
  - apply guarded_act. unfold createAsync, order_event, Mq.Send, Mq.compensationLog. holds.
  - apply guarded_deferred; [unfold Lock.Unlock; holds|apply Hw].
Qed.

Lemma guarded_handle os ctx k value :
  (∀ o, event_order value = inr o → storable o ∧ o_OrderNo o = no) → guarded (pHandleOrderEvent os ctx k value).
Proof.
  unfold event_order, pHandleOrderEvent. intros Hv. destruct (Unmarshal _ _ value) as [event [e|]]; [done|].
  destruct (remarshalTo (e_Payload event)) as [o [e|]]; [done|]. destruct (Hv o eq_refl) as [Ho Eo].
  pose proof (guarded_dbWrite os o Ho Eo). rewrite Eo. guarded.
Qed.

(** The goroutines that work on the order. *)
Inductive about (os : OrderService) : thread → Prop :=
| about_get : about os (Th (pGetOrder os no))
| about_write label start ctx o :
    storable o → o_OrderNo o = no → about os (Th (pWriteAndPublish os label start ctx o))
| about_create ctx o :
    storable o → o_OrderNo o = no → about os (Th (pCreateSync os ctx o))
| about_handle ctx k value :
    (∀ o, event_order value = inr o → storable o ∧ o_OrderNo o = no) → about os (Th (pHandleOrderEvent os ctx k value))
| about_delete d : about os (Th (pSecondDelete d key)).

Lemma about_guarded os th : loads os → about os th → th_guarded racing th.
Proof.
  intros Hl []; unfold th_guarded; [by apply guarded_GetOrder|by apply guarded_write|by apply guarded_createSync|by apply guarded_handle|apply guarded_secondDelete].
Qed.

End races.

(** ** Properties *)

(** C7: The delayed second deletion repairs any race: start from a coherent
    process and let any number of lookups, synchronous creations with their
    locks, writes without one, consumer handlers and second deletions of one
    order run in any interleaving of their accesses to the caches, the
    database and the locks, up to any moment; a second deletion executed then makes the whole process coherent
    with the table as it is by then, so the next lookup answers the row in
    the table, and no other order was affected. *)
Theorem second_deletion_repairs `{EN : Env} `{CO : Codec} `{CL : !CodecLaws} `{VI : !Views} `{RE : !RedisLaws}
    `{LL : !L1Laws} `{CK : !ClockLaws} `{FR : !FrameLaws} `{SF : !ServiceFrames} `{OT : !OrderTable} `{OL : !OrderTableLaws}
    os no t0 s0 ths sched d :
  loads os → numbered no → coherent t0 s0 → Forall (about no os) ths → in_int64 (d * Millisecond) →
  let s := (interleave sched ths s0).2 in
  ∃ t s', Cache.secondDelete d (order_key no) s = (Val tt, s') ∧ coherent t s' ∧
    (∀ no', numbered no' → no' ≠ no → t !! no' = t0 !! no') ∧
    (HK.usable (s_hk s') → ∃ s2, GetOrder os no s' = (Val (lookup_answer t no), s2)).
Proof.
  intros Hl Hn Hs Hths Hd s.
  assert (Hg : Forall (th_guarded (racing no t0)) ths).
  { eapply Forall_impl; [exact Hths|]. intros th. by apply about_guarded. }
  destruct (interleave_guarded (racing no t0) sched ths s0 Hg (racing_start no Hn t0 s0 Hs)) as [_ Hr].
  destruct (racing_repaired no Hn t0 d s Hd Hr) as (t & s' & E & H1 & [_ H2]).
  exists t, s'. split; [done|]. split; [done|]. split; [done|]. intros Hu.
  destruct (get_spec os no t s' Hl Hn H1 Hu) as (s2 & E2 & _). by exists s2.
Qed.

(** A lookup of an order that is on its way through Kafka: it has read the
    database when the consumer writes the order and deletes the cache entry;
    then it caches what it read. *)
Definition demo_threads : list thread :=
  [Th (pGetOrder (System.orders demo_srv) demo_no); Th (pHandleOrderEvent (System.orders demo_srv) "" "7" demo_message)].

Definition demo_schedule : list nat := replicate 8 0%nat ++ replicate 20 1%nat ++ replicate 8 0%nat.

(** The asynchronous path deletes once, which is not enough: after this
    interleaving both have ended, the row is in the table, no deletion is
    pending, and lookups answer that the order does not exist, for as long as
    the null marker lives. *)
Example single_deletion_insufficient :
  let '(ths, s) := interleave demo_schedule demo_threads demo_sys in
  map finished ths = [true; true] ∧
  match orders_of (s_w s) !! demo_no with Some row => o_UserID row = 7 | None => False end ∧
  s_tasks s = [] ∧
  (GetOrder (System.orders demo_srv) demo_no s).1 =
    Val (None, Some (Errorf ("order not found: " +:+ demo_no))) ∧
  r_view (s_w s) (order_key demo_no) = Some Cache.NullMarker.
Proof. vm_compute. repeat split. Qed.

Lemma second_deletion_repairs_witness :
  let s := (interleave demo_schedule demo_threads demo_sys).2 in
  ∃ t s', Cache.secondDelete 500 (order_key demo_no) s = (Val tt, s') ∧ coherent t s'.
Proof.
  assert (Ha : Forall (about demo_no (System.orders demo_srv)) demo_threads).
  { apply Forall_cons; split; [apply about_get|]. apply Forall_cons; split; [|apply Forall_nil_2].
    apply about_handle. rewrite demo_event. intros ? [= <-]. split; [apply demo_order_storable|reflexivity]. }
  destruct (second_deletion_repairs (System.orders demo_srv) demo_no ∅ demo_sys demo_threads demo_schedule 500
    demo_loads demo_numbered (proj1 demo_ready) Ha ltac:(vm_compute; split; discriminate)) as (t & s' & E & H & _).
  exists t, s'. split; [exact E|exact H].
Defined.

End Race.
