(* ===== verification/Invariant.v ===== *)
(** * The invariant of the process

    What every reachable state of the process satisfies, proved operation by
    operation: the breaker is consistent, the slots taken in the two indexing
    semaphores are the indexing goroutines pending, the analytics buffer and
    its batches stay within their sizes, and a goroutine that needs a client
    is only pending when there is one.  [sound] says that an operation keeps
    the invariant and ends; with its flag, that it does not panic either. *)

From S2P Require Export System.

Module Inv.
Import Http Handlers Health System.

(** ** The invariant *)

Definition is_order_task (t : task) : bool := match t with TIndexOrder _ => true | _ => false end.
Definition is_profile_task (t : task) : bool := match t with TIndexProfile _ => true | _ => false end.
Definition count (f : task → bool) (l : list task) : Z := Z.of_nat (Datatypes.length (List.filter f l)).

Section inv.
Context `{EN : Env}.
(** Whether the services hold a search client, and whether the channels of
    the components are closed. *)
Context (search_orders search_profiles closed : bool).

Definition task_ok (mysql : option RWDB) (t : task) : Prop :=
  match t with
  | TIndexOrder _ => search_orders = true
  | TIndexProfile _ => search_profiles = true
  | TUpdateLastLogin _ => is_Some mysql
  | TLogBatch l => 0 < Z.of_nat (Datatypes.length l) <= Analytics.batchSize
  | _ => True
  end.

(** [d]: slots held by goroutines that are running. *)
Definition fields_ok (d : Z * Z) (cb : CB.CircuitBreaker) (flags : bool * bool) (mysql : option RWDB) (orderSem profileSem : Z)
    (buf : list BehaviorEntry) (tasks : list task) : Prop :=
  (CB.cb_ok cb ∧ CB.cb_stopped cb = closed ∧ flags = (closed, closed)) ∧
  (orderSem = d.1 + count is_order_task tasks ∧ orderSem <= OrderSvc.esMaxConcurrency) ∧
  (profileSem = d.2 + count is_profile_task tasks ∧ profileSem <= Profile.profileESMaxConcurrency) ∧
  Z.of_nat (Datatypes.length buf) <= Analytics.bufChannelSize ∧
  Forall (task_ok mysql) tasks.

Definition ok (d : Z * Z) (s : Sys) : Prop :=
  fields_ok d (s_cb s) (HK.stopped (s_hk s), mc_closed (s_mc s)) (s_mysql s) (s_orderSem s) (s_profileSem s) (s_buf s) (s_tasks s).

(** ** Sound operations *)

Definition ends (np : bool) {A} (r : res A) : Prop :=
  match r with Val _ => True | Panicked _ => np = false | Unfinished => False end.

Definition sound (np : bool) {A} (m : M A) : Prop :=
  ∀ d s, ok d s → ok d (m s).2 ∧ ends np (m s).1.

Lemma sound_bind np {A B} (m : M A) (f : A → M B) :
  sound np m → (∀ a, sound np (f a)) → sound np (m ≫= f).
Proof.
  intros Hm Hf d s Hs. rewrite bind_run. destruct (Hm d s Hs) as [Hs' Hr].
  destruct (m s) as [[a|e|] s']; cbn in *; [by apply Hf|done|done].
Qed.

Lemma sound_ret np {A} (a : A) : sound np (mret a).
Proof. by intros d s Hs. Qed.

Lemma sound_gets np {A} (f : Sys → A) : sound np (gets f).
Proof. by intros d s Hs. Qed.

Lemma sound_panic {A} msg : sound false (@panic _ A msg).
Proof. by intros d s Hs. Qed.

Lemma sound_world np {A} (op : W → A * W) : sound np (world op).
Proof. intros d s Hs. by rewrite world_run. Qed.

Lemma sound_world_ np op : sound np (world_ op).
Proof. by intros d s Hs. Qed.

Lemma sound_modify np f : (∀ d s, ok d s → ok d (f s)) → sound np (modify f).
Proof. intros Hf d s Hs. split; [by apply Hf|done]. Qed.

Lemma sound_when np b m : sound np m → sound np (when b m).
Proof. destruct b; [done|]. intros _. apply sound_ret. Qed.

Lemma sound_deferred np {A} c (m : M A) : sound np c → sound np m → sound np (deferred c m).
Proof.
  intros Hd Hm d s Hs. unfold deferred. destruct (Hm d s Hs) as [Hs' Hr]. destruct (m s) as [r s1]. cbn in *.
  destruct (Hd d s1 Hs') as [Hs2 Hr2]. destruct (c s1) as [r2 s2]. cbn in *. by destruct r, r2.
Qed.

(** An operation that does not panic is sound where panics are allowed. *)
Lemma sound_weaken np {A} (m : M A) : sound true m → sound np m.
Proof.
  intros Hm d s Hs. destruct (Hm d s Hs) as [H1 H2]. split; [done|]. by destruct (m s).1, np.
Qed.

(** Starting a goroutine. *)
Lemma sound_go np t :
  is_order_task t = false → is_profile_task t = false → (∀ mysql, task_ok mysql t) → sound np (go t).
Proof.
  intros E1 E2 Ht. apply sound_modify. intros d s (Hcb & [Ho Ho'] & [Hp Hp'] & Hb & Hf).
  unfold ok, fields_ok. cbn [s_cb s_hk s_mc s_mysql s_orderSem s_profileSem s_buf s_tasks set_field].
  assert (Hc : ∀ f, f t = false → count f (s_tasks s ++ [t]) = count f (s_tasks s)).
  { intros f Ef. unfold count. rewrite List.filter_app. cbn. rewrite Ef. by rewrite app_nil_r. }
  rewrite !Hc by done. split; [done|]. split; [done|]. split; [done|]. split; [done|].
  apply Forall_app. split; [done|]. by apply Forall_singleton.
Qed.

End inv.

#[global] Arguments ok : simpl never.

Create HintDb sound.
#[export] Hint Resolve sound_ret sound_gets sound_panic sound_world sound_world_ sound_when sound_deferred : sound.
#[export] Hint Extern 1 (sound _ _ _ _ (modify _)) => apply sound_modify; intros ? ? ?; assumption : sound.
#[export] Hint Extern 1 (sound _ _ _ _ (go _)) => apply sound_go; [reflexivity|reflexivity|done] : sound.
#[export] Hint Extern 9 (sound _ _ _ false _) => apply sound_weaken : sound.

(** Follow the operation's structure; the database carries its calls. *)
Ltac sound := intros;
  lazymatch goal with
  | |- sound _ _ _ _ (_ ≫= _) => apply sound_bind; [sound|intros ?; sound]
  | |- sound _ _ _ _ (when _ _) => apply sound_when; sound
  | |- sound _ _ _ _ (deferred _ _) => apply sound_deferred; sound
  | |- _ => first [solve [eauto 4 with sound] | case_match; sound | idtac]
  end.

Lemma count_snoc f l t : count f (l ++ [t]) = count f l + (if f t then 1 else 0).
Proof. unfold count. rewrite List.filter_app. cbn. destruct (f t); rewrite length_app; cbn; lia. Qed.

Lemma RecordSuccess_ok d now cb : CB.cb_ok cb → CB.cb_ok (CB.RecordSuccess d now cb).
Proof. intros Hok. unfold CB.RecordSuccess. apply CB.success_locked_ok. by destruct (_ <? _). Qed.

(** Only [Stop] closes the breaker's channel. *)
Create HintDb breaker.
Ltac stopped := intros; autounfold with breaker; by repeat case_match.
#[local] Hint Unfold CB.RecordSuccess CB.RecordFailure CB.success_locked CB.failure_locked CB.add_slow CB.add_total
  CB.add_success CB.add_failure CB.stamp_failure CB.transitionTo CB.stateTransitionTick CB.tick_closed CB.tick_open : breaker.

Lemma RecordSuccess_stopped d now cb : CB.cb_stopped (CB.RecordSuccess d now cb) = CB.cb_stopped cb.
Proof. stopped. Qed.
Lemma RecordFailure_stopped n1 n2 cb : CB.cb_stopped (CB.RecordFailure n1 n2 cb) = CB.cb_stopped cb.
Proof. stopped. Qed.
Lemma tick_stopped now cb : CB.cb_stopped (CB.stateTransitionTick now cb) = CB.cb_stopped cb.
Proof. stopped. Qed.

Lemma RecordFailure_ok n1 n2 cb : CB.cb_ok cb → CB.cb_ok (CB.RecordFailure n1 n2 cb).
Proof.
  intros (H1 & H2 & H3 & H4). unfold CB.RecordFailure, CB.failure_locked, CB.stamp_failure, CB.add_total, CB.add_failure.
  cbn [CB.cb_state set_field]. destruct (Z.eqb_spec (CB.cb_state cb) CB.StateHalfOpen); [|done].
  split; [done|]. cbn. split; [right; by left|done].
Qed.

(** ** The components below the services *)

Section components.
Context `{EN : Env} `{CO : Codec} `{VI : !Views} `{RE : !RedisLaws} `{CL : !ClockLaws}.
Context (so sp cl : bool).
#[local] Set Default Proof Using "All".
#[local] Abbreviation sound := (sound so sp cl).

Lemma sound_Now np : sound np Now.
Proof. unfold Now. sound. Qed.
Lemma sound_Sleep np d : sound np (Sleep d).
Proof. unfold Sleep. sound. Qed.
Lemma sound_jitter np base pct : sound np (Config.JitterDuration base pct).
Proof. unfold Config.JitterDuration. sound. Qed.
Hint Resolve sound_Now sound_Sleep sound_jitter : sound.

Lemma sound_Set np k v : sound np (Cache.Set_ k v).
Proof.
  unfold Cache.Set_, Cache.l1TTL, Cache.l2TTL, Cache.l1SetWithTTL, Cache.l1Wait, Cache.mc, Cache.l2Set. sound.
Qed.
Lemma sound_SetNull np k : sound np (Cache.SetNull k).
Proof. unfold Cache.SetNull, Cache.l1SetWithTTL, Cache.l1Wait, Cache.mc, Cache.l2Set. sound. Qed.
Lemma sound_Invalidate np k : sound np (Cache.Invalidate k).
Proof. unfold Cache.Invalidate, Cache.l1Del, Cache.l2Del, Cache.mc. sound. Qed.
Lemma sound_InvalidateWithDelay np k d : sound np (Cache.InvalidateWithDelay k d).
Proof. unfold Cache.InvalidateWithDelay, Cache.l1Del, Cache.l2Del, Cache.mc. sound. Qed.
Lemma sound_secondDelete np d k : sound np (Cache.secondDelete d k).
Proof. unfold Cache.secondDelete, Cache.l1Del, Cache.l2Del, Cache.mc. sound. Qed.
Hint Resolve sound_Set sound_SetNull sound_Invalidate sound_InvalidateWithDelay sound_secondDelete : sound.

(** The counters leave the channel of the cache alone, the detector its own. *)
Lemma sound_update np f : (∀ c, mc_closed (f c) = mc_closed c) → sound np (Cache.update f).
Proof.
  intros Hf. apply sound_modify. intros d s (Hc & H). split; [|exact H]. cbn. rewrite Hf. exact Hc.
Qed.

Lemma sound_recordAccess k : sound false (Cache.recordAccess k).
Proof.
  intros d s Hs. destruct (Cache.recordAccess_run k s) as (n1 & n2 & w & ->). cbn [fst snd].
  destruct (HK.RecordAccess k n1 n2 (s_hk s)) as [[b h]|] eqn:E; [|done]. apply HK.RecordAccess_stopped in E.
  destruct Hs as (Hc & H). split; [|done]. split; [|exact H]. cbn. by rewrite E.
Qed.

Lemma sound_Get loader k :
  (∀ load, loader = Some load → sound false (load k)) → sound false (Cache.Get loader k).
Proof.
  intros Hl. assert (Hdb : sound false (Cache.loadFromDB loader k)).
  { unfold Cache.loadFromDB, Cache.mc, Cache.l2TTL, Cache.l1TTL, Cache.l2Set, Cache.l1SetWithTTL, Cache.l1Wait.
    destruct loader as [load|]; [|sound]. specialize (Hl load eq_refl). sound. }
  pose proof (sound_update false) as Hu. pose proof sound_recordAccess as Ha.
  unfold Cache.Get, Cache.fromL3, Cache.loadWithLock, Cache.mc, Cache.l1TTL, Cache.l1SetWithTTL, Cache.l1Wait, Cache.l2Del. sound.
Qed.
Hint Resolve sound_Get : sound.

Lemma sound_Lock np key ttl wait : 0 <= wait → sound np (Lock.Lock key ttl wait).
Proof.
  intros Hw d s Hs. destruct (Lock.Lock_run key ttl wait s) as (w0 & w1 & token & _ & -> & Hd).
  destruct (Lock.lock_enough key token ttl wait (clk_now w0).1 (s <| s_w := w1 |>)) as (r & s' & E);
    [done|by rewrite s_w_set|].
  destruct (Lock.lock_loop_world (Lock.lock_fuel wait) key token ttl wait ((clk_now w0).1 + wait) (s <| s_w := w1 |>))
    as [w Ew]. rewrite E in Ew |- *. cbn in Ew. subst s'. done.
Qed.
Lemma sound_Unlock np key token : sound np (Lock.Unlock key token).
Proof. unfold Lock.Unlock. sound. Qed.
Hint Resolve sound_Unlock : sound.

Lemma sound_Send np ep ctx key v : sound np (Mq.Send ep ctx key v).
Proof. unfold Mq.Send, Mq.compensationLog. sound. Qed.
Lemma sound_SendAsync np ep ctx key e : sound np (Mq.SendAsync ep ctx key e).
Proof. unfold Mq.SendAsync. sound. Qed.
Lemma sound_SendToDLQ np ep ctx key v : sound np (Mq.SendToDLQ ep ctx key v).
Proof. unfold Mq.SendToDLQ. sound. Qed.
Lemma sound_Ping np ep : sound np (Mq.Ping ep).
Proof. unfold Mq.Ping. sound. Qed.
Hint Resolve sound_Send sound_SendAsync sound_SendToDLQ sound_Ping : sound.

Lemma sound_sendTask np ep tr key e : sound np (Mq.sendTask ep tr key e).
Proof. unfold Mq.sendTask. sound. Qed.

Lemma sound_IndexOrder np sc o : sound np (Es.IndexOrder sc o).
Proof. unfold Es.IndexOrder. sound. Qed.
Lemma sound_IndexUserProfile np sc p : sound np (Es.IndexUserProfile sc p).
Proof. unfold Es.IndexUserProfile. sound. Qed.
Lemma sound_SearchOrders np sc k p n : sound np (Es.SearchOrders sc k p n).
Proof. unfold Es.SearchOrders, Es.executeOrderSearch, Es.executeSearch. sound. Qed.
Lemma sound_SearchUsers np sc k p n : sound np (Es.SearchUsers sc k p n).
Proof. unfold Es.SearchUsers, Es.executeUserSearch, Es.executeSearch. sound. Qed.
Hint Resolve sound_IndexOrder sound_IndexUserProfile sound_SearchOrders sound_SearchUsers : sound.

(** ** The pools: a missing one makes its caller panic, unless it asked *)

Lemma sound_set_db np d rw : sound np (modify (Rwdb.set_db d rw)).
Proof.
  apply sound_modify. intros d' s (Hcb & Ho & Hp & Hb & Hf). destruct d; [|done].
  unfold ok, fields_ok. cbn. split; [done|]. split; [done|]. split; [done|]. split; [done|].
  eapply Forall_impl; [exact Hf|]. intros [] Ht; cbn in *; done.
Qed.
Hint Resolve sound_set_db : sound.

Lemma sound_nil_deref {A} : sound false (@Rwdb.nil_deref _ A).
Proof. apply sound_panic. Qed.
Hint Resolve sound_nil_deref : sound.

Lemma sound_Exec d q args : sound false (Rwdb.ExecContext d q args).
Proof. unfold Rwdb.ExecContext, Rwdb.on_db. sound. Qed.
Lemma sound_take_replica d : sound false (Rwdb.take_replica d).
Proof. unfold Rwdb.take_replica, Rwdb.on_db. sound. Qed.
Hint Resolve sound_Exec sound_take_replica : sound.
Lemma sound_QueryRow d q args : sound false (Rwdb.QueryRowContext d q args).
Proof. unfold Rwdb.QueryRowContext. sound. Qed.
Lemma sound_Query d q args : sound false (Rwdb.QueryContext d q args).
Proof. unfold Rwdb.QueryContext. sound. Qed.
Lemma sound_unavailable np d : sound np (Rwdb.unavailable d).
Proof. unfold Rwdb.unavailable. sound. Qed.
Hint Resolve sound_QueryRow sound_Query sound_unavailable : sound.

(** A statement behind the check cannot panic. *)
Lemma sound_guarded_exec np {A} d q args (a : M A) (k : error + (string + Z) → M A) :
  sound np a → (∀ r, sound np (k r)) →
  sound np (down ← Rwdb.unavailable d; if down : bool then a else r ← Rwdb.ExecContext d q args; k r).
Proof.
  intros Ha Hk d' s Hs. rewrite bind_run, Rwdb.unavailable_run.
  destruct (Rwdb.get_db d s) as [rw|] eqn:Ed; [|by apply Ha]. unfold Rwdb.IsNil.
  destruct (master rw) as [c|] eqn:Em; [|by apply Ha]. rewrite bind_run, (Rwdb.exec_run d q args s rw c) by done.
  by apply Hk.
Qed.

Lemma sound_FindByUserID np r id : sound np (Mongo.FindByUserID r id).
Proof. unfold Mongo.FindByUserID. sound. Qed.
Lemma sound_Upsert np r p : sound np (Mongo.Upsert r p).
Proof. unfold Mongo.Upsert. sound. Qed.
Hint Resolve sound_FindByUserID sound_Upsert : sound.

Lemma sound_loader mongoDB repo k : sound false (Loader.newDataLoader mongoDB repo k).
Proof. unfold Loader.newDataLoader. sound. Qed.

(** ** Accounts and reports *)

Lemma sound_get_user query what arg : sound false (Repo.get_user query what arg).
Proof. unfold Repo.get_user. sound. Qed.
Hint Resolve sound_get_user : sound.

Lemma sound_generateToken np svc uid name : sound np (Auth.generateToken svc uid name).
Proof. unfold Auth.generateToken. sound. Qed.
Hint Resolve sound_generateToken : sound.
Lemma sound_ParseToken np svc token : sound np (Auth.ParseToken svc token).
Proof. unfold Auth.ParseToken. sound. Qed.
Lemma sound_Register svc req : sound false (Auth.Register svc req).
Proof. unfold Auth.Register, Repo.GetByUsername, Repo.GetByEmail, Repo.InsertUser. sound. Qed.
Lemma sound_GetUserInfo uid : sound false (Auth.GetUserInfo uid).
Proof. unfold Auth.GetUserInfo, Repo.GetByID. sound. Qed.
Hint Resolve sound_ParseToken sound_Register sound_GetUserInfo : sound.

Lemma sound_GetDailyStats from to : sound false (Analytics.GetDailyStats from to).
Proof. unfold Analytics.GetDailyStats, PgRepo.GetDailyStats. sound. Qed.
Lemma sound_GetBehaviorSummary t : sound false (Analytics.GetBehaviorSummary t).
Proof. unfold Analytics.GetBehaviorSummary, PgRepo.GetBehaviorSummary. sound. Qed.
Hint Resolve sound_GetDailyStats sound_GetBehaviorSummary : sound.

(** A login starts a goroutine only after MySQL has answered. *)
Lemma sound_Login svc req : sound false (Auth.Login svc req).
Proof.
  intros d s Hs. unfold Auth.Login, Repo.GetByUsername. rewrite bind_run.
  destruct (sound_get_user Repo.select_by_username "username" (SStr (lr_Username req)) d s Hs) as [Hs1 He].
  destruct (Repo.get_user _ _ _ s) as [[r|e|] s1] eqn:E; cbn in Hs1, He |- *; [|done..].
  assert (Hdb : is_Some (s_mysql s1)).
  { unfold Repo.get_user, Rwdb.QueryRowContext, Rwdb.take_replica, Rwdb.on_db in E.
    rewrite !bind_run in E. unfold gets in E. cbn [Rwdb.get_db] in E.
    destruct (s_mysql s) as [rw|]; [|done]. destruct (Rwdb.replica rw) as [[c|] rw'].
    - rewrite !bind_run in E. unfold modify in E. rewrite ret_run, bind_run, world_run in E.
      destruct (sql_query_row _ _ _ _) as [[l| |e] w]; cbn [fst snd] in E; rewrite ret_run in E;
        repeat case_match; injection E as <- <-; by eexists.
    - rewrite !bind_run in E. done. }
  clear E He.
  destruct r as [e|[u|]]; [done| |done]. destruct (negb (u_Status u =? 1)); [done|]. destruct (negb (bcrypt_compare _ _)); [done|].
  rewrite bind_run, Auth.generateToken_run. destruct (jwt_sign _ _ _ _ _) as [e|token]; [done|].
  split; [|done]. destruct Hs1 as (Hcb & [Ho Ho'] & [Hp Hp'] & Hb & Hf). unfold ok, fields_ok. cbn.
  assert (Hc : ∀ f, f (TUpdateLastLogin (u_ID u)) = false → count f (s_tasks s1 ++ [TUpdateLastLogin (u_ID u)]) = count f (s_tasks s1)).
  { intros f Ef. unfold count. rewrite List.filter_app. cbn. rewrite Ef. by rewrite app_nil_r. }
  rewrite !Hc by done. split; [done|]. split; [done|]. split; [done|]. split; [done|].
  apply Forall_app. split; [done|]. by apply Forall_singleton.
Qed.
Hint Resolve sound_Login : sound.

(** ** Semaphores, buffers and the breaker *)

(** Taking a slot starts the goroutine that gives it back. *)
Lemma sound_indexOrder np o : so = true → sound np (OrderSvc.indexOrderToES o).
Proof.
  intros Hso d s Hs. unfold OrderSvc.indexOrderToES, go. rewrite bind_run. unfold gets.
  destruct (Z.ltb_spec (s_orderSem s) OrderSvc.esMaxConcurrency); [|done].
  rewrite bind_run. unfold modify. split; [|done]. destruct Hs as (Hcb & [Ho Ho'] & [Hp Hp'] & Hb & Hf).
  unfold ok, fields_ok. cbn. rewrite !count_snoc. cbn.
  split; [done|]. split; [lia|]. split; [lia|]. split; [done|].
  apply Forall_app. split; [done|]. by apply Forall_singleton.
Qed.

Lemma sound_indexProfile np p : sp = true → sound np (Profile.indexProfileToES p).
Proof.
  intros Hsp d s Hs. unfold Profile.indexProfileToES, go. rewrite bind_run. unfold gets.
  destruct (Z.ltb_spec (s_profileSem s) Profile.profileESMaxConcurrency); [|done].
  rewrite bind_run. unfold modify. split; [|done]. destruct Hs as (Hcb & [Ho Ho'] & [Hp Hp'] & Hb & Hf).
  unfold ok, fields_ok. cbn. rewrite !count_snoc. cbn.
  split; [done|]. split; [lia|]. split; [lia|]. split; [done|].
  apply Forall_app. split; [done|]. by apply Forall_singleton.
Qed.

Lemma sound_LogOrderCreated np uid no : sound np (Analytics.LogOrderCreated uid no).
Proof.
  assert (Ht : ∀ e, sound np (Analytics.try_send e)).
  { intros e d s Hs. rewrite Analytics.try_send_run. destruct (Z.ltb_spec (Z.of_nat (Datatypes.length (s_buf s))) Analytics.bufChannelSize); [|done].
    split; [|done]. destruct Hs as (Hcb & Ho & Hp & Hb & Hf). unfold ok, fields_ok. cbn. rewrite length_app. cbn.
    split; [done|]. split; [done|]. split; [done|]. split; [lia|done]. }
  unfold Analytics.LogOrderCreated, Analytics.signalFlush. sound; apply Ht.
Qed.

Lemma sound_cb np f :
  (∀ cb, CB.cb_ok cb → CB.cb_ok (f cb)) → (∀ cb, CB.cb_stopped (f cb) = CB.cb_stopped cb) →
  sound np (OrderSvc.cb_update f).
Proof.
  intros Hf Hst. apply sound_modify. intros d s ((H1 & H2 & H3) & H). split; [|exact H]. cbn. rewrite Hst. by split; [apply Hf|].
Qed.

Lemma sound_breaker np :
  (∀ d, sound np (OrderSvc.cbRecordSuccess d)) ∧ sound np OrderSvc.cbRecordFailure ∧
  sound np OrderSvc.cbAllow ∧ sound np OrderSvc.rlTryAcquire.
Proof.
  unfold OrderSvc.cbRecordSuccess, OrderSvc.cbRecordFailure, OrderSvc.cbAllow, OrderSvc.rlTryAcquire.
  split; [|split; [|split]]; sound; apply sound_cb; intros;
    first [by apply RecordSuccess_ok|by apply RecordFailure_ok|apply RecordSuccess_stopped|apply RecordFailure_stopped].
Qed.

Lemma sound_fill np o : sound np (OrderSvc.fill o).
Proof. unfold OrderSvc.fill, OrderSvc.generateOrderNo. sound. Qed.
Hint Resolve sound_indexOrder sound_indexProfile sound_LogOrderCreated sound_fill : sound.

(** ** Orders *)

Section orders.
Context (os : OrderSvc.OrderService).
Context (Hso : ∀ sc, OrderSvc.os_search os = Some sc → so = true).
Context (Hload : ∀ load k, OrderSvc.os_loader os = Some load → sound false (load k)).

Lemma sound_dbWrite np o : sound np (OrderSvc.dbWrite os o).
Proof.
  apply sound_guarded_exec; [sound|]. intros [e|r]; [sound|]. apply sound_bind; [sound|]. intros _.
  destruct (OrderSvc.os_search os) as [sc|] eqn:E; sound.
Qed.
Hint Resolve sound_dbWrite : sound.

Lemma sound_publish np ctx o : sound np (OrderSvc.publishOrderEvent os ctx o).
Proof. unfold OrderSvc.publishOrderEvent, OrderSvc.order_event. sound. Qed.
Hint Resolve sound_publish : sound.

Lemma sound_createAsync np ctx o : sound np (OrderSvc.createAsync os ctx o).
Proof. unfold OrderSvc.createAsync, OrderSvc.order_event. sound. Qed.

Lemma sound_writeAndPublish np label start ctx o : sound np (OrderSvc.writeAndPublish os label start ctx o).
Proof.
  destruct (sound_breaker np) as (H1 & H2 & _). unfold OrderSvc.writeAndPublish. sound.
Qed.
Hint Resolve sound_createAsync sound_writeAndPublish : sound.

Lemma sound_unlock np k token : sound np (OrderSvc.unlock k token).
Proof. unfold OrderSvc.unlock. sound. Qed.
Hint Resolve sound_unlock : sound.

Lemma sound_createSync np ctx o : sound np (OrderSvc.createSync os ctx o).
Proof.
  unfold OrderSvc.createSync. apply sound_bind; [sound|intros start]. destruct (OrderSvc.os_lock os); [|sound].
  apply sound_bind; [by apply sound_Lock|intros [token err]]. sound.
Qed.

Lemma sound_CreateOrder np ctx o : sound np (OrderSvc.CreateOrder os ctx o).
Proof.
  destruct (sound_breaker np) as (_ & _ & H3 & H4). unfold OrderSvc.CreateOrder.
  apply sound_bind; [sound|intros o']. apply sound_bind; [done|intros allowed].
  destruct (negb allowed); [sound|]. apply sound_bind; [done|intros token].
  destruct token; [apply sound_createSync|sound].
Qed.

Lemma sound_CreateOrderForceSync np ctx o : sound np (OrderSvc.CreateOrderForceSync os ctx o).
Proof.
  unfold OrderSvc.CreateOrderForceSync. apply sound_bind; [sound|intros o']. apply sound_bind; [sound|intros start].
  destruct (OrderSvc.os_lock os); [|sound]. apply sound_bind; [by apply sound_Lock|intros [token err]]. sound.
Qed.

Lemma sound_HandleOrderEvent np ctx k v : sound np (OrderSvc.HandleOrderEvent os ctx k v).
Proof. unfold OrderSvc.HandleOrderEvent. sound. Qed.

Lemma sound_GetOrder no : sound false (OrderSvc.GetOrder os no).
Proof.
  assert (Hq : sound false (OrderSvc.dbQuery no)) by (unfold OrderSvc.dbQuery; sound).
  unfold OrderSvc.GetOrder. apply sound_bind; [apply sound_Get; intros; by apply Hload|]. sound.
Qed.

End orders.

(** ** Profiles *)

Section profiles.
Context (us : Profile.UserProfileService).
Context (Hsp : ∀ sc, Profile.us_search us = Some sc → sp = true).
Context (Hload : ∀ load k, Profile.us_loader us = Some load → sound false (load k)).

Lemma sound_GetProfile uid : sound false (Profile.GetProfile us uid).
Proof.
  unfold Profile.GetProfile, Profile.loadFromMongo.
  apply sound_bind; [apply sound_Get; intros; by apply Hload|]. sound.
Qed.

Lemma sound_UpsertProfile np p : sound np (Profile.UpsertProfile us p).
Proof.
  unfold Profile.UpsertProfile. destruct (Profile.us_mongoRepo us) as [repo|]; [|sound].
  apply sound_bind; [sound|intros [e|]]; [sound|]. apply sound_bind; [sound|intros _].
  destruct (Profile.us_search us) as [sc|] eqn:E; sound.
Qed.

Lemma sound_svc_SearchUsers np k p n : sound np (Profile.SearchUsers us k p n).
Proof. unfold Profile.SearchUsers. sound. Qed.

End profiles.

(** ** The goroutines *)

(** Giving a slot back. *)
Lemma ok_release_order d s :
  ok so sp cl (1 + d.1, d.2) s → ok so sp cl d (s <| s_orderSem ::= (λ n, n - 1) |>).
Proof.
  intros (Hcb & [Ho Ho'] & Hp & Hb & Hf). unfold ok, fields_ok. cbn in *.
  split; [done|]. split; [lia|done].
Qed.

Lemma ok_release_profile d s :
  ok so sp cl (d.1, 1 + d.2) s → ok so sp cl d (s <| s_profileSem ::= (λ n, n - 1) |>).
Proof.
  intros (Hcb & Ho & [Hp Hp'] & Hb & Hf). unfold ok, fields_ok. cbn in *.
  split; [done|]. split; [done|]. split; [lia|done].
Qed.

(** A task that starts leaves the list and holds its slot. *)
Lemma ok_take d s i t :
  ok so sp cl d s → s_tasks s !! i = Some t →
  ok so sp cl ((if is_order_task t then 1 else 0) + d.1, (if is_profile_task t then 1 else 0) + d.2)
    (s <| s_tasks ::= delete i |>) ∧ task_ok so sp (s_mysql s) t.
Proof.
  intros (Hcb & [Ho Ho'] & [Hp Hp'] & Hb & Hf) Ht.
  assert (Hc : ∀ f, count f (s_tasks s) = (if f t then 1 else 0) + count f (delete i (s_tasks s))).
  { intros f. unfold count. rewrite <-(take_drop_middle _ _ _ Ht) at 1.
    rewrite delete_take_drop, !List.filter_app, !length_app. cbn. destruct (f t); cbn; lia. }
  split; [|by eapply Forall_lookup_1]. unfold ok, fields_ok. cbn. rewrite (Hc is_order_task) in Ho.
  rewrite (Hc is_profile_task) in Hp. split; [done|]. split; [lia|]. split; [lia|]. split; [done|].
  rewrite delete_take_drop. apply Forall_app. rewrite <-(take_drop_middle _ _ _ Ht) in Hf.
  apply Forall_app in Hf as [H1 H2]. split; [done|]. by inversion H2.
Qed.

End components.
End Inv.
