(* ===== verification/Answers.v ===== *)
(** * One answer per request, and a background that does not panic

    The invariant carried through the handlers and middlewares: a request to
    any route is answered exactly once and leaves the invariant in place; the
    process as a whole keeps it, from its construction on; and no goroutine
    or worker panics, which would end the process. *)

From S2P Require Export Invariant.

Module Answers.
Import Http Handlers Health System Inv.

Section answers.
Context `{EN : Env} `{CO : Codec} `{VA : !Validator} `{DR : !Drivers} `{VI : !Views} `{RE : !RedisLaws} `{CL : !ClockLaws}.
Context (so sp cl : bool).
#[local] Set Default Proof Using "All".

(** ** Handlers that write nothing, and handlers that answer *)

Definition silent {A} (m : HM A) : Prop :=
  ∀ d c s, ok so sp cl d s →
    let '(r, (c', s')) := m c s in
    ok so sp cl d s' ∧ ends false r ∧ g_Writes c' = g_Writes c ∧ g_Errors c' = g_Errors c.

(** Exactly one answer when it returns, none before it panics. *)
Definition answers (m : HM unit) : Prop :=
  ∀ d c s, ok so sp cl d s → g_Errors c = [] →
    let '(r, (c', s')) := m c s in
    ok so sp cl d s' ∧ ends false r ∧ g_Errors c' = [] ∧
    match r with
    | Val _ => ∃ status b, g_Writes c' = (g_Writes c ++ [(status, b)])%list
    | _ => g_Writes c' = g_Writes c
    end.

Lemma silent_bind {A B} (m : HM A) (f : A → HM B) : silent m → (∀ a, silent (f a)) → silent (m ≫= f).
Proof.
  intros Hm Hf d c s Hs. rewrite hbind_run. specialize (Hm d c s Hs).
  destruct (m c s) as [[a|e|] [c1 s1]]; destruct Hm as (H1 & H2 & H3 & H4); [|done..].
  specialize (Hf a d c1 s1 H1). destruct (f a c1 s1) as [r [c2 s2]]. by rewrite <-H3, <-H4.
Qed.

Lemma answers_bind {A} (m : HM A) (f : A → HM unit) : silent m → (∀ a, answers (f a)) → answers (m ≫= f).
Proof.
  intros Hm Hf d c s Hs He. rewrite hbind_run. specialize (Hm d c s Hs).
  destruct (m c s) as [[a|e|] [c1 s1]]; destruct Hm as (H1 & H2 & H3 & H4); [|by rewrite H4..].
  rewrite He in H4. specialize (Hf a d c1 s1 H1 H4). destruct (f a c1 s1) as [r [c2 s2]]. by rewrite <-H3.
Qed.

Lemma silent_ret {A} (a : A) : silent (mret a).
Proof. by intros d c s Hs. Qed.

Lemma silent_getg {A} (f : Gin → A) : silent (getg f).
Proof. by intros d c s Hs. Qed.

Lemma silent_lift {A} (m : M A) : sound so sp cl false m → silent (lift m).
Proof.
  intros Hm d c s Hs. rewrite lift_run. destruct (Hm d s Hs) as [H1 H2]. by destruct (m s) as [[a|e|] s'].
Qed.

Lemma silent_modg f : (∀ c, g_Writes (f c) = g_Writes c ∧ g_Errors (f c) = g_Errors c) → silent (modg f).
Proof. intros Hf d c s Hs. destruct (Hf c). cbn. by split. Qed.

Lemma answers_modg f :
  (∀ c, (∃ status b, g_Writes (f c) = (g_Writes c ++ [(status, b)])%list) ∧ g_Errors (f c) = g_Errors c) → answers (modg f).
Proof. intros Hf d c s Hs He. destruct (Hf c) as [H1 H2]. cbn. rewrite H2. by split. Qed.

Lemma answers_write status b : answers (modg (write status b)).
Proof. apply answers_modg. intros c. split; [by eexists _, _|done]. Qed.

Lemma answers_JSON status message d : answers (JSON status message d).
Proof. apply answers_modg. intros c. split; [by eexists _, _|done]. Qed.

Lemma answers_refuse f status code message d :
  (∀ c, f c = Abort_ (ApiJSON status code message d c)) → answers (modg f).
Proof. intros Hf. apply answers_modg. intros c. rewrite Hf. split; [by eexists _, _|done]. Qed.

Lemma sound_SetStartupCompleted np : sound so sp cl np SetStartupCompleted.
Proof. apply sound_modify. intros d s Hs. exact Hs. Qed.

Create HintDb answers.
Hint Resolve silent_ret silent_getg silent_lift answers_write answers_JSON : answers.
Hint Resolve sound_Now sound_ParseToken sound_GetDailyStats sound_GetBehaviorSummary sound_Register sound_Login
  sound_GetUserInfo sound_LogOrderCreated sound_gets sound_Ping sound_SetStartupCompleted : answers.

Ltac answers := intros; cbv zeta;
  lazymatch goal with
  | |- answers (_ ≫= _) => apply answers_bind; [answers|intros ?; answers]
  | |- silent (_ ≫= _) => apply silent_bind; [answers|intros ?; answers]
  | |- silent (lift (_ ≫= _)) => apply silent_lift; sound; eauto with answers
  | |- _ => first [solve [eauto 4 with answers] | case_match; answers | idtac]
  end.

(** ** The handlers *)

Lemma answers_bind_valid {S} (dec : json → S * option error) zero rules bad invalid handle :
  (∀ req, answers (handle req)) → answers (bind_valid dec zero rules bad invalid handle).
Proof. intros Hh. unfold bind_valid, ShouldBindJSON. answers. Qed.

Lemma answers_search {T} operation (run : string → Z → Z → M (Es.found T)) answer :
  (∀ k p n, sound so sp cl false (run k p n)) → answers (search operation run answer).
Proof.
  intros Hr. unfold search, parseSearchParams. intros d c s Hs He.
  rewrite !hbind_run. unfold getg at 1. destruct (bool_decide _).
  - cbn. split; [done|]. split; [done|]. split; [done|]. by eexists _, _.
  - rewrite hbind_run. unfold getg at 1. rewrite hbind_run. unfold getg at 1. rewrite hret_run.
    match goal with |- context[(lift (run ?k ?p ?n) ≫= ?f) c s] =>
      assert (Ha : answers (lift (run k p n) ≫= f)) by answers end.
    by apply Ha.
Qed.

(** How the process builds its services. *)
Definition wired (srv : Server) : Prop :=
  (∃ m r, OrderSvc.os_loader (orders srv) = Some (Loader.newDataLoader m r)) ∧
  (∃ m r, Profile.us_loader (profiles srv) = Some (Loader.newDataLoader m r)) ∧
  (∀ sc, OrderSvc.os_search (orders srv) = Some sc → so = true) ∧
  (so = true → is_Some (OrderSvc.os_search (orders srv))) ∧
  (∀ sc, Profile.us_search (profiles srv) = Some sc → sp = true) ∧
  (sp = true → is_Some (Profile.us_search (profiles srv))) ∧
  (∃ ep, kafkaChecker (srv_health srv) = Some (Mq.Ping ep)) ∧
  is_Some (OrderSvc.os_producer (orders srv)) ∧ is_Some (Mq.ec_producer (srv_consumer srv)).

Section server.
Context (srv : Server) (Hw : wired srv).

Lemma orders_load load k : OrderSvc.os_loader (orders srv) = Some load → sound so sp cl false (load k).
Proof. destruct Hw as ((m & r & ->) & _). intros [= <-]. apply sound_loader. Qed.

Lemma profiles_load load k : Profile.us_loader (profiles srv) = Some load → sound so sp cl false (load k).
Proof. destruct Hw as (_ & (m & r & ->) & _). intros [= <-]. apply sound_loader. Qed.

Lemma answers_business forceSync msg : answers (handleCreateOrder (srv_business srv) msg forceSync).
Proof.
  destruct Hw as (_ & _ & Hso & _). apply answers_bind_valid. intros req. apply answers_bind; [answers|intros ctx].
  apply answers_bind.
  - apply silent_lift. destruct forceSync; [apply sound_CreateOrderForceSync|apply sound_CreateOrder]; eauto using orders_load.
  - answers.
Qed.

Lemma answers_swagger base : answers (Swagger.SwaggerWithRuntimeDefaults base).
Proof.
  assert (Hf : ∀ (headers : list (string * string)) c, let c' := foldl (λ c kv, Header kv.1 kv.2 c) c headers in
    g_Writes c' = g_Writes c ∧ g_Errors c' = g_Errors c).
  { induction headers as [|h headers IH]; intros c; [done|]. by destruct (IH (Header h.1 h.2 c)). }
  unfold Swagger.SwaggerWithRuntimeDefaults. apply answers_bind; [answers|intros path].
  apply answers_bind; [by intros d c s Hs; rewrite lift_run, world_run|intros [[st headers] content]].
  apply answers_bind; [by apply silent_modg|intros _]. destruct (Swagger.is_document path); [|answers].
  destruct (bool_decide _); answers. by apply silent_modg.
Qed.

Lemma answers_handle e : answers (handle srv e).
Proof.
  destruct Hw as (_ & _ & Hso & _ & Hsp & _ & [ep Hk] & _). destruct e; cbn [handle].
  - apply answers_bind_valid. answers.
  - apply answers_bind_valid. answers.
  - unfold GetMe. answers.
  - apply answers_business.
  - apply answers_business.
  - unfold GetOrder. apply answers_bind; [answers|intros no]. apply answers_bind; [|answers].
    apply silent_lift, sound_GetOrder; eauto using orders_load.
  - apply answers_search. intros. unfold OrderSvc.SearchOrders. destruct (OrderSvc.os_search _); [|apply sound_ret].
    apply sound_SearchOrders.
  - apply answers_bind_valid. intros p. apply answers_bind; [|answers]. apply silent_lift, sound_UpsertProfile; eauto using profiles_load.
  - unfold GetUserProfile. apply answers_bind; [answers|intros str]. destruct (parse_uint str); [|answers].
    apply answers_bind; [|answers]. apply silent_lift, sound_GetProfile; eauto using profiles_load.
  - apply answers_search. intros. apply sound_svc_SearchUsers; eauto using profiles_load.
  - unfold GetDailyStats. answers.
  - unfold GetBehaviorSummary. answers.
  - unfold Metrics. answers. intros d' c s Hs. rewrite lift_run. by destruct (RL.Tokens _ _).
  - unfold CircuitBreakerState. answers.
  - unfold GetCacheStats, OrderSvc.GetCacheStats. answers.
  - unfold LivenessHandler, uptime. answers.
  - unfold ReadinessHandler, dependency, redis_check. rewrite Hk. destruct (hc_redis _); cbv beta iota; answers.
  - unfold StartupHandler, checkStarted, uptime, IsStarted. answers.
  - destruct (srv_swagger srv); [apply answers_swagger|unfold NoRoute; answers].
Qed.

(** ** The middlewares *)

Lemma answers_ErrorHandler next : answers next → answers (ErrorHandler next).
Proof.
  intros Hn d c s Hs He. unfold ErrorHandler. rewrite hbind_run. specialize (Hn d c s Hs He).
  destruct (next c s) as [[u|e|] [c1 s1]]; [|done..]. destruct Hn as (H1 & H2 & H3 & H4).
  rewrite hbind_run. unfold getg. rewrite H3. done.
Qed.

Lemma answers_CORS cfg next : answers next → answers (CORS cfg next).
Proof.
  intros Hn. unfold CORS. destruct (negb _); [done|]. destruct (origins _) as [os all].
  apply answers_bind; [answers|intros origin]. apply answers_bind; [answers|intros host].
  destruct (bool_decide _); [done|]. destruct (_ && _).
  - apply answers_modg. intros c. split; [by eexists _, _|done].
  - apply answers_bind.
    + apply silent_modg. intros c. unfold cors_headers, set_if, Header. by destruct all, (_ && _), (negb (bool_decide _)).
    + intros _. apply answers_bind; [answers|intros m]. destruct (bool_decide _); [|done].
      apply answers_modg. intros c. unfold preflight, set_if, Header.
      destruct (0 <? _); (split; [by eexists _, _|done]).
Qed.

Lemma answers_JWTAuth svc next : answers next → answers (JWTAuth svc next).
Proof.
  intros Hn. unfold JWTAuth. apply answers_bind; [answers|intros header].
  destruct (bool_decide _); [by eapply answers_refuse|]. apply answers_bind; [answers|intros [e|[uid name]]].
  - by eapply answers_refuse.
  - apply answers_bind; [by apply silent_modg|done].
Qed.

(** Behind [Recovery] a panic is an answer too. *)
Definition answered (m : HM unit) : Prop :=
  ∀ d c s, ok so sp cl d s → g_Errors c = [] →
    ∃ c' s' status b, m c s = (Val tt, (c', s')) ∧ ok so sp cl d s' ∧ g_Writes c' = (g_Writes c ++ [(status, b)])%list.

Lemma answered_Recovery next : answers next → answered (Recovery next).
Proof.
  intros Hn d c s Hs He. rewrite Recovery_run. specialize (Hn d c s Hs He).
  destruct (next c s) as [[[]|e|] [c1 s1]]; [| |by destruct Hn as (_ & ? & _)].
  - destruct Hn as (H1 & _ & _ & st & b & E). by eexists _, _, _, _.
  - destruct Hn as (H1 & _ & _ & E). eexists _, _, _, _. split; [reflexivity|]. split; [done|].
    cbn. by rewrite E.
Qed.

Lemma serve_answered uuid e : answered (serve srv uuid e).
Proof.
  intros d c s Hs He. unfold serve, gate, global.
  assert (Hh : answers (chain (ErrorHandler :: CORS (srv_cors srv) :: gate srv e) (handle srv e))).
  { cbn [chain fold_right]. apply answers_ErrorHandler, answers_CORS. unfold gate.
    destruct (is_protected e); [apply answers_JWTAuth|]; apply answers_handle. }
  change (chain _ _) with
    (TraceID uuid (ZapLogger (Recovery (chain (ErrorHandler :: CORS (srv_cors srv) :: gate srv e) (handle srv e))))).
  rewrite logged_run.
  assert (Hs' : ok so sp cl d (after_uuid uuid c s)) by (unfold after_uuid; by destruct (bool_decide _)).
  destruct (answered_Recovery _ Hh d (logged (request_id uuid c s) c) _ Hs' He) as (c' & s' & st & b & E & H1 & H2).
  by exists c', s', st, b.
Qed.

(** ** The background *)

Lemma run_task_ok i t d s :
  ok so sp cl d s → s_tasks s !! i = Some t →
  ∃ s', run_task srv t (s <| s_tasks ::= delete i |>) = (Val tt, s') ∧ ok so sp cl d s'.
Proof.
  intros Hs Ht. destruct (ok_take so sp cl d s i t Hs Ht) as [Hok Htok].
  set (s1 := s <| s_tasks ::= delete i |>) in *.
  destruct Hw as (_ & _ & _ & Hso & _ & Hsp & _).
  assert (Hend : ∀ m : M unit, sound so sp cl true m → ∀ d' t, ok so sp cl d' t → ∃ s', m t = (Val tt, s') ∧ ok so sp cl d' s').
  { intros m Hm d' u Hu. destruct (Hm d' u Hu) as [H1 H2]. destruct (m u) as [[[]|e|] u']; [|done..]. by exists u'. }
  destruct d as [d1 d2]. destruct t as [delay key|o|p|ep tr key e|uid|l]; cbn [is_order_task is_profile_task fst snd] in Hok;
    rewrite ?Z.add_0_l in Hok; cbn [run_task].
  - apply (Hend _ (sound_secondDelete so sp cl true delay key) _ _ Hok).
  - destruct (Hso Htok) as [sc ->]. unfold OrderSvc.indexOrderTask, deferred. rewrite bind_run.
    destruct (sound_IndexOrder so sp cl true sc o _ _ Hok) as [H1 H2].
    destruct (Es.IndexOrder sc o s1) as [[r|e|] s2]; [|done..]. rewrite ret_run. unfold modify.
    eexists. split; [reflexivity|]. by apply (ok_release_order so sp cl (d1, d2)).
  - destruct (Hsp Htok) as [sc ->]. unfold Profile.indexProfileTask, deferred. rewrite bind_run.
    destruct (sound_IndexUserProfile so sp cl true sc p _ _ Hok) as [H1 H2].
    destruct (Es.IndexUserProfile sc p s1) as [[r|e|] s2]; [|done..]. rewrite ret_run. unfold modify.
    eexists. split; [reflexivity|]. by apply (ok_release_profile so sp cl (d1, d2)).
  - apply (Hend _ (sound_sendTask so sp cl true ep tr key e) _ _ Hok).
  - unfold Auth.updateLastLoginTask, Repo.UpdateLastLoginAt. destruct Htok as [rw Hrw].
    rewrite !bind_run. unfold Rwdb.ExecContext, Rwdb.on_db. rewrite bind_run. unfold gets. cbn [Rwdb.get_db].
    change (s_mysql s1) with (s_mysql s). rewrite Hrw. destruct (master rw) as [c|].
    + rewrite bind_run, world_run. by eexists.
    + by eexists.
  - unfold Analytics.logBatchTask, PgRepo.LogBehaviorBatch. destruct (PgRepo.batch_values l 1) as [values args] eqn:Eb.
    assert (Hm : sound so sp cl true (down ← Rwdb.unavailable Rwdb.Postgres; if down : bool then mret tt
      else r ← Rwdb.ExecContext Rwdb.Postgres (PgRepo.insert_logs +:+ PgRepo.joinStrings values ",") args; mret tt)).
    { apply sound_guarded_exec; intros; apply sound_ret. }
    destruct (Hend _ Hm _ _ Hok) as (s2 & E & Hs2). rewrite bind_run, Rwdb.unavailable_run in E.
    rewrite !bind_run, Rwdb.unavailable_run. destruct (match _ with Some rw => Rwdb.IsNil rw | None => true end); cbn [orb].
    + by eexists.
    + destruct (bool_decide (l = [])); [by eexists|]. rewrite !bind_run. rewrite bind_run in E.
      destruct (Rwdb.ExecContext _ _ _ s1) as [[r|e|] s3]; [|done..]. injection E as ->. by eexists.
Qed.

Lemma sound_consume : sound so sp cl true (consume srv).
Proof.
  destruct Hw as (_ & _ & Hso & _). unfold consume, Mq.consume_once, Mq.processWithRetry.
  assert (Hh : ∀ ctx k v, sound so sp cl true (OrderSvc.HandleOrderEvent (orders srv) ctx k v)).
  { intros. apply sound_HandleOrderEvent; eauto using orders_load. }
  assert (Hr : ∀ todo first backoff err attempt, sound so sp cl true attempt →
    sound so sp cl true (Mq.retry_loop todo first backoff err attempt)).
  { induction todo as [|todo IH]; intros first backoff err attempt Ha; cbn [Mq.retry_loop]; [apply sound_ret|].
    sound; by apply IH. }
  pose proof (sound_SendToDLQ so sp cl true) as Hd. pose proof (sound_Sleep so sp cl true) as Hsl. sound.
Qed.

Lemma sound_initDatabases : sound so sp cl true (initDatabases srv).
Proof.
  assert (Hr : ∀ A (m : gmap string A), sound so sp cl true (range m)) by (intros; unfold range; sound).
  assert (Hx : ∀ c n l i, sound so sp cl true (Schema.exec_statements c n i l)).
  { intros c n. induction l as [|stmt l IH]; intros i; cbn [Schema.exec_statements]; sound; apply IH. }
  assert (Ht : ∀ d n f, sound so sp cl true (Schema.ensure_tables os_ReadFile d n f)).
  { intros. unfold Schema.ensure_tables, Schema.execSQLFile. sound; apply Hx. }
  assert (Hm : ∀ l, sound so sp cl true (Schema.index_models l)).
  { induction l as [|i l IH]; cbn [Schema.index_models]; sound; eauto. }
  assert (Hc : ∀ l, sound so sp cl true (Schema.ensure_collections mongo_createMany l)).
  { induction l as [|[n c] l IH]; cbn [Schema.ensure_collections]; sound; eauto. }
  assert (He : ∀ l, sound so sp cl true (Es.ensure_indexes es_exists es_create l)).
  { induction l as [|[n m] l IH]; cbn [Es.ensure_indexes]; unfold Es.ensure_index; sound; eauto. }
  unfold initDatabases, Schema.EnsureAllSQLTables, Schema.EnsureMongoCollections, Es.EnsureSearchIndexes. sound; eauto.
Qed.

(** A round of the writer. *)
Definition batch_small (b : list BehaviorEntry) : Prop := Z.of_nat (Datatypes.length b) < Analytics.batchSize.

Lemma flush_ok b d s :
  Z.of_nat (Datatypes.length b) <= Analytics.batchSize → ok so sp cl d s →
  ∃ s', Analytics.flush b s = (Val [], s') ∧ ok so sp cl d s' ∧ s_buf s' = s_buf s.
Proof.
  intros Hb Hs. unfold Analytics.flush. destruct b as [|e b]; [by exists s|].
  eexists. split; [reflexivity|]. split; [|done]. destruct Hs as (Hcb & [Ho Ho'] & [Hp Hp'] & Hbuf & Hf).
  unfold ok, fields_ok. cbn. rewrite !count_snoc. cbn. split; [done|]. split; [lia|]. split; [lia|]. split; [done|].
  apply Forall_app. split; [done|]. apply Forall_singleton. cbn in Hb |- *. lia.
Qed.

Lemma take_ok e b d s :
  batch_small b → ok so sp cl d s →
  ∃ b' s', Analytics.take e b s = (Val b', s') ∧ batch_small b' ∧ ok so sp cl d s' ∧ s_buf s' = s_buf s.
Proof.
  intros Hb Hs. unfold Analytics.take, batch_small in *.
  destruct (Z.leb_spec Analytics.batchSize (Z.of_nat (Datatypes.length (b ++ [e])%list))) as [Hl|Hl].
  - destruct (flush_ok (b ++ [e])%list d s) as (s' & E & H1 & H2); [|done|by exists [], s'].
    rewrite length_app. cbn. lia.
  - by exists (b ++ [e])%list, s.
Qed.

(** The buffer only gets shorter. *)
Lemma ok_buf d s buf :
  ok so sp cl d s → (Datatypes.length buf <= Datatypes.length (s_buf s))%nat → ok so sp cl d (s <| s_buf := buf |>).
Proof.
  intros (Hcb & Ho & Hp & Hb & Hf) Hl. unfold ok, fields_ok. cbn. split; [done|]. split; [done|]. split; [done|].
  split; [lia|done].
Qed.

Lemma drain_ok waiting b d s :
  batch_small b → ok so sp cl d s → s_buf s = waiting →
  ∃ s', Analytics.drain waiting b s = (Val [], s') ∧ ok so sp cl d s'.
Proof.
  revert b s. induction waiting as [|e waiting IH]; intros b s Hb Hs Hw'; cbn [Analytics.drain].
  - destruct (flush_ok b d s) as (s' & E & H1 & _); [unfold batch_small in Hb; lia|done|]. by exists s'.
  - rewrite bind_run. unfold modify at 1. destruct (take_ok e b d (s <| s_buf := waiting |>)) as (b1 & s1 & E & Hb1 & Hs1 & Eb);
      [done|apply ok_buf; [done|rewrite Hw'; cbn; lia]|].
    rewrite bind_run, E. destruct (IH b1 s1) as (s2 & E2 & Hs2); [done|done|done|]. by exists s2.
Qed.

Lemma writer_step ev b d s r s' :
  batch_small b → ok so sp cl d s → Analytics.batchWriter ev b s = (r, s') →
  ok so sp cl d s' ∧ ends true r ∧ match r with Val (Some (_, b')) => batch_small b' | _ => True end.
Proof.
  intros Hb Hs E.
  assert (Hd : ∀ t, ok so sp cl d t → ∃ s', Analytics.drainAndFlush b t = (Val [], s') ∧ ok so sp cl d s').
  { intros t Ht. unfold Analytics.drainAndFlush. rewrite bind_run. by apply drain_ok. }
  destruct ev; cbn [Analytics.batchWriter] in E.
  - destruct (Hd s Hs) as (s1 & E1 & H1). rewrite bind_run, E1 in E. by injection E as <- <-.
  - rewrite bind_run in E. unfold gets at 1 in E. destruct (s_flush s); [|by injection E as <- <-].
    rewrite bind_run in E. unfold modify at 1 in E.
    set (t := s <| s_flush := false |>) in E. assert (Ht : ok so sp cl d t) by exact Hs.
    destruct (Hd t Ht) as (s1 & E1 & H1). rewrite bind_run, E1 in E. by injection E as <- <-.
  - rewrite bind_run in E. unfold gets at 1 in E. destruct (s_buf s) as [|e buf] eqn:Eb; [by injection E as <- <-|].
    rewrite bind_run in E. unfold modify at 1 in E.
    destruct (take_ok e b d (s <| s_buf := buf |>)) as (b' & s1 & E1 & Hb' & Hs1 & _);
      [done|apply ok_buf; [done|rewrite Eb; cbn; lia]|]. rewrite bind_run, E1 in E. by injection E as <- <-.
  - destruct (flush_ok b d s) as (s1 & E1 & H1 & _); [unfold batch_small in Hb; lia|done|].
    rewrite bind_run, E1 in E. by injection E as <- <-.
Qed.

End server.
End answers.

(** ** Every step of the process *)

Section steps.
Context `{EN : Env} `{CO : Codec} `{VA : !Validator} `{DR : !Drivers} `{VI : !Views} `{RE : !RedisLaws} `{CL : !ClockLaws}.
Context (so sp : bool) (srv : Server) (Hw : wired so sp srv).
#[local] Set Default Proof Using "All".

Definition process_ok (st : system) : Prop := ok so sp (sy_closing st) (0, 0) (sy_s st) ∧ batch_small (sy_batch st).

Lemma tick_ok now cb : CB.cb_ok cb → CB.cb_ok (CB.stateTransitionTick now cb).
Proof.
  intros (H1 & H2 & H3 & H4). unfold CB.stateTransitionTick, CB.tick_closed, CB.tick_open, CB.transitionTo, CB.cb_ok.
  repeat case_match; cbn; split_and?; auto; unfold CB.StateOpen, CB.StateHalfOpen in *; lia.
Qed.

(** Closing the channels works once. *)
Lemma shutdown_ok d s :
  ok so sp false d s → ∃ s', shutdown s = (Val tt, s') ∧ ok so sp true d s' ∧ s_tasks s' = s_tasks s.
Proof using Type.
  intros ((Hcb & Hs & [= Hh Hm]) & Hrest). unfold shutdown. rewrite bind_run. unfold gets at 1, CB.Stop. rewrite Hs.
  rewrite bind_run. unfold modify at 1. rewrite bind_run. unfold gets at 1, HK.Stop.
  change (s_hk (s <| s_cb := ?x |>)) with (s_hk s). rewrite Hh. rewrite bind_run. unfold modify at 1.
  unfold Cache.Close, Cache.mc. rewrite bind_run. unfold gets at 1.
  change (s_mc (s <| s_cb := ?x |> <| s_hk := ?y |>)) with (s_mc s). rewrite Hm.
  eexists. split; [reflexivity|]. split; [|done]. split; [|exact Hrest]. by split.
Qed.

Lemma step_ok x y : step srv x y → process_ok x → process_ok y.
Proof.
  intros [a Hst] [Hs Hb].
  destruct Hst as [e c s b wr cl r c' s' [_ Hf] E|i t s b wr cl s' Ht E|s b wr cl s' E|s b wr cl again s' E|
    ev s b cl b' wr' s' _ E|now s b wr cl|s b wr cl|s b wr cl|s b wr s' E]; cbn in Hs, Hb; split; cbn; try done.
  - destruct (serve_answered so sp cl srv Hw new_uuid e (0, 0) c s Hs Hf) as (c1 & s1 & st & d & E' & H1 & _). congruence.
  - destruct (run_task_ok so sp cl srv Hw i t (0, 0) s Hs Ht) as (s1 & E' & H1). congruence.
  - destruct (sound_initDatabases so sp cl srv Hw (0, 0) s Hs) as [H1 _]. by rewrite E in H1.
  - destruct (sound_consume so sp cl srv Hw (0, 0) s Hs) as [H1 _]. by rewrite E in H1.
  - by destruct (writer_step so sp cl srv Hw ev b (0, 0) s _ _ Hb Hs E).
  - by destruct (writer_step so sp cl srv Hw ev b (0, 0) s _ _ Hb Hs E) as (_ & _ & ?).
  - destruct Hs as ((Hcb & Hst & Hfl) & Hs). split; [|exact Hs]. split; [by apply tick_ok|]. cbn. by rewrite tick_stopped.
  - destruct Hs as ((Hcb & Hst & [= Hh Hm]) & Hs). split; [|exact Hs]. split; [done|]. split; [done|].
    cbn. by rewrite HK.cleanup_stopped, Hh, Hm.
  - destruct (shutdown_ok (0, 0) s Hs) as (s1 & E' & H1 & _). congruence.
Qed.

Lemma steps_ok x y : rtc (step srv) x y → process_ok x → process_ok y.
Proof. apply rtc_invariant. intros. by eapply step_ok. Qed.

End steps.

(** ** Construction *)

Section construction.
Context `{EN : Env} `{CO : Codec} `{DR : !Drivers}.
#[local] Set Default Proof Using "Type".

(** Nothing is pending, taken or buffered. *)
Definition idle (s : Sys) : Prop :=
  s_tasks s = [] ∧ s_orderSem s = 0 ∧ s_profileSem s = 0 ∧ s_buf s = [].

Definition keeps_idle {A} (m : M A) : Prop := ∀ s, idle s → idle (m s).2.

Lemma idle_bind {A B} (m : M A) (f : A → M B) : keeps_idle m → (∀ a, keeps_idle (f a)) → keeps_idle (m ≫= f).
Proof.
  intros Hm Hf s Hs. rewrite bind_run. specialize (Hm s Hs). destruct (m s) as [[a|e|] s1]; [by apply Hf|done|done].
Qed.

Lemma idle_ret {A} (a : A) : keeps_idle (mret a).
Proof. by intros s Hs. Qed.
Lemma idle_world {A} (op : W → A * W) : keeps_idle (world op).
Proof. intros s Hs. by rewrite world_run. Qed.
Lemma idle_world_ op : keeps_idle (world_ op).
Proof. by intros s Hs. Qed.

Create HintDb idle.
Hint Resolve idle_ret idle_world idle_world_ : idle.
Ltac idle := intros;
  lazymatch goal with
  | |- keeps_idle (_ ≫= _) => apply idle_bind; [idle|intros ?; idle]
  | |- _ => first [solve [eauto with idle] | case_match; idle | idtac]
  end.

Lemma connect_idle cfg : keeps_idle (connect cfg).
Proof.
  assert (Ho : ∀ driver dsn, keeps_idle (Loader.openDB sql_Open driver dsn)) by (unfold Loader.openDB; idle).
  assert (Hr : ∀ driver dsns, keeps_idle (Loader.open_replicas sql_Open driver dsns)).
  { intros driver. induction dsns; cbn [Loader.open_replicas]; idle. }
  unfold connect, Loader.initRWDB, Manager.ConnectMongoDB, Es.ConnectElasticsearch. idle.
Qed.

(** What [setup] has built when it returns. *)
Lemma setup_inv cfg s srv s' :
  setup cfg s = (Val srv, s') →
  ∃ w0 w mysql pg m es s2 t1 t2 t3,
    connect (Config.Databases cfg) (s <| s_w := w0 |>) = (Val (mysql, pg, m, es), s2) ∧
    srv = mkServer _ (NewBusinessHandler _ (new_orders (Config.Kafka cfg) m es) (Profile.wired m es) true)
      (NewAuthHandler (Auth.NewAuthService (Config.Secret (Config.JWT cfg)) (Config.ExpireSeconds (Config.JWT cfg))))
      (mkChecker true true true
        (Some (Mq.Ping (new_producer (Config.Kafka cfg) (Config.prod_Topic (Config.Producer (Config.Kafka cfg)))))) t3)
      (Config.CORS cfg) (new_consumer (Config.Kafka cfg)) m (Config.swagger_Enabled (Config.Swagger cfg)) ∧
    s' = s2 <| s_mysql := mysql |> <| s_pg := pg |> <| s_hk := new_detector (Config.HotKey cfg) |>
      <| s_mc := new_cache (Config.Cache cfg) |> <| s_cb := new_breaker (Config.CircuitBreaker cfg) t1 |>
      <| s_rl := new_limiter (Config.RateLimiter cfg) t2 |> <| s_started := true |> <| s_w := w |>.
Proof.
  intros Hr. unfold setup in Hr. destruct (Config.L2_Addresses _); [done|].
  apply bind_inv in Hr as (p & s1 & E1 & Hr). rewrite world_run in E1. injection E1 as _ <-.
  apply bind_inv in Hr as ([[[mysql pg] m] es] & s2 & E2 & Hr).
  apply bind_inv in Hr as ([] & s3 & [= <-] & Hr).
  apply bind_inv in Hr as (l1 & s12 & E12 & Hr). rewrite world_run in E12. injection E12 as _ <-.
  apply bind_inv in Hr as ([] & s13 & E13 & Hr). destruct l1 as [e|]; [done|]. injection E13 as <-.
  apply bind_inv in Hr as ([] & s4 & [= <-] & Hr).
  apply bind_inv in Hr as (t1 & s5 & E5 & Hr). unfold Now in E5. rewrite world_run in E5. injection E5 as _ <-.
  apply bind_inv in Hr as ([] & s6 & [= <-] & Hr).
  apply bind_inv in Hr as (t2 & s7 & E7 & Hr). unfold Now in E7. rewrite world_run in E7. injection E7 as _ <-.
  apply bind_inv in Hr as ([] & s8 & [= <-] & Hr).
  apply bind_inv in Hr as ([] & s14 & E14 & Hr). unfold Mq.make_doneCh in E14.
  destruct (_ <? 0); [done|]. injection E14 as <-.
  apply bind_inv in Hr as (h & s9 & E9 & Hr). unfold NewHealthChecker in E9.
  apply bind_inv in E9 as (t3 & s10 & E10 & [= <- <-]). unfold Now in E10. rewrite world_run in E10. injection E10 as _ <-.
  apply bind_inv in Hr as ([] & s11 & [= <-] & Hr). injection Hr as <- <-.
  eexists _, _, mysql, pg, m, es, s2, _, _, t3. split; [exact E2|]. split; reflexivity.
Qed.

(** The server that [setup] returns is wired as the invariant expects. *)
Lemma setup_ok cfg s srv s' :
  idle s → Config.MaxRequests (Config.CircuitBreaker cfg) <= int64_max → setup cfg s = (Val srv, s') →
  ∃ search, wired search search srv ∧ process_ok search search (mkSystem s' [] true false).
Proof.
  intros Hs Hmax Hr. destruct (setup_inv _ _ _ _ Hr) as (w0 & w & mysql & pg & m & es & s2 & t1 & t2 & t3 & E2 & -> & ->).
  assert (H2 : idle s2).
  { pose proof (connect_idle (Config.Databases cfg) (s <| s_w := w0 |>)) as H2. rewrite E2 in H2. exact (H2 Hs). }
  exists (match es with Some _ => true | None => false end). split.
  - unfold wired. cbn. split; [by eexists _, _|]. split; [by eexists _, _|].
    destruct es as [sc|]; (split; [done|]); (split; [done|]); (split; [done|]); (split; [done|]); (split; [by eexists|done]).
  - destruct H2 as (H2 & H3 & H4 & H5). split; [|done]. unfold ok, fields_ok. cbn. rewrite H2, H3, H4, H5.
    split; [|done]. split; [by apply CB.New_ok|]. split; [done|]. unfold new_cache. by destruct (0 <? _).
Qed.

(** A process built by [setup] from an idle state, whose background loops
    have not panicked, at any later moment. *)
Definition running `{VA : !Validator} (cfg : Config.Config) (srv : Server) (st : system) : Prop :=
  ∃ s s1, idle s ∧ Config.MaxRequests (Config.CircuitBreaker cfg) <= int64_max ∧ setup cfg s = (Val srv, s1) ∧
    ticking s1 = true ∧ rtc (step srv) (mkSystem s1 [] true false) st.

Lemma running_ok `{VA : !Validator} `{VI : !Views} `{RE : !RedisLaws} `{CL : !ClockLaws} cfg srv st :
  running cfg srv st → ∃ search, wired search search srv ∧ process_ok search search st.
Proof.
  intros (s & s1 & Hs & Hm & Hset & _ & Hst). destruct (setup_ok cfg s srv s1 Hs Hm Hset) as (search & Hw & Hp).
  exists search. split; [done|]. by eapply steps_ok.
Qed.

End construction.

(** ** The process as a whole *)

Section process.
Context `{EN : Env} `{CO : Codec} `{DR : !Drivers} `{VA : !Validator} `{VI : !Views} `{RE : !RedisLaws} `{CL : !ClockLaws}.
#[local] Set Default Proof Using "All".

(** C1: At every moment of a process built by [setup], every request to any
    route is answered exactly once: the whole chain returns, whatever the
    clients of the databases answer and whatever panics on the way. *)
Theorem one_answer cfg srv st uuid e c :
  running cfg srv st → fresh c →
  ∃ c' s' status b, serve srv uuid e c (sy_s st) = (Val tt, (c', s')) ∧ g_Writes c' = [(status, b)].
Proof.
  intros Hr [Hw He]. destruct (running_ok _ _ _ Hr) as (search & Hwired & Hok & _).
  destruct (serve_answered search search _ srv Hwired uuid e (0, 0) c (sy_s st) Hok He) as (c' & s' & status & b & E & _ & Hb).
  rewrite Hw in Hb. by exists c', s', status, b.
Qed.

(** C4: At every moment of the process, under any interleaving of requests,
    goroutines, worker rounds, writer rounds, ticks and shutdown: the
    breaker is in one of its three states with a probe count below its limit
    when half open and zero otherwise; the slots taken in each semaphore are
    the indexing goroutines not yet run, at most 100 and 50; at most 10000
    entries wait in the buffer and fewer than 200 in the writer's batch, and
    no statement is started for an empty batch or one above 200. *)
Theorem process_invariant cfg srv st :
  running cfg srv st →
  let s := sy_s st in
  CB.cb_ok (s_cb s) ∧
  s_orderSem s = count is_order_task (s_tasks s) ∧ s_orderSem s <= 100 ∧
  s_profileSem s = count is_profile_task (s_tasks s) ∧ s_profileSem s <= 50 ∧
  Z.of_nat (Datatypes.length (s_buf s)) <= 10000 ∧ Z.of_nat (Datatypes.length (sy_batch st)) < 200 ∧
  ∀ l, TLogBatch l ∈ s_tasks s → 0 < Z.of_nat (Datatypes.length l) <= 200.
Proof.
  intros Hr s. destruct (running_ok _ _ _ Hr) as (search & _ & ((Hcb & _) & [Ho Ho'] & [Hp Hp'] & Hb & Hf) & Hl).
  split; [done|]. split; [done|]. split; [done|]. split; [done|]. split; [done|]. split; [done|]. split; [done|].
  intros l Hin. rewrite Forall_forall in Hf. exact (Hf _ Hin).
Qed.

(** C8: Nothing that runs outside a request, where no middleware recovers,
    panics or fails to end: at every moment of the process each goroutine
    that is pending runs to its end, and so does the one that creates tables,
    collections and search indexes; a round of a Kafka worker returns with
    whatever message it fetched, and a round of the analytics writer on
    whatever it selects. *)
Theorem background_safe cfg srv st :
  running cfg srv st →
  (∀ i t, s_tasks (sy_s st) !! i = Some t → (run_task srv t ((sy_s st) <| s_tasks ::= delete i |>)).1 = Val tt) ∧
  (initDatabases srv (sy_s st)).1 = Val tt ∧
  (∃ again, (consume srv (sy_s st)).1 = Val again) ∧
  (∀ ev, ∃ r, (Analytics.batchWriter ev (sy_batch st) (sy_s st)).1 = Val r).
Proof.
  intros Hr. destruct (running_ok _ _ _ Hr) as (search & Hw & Hok & Hb). split; [|split; [|split]].
  - intros i t Ht. by destruct (run_task_ok search search _ srv Hw i t (0, 0) _ Hok Ht) as (s' & -> & _).
  - destruct (sound_initDatabases search search _ srv Hw (0, 0) _ Hok) as [_ He].
    destruct (initDatabases srv (sy_s st)) as [[[]|e|] s']; done.
  - destruct (sound_consume search search _ srv Hw (0, 0) _ Hok) as [_ He].
    destruct (consume srv (sy_s st)) as [[again|e|] s']; [by exists again|done..].
  - intros ev. destruct (Analytics.batchWriter ev (sy_batch st) (sy_s st)) as [r s'] eqn:E.
    destruct (writer_step search search _ srv Hw ev _ _ _ _ _ Hb Hok E) as (_ & He & _). destruct r as [r|e|]; [by exists r|done..].
Qed.

End process.

(** ** Requests without a token *)

Section gate.
Context `{EN : Env} `{CO : Codec} `{VA : !Validator} `{DR : !Drivers}.
#[local] Set Default Proof Using "Type".

(** CORS hands the request on, perhaps with more response headers, or
    answers it without a body. *)
Lemma CORS_cases cfg (next : HM unit) c s :
  ∃ out, let c1 := c <| g_Out := out |> in
    CORS cfg next c s = next c1 s ∨
    ∃ status, status ∈ [204; 403] ∧ CORS cfg next c s = (Val tt, (AbortWithStatus status c1, s)).
Proof.
  rewrite CORS_run. cbv zeta. destruct (negb _ || _); [exists (g_Out c); left; by destruct c|].
  destruct (_ || same_origin _ _); [|exists (g_Out c); right; exists 403; split; [set_solver|by destruct c]].
  destruct (cors_headers_out cfg (is_wildcard (Config.AllowedOrigins cfg)) (GetHeader "Origin" c) c) as [out ->].
  destruct (bool_decide _); [|exists out; by left].
  destruct (preflight_out cfg (c <| g_Out := out |>)) as [out' ->]. exists out'. right. exists 204. split; [set_solver|done].
Qed.

(** No token, or one the service does not accept. *)
Definition unauthenticated (svc : Auth.AuthService) (c : Gin) (s : Sys) : Prop :=
  GetHeader "Authorization" c = "" ∨
    ∃ err, (Auth.ParseToken svc (bearer (GetHeader "Authorization" c)) s).1 = Val (inl err).

(** C10: A request to a protected route without a token the service accepts
    is answered once, with 401 or by CORS with 403 or 204, and nothing else
    of the process is touched: the state afterwards is the state before, but
    for a fresh trace id drawn and the clock read. *)
Theorem unauthenticated_harmless srv uuid e c s :
  is_protected e = true → fresh c →
  let s1 := after_uuid uuid c s in
  unauthenticated (authSvc (srv_auth srv)) c s1 →
  ∃ c' s' status b, serve srv uuid e c s = (Val tt, (c', s')) ∧ g_Writes c' = [(status, b)] ∧
    status ∈ [401; 403; 204] ∧ (s' = s1 ∨ s' = s1 <| s_w := (clk_now (s_w s1)).2 |>).
Proof.
  intros Hp [Hw He] s1 Hno. set (svc := authSvc (srv_auth srv)) in *. unfold unauthenticated in Hno.
  assert (Hj : ∀ c1, g_Headers c1 = g_Headers c → ∃ msg s',
    JWTAuth svc (handle srv e) c1 s1 = (Val tt, (Abort_ (ApiJSON 401 401 msg None c1), s')) ∧
    (s' = s1 ∨ s' = s1 <| s_w := (clk_now (s_w s1)).2 |>)).
  { intros c1 Hc. rewrite JWTAuth_run. replace (GetHeader "Authorization" c1) with (GetHeader "Authorization" c)
      by (unfold GetHeader; by rewrite Hc). cbv zeta.
    destruct (bool_decide_reflect (GetHeader "Authorization" c = "")); [by eexists _, _; auto|].
    destruct Hno as [|[err Herr]]; [done|]. rewrite Auth.ParseToken_run in Herr |- *. cbn [fst] in Herr.
    injection Herr as ->. by eexists _, _; auto. }
  unfold serve, gate, global. rewrite Hp.
  change (chain _ _) with (TraceID uuid (ZapLogger (Recovery (ErrorHandler (CORS (srv_cors srv) (JWTAuth svc (handle srv e))))))).
  rewrite logged_run, Recovery_run.
  fold s1. set (c0 := logged _ c).
  assert (Ew : g_Writes c0 = []) by exact Hw. assert (Ee : g_Errors c0 = []) by exact He.
  assert (Eh : g_Headers c0 = g_Headers c) by done. clearbody c0.
  destruct (CORS_cases (srv_cors srv) (JWTAuth svc (handle srv e)) c0 s1) as [out [HC|(status & Hst & HC)]];
    unfold ErrorHandler; rewrite hbind_run, HC.
  - match goal with |- context[JWTAuth svc _ ?c1 s1] => destruct (Hj c1 Eh) as (msg & s' & -> & Hs') end.
    rewrite hbind_run. unfold getg. cbn. rewrite Ee. cbn.
    eexists _, _, _, _. split; [reflexivity|]. cbn. rewrite Ew. split; [reflexivity|]. split; [set_solver|done].
  - rewrite hbind_run. unfold getg. cbn. rewrite Ee. cbn.
    eexists _, _, _, _. split; [reflexivity|]. cbn. rewrite Ew. split; [reflexivity|]. split; [set_solver|by left].
Qed.

End gate.

(** ** Witnesses: a process with every database, after an order was created *)

#[global] Instance demo_drivers : Drivers := {
  sql_Open := λ _ _ w, (inr 0%nat, w);
  mongo_connect := λ _ w, (None, w);
  mongo_ping := λ _ w, (None, w);
  es_newClient := λ _ _ w, (None, w);
  es_ping := λ w, (None, w);
  ristretto_new := λ _ _ _ w, (None, w);
  os_ReadFile := λ path, if bool_decide (path = "sql/mysql_init.sql") then inr "CREATE TABLE orders (id BIGINT);" else
    inl ("open " +:+ path +:+ ": no such file or directory");
  mongo_createMany := λ _ _ w, (None, w);
  es_exists := λ _ w, (inr 404, w);
  es_create := λ _ _ w, (None, w);
  yaml_Unmarshal := λ _ cfg, inr cfg;
  config_ReadFile := λ _, Config.FileMissing;
  os_MkdirAll := λ _ _ w, (None, w);
  new_uuid := λ w, ("uuid", w);
  swagger_pages := λ _ w, (200, [("Content-Length", "45")], "orders from __7DAYS_AGO__ until __TODAY__", w);
  server_Shutdown := λ _ w, (None, w);
  writer_Close := λ _ w, (None, w);
  reader_Close := λ w, w;
  mongo_Disconnect := λ w, w;
  redis_Close := λ w, w
}.

Definition demo_sql (driver : string) : Config.DatabaseConfig := {|
  Config.db_Enabled := true; Config.Driver := driver; Config.DSN := "app@db"; Config.ReplicaDSNs := ["app@replica"];
  Config.MaxOpenConns := 50; Config.MaxIdleConns := 10; Config.ConnMaxLifetimeSecs := 1800 |}.

Definition demo_cfg : Config.Config := let d := Config.defaultConfig in {|
  Config.Server := Config.Server d; Config.Cache := Config.Cache d;
  Config.Databases := {|
    Config.MySQL := demo_sql "mysql"; Config.Postgres := demo_sql "postgres";
    Config.MongoDB := Config.MongoDB (Config.Databases d);
    Config.Elasticsearch := {| Config.es_Enabled := true; Config.es_Addresses := ["http://search:9200"];
      Config.es_Username := ""; Config.es_Password := "" |} |};
  Config.Kafka := Config.Kafka d; Config.CircuitBreaker := Config.CircuitBreaker d;
  Config.RateLimiter := Config.RateLimiter d; Config.HotKey := Config.HotKey d;
  Config.Observability := Config.Observability d; Config.Logging := Config.Logging d;
  Config.Swagger := Config.Swagger d; Config.CORS := Config.CORS d;
  Config.JWT := {| Config.Secret := "secret"; Config.ExpireSeconds := 3600 |} |}.

Definition demo_post : Gin :=
  demo_request "POST" [("Authorization", "Bearer " +:+ Auth.demo_token); ("X-Trace-Id", "t1")] demo_order_body.

(** The server the configuration gives, and its state after the request. *)
Definition demo_started : option (Server * Sys) :=
  match setup demo_cfg demo_sys with
  | (Val srv, s) => Some (srv, (serve srv new_uuid EpCreateOrder demo_post s).2.2)
  | _ => None
  end.

Definition demo_state (s : Sys) : system := mkSystem s [] true false.

Lemma demo_running srv s : demo_started = Some (srv, s) → running demo_cfg srv (demo_state s).
Proof.
  assert (Et : ticking (setup demo_cfg demo_sys).2 = true) by (vm_compute; reflexivity).
  unfold demo_started. destruct (setup demo_cfg demo_sys) as [[srv'|e|] s0] eqn:E; [|done..].
  intros [= <- <-]. exists demo_sys, s0. split; [by repeat split|]. split; [discriminate|]. split; [exact E|].
  split; [exact Et|].
  destruct (serve srv' _ _ _ s0) as [r [c1 s1]] eqn:E2. apply rtc_once.
  exists (ARequest EpCreateOrder demo_post). exact (does_request srv' _ demo_post _ _ _ _ _ _ _ (conj eq_refl eq_refl) E2).
Qed.

(** The order went to MySQL and left three goroutines: the index, the event and the second deletion. *)
Definition demo_pending (s : Sys) : list bool := map is_order_task (s_tasks s).

Lemma demo_started_tasks : option_map (λ p, demo_pending p.2) demo_started = Some [true; false; false].
Proof. vm_compute. reflexivity. Qed.

(** A state of that process with goroutines pending. *)
Lemma demo_reached_open :
  ∃ srv st, running demo_cfg srv st ∧ demo_pending (sy_s st) = [true; false; false] ∧ sy_closing st = false.
Proof.
  pose proof demo_started_tasks as Ht. destruct demo_started as [[srv s]|] eqn:E; [|discriminate Ht].
  injection Ht as Ht. exists srv, (demo_state s). split; [by apply demo_running|]. split; [exact Ht|reflexivity].
Qed.

Lemma demo_reached : ∃ srv st, running demo_cfg srv st ∧ demo_pending (sy_s st) = [true; false; false].
Proof. destruct demo_reached_open as (srv & st & H1 & H2 & _). exists srv, st. split; [exact H1|exact H2]. Qed.

Lemma one_answer_witness :
  ∃ srv st c' s' status b, running demo_cfg srv st ∧ demo_pending (sy_s st) = [true; false; false] ∧
    serve srv (λ w, ("uuid", w)) EpGetOrder demo_post (sy_s st) = (Val tt, (c', s')) ∧ g_Writes c' = [(status, b)].
Proof.
  destruct demo_reached as (srv & st & Hr & Ht).
  destruct (one_answer demo_cfg srv st (λ w, ("uuid", w)) EpGetOrder demo_post Hr (conj eq_refl eq_refl))
    as (c' & s' & status & b & H1 & H2).
  exists srv, st, c', s', status, b. split; [exact Hr|]. split; [exact Ht|]. split; [exact H1|exact H2].
Defined.

Lemma process_invariant_witness :
  ∃ srv st, running demo_cfg srv st ∧ demo_pending (sy_s st) = [true; false; false] ∧
    s_orderSem (sy_s st) = count is_order_task (s_tasks (sy_s st)).
Proof.
  destruct demo_reached as (srv & st & Hr & Ht).
  destruct (process_invariant demo_cfg srv st Hr) as (_ & H & _).
  exists srv, st. split; [exact Hr|]. split; [exact Ht|exact H].
Defined.

Lemma background_safe_witness :
  ∃ srv st again, running demo_cfg srv st ∧ demo_pending (sy_s st) = [true; false; false] ∧
    (consume srv (sy_s st)).1 = Val again.
Proof.
  destruct demo_reached as (srv & st & Hr & Ht).
  destruct (background_safe demo_cfg srv st Hr) as (_ & _ & [again H] & _).
  exists srv, st, again. split; [exact Hr|]. split; [exact Ht|exact H].
Defined.

Lemma unauthenticated_harmless_witness :
  ∃ srv c' s' status b, serve srv (λ w, ("uuid", w)) EpCreateOrder (demo_request "POST" [] demo_order_body) demo_sys =
    (Val tt, (c', s')) ∧ g_Writes c' = [(status, b)] ∧ status ∈ [401; 403; 204].
Proof.
  destruct demo_reached as (srv & _).
  destruct (unauthenticated_harmless srv (λ w, ("uuid", w)) EpCreateOrder (demo_request "POST" [] demo_order_body) demo_sys
    eq_refl (conj eq_refl eq_refl) (or_introl eq_refl)) as (c' & s' & status & b & H1 & H2 & H3 & _).
  exists srv, c', s', status, b. split; [exact H1|]. split; [exact H2|exact H3].
Defined.
End Answers.
