(* ===== verification/Lifecycle.v ===== *)
(** * The beginning and the end of the process

    A process that [boot] starts is one of those of [Answers.v], its
    background loops permitting; and from the signal to the return of [main]: closing the channels, waiting for the
    analytics writer and its batches, stopping the server and the deferred
    closings. *)

From S2P Require Export Answers.

Module Lifecycle.
Import Http Handlers Health System Inv Answers.

Section lifecycle.
Context `{EN : Env} `{CO : Codec} `{DR : !Drivers} `{VA : !Validator} `{VI : !Views} `{RE : !RedisLaws} `{CL : !ClockLaws}.
#[local] Set Default Proof Using "Type".

(** ** What only touches the world *)

Definition outside {A} (m : M A) : Prop := ∀ s, ∃ a w, m s = (Val a, s <| s_w := w |>).

Lemma outside_bind {A B} (m : M A) (f : A → M B) : outside m → (∀ a, outside (f a)) → outside (m ≫= f).
Proof.
  intros Hm Hf s. destruct (Hm s) as (a & w & E). destruct (Hf a (s <| s_w := w |>)) as (b & w' & E').
  exists b, w'. by rewrite bind_run, E, E', s_w_set_set.
Qed.
Lemma outside_ret {A} (a : A) : outside (mret a).
Proof. intros s. exists a, (s_w s). by rewrite ret_run, <-Cache.sys_eta. Qed.
Lemma outside_world {A} (op : W → A * W) : outside (world op).
Proof. intros s. rewrite world_run. by eexists _, _. Qed.
Lemma outside_world_ op : outside (world_ op).
Proof. intros s. by eexists _, _. Qed.

Create HintDb outside.
Hint Resolve outside_ret outside_world outside_world_ : outside.
Ltac outside := intros;
  lazymatch goal with
  | |- outside (_ ≫= _) => apply outside_bind; [outside|intros ?; outside]
  | |- _ => first [solve [auto with outside] | case_match; outside | idtac]
  end.

Lemma outside_close_all l : outside (Rwdb.close_all l).
Proof. induction l; cbn [Rwdb.close_all]; outside. Qed.
Hint Resolve outside_close_all : outside.

Lemma outside_close_db d : outside (Manager.close_db d).
Proof.
  intros s. unfold Manager.close_db, Rwdb.CloseDB, Rwdb.on_db. rewrite bind_run. unfold gets at 1.
  destruct (Rwdb.get_db d s) as [rw|] eqn:E; [|apply outside_ret]. rewrite bind_run. unfold gets. rewrite E.
  apply outside_bind; [|auto with outside]. destruct (master rw); auto with outside.
Qed.

Lemma outside_close_producer ep : outside (close_producer (Some ep)).
Proof. unfold close_producer, Close. outside. Qed.
Hint Resolve outside_close_db outside_close_producer : outside.

(** A process that has booted, and whose loops have not panicked, is a
    running one. *)
Lemma boot_running s cfg lg srv s1 :
  idle s → boot s = (Val (cfg, lg, srv), s1) → Config.MaxRequests (Config.CircuitBreaker cfg) <= int64_max →
  ticking s1 = true →
  Config.Load config_ReadFile yaml_Unmarshal "config.yaml" = inr cfg ∧ running cfg srv (mkSystem s1 [] true false).
Proof.
  intros Hs Hb Hm Ht. unfold boot in Hb. destruct (Config.Load _ _ _) as [e|cfg']; [done|].
  apply bind_inv in Hb as (lg' & s0 & El & Hb). apply bind_inv in Hb as (srv' & s2 & Es & Hb). injection Hb as -> -> -> ->.
  split; [done|]. exists s0, s1. split; [|by split_and?].
  assert (Ho : outside (Logging.initLogger os_MkdirAll (Config.Logging cfg))).
  { unfold Logging.initLogger, when. outside. }
  destruct (Ho s) as (a & w & E). rewrite E in El. injection El as _ <-. exact Hs.
Qed.

(** The reports that let the consumer stop: of all its workers, or the timer. *)
Definition enough (events : list Mq.stop_event) (concurrency done : Z) : Prop :=
  Mq.StopTimeout ∈ events ∨ concurrency - done <= Z.of_nat (Datatypes.length events).

Lemma wait_workers_ends events concurrency done :
  enough events concurrency done → ∃ n, Mq.wait_workers events concurrency done = Some n.
Proof.
  revert done. induction events as [|e events IH]; intros done [H|H]; cbn [Mq.wait_workers].
  - by apply not_elem_of_nil in H.
  - cbn in H. destruct (Z.ltb_spec done concurrency); [lia|by eexists].
  - destruct (done <? concurrency); [|by eexists]. destruct e; [|by eexists]. apply IH. left.
    by apply elem_of_cons in H as [?|?].
  - destruct (done <? concurrency); [|by eexists]. destruct e; [|by eexists]. apply IH. right. cbn in H. lia.
Qed.

Lemma finish_run so sp srv events :
  wired so sp srv → enough events (Mq.ec_concurrency (srv_consumer srv)) 0 → outside (finish srv events).
Proof.
  intros (_ & _ & _ & _ & _ & _ & _ & [ep Hp] & [dlq Hd]) He.
  destruct (wait_workers_ends _ _ _ He) as [n Hn]. unfold finish, Mq.Stop. rewrite Hn, Hp, Hd.
  unfold Manager.CloseAll, when. outside.
Qed.

(** ** The batches of the analytics writer *)

Lemma batch_outside l : outside (Analytics.logBatchTask l).
Proof.
  assert (Hx : ∀ s q args, is_Some (s_pg s) → ∃ a w, Rwdb.ExecContext Rwdb.Postgres q args s = (Val a, s <| s_w := w |>)).
  { intros s q args [rw E]. destruct (master rw) as [c|] eqn:Em.
    - rewrite (Rwdb.exec_run Rwdb.Postgres q args s rw c E Em). destruct (sql_exec c q args (s_w s)). by eexists _, _.
    - unfold Rwdb.ExecContext, Rwdb.on_db. rewrite bind_run. unfold gets. cbn [Rwdb.get_db]. rewrite E, Em. apply outside_ret. }
  unfold Analytics.logBatchTask. apply outside_bind; [|auto with outside]. intros s.
  unfold PgRepo.LogBehaviorBatch. rewrite bind_run, Rwdb.unavailable_run. cbn [Rwdb.get_db].
  destruct (s_pg s) as [rw|] eqn:E; [|apply outside_ret]. destruct (_ || _); [apply outside_ret|].
  destruct (PgRepo.batch_values l 1) as [values args]. rewrite bind_run.
  destruct (Hx s (PgRepo.insert_logs +:+ PgRepo.joinStrings values ",") args) as (a & w & ->); [by eexists|].
  rewrite ret_run. by eexists _, _.
Qed.

(** The batches that are pending can all be written. *)
Lemma batches_written srv s b :
  ∃ s', rtc (step srv) (mkSystem s b false true) (mkSystem s' b false true) ∧
    existsb is_batch (s_tasks s') = false ∧ s_buf s' = s_buf s.
Proof.
  remember (Datatypes.length (s_tasks s)) as n eqn:Hn. revert s Hn. induction n as [n IH] using lt_wf_ind. intros s Hn.
  destruct (existsb is_batch (s_tasks s)) eqn:E; [|by exists s].
  apply existsb_exists in E as (t & Hin & Ht). apply list_elem_of_In, list_elem_of_lookup in Hin as [i Hi].
  destruct t as [| | | | |l]; try discriminate Ht.
  destruct (batch_outside l (s <| s_tasks ::= delete i |>)) as ([] & w & Er).
  pose proof (length_delete (s_tasks s) i ltac:(by eexists)) as Hl. pose proof (lookup_lt_Some _ _ _ Hi).
  match type of Er with _ = (_, ?s1) => destruct (IH (Datatypes.length (s_tasks s1)) ltac:(cbn; lia) s1 eq_refl) as (s' & Hs & H1 & H2) end.
  exists s'. split; [|split; [exact H1|exact H2]]. eapply rtc_l; [|exact Hs]. eexists. by eapply does_task.
Qed.

(** ** Properties *)

(** C9: The process ends.  At every moment of a process built by [setup],
    the first shutdown closes each channel once, without a panic; after it
    the wait for the analytics writer can end: the writer drains its buffer,
    and every batch it started gets written; and then [main] returns: once
    every worker has reported or the timer has fired, the consumer, both
    producers, the databases and Redis are closed.  Nothing of the process
    but the world changes there: goroutines still pending, second deletions
    and events to publish among them, are abandoned. *)
Theorem process_ends cfg srv st :
  running cfg srv st →
  (sy_closing st = false → ∃ s', shutdown (sy_s st) = (Val tt, s') ∧ s_tasks s' = s_tasks (sy_s st)) ∧
  (sy_closing st = true → ∃ st', rtc (step srv) st st' ∧ written (sy_writer st') (sy_s st') = true ∧
     (sy_writer st = true → s_buf (sy_s st') = [] ∧ sy_batch st' = [])) ∧
  ∀ events, enough events (Mq.ec_concurrency (srv_consumer srv)) 0 →
    ∃ w, finish srv events (sy_s st) = (Val tt, (sy_s st) <| s_w := w |>).
Proof using All.
  intros Hr. destruct (running_ok _ _ _ Hr) as (search & Hw & Hok & Hb). split; [|split].
  - intros Hc. rewrite Hc in Hok. destruct (shutdown_ok search search (0, 0) _ Hok) as (s' & E & _ & Ht). by exists s'.
  - intros Hc. destruct st as [s b wr cl]. cbn in Hc, Hb |- *. subst cl.
    assert (Hgo : ∀ t b', ∃ st', rtc (step srv) (mkSystem t b' false true) st' ∧
      written (sy_writer st') (sy_s st') = true ∧ s_buf (sy_s st') = s_buf t ∧ sy_batch st' = b').
    { intros t b'. destruct (batches_written srv t b') as (s' & H1 & H2 & H3). eexists. split; [exact H1|].
      cbn. by rewrite H2. }
    destruct wr.
    + destruct (Analytics.drain_run (s_buf s) b s Hb eq_refl) as (s1 & E & Hbuf & _).
      destruct (Hgo s1 []) as (st' & H1 & H2 & H3 & H4). exists st'. split; [|by rewrite H3, H4].
      eapply rtc_l; [|exact H1]. exists (AWrite Analytics.EvClose). apply does_write; [done|].
      cbn [Analytics.batchWriter]. unfold Analytics.drainAndFlush. rewrite bind_run, bind_run. unfold gets. by rewrite E.
    + destruct (Hgo s b) as (st' & H1 & H2 & _). exists st'. by split.
  - intros events He. destruct (finish_run search search srv events Hw He (sy_s st)) as ([] & w & E). by exists w.
Qed.

(** C31: The background loops of the breaker and of the detector, as [setup]
    starts them.  With an interval from one second to 292 years and a window
    from one second to 146 years both tickers exist, and each loop returns
    when it receives from the closed channel, whatever ticks came before.
    Zero and negative settings, and settings whose duration overflows 64
    bits, make [time.NewTicker] panic in a goroutine that nothing recovers:
    the process is gone although [setup] succeeded. *)
Theorem loops_bounds cfg srv s s1 :
  setup cfg s = (Val srv, s1) →
  let interval := Config.IntervalSeconds (Config.CircuitBreaker cfg) in
  let window := Config.WindowSeconds (Config.HotKey cfg) in
  (1 <= interval <= 9223372036 → 1 <= window <= 4611686018 → ticking s1 = true ∧
    ∀ l, Closed ∈ l → ∃ cb cb' h,
      CB.windowResetLoop l (s_cb s1) = Some (true, cb) ∧ CB.stateTransitionLoop l (s_cb s1) = Some (true, cb') ∧
      HK.cleanupLoop l (s_hk s1) = Some (true, h)) ∧
  (-9223372036 <= interval <= 0 ∨ 9223372037 <= interval <= 18446744073 →
    ticking s1 = false ∧ ∀ l, CB.windowResetLoop l (s_cb s1) = None) ∧
  (-4611686018 <= window <= 0 ∨ 4611686019 <= window <= 9223372036 →
    ticking s1 = false ∧ ∀ l, HK.cleanupLoop l (s_hk s1) = None).
Proof.
  intros Hr interval window.
  destruct (setup_inv _ _ _ _ Hr) as (w0 & w & mysql & pg & m & es & s2 & t1 & t2 & t3 & _ & _ & E).
  assert (Ei : CB.cb_interval (s_cb s1) = wrap64 (interval * 1000000000)) by by rewrite E.
  assert (Ew : wrap64 (HK.windowSize (s_hk s1) * 2) = wrap64 (wrap64 (window * 1000000000) * 2)) by by rewrite E.
  clearbody interval window. clear E Hr. unfold ticking, CB.windowResetLoop, CB.stateTransitionLoop, HK.cleanupLoop.
  rewrite Ei, Ew. unfold Second. split; [|split].
  - intros Hi Hw. rewrite !(wrap64_id (_ * _)), !ticker_loop_runs by (rewrite ?wrap64_id; i64).
    split; [done|]. intros l Hl. eexists _, _, _.
    rewrite !ticker_loop_runs by lia. split; [|split]; rewrite surjective_pairing at 1; by rewrite select_loop_ends.
  - intros Hi. assert (Hn : wrap64 (interval * 1000000000) <= 0).
    { destruct Hi; [rewrite wrap64_id by (i64)|rewrite wrap64_over by lia]; lia. }
    rewrite ticker_loop_panics by done. split; [done|]. intros l. by rewrite ticker_loop_panics.
  - intros Hw. assert (Hn : wrap64 (wrap64 (window * 1000000000) * 2) <= 0).
    { rewrite (wrap64_id (window * _)) by (i64).
      destruct Hw; [rewrite wrap64_id by (i64)|rewrite wrap64_over by lia]; lia. }
    rewrite (ticker_loop_panics (λ _, HK.cleanup)) by done. split; [by destruct (ticker_loop _ _ _ _)|].
    intros l. by rewrite ticker_loop_panics.
Qed.

End lifecycle.

Lemma process_ends_witness :
  ∃ srv st s', running demo_cfg srv st ∧ demo_pending (sy_s st) = [true; false; false] ∧
    shutdown (sy_s st) = (Val tt, s') ∧ ∃ w, finish srv [Mq.StopTimeout] (sy_s st) = (Val tt, (sy_s st) <| s_w := w |>).
Proof.
  destruct demo_reached_open as (srv & st & Hr & Ht & Ho).
  destruct (process_ends demo_cfg srv st Hr) as (H1 & _ & H3).
  destruct (H1 Ho) as (s' & E & _). destruct (H3 [Mq.StopTimeout] ltac:(left; apply elem_of_cons; by left)) as [w Ew].
  exists srv, st, s'. split; [exact Hr|]. split; [exact Ht|]. split; [exact E|]. exists w. exact Ew.
Defined.

Lemma loops_bounds_witness :
  ∃ srv s1, setup demo_cfg demo_sys = (Val srv, s1) ∧ ticking s1 = true ∧
    ∃ cb, CB.windowResetLoop [Tick 5; Closed] (s_cb s1) = Some (true, cb).
Proof.
  destruct (setup demo_cfg demo_sys) as [[srv|e|] s1] eqn:E.
  - exists srv, s1. split; [reflexivity|].
    destruct (loops_bounds demo_cfg srv demo_sys s1 E) as [H _].
    destruct H as [H1 H2]; [split; discriminate|split; discriminate|]. split; [exact H1|].
    destruct (H2 [Tick 5; Closed]) as (cb & _ & _ & H3 & _); [apply elem_of_cons; right; apply elem_of_cons; by left|].
    exists cb. exact H3.
  - exfalso. assert (H : (match (setup demo_cfg demo_sys).1 with Panicked _ => true | _ => false end) = false)
      by (vm_compute; reflexivity). rewrite E in H. discriminate H.
  - exfalso. assert (H : (match (setup demo_cfg demo_sys).1 with Unfinished => true | _ => false end) = false)
      by (vm_compute; reflexivity). rewrite E in H. discriminate H.
Defined.

End Lifecycle.
