(* ===== verification/Durable.v ===== *)
(** * Orders outlast everything the process does

    [Store.v] relates the order service to a map from order numbers to rows.
    Here the relation is carried through the whole process: requests to any
    route, goroutines, message consumption, batches, ticks and shutdown, in
    any order.  [grows t t']: every row of [t] is still in [t'], as the same
    order of the same user; [lasts m]: [m] keeps the process tied to a map
    that has only grown. *)

From S2P Require Export Store Lifecycle.

Module Durable.
Import OrderSvc Table Store Http Handlers Health System Answers.

(** ** Calls to the outside that do not concern orders *)

(** A call that leaves both cache tiers and the table as they are. *)
Definition apart `{OrderTable} `{!Views} {A} (op : W → A * W) : Prop :=
  ∀ w, redis_frame w (op w).2 ∧ l1_frame w (op w).2 ∧ ∀ t, table_is t w → table_is t (op w).2.

(** The statements executed beside [insert_order]: those of accounts and of
    behaviour logs, and those of the scripts that are deployed. *)
Inductive bystander `{Env} `{!Drivers} : string → Prop :=
| by_insert_user : bystander Repo.insert_user
| by_last_login : bystander Repo.update_last_login
| by_logs values : bystander (PgRepo.insert_logs +:+ values)
| by_script path text stmt :
    os_ReadFile path = inr text → stmt ∈ Schema.splitSQL text → bystander (TrimSpace stmt).

(** The databases, search, messages and libraries keep to themselves, the
    deployed scripts only create what is missing ([IF NOT EXISTS]), and the
    messages waiting in Kafka are of storable orders. *)
Class Bystanders `{Codec} `{OrderTable} `{!Views} `{!Drivers} := {
  exec_apart c q args : bystander q → apart (sql_exec c q args);
  query_apart c q args : apart (sql_query c q args);
  ping_apart : apart redis_ping;
  find_apart id : apart (mongo_find id);
  mongo_upsert_apart p : apart (mongo_upsert p);
  createMany_apart n l : apart (mongo_createMany n l);
  search_apart i b : apart (es_search i b);
  es_exists_apart n : apart (es_exists n);
  es_create_apart n m : apart (es_create n m);
  dial_apart a : apart (kafka_dial a);
  fetch_apart : apart kafka_fetch;
  commit_apart m : apart (kafka_commit m);
  rate_apart : apart rate_wait;
  ctx_err_apart : apart ctx_err;
  ctx_wait_apart d : apart (ctx_wait d);
  hash_apart p : apart (bcrypt_hash p);
  map_order_apart l : apart (map_order l);
  uuid_apart : apart new_uuid;
  pages_apart c : apart (swagger_pages c);
  fetch_fit w m : healthy w → (kafka_fetch w).1 = inr m → fit (k_Value m)
}.

(** ** Maps that grow *)

Definition same_order (o o' : Order) : Prop :=
  o_ID o' = o_ID o ∧ o_UserID o' = o_UserID o ∧ o_OrderNo o' = o_OrderNo o ∧ o_CreatedAt o' = o_CreatedAt o.

Definition grows (t t' : gmap string Order) : Prop :=
  ∀ no o, t !! no = Some o → ∃ o', t' !! no = Some o' ∧ same_order o o'.

#[global] Instance same_order_preorder : PreOrder same_order.
Proof. split; [by intros o|]. intros a b c (H1 & H2 & H3 & H4) (K1 & K2 & K3 & K4). split_and!; congruence. Qed.

#[global] Instance grows_preorder : PreOrder grows.
Proof.
  split; [intros t no o Ho; by exists o|]. intros t1 t2 t3 H12 H23 no o Ho.
  destruct (H12 no o Ho) as (o2 & Ho2 & S2). destruct (H23 no o2 Ho2) as (o3 & Ho3 & S3).
  exists o3. split; [done|]. by etrans.
Qed.

Lemma grows_upsert `{OrderTable} id o t : grows t (upsert id o t).
Proof.
  intros no old Hold. unfold upsert. destruct (decide (no = o_OrderNo o)) as [->|Hne].
  - rewrite lookup_insert_eq, Hold. by eexists.
  - rewrite lookup_insert_ne by done. by exists old.
Qed.

Section durable.
Context `{EN : Env} `{CO : Codec} `{CL : !CodecLaws} `{VI : !Views} `{RE : !RedisLaws} `{LL : !L1Laws}
  `{CK : !ClockLaws} `{FR : !FrameLaws} `{SF : !ServiceFrames} `{OT : !OrderTable} `{OL : !OrderTableLaws}
  `{DR : !Drivers} `{BY : !Bystanders}.
Context (t0 : gmap string Order).
#[local] Set Default Proof Using "All".

Definition lasting (s : Sys) : Prop := ∃ t, grows t0 t ∧ ready t s.

Definition lasts {A} (m : M A) : Prop := State.triple lasting (λ _, True) m.

(** ** Combinators *)

Lemma lasts_of {A} (m : M A) : (∀ t s, ready t s → ∃ t', grows t t' ∧ ready t' (m s).2) → lasts m.
Proof.
  intros Hm s (t & Hg & Hs). destruct (Hm t s Hs) as (t' & Hg' & Hs'). split; [|by destruct (m s).1].
  exists t'. split; [by etrans|done].
Qed.

Lemma lasts_keeps {A} (m : M A) : (∀ t, keeps order_keys t m) → lasts m.
Proof.
  intros Hm. apply lasts_of. intros t s [[Hr Hs] Hk]. destruct (Hm t s Hs) as (a & s' & E & H1 & K).
  exists t. split; [done|]. rewrite E. split; [by split|]. cbn. by rewrite K.
Qed.

(** The tiers and the detector, each by its own argument. *)
Lemma lasts_coh {A} (m : M A) :
  (∀ t, State.triple (coh order_keys t) (λ _, True) m) → (∀ s, HK.usable (s_hk s) → HK.usable (s_hk (m s).2)) → lasts m.
Proof.
  intros Hm Hk. apply lasts_of. intros t s [[Hr Hs] Hu]. destruct (Hm t s Hs) as [H1 _].
  exists t. split; [done|]. split; [by split|by apply Hk].
Qed.

Lemma lasts_bind {A B} (m : M A) (f : A → M B) : lasts m → (∀ a, lasts (f a)) → lasts (m ≫= f).
Proof. intros Hm Hf. eapply triple_bind; [exact Hm|]. intros a _. apply Hf. Qed.
Lemma lasts_ret {A} (a : A) : lasts (mret a).
Proof. by apply triple_ret. Qed.
Lemma lasts_gets {A} (f : Sys → A) : lasts (gets f).
Proof. by apply triple_gets. Qed.
Lemma lasts_panic {A} msg : lasts (@panic _ A msg).
Proof. apply triple_panic. Qed.
Lemma lasts_nil_deref {A} : lasts (@Rwdb.nil_deref _ A).
Proof. apply triple_panic. Qed.
Lemma lasts_when b m : lasts m → lasts (when b m).
Proof. by apply triple_when. Qed.
Lemma lasts_deferred {A} d (m : M A) : lasts d → lasts m → lasts (deferred d m).
Proof. apply triple_deferred. Qed.

Lemma lasts_apart {A} (op : W → A * W) : apart op → lasts (world op).
Proof.
  intros Ho. apply lasts_keeps. intros t. apply coh_world; [intros w; by destruct (Ho w) as (H1 & H2 & _)|].
  intros w. apply Ho.
Qed.

(** What changes none of the fields the relation speaks of. *)
Definition aside (s s' : Sys) : Prop :=
  s_w s' = s_w s ∧ s_mysql s' = s_mysql s ∧ lockKeyPrefix (s_mc s') = lockKeyPrefix (s_mc s) ∧
  mc_l2 (s_mc s') = mc_l2 (s_mc s) ∧ (HK.usable (s_hk s) → HK.usable (s_hk s')).

Lemma lasting_aside s s' : aside s s' → lasting s → lasting s'.
Proof.
  intros (E1 & E2 & E3 & E4 & Hk) (t & Hg & [Hr Hs] & Hu). exists t. split; [done|]. split; [|auto]. split; [done|].
  revert Hs. unfold coh, Cache.cache_ok. by rewrite E1, E2, E3, E4.
Qed.

Lemma lasts_aside {A} (m : M A) : (∀ s, aside s (m s).2) → lasts m.
Proof. intros Hm s Hs. split; [by eapply lasting_aside|by destruct (m s).1]. Qed.

End durable.

#[global] Arguments lasts : simpl never.
Create HintDb lasts.
#[export] Hint Resolve lasts_ret lasts_gets lasts_panic lasts_nil_deref lasts_apart : lasts.
#[export] Hint Resolve query_apart ping_apart find_apart mongo_upsert_apart createMany_apart search_apart es_exists_apart
  es_create_apart dial_apart fetch_apart commit_apart rate_apart ctx_err_apart ctx_wait_apart hash_apart map_order_apart
  uuid_apart pages_apart : lasts.
#[export] Hint Extern 1 (lasts _ (modify _)) => apply lasts_aside; intros ?; by split_and! : lasts.
#[export] Hint Extern 1 (lasts _ (go _)) => apply lasts_aside; intros ?; by split_and! : lasts.

(** Follow the operation's structure; the database carries its calls. *)
Ltac lasts := intros;
  lazymatch goal with
  | |- lasts _ (_ ≫= _) => apply lasts_bind; [lasts|intros ?; lasts]
  | |- lasts _ (when _ _) => apply lasts_when; lasts
  | |- lasts _ (deferred _ _) => apply lasts_deferred; lasts
  | |- _ => first [solve [eauto 4 with lasts] | case_match; lasts | idtac]
  end.

(** ** The components below the services *)

Section components.
Context `{EN : Env} `{CO : Codec} `{CL : !CodecLaws} `{VI : !Views} `{RE : !RedisLaws} `{LL : !L1Laws}
  `{CK : !ClockLaws} `{FR : !FrameLaws} `{SF : !ServiceFrames} `{OT : !OrderTable} `{OL : !OrderTableLaws}
  `{DR : !Drivers} `{BY : !Bystanders}.
Context (t0 : gmap string Order).
#[local] Set Default Proof Using "All".
#[local] Abbreviation lasting := (lasting t0).
#[local] Abbreviation lasts := (lasts t0).

Lemma lasts_Now : lasts Now.
Proof. apply lasts_keeps. intros t. apply keeps_Now. Qed.
Lemma lasts_Sleep d : lasts (Sleep d).
Proof. apply lasts_keeps. intros t. apply keeps_Sleep. Qed.
Lemma lasts_rand n : lasts (world (rand_read n)).
Proof. apply lasts_keeps. intros t. apply keeps_rand. Qed.
Hint Resolve lasts_Now lasts_Sleep lasts_rand : lasts.

(** A call of the cache, by the lemma that it keeps the tiers. *)
Ltac by_tiers lem :=
  apply lasts_coh; [intros t; by by_class lem|intros s Hs; exact Hs].

(** What the cache does under keys that are not those of orders. *)
Section tiers.
Context (k : string) (Hk : ¬ order_keys k).

Lemma lasts_l1Set v ttl : lasts (Cache.l1SetWithTTL k v ttl).
Proof. by_tiers Cache.t_l1Set. Qed.
Lemma lasts_l2Set v ttl : lasts (Cache.l2Set k v ttl).
Proof.
  apply lasts_coh; [intros t; by by_class Cache.t_l2Set|]. intros s Hs. unfold Cache.l2Set. by rewrite bind_run, world_run.
Qed.
Lemma lasts_setnx v ttl : lasts (world (redis_setnx k v ttl)).
Proof.
  apply lasts_coh; [|intros s Hs; by rewrite world_run]. intros t. by_class Cache.t_world. intros w Hw. split; [|done].
  by by_class Cache.setnx_ok.
Qed.
Lemma lasts_Set v : lasts (Cache.Set_ k v).
Proof. apply lasts_keeps. intros t. by apply keeps_Set. Qed.
Lemma lasts_SetNull : lasts (Cache.SetNull k).
Proof. apply lasts_coh; [intros t; by by_class Cache.t_SetNull|]. intros s Hs. by rewrite Cache.SetNull_val. Qed.

End tiers.

Lemma lasts_l1Wait : lasts Cache.l1Wait.
Proof. by_tiers Cache.t_l1Wait. Qed.
Lemma lasts_l2Del k : lasts (Cache.l2Del k).
Proof.
  apply lasts_coh; [intros t; by by_class Cache.t_l2Del|]. intros s Hs. unfold Cache.l2Del. by rewrite bind_run, world_run.
Qed.
Lemma lasts_l1Del k : lasts (Cache.l1Del k).
Proof. by_tiers Cache.t_l1Del. Qed.
Lemma lasts_l1_get k : lasts (world (l1_get k)).
Proof.
  apply lasts_keeps. intros t. apply coh_world; [|apply kept_l1_get]. intros w. split; [apply l1_get_redis|apply l1_get_frame].
Qed.
Lemma lasts_redis_get k : lasts (world (redis_get k)).
Proof.
  apply lasts_keeps. intros t. apply coh_world; [|apply kept_redis_get]. intros w. split; [apply redis_get_frame|apply redis_get_l1].
Qed.
Lemma lasts_update f : (∀ c, lockKeyPrefix (f c) = lockKeyPrefix c ∧ mc_l2 (f c) = mc_l2 c) → lasts (Cache.update f).
Proof. intros Hf. apply lasts_aside. intros s. destruct (Hf (s_mc s)). by split_and!. Qed.
Hint Resolve lasts_l1Wait lasts_l2Del lasts_l1Del lasts_l1_get lasts_redis_get : lasts.
Hint Extern 1 (Durable.lasts _ (Cache.update _)) => apply lasts_update; intros ?; by split : lasts.

Lemma lasts_jitter base pct : lasts (Config.JitterDuration base pct).
Proof. unfold Config.JitterDuration. lasts. Qed.
Hint Resolve lasts_jitter : lasts.

Lemma lasts_recordAccess k : lasts (Cache.recordAccess k).
Proof.
  apply lasts_coh; [intros t; by by_class Cache.t_recordAccess|]. intros s Hs.
  destruct (Cache.recordAccess_run k s) as (n1 & n2 & w & ->). cbn [snd].
  destruct (HK.RecordAccess_usable k n1 n2 (s_hk s) Hs) as (b & h & -> & Hu). exact Hu.
Qed.
Hint Resolve lasts_recordAccess : lasts.

(** A lookup in the cache under a key that is none of an order. *)
Lemma lasts_Get loader k :
  ¬ order_keys k → (∀ load, loader = Some load → lasts (load k)) → lasts (Cache.Get loader k).
Proof.
  intros Hk Hload. pose proof (lasts_l1Set k Hk) as H1. pose proof (lasts_l2Set k Hk) as H2.
  assert (Hdb : lasts (Cache.loadFromDB loader k)).
  { unfold Cache.loadFromDB, Cache.mc, Cache.l2TTL, Cache.l1TTL, Cache.mc.
    destruct loader as [load|]; [|lasts]. specialize (Hload load eq_refl). lasts. }
  assert (Hlock : lasts (Cache.loadWithLock loader k)).
  { unfold Cache.loadWithLock. eapply triple_bind with (λ c, lockKeyPrefix c = "cache:lock:").
    { apply triple_gets. by intros s (t & _ & (_ & _ & _ & Hp & _) & _). }
    intros c Hc. destruct (negb (mc_l2 c)); [exact Hdb|].
    assert (Hn : ∀ ttl, lasts (world (redis_setnx (lockKeyPrefix c +:+ k) "1" ttl))).
    { intros ttl. apply lasts_setnx. rewrite Hc. intros Hx%order_keys_no_lock. by rewrite hasPrefix_append in Hx. }
    match goal with |- State.triple _ _ ?m => change (lasts m) end.
    lasts. }
  unfold Cache.Get, Cache.fromL3, Cache.mc, Cache.l1TTL, Cache.mc. lasts.
Qed.

(** ** The pools *)

(** Another replica is next, or the pool of reports is another. *)
Lemma lasting_pool d rw s :
  (d = Rwdb.MySQL → is_Some (master rw)) → lasting s → lasting (Rwdb.set_db d rw s).
Proof.
  intros Hm (t & Hg & [Hr (Hw & Hp & Hc)] & Hu). exists t. split; [done|]. split; [|by destruct d]. split; [done|].
  destruct d; [|done]. split; [done|]. split; [|done]. destruct (Hm eq_refl) as [c E]. by exists rw, c.
Qed.

Lemma lasts_replica d : lasts (Rwdb.take_replica d).
Proof.
  intros s Hs. unfold Rwdb.take_replica, Rwdb.on_db. rewrite bind_run. unfold gets.
  destruct (Rwdb.get_db d s) as [rw|] eqn:E; [|done].
  destruct (Rwdb.replica rw) as [o rw'] eqn:Er.
  assert (Hs' : lasting (Rwdb.set_db d rw' s)).
  { apply lasting_pool; [|done]. intros ->. cbn [Rwdb.get_db] in E.
    destruct Hs as (t & _ & [_ (_ & (rw1 & c & E1 & Em) & _)] & _). rewrite E in E1. injection E1 as <-.
    destruct (pool_replica rw c Em) as (c' & rw2 & Er2 & Em2). rewrite Er in Er2. injection Er2 as _ ->. by exists c. }
  destruct o; (split; [exact Hs'|done]).
Qed.

Lemma lasts_row c q args : lasts (world (sql_query_row c q args)).
Proof.
  apply lasts_apart. intros w. split; [apply sql_row_frames|]. split; [apply sql_row_frames|]. intros t. apply table_query.
Qed.
Hint Resolve lasts_replica lasts_row : lasts.

Lemma lasts_QueryRow d q args : lasts (Rwdb.QueryRowContext d q args).
Proof. unfold Rwdb.QueryRowContext. lasts. Qed.
Lemma lasts_Query d q args : lasts (Rwdb.QueryContext d q args).
Proof. unfold Rwdb.QueryContext. lasts. Qed.
Lemma lasts_unavailable d : lasts (Rwdb.unavailable d).
Proof. unfold Rwdb.unavailable. lasts. Qed.
Lemma lasts_Exec d q args : bystander q → lasts (Rwdb.ExecContext d q args).
Proof. intros Hq. pose proof (λ c, exec_apart c q args Hq). unfold Rwdb.ExecContext, Rwdb.on_db. lasts. Qed.
Hint Resolve lasts_QueryRow lasts_Query lasts_unavailable lasts_Exec by_insert_user by_last_login by_logs : lasts.

(** ** Kafka, search and MongoDB *)

Lemma lasts_Send ep ctx key v : lasts (Mq.Send ep ctx key v).
Proof. apply lasts_keeps. intros t. apply keeps_Send. Qed.
Lemma lasts_kafka topic m : lasts (world (kafka_write topic m)).
Proof. apply lasts_keeps. intros t. apply keeps_kafka. Qed.
Lemma lasts_index i d b : lasts (world (es_index i d b)).
Proof. apply lasts_keeps. intros t. apply keeps_index. Qed.
Hint Resolve lasts_Send lasts_kafka lasts_index : lasts.

Lemma lasts_SendAsync ep ctx key e : lasts (Mq.SendAsync ep ctx key e).
Proof. unfold Mq.SendAsync. lasts. Qed.
Lemma lasts_SendToDLQ ep ctx key v : lasts (Mq.SendToDLQ ep ctx key v).
Proof. unfold Mq.SendToDLQ. lasts. Qed.
Lemma lasts_Ping ep : lasts (Mq.Ping ep).
Proof. unfold Mq.Ping. lasts. Qed.
Lemma lasts_sendTask ep tr key e : lasts (Mq.sendTask ep tr key e).
Proof. apply lasts_keeps. intros t. apply keeps_sendTask. Qed.
Lemma lasts_IndexOrder sc o : lasts (Es.IndexOrder sc o).
Proof. unfold Es.IndexOrder. lasts. Qed.
Lemma lasts_IndexUserProfile sc p : lasts (Es.IndexUserProfile sc p).
Proof. unfold Es.IndexUserProfile. lasts. Qed.
Lemma lasts_es_orders sc k p n : lasts (Es.SearchOrders sc k p n).
Proof. unfold Es.SearchOrders, Es.executeOrderSearch, Es.executeSearch. lasts. Qed.
Lemma lasts_es_users sc k p n : lasts (Es.SearchUsers sc k p n).
Proof. unfold Es.SearchUsers, Es.executeUserSearch, Es.executeSearch. lasts. Qed.
Lemma lasts_FindByUserID r id : lasts (Mongo.FindByUserID r id).
Proof. unfold Mongo.FindByUserID. lasts. Qed.
Lemma lasts_MongoUpsert r p : lasts (Mongo.Upsert r p).
Proof. unfold Mongo.Upsert. lasts. Qed.
Hint Resolve lasts_SendAsync lasts_SendToDLQ lasts_Ping lasts_sendTask lasts_IndexOrder lasts_IndexUserProfile
  lasts_es_orders lasts_es_users lasts_FindByUserID lasts_MongoUpsert : lasts.

Lemma lasts_loader mongoDB repo k : lasts (Loader.newDataLoader mongoDB repo k).
Proof. unfold Loader.newDataLoader. lasts. Qed.

(** ** Accounts, reports and logs *)

Lemma lasts_get_user query what arg : lasts (Repo.get_user query what arg).
Proof. unfold Repo.get_user. lasts. Qed.
Lemma lasts_generateToken svc uid name : lasts (Auth.generateToken svc uid name).
Proof. unfold Auth.generateToken. lasts. Qed.
Hint Resolve lasts_get_user lasts_generateToken : lasts.
Lemma lasts_ParseToken svc token : lasts (Auth.ParseToken svc token).
Proof. unfold Auth.ParseToken. lasts. Qed.
Lemma lasts_Register svc req : lasts (Auth.Register svc req).
Proof. unfold Auth.Register, Repo.GetByUsername, Repo.GetByEmail, Repo.InsertUser. lasts. Qed.
Lemma lasts_Login svc req : lasts (Auth.Login svc req).
Proof. unfold Auth.Login, Repo.GetByUsername. lasts. Qed.
Lemma lasts_GetUserInfo uid : lasts (Auth.GetUserInfo uid).
Proof. unfold Auth.GetUserInfo, Repo.GetByID. lasts. Qed.
Lemma lasts_loginTask uid : lasts (Auth.updateLastLoginTask uid).
Proof. unfold Auth.updateLastLoginTask, Repo.UpdateLastLoginAt. lasts. Qed.
Lemma lasts_DailyStats from to : lasts (Analytics.GetDailyStats from to).
Proof. unfold Analytics.GetDailyStats, PgRepo.GetDailyStats. lasts. Qed.
Lemma lasts_Summary e : lasts (Analytics.GetBehaviorSummary e).
Proof. unfold Analytics.GetBehaviorSummary, PgRepo.GetBehaviorSummary. lasts. Qed.
Lemma lasts_logBatch l : lasts (Analytics.logBatchTask l).
Proof. unfold Analytics.logBatchTask, PgRepo.LogBehaviorBatch. lasts. Qed.
Lemma lasts_LogOrderCreated uid no : lasts (Analytics.LogOrderCreated uid no).
Proof.
  assert (Ht : ∀ e, lasts (Analytics.try_send e)).
  { intros e. apply lasts_aside. intros s. rewrite Analytics.try_send_run. by destruct (_ <? _). }
  unfold Analytics.LogOrderCreated, Analytics.signalFlush. lasts.
Qed.

Lemma lasts_writer ev b : lasts (Analytics.batchWriter ev b).
Proof.
  assert (Hf : ∀ b, lasts (Analytics.flush b)) by (intros; unfold Analytics.flush; lasts).
  assert (Hd : ∀ l b, lasts (Analytics.drain l b)).
  { induction l as [|e l IH]; intros b'; cbn [Analytics.drain]; unfold Analytics.take; lasts. }
  destruct ev; cbn [Analytics.batchWriter]; unfold Analytics.drainAndFlush, Analytics.take; lasts.
Qed.
Hint Resolve lasts_loader lasts_ParseToken lasts_Register lasts_Login lasts_GetUserInfo lasts_loginTask lasts_DailyStats
  lasts_Summary lasts_logBatch lasts_LogOrderCreated lasts_writer : lasts.

(** ** Orders *)

Lemma outcome_grows label t o r t' : outcome label t o r t' → grows t t'.
Proof.
  destruct r as [[l no] [e|]]; intros [_ H]; [by destruct H as [_ ->]|].
  destruct H as [(_ & id & _ & ->)|(_ & _ & ->)]; [apply grows_upsert|done].
Qed.

Lemma lasts_creation os forced ctx order : user_ok order → lasts (creation os forced ctx order).
Proof.
  intros Hu. apply lasts_of. intros t s [Hs Hk].
  destruct (creates_creation os forced ctx order t s Hu Hs) as (no & now & r & s' & t' & E & _ & Ho & H1 & K).
  exists t'. split; [by eapply outcome_grows|]. rewrite E. split; [done|]. cbn. by rewrite K.
Qed.

Lemma lasts_event os ctx key value : fit value → lasts (HandleOrderEvent os ctx key value).
Proof.
  intros Hf. apply lasts_of. intros t s [Hs Hk].
  destruct (handle_spec os ctx key value t s Hf Hs) as (r & s' & t' & E & H1 & K & Hr).
  exists t'. split; [|rewrite E; split; [done|cbn; by rewrite K]].
  destruct r; [by subst|]. destruct Hr as (o & id & _ & _ & ->). apply grows_upsert.
Qed.

(** A lookup of whatever text a client sends. *)
Lemma lasts_GetOrder os no : loads os → lasts (OrderSvc.GetOrder os no).
Proof.
  intros Hl. destruct (decide (numbered no)) as [Hn|Hn].
  - apply lasts_of. intros t s [Hs Hk]. destruct (get_spec os no t s Hl Hn Hs Hk) as (s' & -> & H1 & H2). by exists t.
  - destruct Hl as (m & r & El). assert (Hk : ¬ order_keys (order_key no)) by by rewrite order_keys_key.
    pose proof (lasts_Set _ Hk) as H1. pose proof (lasts_SetNull _ Hk) as H2.
    assert (Hq : lasts (dbQuery no)) by (unfold dbQuery; lasts).
    unfold OrderSvc.GetOrder. rewrite El. apply lasts_bind; [apply lasts_Get; [done|]; intros load [= <-]; lasts|lasts].
Qed.

Lemma lasts_indexTask sc o : lasts (indexOrderTask sc o).
Proof. apply lasts_keeps. intros t. apply keeps_indexTask. Qed.
Lemma lasts_secondDelete d k : lasts (Cache.secondDelete d k).
Proof. apply lasts_keeps. intros t. apply keeps_secondDelete. Qed.
Lemma lasts_SearchOrders os k p n : lasts (OrderSvc.SearchOrders os k p n).
Proof. unfold OrderSvc.SearchOrders. lasts. Qed.
Hint Resolve lasts_creation lasts_GetOrder lasts_indexTask lasts_secondDelete lasts_SearchOrders : lasts.

(** ** Profiles *)

Lemma profile_key_apart uid : ¬ order_keys (Profile.profile_key uid).
Proof. intros (no & _ & E). discriminate E. Qed.

Lemma lasts_GetProfile us uid :
  (∀ load k, Profile.us_loader us = Some load → lasts (load k)) → lasts (Profile.GetProfile us uid).
Proof.
  intros Hl. pose proof (lasts_Set _ (profile_key_apart uid)) as H1. pose proof (lasts_SetNull _ (profile_key_apart uid)) as H2.
  unfold Profile.GetProfile, Profile.loadFromMongo.
  apply lasts_bind; [apply lasts_Get; [apply profile_key_apart|]; intros load E; by apply Hl|lasts].
Qed.

Lemma lasts_UpsertProfile us p : lasts (Profile.UpsertProfile us p).
Proof.
  unfold Profile.UpsertProfile, Profile.indexProfileToES, Cache.Invalidate, Cache.InvalidateWithDelay, Cache.mc. lasts.
Qed.
Lemma lasts_SearchUsers us k p n : lasts (Profile.SearchUsers us k p n).
Proof. unfold Profile.SearchUsers. lasts. Qed.
Lemma lasts_profileTask sc p : lasts (Profile.indexProfileTask sc p).
Proof. unfold Profile.indexProfileTask. lasts. Qed.
Hint Resolve lasts_UpsertProfile lasts_SearchUsers lasts_profileTask : lasts.

(** ** The server's background *)

Lemma lasts_range {A} (m : gmap string A) : lasts (range m).
Proof. unfold range. lasts. Qed.
Hint Resolve lasts_range : lasts.

Lemma lasts_tables d name path : lasts (Schema.ensure_tables os_ReadFile d name path).
Proof.
  assert (Hx : ∀ c text l i, os_ReadFile path = inr text → (∀ stmt, stmt ∈ l → stmt ∈ Schema.splitSQL text) →
    lasts (Schema.exec_statements c name i l)).
  { intros c text l. induction l as [|stmt l IH]; intros i Ht Hl; cbn [Schema.exec_statements]; [lasts|].
    assert (Hr : ∀ i, lasts (Schema.exec_statements c name i l)) by (intros; apply IH; set_solver).
    destruct (bool_decide (TrimSpace stmt = "")); [apply Hr|]. apply lasts_bind; [|lasts].
    apply lasts_apart, exec_apart. eapply by_script; [exact Ht|]. apply Hl. set_solver. }
  unfold Schema.ensure_tables, Schema.execSQLFile. destruct (os_ReadFile path) as [e|text] eqn:E; lasts; by eapply Hx.
Qed.

Lemma lasts_initDatabases srv : lasts (initDatabases srv).
Proof.
  assert (Hm : ∀ l, lasts (Schema.index_models l)) by (induction l; cbn [Schema.index_models]; lasts).
  assert (Hc : ∀ l, lasts (Schema.ensure_collections mongo_createMany l)).
  { induction l as [|[n c] l IH]; cbn [Schema.ensure_collections]; lasts. }
  assert (He : ∀ l, lasts (Es.ensure_indexes es_exists es_create l)).
  { induction l as [|[n m] l IH]; cbn [Es.ensure_indexes]; unfold Es.ensure_index; lasts. }
  pose proof lasts_tables.
  unfold initDatabases, Schema.EnsureAllSQLTables, Schema.EnsureMongoCollections, Es.EnsureSearchIndexes. lasts.
Qed.

Lemma lasts_retry todo first backoff err attempt : lasts attempt → lasts (Mq.retry_loop todo first backoff err attempt).
Proof.
  intros Ha. revert first backoff err. induction todo as [|todo IH]; intros first backoff err; cbn [Mq.retry_loop]; lasts.
Qed.

(** What follows the retries. *)
Lemma lasts_settle ec ctx msg (err : option error) :
  lasts (_ ← match err, Mq.ec_producer ec with
             | Some _, Some ep => Mq.SendToDLQ ep ctx (k_Key msg) (Mq.PBytes (k_Value msg))
             | _, _ => mret None
             end;
         _ ← world (kafka_commit msg); mret true).
Proof. lasts. Qed.

(** The message fetched is one that may be handled. *)
Lemma lasts_consume srv : lasts (consume srv).
Proof.
  unfold consume, Mq.consume_once, Mq.processWithRetry.
  do 2 (apply lasts_bind; [lasts|intros [e|]; [lasts|]]).
  eapply triple_bind with (λ r, match r with inr m => fit (k_Value m) | inl _ => True end).
  - intros s Hs. rewrite world_run. cbn [fst snd]. split.
    + pose proof (lasts_apart t0 kafka_fetch fetch_apart s Hs) as [H1 _]. by rewrite world_run in H1.
    + destruct Hs as (t & _ & [_ ([_ [_ Hh]] & _)] & _). pose proof (fetch_fit (s_w s)) as Hf.
      destruct (kafka_fetch (s_w s)).1 as [e|m]; [done|]. by apply Hf.
  - intros [e|m] Hf; match goal with |- State.triple _ _ ?m => change (lasts m) end; [lasts|].
    apply lasts_bind; [apply lasts_retry, lasts_event, Hf|lasts].
Qed.

Lemma lasts_task srv tk : lasts (run_task srv tk).
Proof. destruct tk; cbn [run_task]; lasts. Qed.

Lemma lasts_shutdown : lasts shutdown.
Proof.
  apply lasts_aside. intros s. unfold shutdown, CB.Stop, HK.Stop, Cache.Close, Cache.mc. rewrite bind_run. unfold gets at 1.
  destruct (CB.cb_stopped (s_cb s)); [by split_and!|]. rewrite bind_run. unfold modify at 1. rewrite bind_run. unfold gets at 1.
  change (s_hk (s <| s_cb := ?x |>)) with (s_hk s). destruct (HK.stopped (s_hk s)); [by split_and!|].
  rewrite bind_run. unfold modify at 1. rewrite bind_run. unfold gets at 1.
  destruct (mc_closed _); by split_and!.
Qed.

End components.

#[export] Hint Resolve lasts_Now lasts_ParseToken lasts_Register lasts_Login lasts_GetUserInfo lasts_DailyStats lasts_Summary
  lasts_LogOrderCreated lasts_creation lasts_GetOrder lasts_SearchOrders lasts_GetProfile lasts_UpsertProfile lasts_SearchUsers
  lasts_Ping : lasts.

(** ** The concrete world keeps to itself *)

Lemma dw_apart {A} (op : dworld → A * dworld) :
  (∀ w, let w' := (op w).2 in dw_time w' = dw_time w ∧ dw_redis w' = dw_redis w ∧ dw_l1 w' = dw_l1 w ∧
    dw_rows w' = dw_rows w ∧ dw_redis_up w' = dw_redis_up w ∧ dw_sql_up w' = dw_sql_up w ∧ dw_inbox w' = dw_inbox w) →
  apart (op : W → A * W).
Proof.
  intros Ho w. destruct (Ho w) as (E1 & E2 & E3 & E4 & E5 & E6 & E7). split; [|split].
  - intros k. left. by apply dw_entry_same.
  - intros k. left. cbn. by rewrite E3.
  - intros t. by apply dw_keep.
Qed.

Lemma dw_bystander q args w : bystander q → dw_run q args w = w.
Proof.
  intros Hq. unfold dw_run. assert (E : hasPrefix "INSERT INTO orders" q = false); [|by rewrite E].
  destruct Hq as [| |values|path text stmt Hf Hin]; [reflexivity..|]. cbn [os_ReadFile demo_drivers] in Hf.
  destruct (bool_decide _); [|done]. injection Hf as <-.
  assert (E : Schema.splitSQL "CREATE TABLE orders (id BIGINT);" = ["CREATE TABLE orders (id BIGINT)"]) by (vm_compute; reflexivity).
  rewrite E in Hin. apply list_elem_of_singleton in Hin as ->. vm_compute. reflexivity.
Qed.

#[export] Instance demo_bystanders : Bystanders.
Proof.
  split; intros; try (apply dw_apart; intros w; by split_and!).
  - apply dw_apart. intros w'. cbn [sql_exec demo_env]. rewrite dw_bystander by done. destruct (dw_sql_up w') eqn:E; by split_and!.
  - intros w. split; [|split].
    + intros k. left. cbn. destruct (dw_inbox w); by apply dw_entry_same.
    + intros k. left. cbn. by destruct (dw_inbox w).
    + intros t Hw. cbn. destruct (dw_inbox w) as [|m l] eqn:E; [exact Hw|]. destruct Hw as [Ht (H1 & H2 & H3 & H4)].
      rewrite E in H4. apply Forall_cons in H4 as [_ H4]. by split.
  - intros w. split; [|split]; cbn.
    + apply (dw_sleep_frame d w).
    + intros k. by left.
    + intros t. by apply dw_keep.
  - destruct H as (_ & _ & _ & H4). cbn in H0. destruct (dw_inbox w) as [|m' l]; [done|].
    injection H0 as <-. by apply Forall_cons in H4 as [? _].
Qed.

End Durable.
