(* ===== verification/Concurrent.v ===== *)
(** * Orders while everything runs at once

    Lookups, creations, consumer handlers with their retries and second
    deletions of any orders, cut at their shared accesses and interleaved
    under any schedule.  Caches and table no longer say the same at every
    moment; what lookups can answer then, and when a written order is found
    for good, is what this file is about. *)

From S2P Require Export Rely Race Durable.

Module Concurrent.
Import Programs Rely OrderSvc Table Store System Mutex Race Durable.

(** ** The retries of the consumer, cut up *)

Section cuts.
Context `{EN : Env} `{CO : Codec}.

Fixpoint pRetry (todo : nat) (first : bool) (backoff : Z) (lastErr : option error) (attempt : prog (option error)) :
    prog (option error) :=
  match todo with
  | O => Done lastErr
  | S todo =>
      let try_ backoff :=
        err <~ attempt;
        match err with
        | None => Done None
        | Some e => pRetry todo false backoff (Some e) attempt
        end in
      if first then try_ backoff
      else
        r <~ act (world (ctx_wait backoff));
        match r with
        | Some e => Done (Some (Sentinel e))
        | None => try_ (wrap64 (backoff * 2))
        end
  end.

Definition pProcess (os : OrderService) (ec : Mq.EventConsumer) (ctx : Mq.context) (key value : string) : prog (option error) :=
  pRetry (Z.to_nat (Mq.ec_maxRetries ec + 1)) true (100 * Millisecond) None (pHandleOrderEvent os ctx key value).

Lemma runs_retry todo first backoff err p m :
  runs p m → runs (pRetry todo first backoff err p) (Mq.retry_loop todo first backoff err m).
Proof.
  intros Hp. revert first backoff err. induction todo as [|todo IH]; intros first backoff err; [apply runs_ret|].
  assert (Htry : ∀ b, runs (err <~ p; match err with None => Done None | Some e => pRetry todo false b (Some e) p end)
    (err ← m; match err with None => mret None | Some e => Mq.retry_loop todo false b (Some e) m end)).
  { intros b. apply runs_bind; [done|]. intros [e|]; [apply IH|apply runs_ret]. }
  cbn [pRetry Mq.retry_loop]. destruct first; [apply Htry|]. apply runs_bind; [apply runs_act|].
  intros [e|]; [apply runs_ret|apply Htry].
Qed.

Lemma runs_Process os ec ctx key value :
  runs (pProcess os ec ctx key value) (Mq.processWithRetry (HandleOrderEvent os) ec ctx key value).
Proof. apply runs_retry, runs_HandleOrderEvent. Qed.

End cuts.

(** ** The versions of an order *)

(** What can be said of a number when the table was [t0] and the orders [offered]
    have been written since: its row, an order as it was handed in, and the
    rows that the upsert makes of them. *)
Inductive version `{OrderTable} (t0 : gmap string Order) (offered : Order → Prop) : string → Order → Prop :=
| version_row no r : t0 !! no = Some r → version t0 offered no r
| version_written o : offered o → version t0 offered (o_OrderNo o) o
| version_inserted id o : offered o → 0 <= id <= 2 ^ 53 → version t0 offered (o_OrderNo o) (upserted id o None)
| version_updated id o old :
    offered o → 0 <= id <= 2 ^ 53 → version t0 offered (o_OrderNo o) old → version t0 offered (o_OrderNo o) (upserted id o (Some old)).

(** An order that can be stored, cached and read back. *)
Definition writable `{OrderTable, Codec} (o : Order) : Prop := storable o ∧ row_ok (o_OrderNo o) o.

Section concurrent.
Context `{EN : Env} `{CO : Codec} `{CL : !CodecLaws} `{VI : !Views} `{RE : !RedisLaws} `{LL : !L1Laws}
  `{CK : !ClockLaws} `{FR : !FrameLaws} `{SF : !ServiceFrames} `{OT : !OrderTable} `{OL : !OrderTableLaws}
  `{DR : !Drivers} `{BY : !Bystanders}.
Context (t0 : gmap string Order) (offered : Order → Prop) (mark : string).
Context (rows0 : rows_ok t0) (offered_ok : ∀ o, offered o → writable o).
#[local] Set Default Proof Using "All".
#[local] Abbreviation version := (version t0 offered).

Lemma version_ok no r : numbered no → version no r → row_ok no r.
Proof.
  intros Hn Hv. induction Hv as [no r Hr|o Ho|id o Ho Hid|id o old Ho Hid _ IH]; [by apply rows0|by apply offered_ok|..].
  - pose proof (upserted_ok ∅ id o (o_OrderNo o) (proj1 (offered_ok o Ho)) eq_refl Hid) as H. rewrite lookup_empty in H. by apply H.
  - pose proof (upserted_ok {[o_OrderNo o := old]} id o (o_OrderNo o) (proj1 (offered_ok o Ho)) eq_refl Hid) as H.
    rewrite lookup_singleton_eq in H. apply H. intros ? [= <-]. by apply IH.
Qed.

(** ** Moments

    The table at a moment, and whether [mark] is settled: then it has a row,
    and no tier can say any more that it has none. *)

Definition moment : Type := gmap string Order * bool.

(** Numbers that lookups may be told do not exist. *)
Definition missing (settled : bool) (no : string) : Prop := t0 !! no = None ∧ (settled = true → no ≠ mark).

Definition Served (k : string) (v : gval) : Prop :=
  ∃ no r, k = order_key no ∧ version no r ∧ (v = VOrder r ∨ v = order_map r).
Definition Gone (settled : bool) (k : string) : Prop := ∃ no, k = order_key no ∧ missing settled no.

Definition cached (x : moment) (s : Sys) : Prop :=
  Cache.cache_ok Served (Gone x.2) order_keys (table_is x.1) pool_up true s.

Definition known (x : moment) : Prop :=
  (∀ no, is_Some (t0 !! no) → is_Some (x.1 !! no)) ∧ (∀ no r, numbered no → x.1 !! no = Some r → version no r) ∧
  (x.2 = true → is_Some (x.1 !! mark)).

Definition live (x : moment) (s : Sys) : Prop := known x ∧ HK.usable (s_hk s) ∧ cached x s.

(** How an access moves on, and how the others may. *)
Definition moves (x y : moment) : Prop := grows x.1 y.1 ∧ y.2 = x.2.
Definition settles (x y : moment) : Prop := grows x.1 y.1 ∧ (x.2 = true → y.2 = true).

#[export] Instance moves_preorder : PreOrder moves.
Proof using Type. split; [by intros [? ?]|]. intros x y z [H1 E1] [H2 E2]. split; [by etrans|congruence]. Qed.
#[export] Instance settles_preorder : PreOrder settles.
Proof using Type. split; [by intros [? ?]|]. intros x y z [H1 E1] [H2 E2]. split; [by etrans|auto]. Qed.

Lemma moves_settles x y : moves x y → settles x y.
Proof using Type. intros [H E]. split; [done|]. by rewrite E. Qed.

Lemma live_table x s : live x s → orders_of (s_w s) = x.1.
Proof. by intros (_ & _ & [_ [E _]] & _). Qed.

Lemma live_start s : coherent t0 s → HK.usable (s_hk s) → live (t0, false) s.
Proof.
  intros [Hr Hs] Hk. split; [split_and!; [done|intros no r _; apply version_row|done]|]. split; [done|].
  eapply Cache.cache_ok_sub; [..|exact Hs]; [|done]. intros k Hk'. split; [done|]. split.
  - intros v (no & r & -> & Hv & Hval). exists no, r. split; [done|]. split; [by apply version_row|done].
  - intros (no & -> & Ha). by exists no.
Qed.

(** ** Accesses *)

(** From every moment the access returns, in the same moment. *)
Definition gives {A : Type} (P : moment → A → Prop) (m : M A) : Prop :=
  ∀ x s, live x s → ∃ a s', m s = (Val a, s') ∧ P x a ∧ live x s'.
Abbreviation does := (gives (λ _ _, True)).

Lemma answers_gives (stuck : Prop) r {A : Type} P (m : M A) Q x :
  gives P m → (∀ y a, r x y → P y a → Q y a) → answers live moves r stuck m Q x.
Proof.
  intros Hm HQ y s Hr Hs. destruct (Hm y s Hs) as (a & s' & -> & Ha & Hs'). exists y. split; [done|].
  split; [done|]. by apply HQ.
Qed.

Lemma gives_bind {A B : Type} P (Q : moment → B → Prop) (m : M A) (f : A → M B) :
  gives P m → (∀ a, gives (λ x b, P x a → Q x b) (f a)) → gives Q (m ≫= f).
Proof.
  intros Hm Hf x s Hs. destruct (Hm x s Hs) as (a & s1 & E & Ha & H1). destruct (Hf a x s1 H1) as (b & s2 & E2 & Hb & H2).
  exists b, s2. rewrite bind_run, E. auto.
Qed.
Lemma does_bind {A B : Type} (m : M A) (f : A → M B) : does m → (∀ a, does (f a)) → does (m ≫= f).
Proof. intros Hm Hf. eapply gives_bind; [exact Hm|]. intros a x s Hs. destruct (Hf a x s Hs) as (b & s' & ? & _ & ?). by exists b, s'. Qed.
Lemma does_ret {A : Type} (a : A) : does (mret a).
Proof. intros x s Hs. by exists a, s. Qed.
Lemma does_when b m : does m → does (when b m).
Proof. destruct b; [done|]. intros _. apply does_ret. Qed.
Lemma does_gets {A : Type} (f : Sys → A) : does (gets f).
Proof. intros x s Hs. by exists (f s), s. Qed.

(** What always returns and leaves the hot-key detector alone. *)
Definition plain {A : Type} (m : M A) : Prop := ∀ s, ∃ a s', m s = (Val a, s') ∧ s_hk s' = s_hk s.

Lemma gives_plain {A : Type} P (m : M A) : plain m → (∀ x, State.triple (cached x) (P x) m) → gives P m.
Proof.
  intros Hp Hm x s (Hk & Hu & Hs). destruct (Hp s) as (a & s' & E & Eh). destruct (Hm x s Hs) as [H1 H2].
  rewrite E in H1, H2. exists a, s'. split; [done|]. split; [done|]. split; [done|]. by rewrite Eh.
Qed.

Lemma plain_bind {A B : Type} (m : M A) (f : A → M B) : plain m → (∀ a, plain (f a)) → plain (m ≫= f).
Proof.
  intros Hm Hf s. destruct (Hm s) as (a & s1 & E & E1). destruct (Hf a s1) as (b & s2 & E' & E2).
  exists b, s2. rewrite bind_run, E. split; [done|congruence].
Qed.
Lemma plain_ret {A : Type} (a : A) : plain (mret a).
Proof. intros s. by exists a, s. Qed.
Lemma plain_gets {A : Type} (f : Sys → A) : plain (gets f).
Proof. intros s. by exists (f s), s. Qed.

Lemma plain_world {A : Type} (op : W → A * W) : plain (world op).
Proof. intros s. rewrite world_run. by eexists _, _. Qed.
Lemma plain_world_ (op : W → W) : plain (world_ op).
Proof. intros s. by eexists _, _. Qed.
Lemma plain_modify f : (∀ s, s_hk (f s) = s_hk s) → plain (modify f).
Proof. intros Hf s. by eexists _, _. Qed.
Lemma plain_when b m : plain m → plain (when b m).
Proof. destruct b; [done|]. intros _. apply plain_ret. Qed.

Create HintDb plain.
Hint Resolve plain_ret plain_gets plain_world plain_world_ plain_when : plain.
Hint Extern 1 (plain (modify _)) => apply plain_modify; intros; reflexivity : plain.
Ltac plain := intros;
  lazymatch goal with
  | |- plain (_ ≫= _) => apply plain_bind; [plain|intros ?; plain]
  | |- plain (when _ _) => apply plain_when; plain
  | |- _ => first [solve [eauto 3 with plain] | case_match; plain | idtac]
  end.

Lemma plain_ttl : plain Cache.l1TTL ∧ plain Cache.l2TTL.
Proof. unfold Cache.l1TTL, Cache.l2TTL, Cache.mc, Config.JitterDuration. split; plain. Qed.

(** Calls of the cache, by the triples of [Cache.v]. *)
Lemma does_l1TTL : does Cache.l1TTL.
Proof. apply gives_plain; [apply plain_ttl|]. intros x. by by_class Cache.t_l1TTL. Qed.
Lemma does_l2TTL : does Cache.l2TTL.
Proof. apply gives_plain; [apply plain_ttl|]. intros x. by by_class Cache.t_l2TTL. Qed.
Lemma does_l1Wait : does Cache.l1Wait.
Proof. apply gives_plain; [apply plain_world_|]. intros x. by by_class Cache.t_l1Wait. Qed.
Lemma does_l1Del k : does (Cache.l1Del k).
Proof. apply gives_plain; [apply plain_world_|]. intros x. by by_class Cache.t_l1Del. Qed.
Lemma does_l2Del k : does (Cache.l2Del k).
Proof. apply gives_plain; [unfold Cache.l2Del; plain|]. intros x. by by_class Cache.t_l2Del. Qed.
Lemma does_Sleep d : does (Sleep d).
Proof. apply gives_plain; [apply plain_world_|]. intros x. by by_class Cache.t_Sleep. Qed.
Lemma does_update f :
  (∀ c, lockKeyPrefix (f c) = lockKeyPrefix c ∧ mc_l2 (f c) = mc_l2 c) → does (Cache.update f).
Proof. intros Hf. apply gives_plain; [unfold Cache.update; plain|]. intros x. by by_class Cache.t_update. Qed.
Lemma does_modify f :
  (∀ s, s_w (f s) = s_w s ∧ s_mysql (f s) = s_mysql s ∧ s_mc (f s) = s_mc s ∧ s_hk (f s) = s_hk s) → does (modify f).
Proof.
  intros Hf. apply gives_plain; [apply plain_modify; apply Hf|]. intros x. by_class Cache.t_modify; [|done].
  intros s. by destruct (Hf s) as (? & ? & ? & _).
Qed.
Lemma gives_mc : gives (λ _ c, lockKeyPrefix c = "cache:lock:") Cache.mc.
Proof. apply gives_plain; [apply plain_gets|]. intros x. by by_class Cache.t_mc. Qed.

(** A call that leaves tiers and table alone. *)
Lemma does_world {A : Type} (op : W → A * W) :
  (∀ w, redis_frame w (op w).2 ∧ l1_frame w (op w).2) → (∀ t w, table_is t w → table_is t (op w).2) → does (world op).
Proof.
  intros Hf Ht. apply gives_plain; [apply plain_world|]. intros x. by_class Cache.t_world. intros w Hw. split; [|done].
  destruct (Hf w). eapply (Cache.world_ok_frames _ _ _ (table_is x.1)); [exact Hw|done|done|apply Ht].
Qed.
Lemma does_apart {A : Type} (op : W → A * W) : apart op → does (world op).
Proof. intros Ho. apply does_world; [intros w; by destruct (Ho w) as (? & ? & _)|intros t w; apply Ho]. Qed.
Lemma does_Now : does Now.
Proof. apply does_world; [apply clk_now_frames|intros; by apply kept_now]. Qed.
Lemma does_rand n : does (world (rand_read n)).
Proof. apply does_world; [apply rand_frames|intros; by apply kept_rand]. Qed.
Lemma does_kafka topic m : does (world (kafka_write topic m)).
Proof. apply does_world; [apply kafka_write_frames|intros; by apply table_kafka]. Qed.

Lemma does_recordAccess k : does (Cache.recordAccess k).
Proof.
  intros x s (Hk & Hu & Hs). destruct (safe_access k s) as (b & s' & E & _ & Hu'); [split; [apply Hs|done]|].
  destruct (Cache.t_recordAccess Served (Gone x.2) order_keys (table_is x.1) pool_up true k s Hs) as [H1 _].
  rewrite E in H1. by exists b, s'.
Qed.

(** Under the key of an order. *)
Lemma cached_version no r :
  numbered no → version no r →
  Cache.good Served (order_key no) (VOrder r) ∧ ∀ b, Cache.ok_l2 Served (Gone b) (order_key no) (Cache.jsonText (VOrder r)).
Proof.
  intros Hn Hv. destruct (row_text no r (version_ok no r Hn Hv)) as [H1 H2].
  assert (Hg : ∀ v, v = VOrder r ∨ v = order_map r → Cache.good Served (order_key no) v).
  { intros v Hval. split; [by destruct Hval as [-> | ->]|]. split; [by destruct Hval as [-> | ->]|]. by exists no, r. }
  split; [by apply Hg; left|]. intros b. right. split; [done|]. rewrite H2. apply Hg. by right.
Qed.

Lemma served_version no v : Served (order_key no) v → ∃ r, version no r ∧ (v = VOrder r ∨ v = order_map r).
Proof. intros (no' & r & <-%order_key_inj & H). by exists r. Qed.
Lemma gone_missing b no : Gone b (order_key no) ↔ missing b no.
Proof. split; [by intros (no' & <-%order_key_inj & H)|by exists no]. Qed.

Lemma does_l1Set k v ttl : (∀ b, Cache.ok_l1 Served (Gone b) k v) → does (Cache.l1SetWithTTL k v ttl).
Proof. intros Hv. apply gives_plain; [apply plain_world_|]. intros x. by_class Cache.t_l1Set; [|done]. intros _. apply Hv. Qed.
Lemma does_l2Set k v ttl : (∀ b, Cache.ok_l2 Served (Gone b) k v) → does (Cache.l2Set k v ttl).
Proof.
  intros Hv. apply gives_plain; [unfold Cache.l2Set; plain|]. intros x. by_class Cache.t_l2Set; [|done]. intros _. apply Hv.
Qed.

(** A null marker, at a moment at which the number may be missing. *)
Lemma null_l1 r no ttl stuck x :
  (∀ y, r x y → missing y.2 no) →
  answers live moves r stuck (Cache.l1SetWithTTL (order_key no) (VStr Cache.NullMarker) ttl) (λ _ _, True) x.
Proof.
  intros Hm y s Hr (Hk & Hu & Hs). exists y. split; [done|].
  assert (Ht : State.triple (cached y) (λ _, True) (Cache.l1SetWithTTL (order_key no) (VStr Cache.NullMarker) ttl)).
  { by_class Cache.t_l1Set; [|done]. intros _. left. split; [done|]. by apply gone_missing, Hm. }
  destruct (Ht s Hs) as [H1 _]. by split.
Qed.
Lemma null_l2 r no ttl stuck x :
  (∀ y, r x y → missing y.2 no) →
  answers live moves r stuck (Cache.l2Set (order_key no) Cache.NullMarker ttl) (λ _ _, True) x.
Proof.
  intros Hm y s Hr (Hk & Hu & Hs). exists y. split; [done|].
  assert (Ht : State.triple (cached y) (λ _, True) (Cache.l2Set (order_key no) Cache.NullMarker ttl)).
  { by_class Cache.t_l2Set; [|done]. intros _. left. split; [done|]. by apply gone_missing, Hm. }
  destruct (Ht s Hs) as [H1 _]. unfold Cache.l2Set in *. rewrite bind_run, world_run in *. by split.
Qed.

Lemma gives_l1_get no :
  numbered no →
  gives (λ x r, match r with Some v => Cache.ok_l1 Served (Gone x.2) (order_key no) v | None => True end)
    (world (l1_get (order_key no))).
Proof.
  intros Hn. apply gives_plain; [apply plain_world|]. intros x. by_class Cache.t_world. intros w Hw. split.
  - eapply (Cache.world_ok_frames _ _ _ (table_is x.1)); [exact Hw|apply l1_get_redis|apply l1_get_frame|apply kept_l1_get].
  - pose proof (l1_get_val (order_key no) w) as Hv. destruct (l1_get (order_key no) w).1; [|done].
    destruct (proj1 Hw (order_key no)) as [Hl _]; [by apply order_keys_key|]. apply Hl, Hv. done.
Qed.
Lemma gives_redis_get no :
  numbered no →
  gives (λ x r, match r with ROk v => Cache.ok_l2 Served (Gone x.2) (order_key no) v | _ => True end)
    (world (redis_get (order_key no))).
Proof.
  intros Hn. apply gives_plain; [apply plain_world|]. intros x. by_class Cache.t_redis_get; [by apply order_keys_key|done..].
Qed.

(** The lock of the cache and the one of a creation are no keys of orders. *)
Lemma gives_setnx k v ttl :
  ¬ order_keys k → gives (λ _ r, match r with ROk _ => True | _ => False end) (world (redis_setnx k v ttl)).
Proof.
  intros Hk. apply gives_plain; [apply plain_world|]. intros x. by_class Cache.t_world. intros w Hw. split.
  - by by_class Cache.setnx_ok.
  - pose proof (lock_answers x.1 k v ttl w (proj2 Hw)). by destruct (redis_setnx k v ttl w).1.
Qed.
Lemma does_eval k v : does (world (redis_eval unlockScript k v)).
Proof.
  apply gives_plain; [apply plain_world|]. intros x. by_class Cache.t_world. intros w Hw. split; [|done].
  by by_class Cache.eval_ok.
Qed.

(** ** The database *)

Lemma gives_available : gives (λ _ down, down = false) (Rwdb.unavailable Rwdb.MySQL).
Proof.
  intros x s Hs. pose proof Hs as (_ & _ & (_ & (rw & c & E & Em) & _)). exists false, s. rewrite Rwdb.unavailable_run.
  cbn [Rwdb.get_db]. rewrite E. unfold Rwdb.IsNil. by rewrite Em.
Qed.

Lemma known_missing x no : known x → x.1 !! no = None → missing x.2 no.
Proof.
  intros (H1 & _ & H3) E. split.
  - destruct (t0 !! no) eqn:E0; [|done]. destruct (H1 no) as [r Hr]; [by eexists|]. congruence.
  - intros Hb ->. destruct (H3 Hb) as [r Hr]. congruence.
Qed.

(** What a select by number answers. *)
Definition row_seen (x : moment) (no : string) (r : option row_res) : Prop :=
  match r with
  | Some (RowOk l) => ∃ o, version no o ∧ Rwdb.scan_order l = inr o
  | Some RowNone => missing x.2 no
  | _ => False
  end.

Lemma gives_select q no :
  numbered no → q = Loader.select_order ∨ q = select_order →
  gives (λ x r, row_seen x no r) (Rwdb.QueryRowContext Rwdb.MySQL q [SStr no]).
Proof.
  intros Hn Hq x s (Hk & Hu & Hs). pose proof Hs as (Hw & (rw & c & E & Em) & Hc).
  destruct (pool_replica rw c Em) as (c' & rw' & Er & Em'). rewrite (Rwdb.query_row_run Rwdb.MySQL q _ s rw c' rw' E Er).
  eexists _, _. split; [reflexivity|]. split.
  - pose proof (table_select c' q no (s_w s) (proj2 (proj2 Hw)) Hn Hq) as Hsel. rewrite (proj1 (proj2 Hw)) in Hsel.
    unfold row_seen. destruct (sql_query_row _ _ _ _).1 as [l| |e]; [|by apply known_missing|done].
    destruct Hsel as (o & Ho & El). exists o. split; [|done]. by apply Hk.
  - split; [done|]. split; [done|]. split; [|split; [by exists rw', c|exact Hc]]. cbn [s_w set_field].
    destruct (sql_row_frames c' q [SStr no] (s_w s)).
    eapply (Cache.world_ok_frames _ _ _ (table_is x.1)); [exact Hw|done|done|apply table_query].
Qed.

(** The loader asks once. *)
Definition loaded (x : moment) (no : string) (r : gval * option error) : Prop :=
  r.2 = None ∧ ((r.1 = VNil ∧ missing x.2 no) ∨ ∃ o, r.1 = VOrder o ∧ version no o).

Lemma gives_loader mongoDB repo no :
  numbered no → gives (λ x r, loaded x no r) (Loader.newDataLoader mongoDB repo (order_key no)).
Proof.
  intros Hn x s Hs. rewrite loader_order by done. revert x s Hs. eapply gives_bind; [apply gives_available|].
  intros down x s Hs. destruct down.
  { exists (VNil, None), s. by split. }
  destruct (gives_select Loader.select_order no Hn (or_introl eq_refl) x s Hs) as (r & s1 & E & Hr & H1).
  rewrite bind_run, E. destruct r as [[l| |e]|]; cbn [row_seen] in Hr; [|eexists _, s1; by (split; [reflexivity|split; [intros _; split; [done|by left]|]])|done..].
  destruct Hr as (o & Hv & ->). eexists _, s1. split; [reflexivity|]. split; [|done]. intros _. split; [done|]. right. by exists o.
Qed.

(** [o] has a row. *)
Definition stored (no : string) (x : moment) : Prop := is_Some (x.1 !! no).

Lemma stored_mono no x y : grows x.1 y.1 → stored no x → stored no y.
Proof. intros Hg [r Hr]. destruct (Hg _ _ Hr) as (r' & Hr' & _). by exists r'. Qed.

Lemma known_upsert x id o :
  known x → offered o → 0 <= id <= 2 ^ 53 → known (upsert id o x.1, x.2) ∧ moves x (upsert id o x.1, x.2).
Proof.
  intros (H1 & H2 & H3) Ho Hid. pose proof (grows_upsert id o x.1) as Hg.
  assert (Hs : ∀ no, is_Some (x.1 !! no) → is_Some (upsert id o x.1 !! no)).
  { intros no [r Hr]. destruct (Hg _ _ Hr) as (r' & Hr' & _). by exists r'. }
  split; [|by split]. split; [auto|]. split; [|cbn; auto]. intros no r Hn. cbn. unfold upsert.
  destruct (decide (no = o_OrderNo o)) as [->|Hne]; [|rewrite lookup_insert_ne by done; by apply H2].
  rewrite lookup_insert_eq. intros [= <-]. destruct (x.1 !! o_OrderNo o) as [old|] eqn:E.
  - apply version_updated; [done|done|]. by apply H2.
  - by apply version_inserted.
Qed.

Lemma insert_stores stuck r o x :
  offered o →
  answers live moves r stuck (Rwdb.ExecContext Rwdb.MySQL insert_order (insert_args o))
    (λ y a, match a with inr _ => stored (o_OrderNo o) y | inl _ => True end) x.
Proof.
  intros Ho y s _ (Hk & Hu & Hs). pose proof Hs as (Hw & (rw & c & E & Em) & Hc). destruct (offered_ok o Ho) as [Hst _].
  rewrite (Rwdb.exec_run Rwdb.MySQL _ _ s rw c E Em). destruct Hw as [Ht [Eo Hh]].
  pose proof (table_insert c o (s_w s) Hh Hst) as Hi. destruct (sql_exec_frames c insert_order (insert_args o) (s_w s)) as [Hrf Hlf].
  destruct (sql_exec c insert_order (insert_args o) (s_w s)) as [a w']. cbn [fst snd] in *. destruct Hi as [Hh' Hi].
  assert (Hx : ∀ t, orders_of w' = t → cached (t, y.2) (s <| s_w := w' |>)).
  { intros t Et. split; [|split; [by exists rw, c|exact Hc]]. split; [|by split].
    eapply (Cache.tiers_shrink _ _ _ (λ _, True)); [exact Ht|]. intros k _. split; [apply Hlf|apply only_expiry_shrinks, Hrf]. }
  destruct a as [e|a].
  - exists y. split; [done|]. split; [|done]. split; [done|]. split; [done|]. destruct y as [t b]. apply Hx. cbn in Eo. by rewrite Hi.
  - destruct Hi as (id & Hid & Hi). destruct (known_upsert y id o Hk Ho Hid) as [Hk' Hg].
    exists (upsert id o y.1, y.2). split; [done|]. split; [split; [done|split; [done|apply Hx; by rewrite Hi, Eo]]|].
    unfold stored, upsert. cbn. rewrite lookup_insert_eq. by eexists.
Qed.

(** ** Programs

    [r]: what a program relies on of the others; at most that they settle
    [mark]. *)

Section programs.
Context (r : relation moment) `{RP : !PreOrder r} (stuck : Prop).
Context (r_settles : ∀ x y, r x y → settles x y) (moves_r : ∀ x y, moves x y → r x y).
#[local] Abbreviation ens := (ensures live moves r stuck).

Lemma ens_gives {A : Set} P (op : M A) Q x : gives P op → (∀ y a, r x y → P y a → Q y a) → ens (act op) Q x.
Proof. apply answers_gives. Qed.
Lemma ens_does {A : Set} (op : M A) x : does op → ens (act op) (λ _ _, True) x.
Proof. intros Ho. by eapply ens_gives; [exact Ho|]. Qed.
Lemma ens_seq {A B : Set} (p : prog A) (f : A → prog B) P Q x :
  ens p P x → (∀ y a, r x y → P y a → ens (f a) Q y) → ens (pbind p f) Q x.
Proof. by apply ensures_seq. Qed.
Lemma ens_then {A B : Set} (p : prog A) (f : A → prog B) Q x :
  ens p (λ _ _, True) x → (∀ y a, r x y → ens (f a) Q y) → ens (pbind p f) Q x.
Proof. intros Hp Hf. eapply ens_seq; [exact Hp|]. auto. Qed.

Create HintDb does.
Hint Resolve does_ret does_gets does_when does_l1TTL does_l2TTL does_l1Wait does_l1Del does_l2Del does_Sleep does_Now
  does_rand does_kafka does_recordAccess does_eval : does.
Hint Extern 1 (gives _ (modify _)) => apply does_modify; intros; by split_and? : does.
Hint Extern 1 (gives _ (Cache.update _)) => apply does_update; by intros : does.
Hint Extern 1 (gives _ Cache.mc) => apply does_gets : does.
Ltac does := intros;
  lazymatch goal with
  | |- gives _ (_ ≫= _) => apply does_bind; [does|intros ?; does]
  | |- gives _ (when _ _) => apply does_when; does
  | |- _ => first [solve [eauto 3 with does] | case_match; does | idtac]
  end.
(** Programs that promise nothing of their answer. *)
Create HintDb ens.
Ltac ens := intros;
  lazymatch goal with
  | |- ensures _ _ _ _ (pbind _ _) _ _ => apply ens_then; [ens|intros ? ? ?; ens]
  | |- ensures _ _ _ _ (act _) _ _ => apply ens_does; does
  | |- ensures _ _ _ _ (pwhen _ _) _ _ => apply ensures_when; ens
  | |- ensures _ _ _ _ (Done _) _ _ => exact I
  | |- _ => first [solve [eauto 3 with ens] | case_match; ens | idtac]
  end.

Lemma ens_Set no o x : numbered no → version no o → ens (pSet (order_key no) (VOrder o)) (λ _ _, True) x.
Proof.
  intros Hn Hv. destruct (cached_version no o Hn Hv) as [Hg H2].
  pose proof (λ ttl, does_l1Set (order_key no) (VOrder o) ttl (λ b, or_intror Hg)).
  pose proof (λ ttl, does_l2Set (order_key no) _ ttl H2). unfold pSet. ens.
Qed.

Lemma ens_SetNull no x : (∀ y, r x y → missing y.2 no) → ens (pSetNull (order_key no)) (λ _ _, True) x.
Proof.
  intros Hm. unfold pSetNull. apply ens_then; [ens|]. intros x1 c R1.
  apply ens_then; [apply null_l1; intros y R; apply Hm; by etrans|]. intros x2 u R2. apply ens_then; [ens|].
  intros x3 u' R3. apply ensures_when. apply null_l2. intros y R. apply Hm. do 3 (etrans; [eassumption|]). done.
Qed.

Lemma ens_Invalidate k x : ens (pInvalidate k) (λ _ _, True) x.
Proof. unfold pInvalidate. ens. Qed.
Lemma ens_InvalidateWithDelay k d x : ens (pInvalidateWithDelay k d) (λ _ _, True) x.
Proof. unfold pInvalidateWithDelay, go. ens. Qed.
Lemma ens_secondDelete d k x : ens (pSecondDelete d k) (λ _ _, True) x.
Proof. unfold pSecondDelete. ens. Qed.

Lemma stored_r no x y : r x y → stored no x → stored no y.
Proof. intros Hr. apply stored_mono. by destruct (r_settles x y Hr). Qed.

(** A program that cannot undo what is stored. *)
Lemma ens_keep {A : Set} (p : prog A) no x : stored no x → ens p (λ _ _, True) x → ens p (λ y _, stored no y) x.
Proof.
  intros Hs Hp. eapply ensures_wand; [|eapply ensures_reach; [apply _|exact moves_r|exact Hp]]. intros y a [Hr _].
  by eapply stored_r.
Qed.

Lemma does_index o : does (indexOrderToES o).
Proof. unfold indexOrderToES, go. does. Qed.

Lemma ens_dbWrite os o x :
  offered o → ens (pDbWrite os o) (λ y err, err = None → stored (o_OrderNo o) y) x.
Proof.
  intros Ho. pose proof (offered_ok o Ho) as [[Hn _] _]. unfold pDbWrite.
  eapply ens_seq; [by eapply ens_gives; [apply gives_available|auto]|]. intros x1 down _ ->. 
  eapply ens_seq; [by apply insert_stores|]. intros x2 [e|res] _ Hst; [by intros ?|].
  eapply ensures_wand; [|apply ens_keep; [exact Hst|]]; [auto|].
  apply ens_then; [apply ens_Set; [done|by apply version_written]|]. intros x3 u _.
  pose proof does_index. ens.
Qed.

Lemma does_breaker : (∀ d, does (cbRecordSuccess d)) ∧ does cbRecordFailure.
Proof. unfold cbRecordSuccess, cbRecordFailure, cb_update. split; does. Qed.
Lemma does_publish os ctx o : does (publishOrderEvent os ctx o).
Proof. unfold publishOrderEvent, order_event, Mq.SendAsync, go. does. Qed.

(** A creation's answer: under the number of [o], and written if it says so. *)
Definition created_stored (o : Order) (y : moment) (a : created) : Prop :=
  let '(l, n, err) := a in n = o_OrderNo o ∧ (l = "sync" → err = None → stored n y).

Lemma created_stored_mono o y z a : created_stored o y a → r y z → created_stored o z a.
Proof. destruct a as [[l n] err]. intros [H1 H2] Hr. split; [done|]. intros El Ee. eapply stored_r; [exact Hr|auto]. Qed.

Lemma ens_write os label start ctx o x :
  offered o → ens (pWriteAndPublish os label start ctx o) (created_stored o) x.
Proof.
  intros Ho. destruct does_breaker as [B1 B2]. pose proof (does_publish os ctx o) as Hp. unfold pWriteAndPublish.
  eapply ens_seq; [by apply ens_dbWrite|]. intros x1 we R1 Hst. apply ens_then; [ens|]. intros x2 now R2. destruct we as [e|].
  - apply ens_then; [by apply ens_does|]. intros x3 u R3. by split.
  - apply ens_then; [by apply ens_does|]. intros x3 u R3. apply ens_then; [apply ens_InvalidateWithDelay|]. intros x4 u' R4.
    apply ens_then; [by apply ens_does|]. intros x5 u'' R5. split; [done|]. intros _ _.
    eapply stored_r; [|by apply Hst]. do 3 (etrans; [eassumption|]). done.
Qed.

Lemma does_Send ep ctx key v : does (Mq.Send ep ctx key v).
Proof. unfold Mq.Send, Mq.compensationLog. does. Qed.

Lemma gives_async os ctx o : gives (λ y a, created_stored o y a) (createAsync os ctx o).
Proof.
  pose proof does_Send as Hs. assert (Hd : does (createAsync os ctx o)) by (unfold createAsync, order_event; does).
  intros x s H. destruct (Hd x s H) as ([[l n] err] & s' & E & _ & H'). exists (l, n, err), s'. split; [done|]. split; [|done].
  unfold createAsync in E. apply bind_inv in E as (ev & s1 & _ & E).
  destruct (os_producer os); [apply bind_inv in E as ([err1|] & s2 & _ & E)|]; injection E as <- <- <- _; by split.
Qed.

Lemma ens_lock no ttl wait x : stuck → ens (pLock (lock_key no) ttl wait) (λ _ _, True) x.
Proof.
  intros Hst. assert (Hl : ∀ fuel token deadline y, ens (pLockLoop fuel (lock_key no) token ttl wait deadline) (λ _ _, True) y).
  { intros fuel token deadline. induction fuel as [|fuel IH]; intros y; [intros z s _ H; by exists z|]. cbn [pLockLoop].
    eapply ens_seq; [eapply ens_gives; [apply gives_setnx, lock_key_no_order|]; intros z a _ Ha; exact Ha|].
    intros y1 [[]| |e] _ Ha; [done| |done..].
    apply ens_then; [unfold pOutOfTime; ens|]. intros y2 [] _; [done|]. apply ens_then; [ens|]. intros y3 u _. apply IH. }
  unfold pLock, Lock.randomHex. ens.
Qed.

Lemma ens_createSync os ctx o x : stuck → offered o → ens (pCreateSync os ctx o) (created_stored o) x.
Proof.
  intros Hst Ho. unfold pCreateSync. apply ens_then; [ens|]. intros x1 start R1.
  destruct (os_lock os); [|by apply ens_write]. eapply ens_seq; [by apply ens_lock|].
  intros x2 [token [e|]] R2 _; cbn [bracket fst snd].
  - eapply ens_gives; [apply gives_async|auto].
  - apply ensures_deferred; [apply _|intros t t' a H1 H2; by eapply created_stored_mono|exact moves_r| |by apply ens_write].
    intros y. apply (ens_does (_ ← Lock.Unlock (lock_key (o_OrderNo o)) token; mret tt)). unfold Lock.Unlock. does.
Qed.

(** The order in a message, when there is one, may be written. *)
Definition may_write (value : string) : Prop := ∀ o, event_order value = inr o → offered o.

Definition handled (value : string) (y : moment) (err : option error) : Prop :=
  err = None → ∃ o, event_order value = inr o ∧ stored (o_OrderNo o) y.

Lemma handled_mono value y z err : handled value y err → r y z → handled value z err.
Proof. intros H R He. destruct (H He) as (o & Eo & Hs). exists o. split; [done|]. by eapply stored_r. Qed.

Lemma ens_handle os ctx k value x : may_write value → ens (pHandleOrderEvent os ctx k value) (handled value) x.
Proof.
  unfold may_write, handled, event_order, pHandleOrderEvent. intros Hv. destruct (Unmarshal _ _ value) as [event [e|]]; [by intros ?|].
  destruct (remarshalTo (e_Payload event)) as [o [e|]]; [by intros ?|].
  eapply ens_seq; [by apply ens_dbWrite, Hv|]. intros x1 [e|] R1 Hst; [by intros ?|].
  apply ens_then; [apply ens_Invalidate|]. intros x2 u R2 _. exists o. split; [done|]. eapply stored_r; [exact R2|auto].
Qed.

Lemma ens_retry value p todo first backoff err x :
  (todo = 0%nat → err ≠ None) → (∀ y, ens p (handled value) y) → ens (pRetry todo first backoff err p) (handled value) x.
Proof.
  intros Ht Hp. revert first backoff err x Ht. induction todo as [|todo IH]; intros first backoff err x Ht.
  { unfold handled. apply ensures_ret. intros ->. by destruct (Ht eq_refl). }
  assert (Htry : ∀ b y, ens (err <~ p; match err with None => Done None | Some e => pRetry todo false b (Some e) p end)
    (handled value) y).
  { intros b y. eapply ens_seq; [apply Hp|]. intros y1 [e|] R1 H1; [by apply IH|exact H1]. }
  cbn [pRetry]. destruct first; [apply Htry|]. apply ens_then; [apply ens_does, does_apart, ctx_wait_apart|].
  intros x1 [e|] R1; [by intros ?|apply Htry].
Qed.

Lemma ens_Process os ec ctx k value x :
  0 <= Mq.ec_maxRetries ec → may_write value → ens (pProcess os ec ctx k value) (handled value) x.
Proof. intros Hm Hv. apply ens_retry; [lia|]. intros y. by apply ens_handle. Qed.

(** ** Lookups *)

Section lookup.
Context (os : OrderService) (Hl : loads os) (no : string) (Hno : numbered no).
Context (missing_r : ∀ y z, r y z → missing y.2 no → missing z.2 no).
#[local] Abbreviation key := (order_key no).

(** What the cache may answer, and what a lookup may. *)
Definition got (y : moment) (a : Cache.result) : Prop :=
  let '(v, found, err) := a in
  err = None ∧ (found = true → (v = VNil ∧ missing y.2 no) ∨ ∃ o, version no o ∧ (v = VOrder o ∨ v = order_map o)).

Definition genuine (y : moment) (a : option Order * option error) : Prop :=
  match a with
  | (Some o, None) => version no o
  | (None, Some e) => e = Errorf ("order not found: " +:+ no) ∧ missing y.2 no
  | _ => False
  end.

Lemma genuine_mono y z a : genuine y a → r y z → genuine z a.
Proof.
  intros Ha R. destruct a as [[o|] [e|]]; cbn in *; try done. destruct Ha as [-> H]. split; [done|].
  by apply (missing_r y).
Qed.

Lemma got_mono y z a : got y a → r y z → got z a.
Proof.
  destruct a as [[v found] err]. intros [-> Ha] R. split; [done|]. intros Hf.
  destruct (Ha Hf) as [[-> Hm]|Hv]; [left|by right]. split; [done|]. by apply (missing_r y).
Qed.

(** A null marker for a number that is missing now. *)
Lemma ens_null1 ttl x : missing x.2 no → ens (act (Cache.l1SetWithTTL key (VStr Cache.NullMarker) ttl)) (λ _ _, True) x.
Proof. intros Hm. apply null_l1. intros y R. by apply (missing_r x). Qed.
Lemma ens_null2 ttl x : missing x.2 no → ens (act (Cache.l2Set key Cache.NullMarker ttl)) (λ _ _, True) x.
Proof. intros Hm. apply null_l2. intros y R. by apply (missing_r x). Qed.

Lemma ens_cache1 v ttl x :
  (∃ o, version no o ∧ (v = VOrder o ∨ v = order_map o)) → ens (act (Cache.l1SetWithTTL key v ttl)) (λ _ _, True) x.
Proof.
  intros (o & Hv & Hval). apply ens_does, does_l1Set. intros b. right.
  split; [by destruct Hval as [-> | ->]|]. split; [by destruct Hval as [-> | ->]|]. by exists no, o.
Qed.

Lemma ens_loadFromDB x : ens (pLoadFromDB (os_loader os) key) got x.
Proof.
  destruct Hl as (m & rp & ->). unfold pLoadFromDB.
  eapply ens_seq; [eapply ens_gives; [by apply gives_loader|]; intros y a _ Ha; exact Ha|].
  intros x1 [data err] R1 [E Hd]. cbn in E, Hd. subst err. apply ens_then; [ens|]. intros x2 c R2.
  destruct Hd as [[-> Hm]|(o & -> & Hv)]; cbn [Cache.is_nil].
  - pose proof (missing_r _ _ R2 Hm) as H2.
    apply ens_then; [apply ensures_when; by apply ens_null2|]. intros x3 u R3.
    pose proof (missing_r _ _ R3 H2) as H3. apply ens_then; [by apply ens_null1|]. intros x4 u' R4.
    split; [done|]. intros _. left. split; [done|]. by apply (missing_r x3).
  - destruct (cached_version no o Hno Hv) as [_ H2]. pose proof (λ ttl, does_l2Set key _ ttl H2).
    apply ens_then; [ens|]. intros x3 u R3. apply ens_then; [ens|]. intros x4 ttl R4.
    apply ens_then; [apply ens_cache1; exists o; by split; [|left]|]. intros x5 u' R5. apply ens_then; [ens|]. intros x6 u'' R6.
    split; [done|]. intros _. right. exists o. by split; [|left].
Qed.

(** A text of L2 is the null marker, or a version. *)
Lemma l2_text b v :
  Cache.ok_l2 Served (Gone b) key v →
  (v = Cache.NullMarker ∧ missing b no) ∨
  (v ≠ Cache.NullMarker ∧ ∃ o, version no o ∧ (Cache.parseValue v = VOrder o ∨ Cache.parseValue v = order_map o)).
Proof.
  intros [[-> Hg]|[Hne (_ & _ & Hs)]]; [left|right]; (split; [done|]); [by apply gone_missing|by apply served_version].
Qed.

Lemma ens_loadWithLock x : ens (pLoadWithLock (os_loader os) key) got x.
Proof.
  unfold pLoadWithLock. eapply ens_seq; [eapply ens_gives; [apply gives_mc|]; intros y c _ Hc; exact Hc|].
  intros x1 c R1 Hc. destruct (negb (mc_l2 c)); [apply ens_loadFromDB|]. cbv zeta. rewrite Hc.
  eapply ens_seq; [eapply ens_gives; [apply gives_setnx|]; [|intros y a _ Ha; exact Ha]|].
  { intros Hk%order_keys_no_lock. by rewrite hasPrefix_append in Hk. }
  intros x2 [[]| |e] R2 Ha; [..|done|done].
  - apply ensures_deferred; [apply _|intros t t' a H1 H2; by eapply got_mono|exact moves_r| |apply ens_loadFromDB].
    intros y. apply (ens_does (Cache.l2Del _)), does_l2Del.
  - apply ens_then; [ens|]. intros x3 u R3.
    eapply ens_seq; [eapply ens_gives; [by apply gives_redis_get|]; intros y a R Ha'; exact (conj R Ha')|].
    intros x4 [v| |e] R4 [_ Hv]; [|by split..]. destruct (l2_text _ _ Hv) as [[-> Hm]|[Hne Hx]].
    + rewrite bool_decide_eq_true_2 by done. split; [done|]. intros _. by left.
    + rewrite bool_decide_eq_false_2 by done. split; [done|]. intros _. by right.
Qed.

Lemma ens_Get x : ens (pGet (os_loader os) key) got x.
Proof.
  unfold pGet. apply ens_then; [ens|]. intros x1 u R1.
  eapply ens_seq; [eapply ens_gives; [by apply gives_l1_get|]; intros y a _ Ha; exact Ha|]. intros x2 [v|] R2 Hv.
  - apply ens_then; [ens|]. intros x3 u' R3. destruct Hv as [[-> Hg]|(_ & Hne & Hs)].
    + rewrite bool_decide_eq_true_2 by done. split; [done|]. intros _. left. split; [done|].
      apply gone_missing in Hg. by apply (missing_r x2).
    + destruct (served_version _ _ Hs) as (o & Ho & [-> | ->]); (split; [done|]); intros _; right; exists o; auto.
  - apply ens_then; [ens|]. intros x3 c R3.
    eapply ens_seq with (P := λ y a, match a with ROk v => Cache.ok_l2 Served (Gone y.2) key v | _ => True end).
    { destruct (mc_l2 c); [|done]. eapply ens_gives; [by apply gives_redis_get|]. intros y a _ Ha. exact Ha. }
    assert (Hl3 : ∀ y, ens (pFromL3 (os_loader os) key) got y).
    { intros y. unfold pFromL3. apply ens_then; [ens|]. intros y1 c' _. apply ens_then; [ens|]. intros y2 hot _.
      apply ens_then; [ens|]. intros y3 u' _. destruct hot; [apply ens_loadWithLock|apply ens_loadFromDB]. }
    intros x4 [v| |e] R4 Ht; [|apply Hl3..]. apply ens_then; [ens|]. intros x5 u' R5.
    destruct (l2_text _ _ Ht) as [[-> Hm]|[Hne Hx]].
    + rewrite bool_decide_eq_true_2 by done. pose proof (missing_r _ _ R5 Hm) as H5.
      apply ens_then; [by apply ens_null1|]. intros x6 u'' R6. apply ens_then; [ens|]. intros x7 u3 R7.
      split; [done|]. intros _. left. split; [done|]. apply (missing_r x6); [done|]. by apply (missing_r x5).
    + rewrite bool_decide_eq_false_2 by done. cbv zeta. apply ens_then; [ens|]. intros x6 ttl R6.
      apply ens_then; [by apply ens_cache1|]. intros x7 u'' R7. apply ens_then; [ens|]. intros x8 u3 R8.
      split; [done|]. intros _. by right.
Qed.

Lemma ens_dbQuery x : ens (pDbQuery no) genuine x.
Proof.
  unfold pDbQuery. eapply ens_seq; [by eapply ens_gives; [apply gives_available|auto]|]. intros x1 down _ ->.
  eapply ens_seq; [eapply ens_gives; [apply (gives_select select_order no Hno); by right|]; intros y a _ Ha; exact Ha|].
  intros x2 [[l| |e]|] R2 Ha; [| |done..].
  - destruct Ha as (o & Hv & ->). apply ens_then; [by apply ens_Set|]. by intros.
  - cbn in Ha. apply ens_then; [apply ens_SetNull; intros y R; by apply (missing_r x2)|]. intros x3 u R3. split; [done|].
    by apply (missing_r x2).
Qed.

Lemma ens_GetOrder x : ens (pGetOrder os no) genuine x.
Proof.
  unfold pGetOrder. eapply ens_seq; [apply ens_Get|]. intros x1 [[v found] err] R1 [-> Ha].
  destruct found; [|apply ens_dbQuery]. destruct (Ha eq_refl) as [[-> Hm]|(o & Hv & [-> | ->])]; [by split|exact Hv|].
  unfold order_map. fold (order_map o). unfold genuine. apply ensures_ret.
  by rewrite (order_back no) by by apply version_ok.
Qed.

End lookup.

End programs.
(** ** Settling a number *)

(** Once its key is deleted from both tiers, a number that has a row is
    settled. *)
Lemma settle d t s :
  numbered mark → in_int64 (d * Millisecond) → is_Some (t !! mark) → live (t, false) s →
  ∃ s', Cache.secondDelete d (order_key mark) s = (Val tt, s') ∧ live (t, true) s'.
Proof.
  intros Hn Hd Hst ((K1 & K2 & _) & Hu & Hs).
  assert (Hb : Cache.cache_ok Served (Gone true) (but mark) (table_is t) pool_up true s).
  { eapply Cache.cache_ok_sub; [..|exact Hs]; [|done]. intros k [Hk Hne]. split; [done|]. split; [done|].
    intros (no & -> & H0 & _). exists no. split; [done|]. split; [done|]. congruence. }
  assert (Ht : State.triple (Cache.cache_ok Served (Gone true) (but mark) (table_is t) pool_up true) (λ _, True)
    (Cache.secondDelete d (order_key mark))) by by by_class Cache.t_secondDelete.
  destruct (Ht s Hb) as [H1 _]. pose proof Hs as ([_ Hx] & _ & _ & Hl2). rewrite Cache.second_delete_run, Hl2 in H1 |- * by done.
  eexists. split; [reflexivity|]. split; [by split_and!|]. split; [exact Hu|].
  eapply Cache.cache_ok_join; [exact H1|apply l1_del_key|]. unfold r_view. cbn [snd s_w set_field].
  rewrite Cache.deleted_both; [done|]. apply healthy_del. by pose proof (kept_sleep (P := table_is _) (d * Millisecond) _ Hx) as [_ Hh].
Qed.

End concurrent.

(** ** Properties *)

Section properties.
Context `{EN : Env} `{CO : Codec} `{CL : !CodecLaws} `{VI : !Views} `{RE : !RedisLaws} `{LL : !L1Laws}
  `{CK : !ClockLaws} `{FR : !FrameLaws} `{SF : !ServiceFrames} `{OT : !OrderTable} `{OL : !OrderTableLaws}
  `{DR : !Drivers} `{BY : !Bystanders}.
Context (os : OrderService) (offered : Order → Prop).
#[local] Set Default Proof Using "All".

(** The goroutines that run: lookups; writes and creations of orders that
    are offered, events of such orders with their retries, second deletions,
    and any call of the outside that concerns no order. *)
Inductive working : thread → Prop :=
| working_write label start ctx o : offered o → working (Th (pWriteAndPublish os label start ctx o))
| working_create ctx o : offered o → working (Th (pCreateSync os ctx o))
| working_event ec ctx key value :
    0 <= Mq.ec_maxRetries ec → may_write offered value → working (Th (pProcess os ec ctx key value))
| working_delete d k : working (Th (pSecondDelete d k))
| working_other {A : Set} (op : W → A * W) : apart op → working (Th (act (world op))).

Inductive serving : thread → Prop :=
| serving_get no : numbered no → serving (Th (pGetOrder os no))
| serving_work th : working th → serving th.

(** What a lookup may be told. *)
Definition told (t0 : gmap string Order) (no : string) (a : option Order * option error) : Prop :=
  match a with
  | (Some o, None) => version t0 offered no o
  | (None, Some e) => e = Errorf ("order not found: " +:+ no) ∧ t0 !! no = None
  | _ => False
  end.

(** One thread that runs to an answer, whatever its turns: each answer it
    can give satisfies [P], and it gives one when it is left alone. *)
Definition arrives {A : Set} (P : A → Prop) (i : nat) (ths : list thread) (s : Sys) : Prop :=
  ∃ p : prog A, ths !! i = Some (Th p) ∧ (∀ a, p = Done a → P a) ∧
    ∃ n a s', interleave (replicate n i) ths s = (<[i := Th (Done a)]> ths, s') ∧ P a.

Lemma arrives_at t0 mark x ths s i {A : Set} (p : prog A) Q (P : A → Prop) :
  ths !! i = Some (Th p) → live t0 offered mark x s → ensures (live t0 offered mark) moves moves False p Q x →
  (∀ y a, moves x y → Q y a → P a) → arrives P i ths s.
Proof.
  intros Hi Hs Hp HQ. exists p. split; [done|]. split.
  - intros a ->. by apply (HQ x).
  - destruct (ensures_ends _ _ moves False (λ _ _ H, H) p Q x s (λ H, H) Hp Hs) as (n & a & y & s' & E & Hm & _ & Ha).
    exists n, a, s'. split; [by eapply interleave_only|]. by apply (HQ y).
Qed.

Section threads.
Context (t0 : gmap string Order) (rows0 : rows_ok t0) (offered_ok : ∀ o, offered o → writable o) (Hl : loads os).

Lemma working_ensures mark r `{RP : !PreOrder r} th x :
  (∀ y z, r y z → settles y z) → (∀ y z, moves y z → r y z) → working th → th_ensures (live t0 offered mark) moves r True x th.
Proof.
  intros Hst Hmv [label start ctx o Ho|ctx o Ho|ec ctx k v Hm Hv|d k|A op Ho]; cbn [th_ensures].
  - eapply ensures_wand; [|by apply (ens_write t0 offered mark rows0 offered_ok r True Hst Hmv)]. done.
  - eapply ensures_wand; [|by apply (ens_createSync t0 offered mark rows0 offered_ok r True Hst Hmv)]. done.
  - eapply ensures_wand; [|by apply (ens_Process t0 offered mark rows0 offered_ok r True Hst Hmv)]. done.
  - by apply (ens_secondDelete t0 offered mark rows0 offered_ok r True Hst Hmv).
  - apply (ens_does t0 offered mark rows0 offered_ok r True Hst Hmv). by apply does_apart.
Qed.

Lemma missing_moves mark no (y z : moment) : moves y z → missing t0 mark y.2 no → missing t0 mark z.2 no.
Proof. by intros [_ ->]. Qed.
Lemma missing_settles mark no (y z : moment) : no ≠ mark → settles y z → missing t0 mark y.2 no → missing t0 mark z.2 no.
Proof. intros Hne _ [H _]. by split. Qed.

(** While nobody settles, every thread keeps its promise; and even then,
    those that are no lookups of the number settled. *)
Lemma serving_all mark ths x : Forall serving ths → Forall (th_ensures (live t0 offered mark) moves moves True x) ths.
Proof.
  intros H. eapply Forall_impl; [exact H|]. intros th [no Hn|th' Hth].
  - eapply ensures_wand; [|apply (ens_GetOrder t0 offered mark rows0 offered_ok moves True moves_settles (λ _ _ H, H) os Hl no Hn)];
      [done|]. apply missing_moves.
  - apply working_ensures; [apply _|apply moves_settles|done..].
Qed.

Lemma serving_settles mark no th x :
  (th = Th (pGetOrder os no) ∧ numbered no ∧ no ≠ mark) ∨ working th → th_ensures (live t0 offered mark) moves settles True x th.
Proof.
  intros [(-> & Hn & Hne)|Hth].
  - eapply ensures_wand; [|apply (ens_GetOrder t0 offered mark rows0 offered_ok settles True (λ _ _ H, H) moves_settles os Hl no Hn)];
      [done|]. intros y z. by apply missing_settles.
  - apply working_ensures; [apply _|done|apply moves_settles|done].
Qed.

(** A lookup among the others. *)
Lemma lookup_arrives mark no x ths s i sched :
  numbered no → live t0 offered mark x s → Forall (th_ensures (live t0 offered mark) moves moves True x) ths →
  ths !! i = Some (Th (pGetOrder os no)) →
  let '(ths', s') := interleave sched ths s in
  arrives (λ a, match a with
    | (Some o, None) => version t0 offered no o
    | (None, Some e) => e = Errorf ("order not found: " +:+ no) ∧ missing t0 mark x.2 no
    | _ => False end) i ths' s' ∧
  ∃ y, moves x y ∧ live t0 offered mark y s'.
Proof.
  intros Hn Hs Hths Hi.
  pose proof (ens_GetOrder t0 offered mark rows0 offered_ok moves False moves_settles (λ _ _ H, H) os Hl no Hn
    (missing_moves mark no) x) as Hp.
  pose proof (interleave_at (live t0 offered mark) moves moves False (λ _ _ H, H) sched ths s x i _ (genuine t0 offered mark no)
    (λ y z a, genuine_mono t0 offered mark rows0 offered_ok moves False moves_settles (λ _ _ H, H) os Hl no Hn (missing_moves mark no) y z a)
    Hi Hp Hths Hs) as Hx.
  destruct (interleave sched ths s) as [ths' s']. destruct Hx as (y & p & Hm & Hs' & Hi' & Hp' & _).
  split; [|by exists y]. eapply arrives_at; [exact Hi'|exact Hs'|exact Hp'|]. intros z [[o|] [e|]] Hz Ha; try done.
  destruct Ha as [-> Ha]. split; [done|]. destruct Hz as [_ Ez], Hm as [_ Ey]. by rewrite Ez, Ey in Ha.
Qed.

(** The table at every moment: it has only grown, by versions. *)
Lemma live_versions mark x s :
  live t0 offered mark x s → grows t0 x.1 →
  grows t0 (orders_of (s_w s)) ∧
  ∀ no o, numbered no → orders_of (s_w s) !! no = Some o → version t0 offered no o.
Proof. intros Hs. rewrite (live_table t0 offered mark rows0 offered_ok x s Hs). split; [done|]. by apply Hs. Qed.

(** What is left of threads among which no lookup of [mark] is under way. *)
Lemma left_over mark ths s sched t1 :
  Forall serving ths → live t0 offered mark (t0, false) s →
  let '(ths1, s1) := interleave sched ths s in
  orders_of (s_w s1) = t1 →
  (∀ j th, ths !! j = Some (Th (pGetOrder os mark)) → ths1 !! j = Some th → finished th = true) →
  Forall (th_ensures (live t0 offered mark) moves moves True (t1, true)) ths1.
Proof.
  intros Hths Hs. pose proof (interleave_length sched ths s) as Hl1.
  pose proof (interleave_all (live t0 offered mark) moves moves True (λ _ _ H, H) sched ths s (t0, false)
    (serving_all mark ths (t0, false) Hths) Hs) as Hend.
  destruct (interleave sched ths s) as [ths1 s1] eqn:E. cbn [fst] in Hl1. intros Ht Hidle. apply Forall_lookup_2. intros j th1 Hj.
  destruct (lookup_lt_is_Some_2 ths j) as [[A p] Hp]; [rewrite <-Hl1; by eapply lookup_lt_Some|].
  assert (Hcase : (∃ no, Th p = Th (pGetOrder os no) ∧ numbered no ∧ no = mark) ∨
    th_ensures (live t0 offered mark) moves settles True (t0, false) (Th p)).
  { destruct (Forall_lookup_1 _ _ _ _ Hths Hp) as [no Hn|th Hth]; [|right; apply (serving_settles mark mark); by right].
    destruct (decide (no = mark)) as [->|Hne]; [left; by exists mark|right]. apply (serving_settles mark no). left. done. }
  destruct Hcase as [(no & Eth & Hn & ->)|Hset].
  - rewrite Eth in Hp. specialize (Hidle j th1 Hp Hj). destruct Hend as (y & _ & _ & Hend).
    pose proof (Forall_lookup_1 _ _ _ _ Hend Hj) as Hq. by destruct th1 as [B []].
  - pose proof (interleave_at (live t0 offered mark) moves settles True moves_settles sched ths s (t0, false) j p (λ _ _, True)
      ltac:(done) Hp Hset (serving_all mark ths (t0, false) Hths) Hs) as Hx.
    rewrite E in Hx. destruct Hx as (y & q & [_ Ey] & Hy & Hj' & Hq & _). rewrite Hj in Hj'. injection Hj' as ->. cbn.
    eapply ensures_rely; [apply moves_settles|done|]. eapply ensures_mono; [apply _|done| |exact Hq].
    pose proof (live_table t0 offered mark rows0 offered_ok y s1 Hy) as Et. split; [cbn; by rewrite <-Ht, Et|done].
Qed.

(** From now on, a deletion of the key from both tiers makes every lookup
    that starts afterwards find the order, whatever runs beside it: the
    threads [ths] where they stand, and any [more]. *)
Definition found_for_good (no : string) (ths : list thread) (s : Sys) : Prop :=
  ∀ d, in_int64 (d * Millisecond) →
    ∃ s', Cache.secondDelete d (order_key no) s = (Val tt, s') ∧
      ∀ more sched j, Forall serving more → more !! j = Some (Th (pGetOrder os no)) →
        let '(ths'', s'') := interleave sched (ths ++ more)%list s' in
        arrives (λ a : option Order * option error, ∃ o, a = (Some o, None) ∧ version t0 offered no o) (length ths + j)%nat ths'' s''.

Lemma stored_found no ths s sched :
  numbered no → Forall serving ths → live t0 offered no (t0, false) s →
  let '(ths1, s1) := interleave sched ths s in
  is_Some (orders_of (s_w s1) !! no) →
  (∀ j th, ths !! j = Some (Th (pGetOrder os no)) → ths1 !! j = Some th → finished th = true) →
  found_for_good no ths1 s1.
Proof.
  intros Hn Hths Hs. pose proof (left_over no ths s sched) as Hleft.
  pose proof (interleave_all (live t0 offered no) moves moves True (λ _ _ H, H) sched ths s (t0, false)
    (serving_all no ths (t0, false) Hths) Hs) as Hend.
  destruct (interleave sched ths s) as [ths1 s1]. intros Hst Hidle d Hd. destruct Hend as (y & [_ Ey] & Hy & _).
  pose proof (live_table t0 offered no rows0 offered_ok y s1 Hy) as Et. destruct y as [t b]. cbn in Ey, Et. subst b t.
  destruct (settle t0 offered no rows0 offered_ok d _ s1 Hn Hd Hst Hy) as (s2 & E & H2).
  exists s2. split; [exact E|]. intros more sched2 j Hmore Hj.
  pose proof (lookup_arrives no no (orders_of (s_w s1), true) (ths1 ++ more)%list s2 (length ths1 + j)%nat sched2 Hn H2) as Hx.
  destruct (interleave sched2 (ths1 ++ more)%list s2) as [ths3 s3]. destruct Hx as [(p & Hi & Hp & n & a & s4 & E4 & Ha) _].
  - apply Forall_app. split; [by apply (Hleft _ Hths Hs)|by apply serving_all].
  - by rewrite lookup_app_r, Nat.add_comm, Nat.add_sub by lia.
  - assert (Himp : ∀ a : option Order * option error, match a with
      | (Some o, None) => version t0 offered no o
      | (None, Some e) => e = Errorf ("order not found: " +:+ no) ∧ missing t0 no true no
      | _ => False end → ∃ o, a = (Some o, None) ∧ version t0 offered no o).
    { intros [[o|] [e|]] H; try done; [by exists o|]. destruct H as (_ & _ & H). by destruct H. }
    exists p. split; [done|]. split; [intros a' Ea; by apply Himp, Hp|]. exists n, a, s4. split; [done|]. by apply Himp.
Qed.

(** The row is there, and nothing that runs from now on takes it away. *)
Definition row_stays (no : string) (ths : list thread) (s : Sys) : Prop :=
  (∃ row, orders_of (s_w s) !! no = Some row ∧ version t0 offered no row) ∧
  ∀ more sched, Forall serving more → grows (orders_of (s_w s)) (orders_of (s_w (interleave sched (ths ++ more)%list s).2)).

(** No lookup of the order that began among [ths] is still under way. *)
Definition no_lookup (no : string) (ths ths' : list thread) : Prop :=
  ∀ j th, ths !! j = Some (Th (pGetOrder os no)) → ths' !! j = Some th → finished th = true.

Lemma stored_stays mark y ths s :
  numbered mark → live t0 offered mark y s → Forall (th_ensures (live t0 offered mark) moves moves True y) ths →
  stored mark y → row_stays mark ths s.
Proof.
  intros Hn Hy Hths [row Hrow]. pose proof (live_table t0 offered mark rows0 offered_ok y s Hy) as Et. split.
  - exists row. rewrite Et. split; [done|]. by apply Hy.
  - intros more sched Hmore.
    pose proof (interleave_all (live t0 offered mark) moves moves True (λ _ _ H, H) sched (ths ++ more)%list s y) as Hx.
    destruct (interleave sched _ s) as [ths' s']. destruct Hx as (z & [Hg _] & Hz & _); [|done|].
    + apply Forall_app. split; [done|by apply serving_all].
    + pose proof (live_table t0 offered mark rows0 offered_ok z s' Hz) as Ez. cbn. by rewrite Et, Ez.
Qed.

End threads.

(** C2: Lookups are genuine while everything runs at once: start from a
    moment at which the table is [t0] and the tiers say nothing else, and let
    lookups, writes, creations, consumed events with their retries and second
    deletions of any orders run in any interleaving of their accesses to the
    caches, the table, the locks and Kafka.  At every moment the table has
    only grown, and its rows are versions of orders that were in [t0] or were
    written since; and a lookup, whatever the others do, can be run to its
    answer without a panic, and whenever it answers, it answers with a version
    of the order it was asked for, or that the order does not exist, which
    happens only to orders that had no row in [t0].  The database, Redis and
    the replicas are one table and one store that answer throughout. *)
Theorem lookups_genuine t0 s0 ths sched i no :
  loads os → ready t0 s0 → (∀ o, offered o → writable o) → Forall serving ths → numbered no →
  ths !! i = Some (Th (pGetOrder os no)) →
  let '(ths', s') := interleave sched ths s0 in
  arrives (told t0 no) i ths' s' ∧ grows t0 (orders_of (s_w s')) ∧
  ∀ no' o, numbered no' → orders_of (s_w s') !! no' = Some o → version t0 offered no' o.
Proof.
  intros Hl [Hc Hu] Hoff Hths Hn Hi. pose proof (live_start t0 offered no (proj1 Hc) Hoff s0 Hc Hu) as Hs.
  pose proof (lookup_arrives t0 (proj1 Hc) Hoff Hl no no (t0, false) ths s0 i sched Hn Hs
    (serving_all t0 (proj1 Hc) Hoff Hl no ths _ Hths) Hi) as Hx.
  destruct (interleave sched ths s0) as [ths' s']. destruct Hx as [Ha (y & [Hg _] & Hy)].
  split; [|by apply (live_versions t0 (proj1 Hc) Hoff Hl no y)].
  destruct Ha as (p & Hp & HP & n & a & s2 & E & Ha).
  assert (Himp : ∀ a : option Order * option error, match a with
    | (Some o, None) => version t0 offered no o
    | (None, Some e) => e = Errorf ("order not found: " +:+ no) ∧ missing t0 no false no
    | _ => False end → told t0 no a).
  { intros [[o|] [e|]]; [done|by intros H|intros (-> & H & _); by split|done]. }
  exists p. split; [done|]. split; [intros a' Ea; by apply Himp, HP|]. exists n, a, s2. split; [done|]. by apply Himp.
Qed.

(** C3: Created orders are found: among any goroutines of the kinds of
    [lookups_genuine], interleaved in any way, when a creation with its lock
    has answered that it wrote the order, then the row is in the table, it is
    a version of that order, and no interleaving that follows takes it away;
    and if no lookup of that order that began before is still under way, the
    delayed second deletion of the creation makes it found for good: however
    what is left and whatever starts afterwards interleave, a lookup that
    starts after the deletion answers with a version of the order, never
    that it does not exist.  Before that deletion a lookup may still answer
    that the order does not exist.  The deletion of the two keys is one step
    here, everything else is cut at its accesses; services and tables as for
    [lookups_genuine]. *)
Theorem created_orders_found t0 s0 ths sched i ctx o :
  loads os → ready t0 s0 → (∀ o, offered o → writable o) → Forall serving ths → offered o →
  ths !! i = Some (Th (pCreateSync os ctx o)) →
  let '(ths', s') := interleave sched ths s0 in
  ∃ p : prog created, ths' !! i = Some (Th p) ∧
    ∀ no, p = Done ("sync", no, None) →
      no = o_OrderNo o ∧ row_stays t0 no ths' s' ∧ (no_lookup no ths ths' → found_for_good t0 no ths' s').
Proof.
  intros Hl [Hc Hu] Hoff Hths Ho Hi. pose proof (Hoff o Ho) as [[Hn _] _]. set (mark := o_OrderNo o) in *.
  pose proof (live_start t0 offered mark (proj1 Hc) Hoff s0 Hc Hu) as Hs.
  pose proof (serving_all t0 (proj1 Hc) Hoff Hl mark ths (t0, false) Hths) as Hall.
  pose proof (ens_createSync t0 offered mark (proj1 Hc) Hoff moves True moves_settles (λ _ _ H, H) os ctx o (t0, false) I Ho) as Hp.
  pose proof (interleave_at (live t0 offered mark) moves moves True (λ _ _ H, H) sched ths s0 (t0, false) i _ (created_stored o)
    (λ y z a, created_stored_mono t0 offered mark (proj1 Hc) Hoff moves True moves_settles (λ _ _ H, H) o y z a) Hi Hp Hall Hs) as Hx.
  pose proof (stored_found t0 (proj1 Hc) Hoff Hl mark ths s0 sched Hn Hths Hs) as Hfound.
  destruct (interleave sched ths s0) as [ths' s']. destruct Hx as (y & p & _ & Hy & Hi' & Hp' & Hall').
  exists p. split; [done|]. intros no ->. destruct (Hp' : created_stored o y ("sync", no, None)) as [-> Hst]. specialize (Hst eq_refl eq_refl). split; [done|].
  pose proof (stored_stays t0 (proj1 Hc) Hoff Hl mark y ths' s' Hn Hy Hall' Hst) as Hrow. split; [exact Hrow|].
  intros Hidle. apply Hfound; [|exact Hidle]. destruct Hrow as [(row & Hrow & _) _]. by exists row.
Qed.

(** C25: Consumed orders are found: among the same goroutines, interleaved in
    any way, the retries of a message's event can be run to their end without
    a panic; and when they report success, the message held an order, its row
    is in the table as a version of that order and no interleaving that
    follows takes it away; and if no lookup of that order that began before is
    still under way, a deletion of its key from both tiers makes it found for
    good by every lookup that starts afterwards.  The consumer itself deletes
    only once, so until the null marker expires or such a deletion, a lookup
    may still answer that the order does not exist
    ([single_deletion_insufficient]).  Steps, services and tables as for the
    creations. *)
Theorem consumed_orders_found t0 s0 ths sched i ec ctx key value :
  loads os → ready t0 s0 → (∀ o, offered o → writable o) → Forall serving ths →
  0 <= Mq.ec_maxRetries ec → may_write offered value → ths !! i = Some (Th (pProcess os ec ctx key value)) →
  let '(ths', s') := interleave sched ths s0 in
  ∃ p : prog (option error), ths' !! i = Some (Th p) ∧
    (∃ n (err : option error) s2, interleave (replicate n i) ths' s' = (<[i := Th (Done err)]> ths', s2)) ∧
    (p = Done None → ∃ o, event_order value = inr o ∧ let no := o_OrderNo o in
      row_stays t0 no ths' s' ∧ (no_lookup no ths ths' → found_for_good t0 no ths' s')).
Proof.
  intros Hl [Hc Hu] Hoff Hths Hm Hv Hi.
  set (mark := match event_order value with inr o => o_OrderNo o | inl _ => "" end).
  pose proof (live_start t0 offered mark (proj1 Hc) Hoff s0 Hc Hu) as Hs.
  pose proof (serving_all t0 (proj1 Hc) Hoff Hl mark ths (t0, false) Hths) as Hall.
  pose proof (ens_Process t0 offered mark (proj1 Hc) Hoff moves False moves_settles (λ _ _ H, H) os ec ctx key value (t0, false) Hm Hv) as Hp.
  pose proof (interleave_at (live t0 offered mark) moves moves False (λ _ _ H, H) sched ths s0 (t0, false) i _ (handled value)
    (λ y z a, handled_mono t0 offered mark (proj1 Hc) Hoff moves False moves_settles (λ _ _ H, H) value y z a) Hi Hp Hall Hs) as Hx.
  pose proof (λ Hn, stored_found t0 (proj1 Hc) Hoff Hl mark ths s0 sched Hn Hths Hs) as Hfound.
  destruct (interleave sched ths s0) as [ths' s']. destruct Hx as (y & p & _ & Hy & Hi' & Hp' & Hall').
  exists p. split; [done|]. split.
  - destruct (arrives_at t0 mark y ths' s' i p (handled value) (λ _, True) Hi' Hy Hp' ltac:(done)) as (_ & _ & _ & n & a & s2 & E & _).
    by exists n, a, s2.
  - intros ->. destruct ((Hp' : handled value y None) eq_refl) as (o & Eo & Hst). exists o. split; [done|]. cbv zeta.
    assert (Em : o_OrderNo o = mark) by (unfold mark; by rewrite Eo). rewrite Em in *.
    assert (Hn : numbered mark) by (rewrite <-Em; apply (Hoff o), Hv, Eo).
    pose proof (stored_stays t0 (proj1 Hc) Hoff Hl mark y ths' s' Hn Hy Hall' Hst) as Hrow. split; [exact Hrow|].
    intros Hidle. apply Hfound; [done| |exact Hidle]. destruct Hrow as [(row & Hrow & _) _]. by exists row.
Qed.

End properties.

(** ** Witnesses

    A lookup that has read the table before the order is written, by a
    creation or by the retries of its event, and caches its null marker after
    that. *)

Definition demo_offered (o : Order) : Prop := o = demo_order.
Definition demo_consumer : Mq.EventConsumer := Mq.NewEventConsumer [] "order-create" "g" 1 1 3 None false.
Definition demo_created : list thread :=
  [Th (pGetOrder (System.orders demo_srv) demo_no); Th (pCreateSync (System.orders demo_srv) "t1" demo_order)].
Definition demo_consumed : list thread :=
  [Th (pGetOrder (System.orders demo_srv) demo_no); Th (pProcess (System.orders demo_srv) demo_consumer "" "7" demo_message)].
Definition demo_turns : list nat := replicate 8 0%nat ++ replicate 60 1%nat ++ replicate 20 0%nat.

Lemma demo_writable o : demo_offered o → writable o.
Proof. intros ->. split; [exact demo_order_storable|]. split; [done|]. split; [exact demo_stored_wf|]. by split; vm_compute. Qed.

Lemma demo_may_write : may_write demo_offered demo_message.
Proof. intros o E. rewrite demo_event in E. by injection E as <-. Qed.

Lemma demo_created_serving : Forall (serving (System.orders demo_srv) demo_offered) demo_created.
Proof. apply Forall_cons. split; [apply serving_get, demo_numbered|]. by apply Forall_singleton, serving_work, working_create. Qed.
Lemma demo_consumed_serving : Forall (serving (System.orders demo_srv) demo_offered) demo_consumed.
Proof.
  apply Forall_cons. split; [apply serving_get, demo_numbered|].
  apply Forall_singleton, serving_work, working_event; [by vm_compute|exact demo_may_write].
Qed.

Lemma demo_creation_at : demo_created !! 1%nat = Some (Th (pCreateSync (System.orders demo_srv) "t1" demo_order)).
Proof. reflexivity. Qed.
Lemma demo_event_at :
  demo_consumed !! 1%nat = Some (Th (pProcess (System.orders demo_srv) demo_consumer "" "7" demo_message)).
Proof. reflexivity. Qed.

(** When all have ended, no lookup is under way. *)
Lemma ended_idle os no ths ths' : forallb finished ths' = true → no_lookup os no ths ths'.
Proof.
  intros H j th _ Hj. rewrite forallb_forall in H. apply H.
  by eapply list_elem_of_In, list_elem_of_lookup_2.
Qed.

Lemma lookups_genuine_witness :
  let '(ths, s) := interleave demo_turns demo_created demo_sys in
  arrives (told demo_offered ∅ demo_no) 0 ths s ∧ is_Some (orders_of (s_w s) !! demo_no).
Proof.
  pose proof (lookups_genuine (System.orders demo_srv) demo_offered ∅ demo_sys demo_created demo_turns 0 demo_no
    demo_loads demo_ready demo_writable demo_created_serving demo_numbered eq_refl) as H.
  assert (E : match orders_of (s_w (interleave demo_turns demo_created demo_sys).2) !! demo_no with Some _ => true | None => false end = true)
    by (vm_compute; reflexivity).
  destruct (interleave demo_turns demo_created demo_sys) as [ths s]. cbn [snd] in E. split; [apply H|].
  destruct (orders_of (s_w s) !! demo_no) as [o|]; [by exists o|discriminate E].
Defined.

(** The creation has answered, the lookup before it left a null marker; once
    the marker is deleted, a lookup that starts finds the order. *)
Lemma created_orders_found_witness :
  let '(ths, s) := interleave demo_turns demo_created demo_sys in
  r_view (s_w s) (order_key demo_no) = Some Cache.NullMarker ∧
  found_for_good (System.orders demo_srv) demo_offered ∅ demo_no ths s.
Proof.
  pose proof (created_orders_found (System.orders demo_srv) demo_offered ∅ demo_sys demo_created demo_turns 1 "t1" demo_order
    demo_loads demo_ready demo_writable demo_created_serving eq_refl demo_creation_at) as H.
  assert (E1 : (interleave demo_turns demo_created demo_sys).1 !! 1%nat = Some (Th (Done ("sync", demo_no, @None error))))
    by vm_cast_no_check (eq_refl (Some (Th (Done ("sync", demo_no, @None error))))).
  assert (E0 : forallb finished (interleave demo_turns demo_created demo_sys).1 = true) by (vm_compute; reflexivity).
  assert (E2 : r_view (s_w (interleave demo_turns demo_created demo_sys).2) (order_key demo_no) = Some Cache.NullMarker)
    by (vm_compute; reflexivity).
  destruct (interleave demo_turns demo_created demo_sys) as [ths s]. cbn [fst snd] in E0, E1, E2. split; [exact E2|].
  destruct H as (p & Hp & H). rewrite E1 in Hp.
  assert (Ep : Th (Done ("sync", demo_no, @None error)) = Th p) by congruence. apply Th_inj in Ep.
  destruct (H demo_no (eq_sym Ep)) as (_ & _ & Hfound). by apply Hfound, ended_idle.
Defined.

(** The same with the event: its one deletion left the marker. *)
Lemma consumed_orders_found_witness :
  let '(ths, s) := interleave demo_turns demo_consumed demo_sys in
  r_view (s_w s) (order_key demo_no) = Some Cache.NullMarker ∧
  found_for_good (System.orders demo_srv) demo_offered ∅ demo_no ths s.
Proof.
  pose proof (consumed_orders_found (System.orders demo_srv) demo_offered ∅ demo_sys demo_consumed demo_turns 1 demo_consumer "" "7"
    demo_message demo_loads demo_ready demo_writable demo_consumed_serving ltac:(by vm_compute) demo_may_write demo_event_at) as H.
  assert (E1 : (interleave demo_turns demo_consumed demo_sys).1 !! 1%nat = Some (Th (Done (@None error))))
    by vm_cast_no_check (eq_refl (Some (Th (Done (@None error))))).
  assert (E0 : forallb finished (interleave demo_turns demo_consumed demo_sys).1 = true) by (vm_compute; reflexivity).
  assert (E2 : r_view (s_w (interleave demo_turns demo_consumed demo_sys).2) (order_key demo_no) = Some Cache.NullMarker)
    by (vm_compute; reflexivity).
  destruct (interleave demo_turns demo_consumed demo_sys) as [ths s]. cbn [fst snd] in E0, E1, E2. split; [exact E2|].
  destruct H as (p & Hp & _ & H). rewrite E1 in Hp.
  assert (Ep : Th (Done (@None error)) = Th p) by congruence. apply Th_inj in Ep.
  destruct (H (eq_sym Ep)) as (o & Eo & _ & Hfound). rewrite demo_event in Eo. injection Eo as <-. by apply Hfound, ended_idle.
Defined.

End Concurrent.
