(* ===== verification/EndToEnd.v ===== *)
(** * From request to request

    The relation of [Durable.v] carried through handlers and middlewares to
    every step of the process, and what it means for clients: the rows of
    orders created over HTTP or consumed from Kafka are never lost again, and
    a lookup over HTTP that nothing runs beside answers the map.  The steps of
    a history follow one another here; what lookups may answer while others
    are under way is the subject of [Concurrent.v]. *)

From S2P Require Export Durable.

Module EndToEnd.
Import OrderSvc Table Store Http Handlers Health System Answers Durable.

(** A body whose user, if it decodes to one, is one that float64 holds. *)
Definition modest `{Codec} (text : string) : Prop :=
  ∀ req, Decode dec_order_req zero_order_req text = (req, None) → cor_UserID req <= 2 ^ 53.

Section handlers.
Context `{EN : Env} `{CO : Codec} `{CL : !CodecLaws} `{VI : !Views} `{RE : !RedisLaws} `{LL : !L1Laws}
  `{CK : !ClockLaws} `{FR : !FrameLaws} `{SF : !ServiceFrames} `{OT : !OrderTable} `{OL : !OrderTableLaws}
  `{DR : !Drivers} `{BY : !Bystanders} `{VA : !Validator}.
Context (t0 : gmap string Order) (B : string → Prop).
#[local] Set Default Proof Using "All".
#[local] Abbreviation lasting := (lasting t0).

(** ** Handlers and middlewares *)

(** On a body with the property [B]: the body stays, and the relation. *)
Definition stays {A} (m : HM A) : Prop :=
  ∀ c s, B (g_Body c) → lasting s → g_Body (m c s).2.1 = g_Body c ∧ lasting (m c s).2.2.

Lemma stays_bind {A X} (m : HM A) (f : A → HM X) : stays m → (∀ a, stays (f a)) → stays (m ≫= f).
Proof.
  intros Hm Hf c s Hb Hs. rewrite hbind_run. destruct (Hm c s Hb Hs) as [E1 H1].
  destruct (m c s) as [[a|e|] [c1 s1]]; cbn [fst snd] in *; [|done..].
  rewrite <-E1 in Hb |- *. by apply Hf.
Qed.
Lemma stays_ret {A} (a : A) : stays (mret a).
Proof. by intros c s Hb Hs. Qed.
Lemma stays_getg {A} (f : Gin → A) : stays (getg f).
Proof. by intros c s Hb Hs. Qed.
Lemma stays_modg f : (∀ c, g_Body (f c) = g_Body c) → stays (modg f).
Proof. intros Hf c s Hb Hs. split; [apply Hf|done]. Qed.
Lemma stays_lift {A} (m : M A) : lasts t0 m → stays (lift m).
Proof. intros Hm c s Hb Hs. rewrite lift_run. split; [done|]. apply Hm, Hs. Qed.
Lemma stays_JSON status message d : stays (JSON status message d).
Proof. by apply stays_modg. Qed.

End handlers.

#[global] Arguments stays : simpl never.
Create HintDb stays.
#[export] Hint Resolve stays_ret stays_getg stays_lift stays_JSON : stays.
#[export] Hint Extern 1 (stays _ _ (modg _)) => apply stays_modg; intros ?; reflexivity : stays.
Ltac stays := intros; cbv zeta;
  lazymatch goal with
  | |- stays _ _ (_ ≫= _) => apply stays_bind; [stays|intros ?; stays]
  | |- stays _ _ (lift (_ ≫= _)) => apply stays_lift; lasts; eauto with lasts
  | |- _ => first [solve [eauto 4 with stays lasts] | case_match; stays | idtac]
  end.

Section server.
Context `{EN : Env} `{CO : Codec} `{CL : !CodecLaws} `{VI : !Views} `{RE : !RedisLaws} `{LL : !L1Laws}
  `{CK : !ClockLaws} `{FR : !FrameLaws} `{SF : !ServiceFrames} `{OT : !OrderTable} `{OL : !OrderTableLaws}
  `{DR : !Drivers} `{BY : !Bystanders} `{VA : !Validator}.
Context (t0 : gmap string Order) (so sp : bool) (srv : Server) (Hw : wired so sp srv).
#[local] Set Default Proof Using "All".
#[local] Abbreviation lasting := (lasting t0).
#[local] Abbreviation lasts := (lasts t0).
#[local] Abbreviation stays := (stays t0).

Lemma wired_loads : loads (orders srv).
Proof. by destruct Hw as ((m & r & E) & _); exists m, r. Qed.

Lemma profiles_lasts load k : Profile.us_loader (profiles srv) = Some load → lasts (load k).
Proof. destruct Hw as (_ & (m & r & ->) & _). intros [= <-]. apply lasts_loader. Qed.

(** What the body of a request to a route must be. *)
Definition fine (e : endpoint) (text : string) : Prop :=
  match e with EpCreateOrder | EpCreateOrderSync => modest text | _ => True end.

Lemma stays_bind_valid {X} B (dec : json → X * option error) zero rules bad invalid handle :
  (∀ req text, B text → Decode dec zero text = (req, None) → stays (λ text', text' = text ∧ B text) (handle req)) →
  stays B (bind_valid dec zero rules bad invalid handle).
Proof.
  intros Hh c s Hb Hs. rewrite bind_valid_run.
  destruct (Decode dec zero (g_Body c)) as [req [e|]] eqn:E; [done|]. destruct (rules req); [done|].
  by apply (Hh req (g_Body c) Hb E).
Qed.

Lemma stays_create forced msg : stays modest (handleCreateOrder (srv_business srv) msg forced).
Proof.
  apply stays_bind_valid. intros req text Hm Hd. cbv zeta. apply stays_bind; [stays|intros ctx].
  apply stays_bind; [|stays]. apply stays_lift.
  apply (lasts_creation t0 (orderSvc (srv_business srv)) forced ctx). split; cbn; [|by apply Hm].
  pose proof (order_req_range text) as [Hr _]. by rewrite Hd in Hr.
Qed.

Lemma stays_search B {T} operation (run : string → Z → Z → M (Es.found T)) answer :
  (∀ k p n, lasts (run k p n)) → stays B (Handlers.search operation run answer).
Proof. intros Hr. unfold Handlers.search, parseSearchParams. stays. Qed.

Lemma stays_swagger B base : (∀ c, apart (base c)) → stays B (Swagger.SwaggerWithRuntimeDefaults base).
Proof.
  intros Hb. assert (Hf : ∀ (headers : list (string * string)) c, g_Body (foldl (λ c kv, Header kv.1 kv.2 c) c headers) = g_Body c).
  { induction headers as [|h headers IH]; intros c; [done|]. apply (IH (Header h.1 h.2 c)). }
  unfold Swagger.SwaggerWithRuntimeDefaults. apply stays_bind; [stays|intros path].
  apply stays_bind; [|intros [[status headers] content]; stays; by apply stays_modg].
  intros c s. exact (stays_lift t0 B _ (lasts_apart t0 _ (Hb c)) c s).
Qed.

Lemma stays_handle e : stays (fine e) (handle srv e).
Proof.
  pose proof wired_loads as Hl. pose proof profiles_lasts as Hp.
  destruct Hw as (_ & _ & _ & _ & _ & _ & [ep Hk] & _). destruct e; cbn [handle].
  - apply stays_bind_valid. stays.
  - apply stays_bind_valid. stays.
  - unfold GetMe. stays.
  - apply stays_create.
  - apply stays_create.
  - unfold Handlers.GetOrder. stays.
  - apply stays_search. intros. apply lasts_SearchOrders.
  - apply stays_bind_valid. stays.
  - unfold GetUserProfile. stays.
  - apply stays_search. intros. apply lasts_SearchUsers.
  - unfold GetDailyStats. stays.
  - unfold GetBehaviorSummary. stays.
  - unfold Metrics. stays. apply stays_lift, lasts_aside. intros s. destruct (RL.Tokens _ _). by split_and!.
  - unfold CircuitBreakerState. stays.
  - unfold GetCacheStats, OrderSvc.GetCacheStats. stays.
  - unfold LivenessHandler, uptime. stays.
  - unfold ReadinessHandler, dependency, redis_check. rewrite Hk. destruct (hc_redis _); cbv beta iota; stays.
  - unfold StartupHandler, checkStarted, uptime, IsStarted, SetStartupCompleted. stays.
  - destruct (srv_swagger srv); [apply stays_swagger; intros c; apply pages_apart|unfold NoRoute; stays].
Qed.

Lemma stays_CORS B cfg next : stays B next → stays B (CORS cfg next).
Proof.
  intros Hn c s Hb Hs. destruct (CORS_cases cfg next c s) as [out [->|(status & _ & ->)]]; [|done]. 
  match goal with |- context[next ?c1 s] => exact (Hn c1 s Hb Hs) end.
Qed.

Lemma stays_JWTAuth B svc next : stays B next → stays B (JWTAuth svc next).
Proof. intros Hn. unfold JWTAuth. stays. Qed.

Lemma stays_Recovery B next : stays B next → stays B (Recovery next).
Proof.
  intros Hn c s Hb Hs. rewrite Recovery_run. specialize (Hn c s Hb Hs). by destruct (next c s) as [[u|e|] [c1 s1]].
Qed.

(** A request to any route. *)
Lemma stays_serve e : stays (fine e) (serve srv new_uuid e).
Proof.
  pose proof (stays_handle e) as Hh. unfold serve, chain, global. cbn [fold_right app].
  assert (Hg : stays (fine e) (fold_right (λ m h, m h) (handle srv e) (gate srv e))).
  { unfold gate. destruct (is_protected e); [by apply stays_JWTAuth|done]. }
  apply stays_CORS with (cfg := srv_cors srv) in Hg.
  unfold TraceID, ZapLogger. stays; apply stays_Recovery; unfold ErrorHandler; stays.
Qed.

(** ** Steps and histories *)

(** The system after a request. *)
Definition after (e : endpoint) (c : Gin) (x : system) : system :=
  mkSystem (serve srv new_uuid e c (sy_s x)).2.2 (sy_batch x) (sy_writer x) (sy_closing x).

Lemma request_step e c x : fresh c → does srv (ARequest e c) x (after e c x).
Proof using Type.
  intros Hf. destruct x as [s b wr cl]. unfold after. cbn [sy_s sy_batch sy_writer sy_closing].
  destruct (serve srv new_uuid e c s) as [r [c' s']] eqn:E. by eapply does_request.
Qed.

(** After the window's reset and the detector's clean-up. *)
Definition windowed (x : system) : system :=
  mkSystem ((sy_s x) <| s_cb ::= CB.windowResetTick |>) (sy_batch x) (sy_writer x) (sy_closing x).
Definition cleaned (x : system) : system :=
  mkSystem ((sy_s x) <| s_hk ::= HK.cleanup |>) (sy_batch x) (sy_writer x) (sy_closing x).

Lemma window_step x : does srv AWindow x (windowed x).
Proof using Type. destruct x. apply does_window. Qed.
Lemma cleanup_step x : does srv ACleanup x (cleaned x).
Proof using Type. destruct x. apply does_cleanup. Qed.

Definition modest_action (a : action) : Prop :=
  match a with ARequest e c => fine e (g_Body c) | _ => True end.

Lemma step_lasting a x y : does srv a x y → modest_action a → lasting (sy_s x) → lasting (sy_s y).
Proof.
  assert (Hend : ∀ A (m : M A) s r s', lasts m → m s = (r, s') → lasting s → lasting s').
  { intros A m s r s' Hm E Hs. destruct (Hm s Hs) as [H _]. by rewrite E in H. }
  assert (Hset : ∀ s s', aside s s' → lasting s → lasting s') by (intros s s'; apply lasting_aside).
  intros [e c s b wr cl r c' s' _ E|i t s b wr cl s' _ E|s b wr cl s' E|s b wr cl again s' E|
    ev s b cl b' wr' s' _ E|now s b wr cl|s b wr cl|s b wr cl|s b wr s' E] Ha; cbn [sy_s]; intros Hs.
  - destruct (stays_serve e c s Ha Hs) as [_ H]. by rewrite E in H.
  - eapply (Hend _ _ _ _ _ (lasts_task t0 srv t) E). eapply Hset; [|exact Hs]. by split_and!.
  - exact (Hend _ _ _ _ _ (lasts_initDatabases t0 srv) E Hs).
  - exact (Hend _ _ _ _ _ (lasts_consume t0 srv) E Hs).
  - exact (Hend _ _ _ _ _ (lasts_writer t0 ev b) E Hs).
  - eapply Hset; [|exact Hs]. by split_and!.
  - eapply Hset; [|exact Hs]. by split_and!.
  - eapply Hset; [|exact Hs]. split_and!; try done. apply HK.cleanup_usable.
  - exact (Hend _ _ _ _ _ (lasts_shutdown t0) E Hs).
Qed.

Lemma history_lasting acts x y :
  history srv acts x y → Forall modest_action acts → lasting (sy_s x) → lasting (sy_s y).
Proof.
  induction 1 as [x|a l x y z Hd _ IH]; [done|]. intros [Ha Hl]%Forall_cons Hs. apply IH; [done|]. by eapply step_lasting.
Qed.

(** ** A lookup over HTTP *)

(** CORS hands the request on: it names no origin, or one that is let through
    by something else than a preflight. *)
Definition let_through (cfg : Config.CORSConfig) (c : Gin) : bool :=
  let origin := GetHeader "Origin" c in
  negb (Config.cors_Enabled cfg) || bool_decide (origin = "") ||
  (is_wildcard (Config.AllowedOrigins cfg) || is_listed origin (Config.AllowedOrigins cfg) || same_origin origin (g_Host c)) &&
    negb (bool_decide (g_Method c = "OPTIONS")).

Lemma CORS_through cfg (next : HM unit) c s :
  let_through cfg c = true → ∃ out, CORS cfg next c s = next (c <| g_Out := out |>) s.
Proof.
  rewrite CORS_run. unfold let_through. cbv zeta. destruct (negb _ || _); [exists (g_Out c); by destruct c|].
  destruct (_ || same_origin _ _); [|done]. destruct (bool_decide (g_Method c = "OPTIONS")); [done|]. intros _.
  destruct (cors_headers_out cfg (is_wildcard (Config.AllowedOrigins cfg)) (GetHeader "Origin" c) c) as [out ->]. by exists out.
Qed.

(** It carries a token that the service accepts at that moment. *)
Definition authorized (svc : Auth.AuthService) (c : Gin) (s : Sys) : Prop :=
  GetHeader "Authorization" c ≠ "" ∧
  ∃ who, (Auth.ParseToken svc (bearer (GetHeader "Authorization" c)) s).1 = Val (inr who).

(** A request for an order that reaches the handler, from this state. *)
Definition asks (no : string) (c : Gin) (s : Sys) : Prop :=
  fresh c ∧ Param "orderNo" c = no ∧ let_through (srv_cors srv) c = true ∧
  authorized (authSvc (srv_auth srv)) c (after_uuid new_uuid c s).

(** The answer of the map. *)
Definition order_reply (t : gmap string Order) (no id : string) : Z * body :=
  match t !! no with
  | Some row => (200, BApi (mkResp 200 "success" (Some (DOrder (Some row))) id))
  | None => (404, BApi (mkResp 404 ("order not found: " +:+ no) None id))
  end.

Lemma ready_apart {A} (op : W → A * W) t s : apart op → ready t s → ready t (s <| s_w := (op (s_w s)).2 |>).
Proof.
  intros Ho [Hs Hk]. destruct (kept_coherent t (world op) s) as (a & s' & E & H1 & K); [|done|].
  - apply coh_world; [|intros w; apply Ho]. intros w. by destruct (Ho w) as (H1 & H2 & _).
  - rewrite world_run in E. injection E as _ <-. by split.
Qed.

Lemma now_apart : apart clk_now.
Proof. intros w. split; [apply clk_now_frames|]. split; [apply clk_now_frames|]. intros t. apply kept_now. Qed.

(** The chain of a protected route around a request that it lets through. *)
Lemma chain_admitted cfg svc (h : HM unit) c s who :
  let_through cfg c = true → GetHeader "Authorization" c ≠ "" →
  (Auth.ParseToken svc (bearer (GetHeader "Authorization" c)) s).1 = Val (inr who) →
  ∃ out, CORS cfg (JWTAuth svc h) c s =
    h (c <| g_Out := out |> <| g_userID := Some who.1 |> <| g_username := Some who.2 |>) (s <| s_w := (clk_now (s_w s)).2 |>).
Proof.
  intros Hc Ha Hwho. destruct (CORS_through cfg (JWTAuth svc h) c s Hc) as [out E]. exists out. rewrite E, JWTAuth_run.
  clear E. cbv zeta. set (c1 := c <| g_Out := out |>). assert (Eh : GetHeader "Authorization" c1 = GetHeader "Authorization" c) by done.
  rewrite Eh, bool_decide_eq_false_2 by done. rewrite Auth.ParseToken_run in Hwho |- *. cbn [fst] in Hwho. injection Hwho as ->.
  by destruct who.
Qed.

Lemma serve_admitted e c s who :
  is_protected e = true → let_through (srv_cors srv) c = true → GetHeader "Authorization" c ≠ "" →
  let s1 := after_uuid new_uuid c s in
  (Auth.ParseToken (authSvc (srv_auth srv)) (bearer (GetHeader "Authorization" c)) s1).1 = Val (inr who) →
  ∃ out, serve srv new_uuid e c s = Recovery (ErrorHandler (handle srv e))
    ((logged (request_id new_uuid c s) c) <| g_Out := out |> <| g_userID := Some who.1 |> <| g_username := Some who.2 |>)
    (s1 <| s_w := (clk_now (s_w s1)).2 |>).
Proof.
  intros Hp Hc Ha s1 Hwho. set (c1 := logged (request_id new_uuid c s) c).
  destruct (chain_admitted (srv_cors srv) (authSvc (srv_auth srv)) (handle srv e) c1 s1 who Hc Ha Hwho) as [out E].
  exists out. unfold serve, global, gate. rewrite Hp. cbn [app chain fold_right]. rewrite logged_run. fold c1 s1.
  rewrite !Recovery_run. unfold ErrorHandler. rewrite !hbind_run. by rewrite E.
Qed.

(** A single lookup on a process whose tiers agree with the table. *)
Lemma lookup_served t no c s :
  ready t s → numbered no → asks no c s →
  ∃ c' s', serve srv new_uuid EpGetOrder c s = (Val tt, (c', s')) ∧
    g_Writes c' = [order_reply t no (request_id new_uuid c s)] ∧ ready t s'.
Proof.
  intros Hs Hn (Hf & Hp & Hc & Ha & who & Hwho).
  assert (H1 : ready t (after_uuid new_uuid c s)).
  { unfold after_uuid. case_bool_decide; [|done]. by apply ready_apart; [apply uuid_apart|]. }
  destruct (serve_admitted EpGetOrder c s who eq_refl Hc Ha Hwho) as [out E]. rewrite E. clear E Hwho Ha Hc.
  set (s1 := after_uuid new_uuid c s) in *. set (id := request_id new_uuid c s).
  destruct (ready_apart _ t s1 now_apart H1) as [H2 K2]. set (s2 := s1 <| s_w := _ |>) in *.
  match goal with |- context[Recovery _ ?x s2] => set (c2 := x) end.
  assert (E2 : GetTraceID c2 = id ∧ Param "orderNo" c2 = no ∧ fresh c2) by done. clearbody c2 s2.
  destruct E2 as (Eid & Eno & [Ew Ee]).
  destruct (get_spec (orders srv) no t s2 wired_loads Hn H2 K2) as (s3 & E3 & H3 & K3).
  assert (Eh : handle srv EpGetOrder c2 s2 = (Val tt, (write (order_reply t no id).1 (order_reply t no id).2 c2, s3))).
  { cbn [handle]. unfold Handlers.GetOrder. rewrite hbind_run. unfold getg at 1. rewrite hbind_run, lift_run, Eno.
    unfold orders in E3. rewrite E3. cbn [fst snd]. unfold lookup_answer, order_reply.
    destruct (t !! no) as [row|]; rewrite JSON_run; unfold ApiJSON; by rewrite Eid. }
  rewrite Recovery_run. unfold ErrorHandler. rewrite hbind_run, Eh, hbind_run. unfold getg. cbn [g_Errors write set_field].
  rewrite Ee. cbn [last]. eexists _, s3. split; [reflexivity|]. split; [|by split]. cbn. rewrite Ew.
  by destruct (order_reply t no id).
Qed.

(** ** A creation over HTTP *)

(** An answer that holds no data. *)
Definition dataless (b : body) : Prop := ∀ resp, b = BApi resp → r_Data resp = None.

(** CORS and the gate reach the handler or refuse. *)
Lemma gate_cases cfg svc (h : HM unit) c s :
  g_Writes c = [] →
  ∃ c2, g_Body c2 = g_Body c ∧ g_Writes c2 = [] ∧
    (CORS cfg (JWTAuth svc h) c s = h c2 (s <| s_w := (clk_now (s_w s)).2 |>) ∨
     ∃ status b c3 s3, CORS cfg (JWTAuth svc h) c s = (Val tt, (c3, s3)) ∧ g_Writes c3 = [(status, b)] ∧ dataless b).
Proof.
  intros Ew.
  assert (Hno : ∀ code msg id, dataless (BApi (mkResp code msg None id))) by by intros code msg id resp [= <-].
  destruct (CORS_cases cfg (JWTAuth svc h) c s) as [out [HC|(st & _ & HC)]]; rewrite HC; clear HC.
  - rewrite JWTAuth_run. cbv zeta. destruct (bool_decide _).
    + exists c. split; [done|]. split; [done|]. right. eexists _, _, _, _. split; [reflexivity|]. cbn. by rewrite Ew.
    + rewrite Auth.ParseToken_run. destruct (jwt_parse _ _ _) as [cl|]; [destruct (jc_user_id cl)|].
      1: by eexists; split; [|split; [|left; reflexivity]].
      all: exists c; (split; [done|]); (split; [done|]); right; eexists _, _, _, _; (split; [reflexivity|]); cbn; by rewrite Ew.
  - exists c. split; [done|]. split; [done|]. right. eexists _, _, _, _. split; [reflexivity|]. cbn. rewrite Ew. by split.
Qed.

(** Recovery and the error handler add answers without data. *)
Lemma answer_passed next c s c' s' status resp d :
  Recovery (ErrorHandler next) c s = (Val tt, (c', s')) → g_Writes c' = [(status, BApi resp)] → r_Data resp = Some d →
  next c s = (Val tt, (c', s')).
Proof.
  assert (Hlast : ∀ l x, (l ++ [x])%list = [(status, BApi resp)] → x = (status, BApi resp)).
  { intros l x E. destruct l as [|y [|z l]]; [by injection E|done..]. }
  intros Hr Hw' Hd. rewrite Recovery_run in Hr. unfold ErrorHandler in Hr. rewrite hbind_run in Hr.
  destruct (next c s) as [[[]|msg|] [c3 s3]]; [| |done].
  - rewrite hbind_run in Hr. unfold getg in Hr. destruct (last (g_Errors c3)) as [err|]; [|exact Hr].
    injection Hr as <- <-. cbn in Hw'. apply Hlast in Hw'. injection Hw' as <- <-. done.
  - injection Hr as <- <-. cbn in Hw'. apply Hlast in Hw'. injection Hw' as <- <-. done.
Qed.

(** An answer with data comes from the handler: no middleware gives one. *)
Lemma answer_from_handler e c s c' s' status resp d :
  is_protected e = true → fresh c → serve srv new_uuid e c s = (Val tt, (c', s')) →
  g_Writes c' = [(status, BApi resp)] → r_Data resp = Some d →
  ∃ c2, g_Body c2 = g_Body c ∧ g_Writes c2 = [] ∧ let s1 := after_uuid new_uuid c s in
    handle srv e c2 (s1 <| s_w := (clk_now (s_w s1)).2 |>) = (Val tt, (c', s')).
Proof.
  intros Hp [Ew _] Hr Hw' Hd. unfold serve, global, gate in Hr. rewrite Hp in Hr. cbn [app chain fold_right] in Hr.
  rewrite logged_run in Hr. cbv zeta. set (s1 := after_uuid new_uuid c s) in *.
  pose proof (answer_passed _ _ _ _ _ _ _ _ Hr Hw' Hd) as Hr1. clear Hr. rename Hr1 into Hr.
  destruct (gate_cases (srv_cors srv) (authSvc (srv_auth srv)) (handle srv e) (logged (request_id new_uuid c s) c) s1 Ew)
    as (c2 & Eb & Ew2 & [E|(st & b & c3 & s3 & E & Eb' & Hno)]); rewrite E in Hr.
  - by exists c2.
  - injection Hr as -> ->. rewrite Eb' in Hw'. injection Hw' as _ ->. specialize (Hno resp eq_refl). congruence.
Qed.

(** A creation answered as written has left its row. *)
Lemma created_stored t e c s c' s' status resp no :
  e = EpCreateOrder ∨ e = EpCreateOrderSync → ready t s → modest (g_Body c) → fresh c →
  serve srv new_uuid e c s = (Val tt, (c', s')) → g_Writes c' = [(status, BApi resp)] →
  r_Data resp = Some (DCreated no "sync") →
  ∃ t' row, grows t t' ∧ ready t' s' ∧ numbered no ∧ t' !! no = Some row ∧
    (t !! no = None → o_UserID row = cor_UserID (Decode dec_order_req zero_order_req (g_Body c)).1).
Proof.
  intros He Hs Hm Hf Hr Hw' Hd.
  assert (Hp : is_protected e = true) by by destruct He as [-> | ->].
  destruct (answer_from_handler e c s c' s' status resp _ Hp Hf Hr Hw' Hd) as (c2 & Eb & Ew2 & Hh). cbv zeta in Hh.
  set (s1 := after_uuid new_uuid c s) in *.
  assert (H1 : ready t s1).
  { unfold s1, after_uuid. case_bool_decide; [|done]. by apply ready_apart; [apply uuid_apart|]. }
  apply (ready_apart _ t s1 now_apart) in H1. set (s2 := s1 <| s_w := _ |>) in *. clearbody s2. clear Hr s1.
  assert (Hc : ∃ forced msg, handleCreateOrder (srv_business srv) msg forced c2 s2 = (Val tt, (c', s')))
    by (destruct He as [-> | ->]; [by exists false, "order accepted"|by exists true, "order created"]).
  destruct Hc as (forced & msg & Hc). unfold handleCreateOrder in Hc. rewrite bind_valid_run, Eb in Hc. rewrite <-Eb in Hm.
  destruct (Decode dec_order_req zero_order_req (g_Body c)) as [req [err|]] eqn:Ed.
  { rewrite JSON_run in Hc. injection Hc as <- <-. cbn in Hw'. rewrite Ew2 in Hw'. injection Hw' as _ <-. done. }
  destruct (validate _ _) as [err|].
  { rewrite JSON_run in Hc. injection Hc as <- <-. cbn in Hw'. rewrite Ew2 in Hw'. injection Hw' as _ <-. done. }
  rewrite hbind_run in Hc. unfold getg in Hc. rewrite hbind_run, lift_run in Hc.
  set (order := zero_Order <| o_UserID := _ |> <| o_Amount := _ |>) in Hc.
  assert (Hu : user_ok order).
  { split; [|apply Hm; by rewrite Eb]. pose proof (order_req_range (g_Body c)) as [Hr _]. by rewrite Ed in Hr. }
  destruct (creates_creation (orderSvc (srv_business srv)) forced (g_ctx c2) order t s2 Hu (proj1 H1))
    as (no' & now & [[l no2] err] & s3 & t' & E & Hn & [-> Ho] & H3 & K3).
  unfold creation in E. rewrite E in Hc. cbn [fst snd] in Hc. destruct err as [err|].
  { rewrite JSON_run in Hc. injection Hc as <- <-. cbn in Hw'. rewrite Ew2 in Hw'. injection Hw' as _ <-. done. }
  set (o := filled order no' now) in *.
  assert (Hlog : ∃ s4, (if analyticsSvc (srv_business srv) then lift (Analytics.LogOrderCreated (o_UserID order) (o_OrderNo o)) else mret tt)
    c2 s3 = (Val tt, (c2, s4)) ∧ Durable.lasting t' s4).
  { assert (H : Durable.lasting t' s3) by (exists t'; split; [done|]; split; [done|]; rewrite K3; apply H1).
    destruct (analyticsSvc _); [|by exists s3].
    destruct (LogOrderCreated_world (o_UserID order) (o_OrderNo o) s3) as (s4 & E4 & _). exists s4.
    destruct (lasts_LogOrderCreated t' (o_UserID order) (o_OrderNo o) s3 H) as [H4 _]. rewrite lift_run, E4 in *. done. }
  destruct Hlog as (s4 & E4 & t2 & G2 & H4). rewrite hbind_run, E4, JSON_run in Hc. injection Hc as <- <-.
  cbn in Hw'. rewrite Ew2 in Hw'. injection Hw' as _ <-. cbn in Hd. injection Hd as <- ->.
  destruct Ho as [(_ & id & Hid & ->)|(? & _)]; [|done].
  assert (Hst : storable o) by by split.
  destruct (upserted_fields t id o Hst) as (Hrow & _ & _ & Hnew).
  destruct (G2 _ _ Hrow) as (row & Hrow2 & _ & Eu & _). exists t2, row.
  split; [etrans; [apply grows_upsert|exact G2]|]. split; [exact H4|]. split; [exact Hn|]. split; [exact Hrow2|].
  intros Hnone. rewrite Eu, (Hnew Hnone). by destruct (column_keys (o <| o_ID := id |>)) as [-> _].
Qed.

(** ** A message consumed *)

Definition stored (o : Order) (t t' : gmap string Order) : Prop :=
  ∃ row, t' !! o_OrderNo o = Some row ∧ (t !! o_OrderNo o = None → o_UserID row = o_UserID o).

(** The retries of a message of [o] return, and without an error only when
    the row is there. *)
Lemma retry_stores os ctx key value o todo first backoff err t s :
  event_order value = inr o → storable o → ready t s →
  ∃ r s' t', Mq.retry_loop todo first backoff err (HandleOrderEvent os ctx key value) s = (Val r, s') ∧
    grows t t' ∧ ready t' s' ∧ (r = None → (todo = 0%nat ∧ err = None) ∨ stored o t t').
Proof.
  intros Hv Ho. revert first backoff err s. induction todo as [|todo IH]; intros first backoff err s Hs; cbn [Mq.retry_loop].
  { exists err, s, t. split; [done|]. split; [done|]. split; [done|]. by left. }
  assert (Htry : ∀ b s, ready t s → ∃ r s' t',
    (err ← HandleOrderEvent os ctx key value;
     match err with None => mret None | Some e => Mq.retry_loop todo false b (Some e) (HandleOrderEvent os ctx key value) end) s = (Val r, s') ∧
    grows t t' ∧ ready t' s' ∧ (r = None → stored o t t')).
  { intros b s2 [H2 K2]. destruct (handle_spec os ctx key value t s2) as (r & s3 & t' & E & H3 & K3 & Hr);
      [unfold fit; rewrite Hv; by intros ? [= <-]|done|]. rewrite bind_run, E. destruct r as [e|].
    - subst t'. destruct (IH false b (Some e) s3) as (r & s4 & t4 & E4 & G4 & H4 & Hr4); [split; [done|by rewrite K3]|].
      exists r, s4, t4. split; [done|]. split; [done|]. split; [done|]. intros Hn. by destruct (Hr4 Hn) as [[_ ?]|?].
    - destruct Hr as (o' & id & Ho' & _ & ->). rewrite Hv in Ho'. injection Ho' as <-.
      destruct (upserted_fields t id o Ho) as (Hrow & _ & _ & Hnew).
      eexists None, s3, (upsert id o t). split; [done|]. split; [apply grows_upsert|]. split; [split; [done|by rewrite K3]|].
      intros _. eexists. split; [exact Hrow|]. intros Hnone. rewrite (Hnew Hnone). by destruct (column_keys (o <| o_ID := id |>)) as [-> _]. }
  destruct first.
  - destruct (Htry backoff s Hs) as (r & s' & t' & E & G & H & Hr). exists r, s', t'. split_and!; [done..|]. intros Hn. right. by apply Hr.
  - rewrite bind_run, world_run. pose proof (ready_apart _ t s (ctx_wait_apart backoff) Hs) as H1.
    destruct (ctx_wait backoff (s_w s)) as [[e|] w]; cbn [fst snd] in *.
    + eexists (Some _), _, t. split; [reflexivity|]. by split_and!.
    + destruct (Htry (wrap64 (backoff * 2)) _ H1) as (r & s' & t' & E & G & H & Hr). exists r, s', t'. split_and!; [done..|].
      intros Hn. right. by apply Hr.
Qed.

End server.

(** ** Properties *)

Section properties.
Context `{EN : Env} `{CO : Codec} `{CL : !CodecLaws} `{VI : !Views} `{RE : !RedisLaws} `{LL : !L1Laws}
  `{CK : !ClockLaws} `{FR : !FrameLaws} `{SF : !ServiceFrames} `{OT : !OrderTable} `{OL : !OrderTableLaws}
  `{DR : !Drivers} `{BY : !Bystanders} `{VA : !Validator}.
#[local] Set Default Proof Using "All".

(** C6: Created orders last, over HTTP and through everything the process
    does: when a creation, on either route, is answered as written to the
    database under a number, then after any further history of requests to any
    routes, goroutines, the creation of tables and indexes, consumed messages,
    writer rounds, ticks, clean-ups and the shutdown, the table holds a row of
    that number, which belongs to the user of the creation if the number was
    new, and every row that was in the table before the creation is still
    there as the same order of the same user.  The steps of the history follow
    one another; the services answer throughout, master and replicas hold one
    table, and creations are for users that float64 holds. *)
Theorem created_rows_last cfg srv t0 st0 e c c' s1 status resp no acts st :
  running cfg srv st0 → ready t0 (sy_s st0) →
  e = EpCreateOrder ∨ e = EpCreateOrderSync → fresh c → modest (g_Body c) →
  serve srv new_uuid e c (sy_s st0) = (Val tt, (c', s1)) →
  g_Writes c' = [(status, BApi resp)] → r_Data resp = Some (DCreated no "sync") →
  history srv acts (mkSystem s1 (sy_batch st0) (sy_writer st0) (sy_closing st0)) st → Forall modest_action acts →
  ∃ row, orders_of (s_w (sy_s st)) !! no = Some row ∧ o_OrderNo row = no ∧
    (t0 !! no = None → o_UserID row = cor_UserID (Decode dec_order_req zero_order_req (g_Body c)).1) ∧
    grows t0 (orders_of (s_w (sy_s st))).
Proof.
  intros Hr Hs He Hf Hm Hse Hwr Hd Hh Ha. destruct (running_ok _ _ _ Hr) as (search & Hw & _).
  destruct (created_stored t0 _ _ srv Hw t0 e c _ _ _ _ _ _ He Hs Hm Hf Hse Hwr Hd) as (t1 & row & G1 & H1 & Hn & Hrow & Hu).
  destruct (history_lasting t1 _ _ srv Hw acts _ st Hh Ha) as (t2 & G2 & H2); [by exists t1|].
  destruct (G2 _ _ Hrow) as (row2 & Hrow2 & _ & Eu & _). pose proof H2 as [Hc2 _].
  assert (orders_of (s_w (sy_s st)) = t2) as -> by apply H2.
  exists row2. split; [done|]. destruct Hc2 as [Hok _]. split; [by destruct (Hok _ _ Hn Hrow2)|].
  split; [rewrite Eu; exact Hu|by etrans].
Qed.

(** C27: What is queued arrives: when a round of a Kafka worker fetches the
    message of a storable order, the round returns and the worker goes on; if
    the retries report success, then after any further history the table holds
    a row of that number, which belongs to the user of the order if the number
    was new; if they fail, the message has been offered to the dead letters;
    no row that was in the table before is lost in either case.  Steps,
    services and tables as for the creations. *)
Theorem consumed_rows_last cfg srv t0 st0 w1 w2 w3 msg o :
  let s := sy_s st0 in let ec := srv_consumer srv in
  running cfg srv st0 → ready t0 s → 0 <= Mq.ec_maxRetries ec →
  ctx_err (s_w s) = (None, w1) → rate_wait w1 = (None, w2) → kafka_fetch w2 = (inr msg, w3) →
  event_order (k_Value msg) = inr o → storable o →
  let traceID := Mq.extractTraceID (k_Headers msg) in
  let ctx := if bool_decide (traceID = "") then Mq.Background else Mq.NewContext Mq.Background traceID in
  ∃ err s1 s2,
    Mq.processWithRetry (HandleOrderEvent (orders srv)) ec ctx (k_Key msg) (k_Value msg) (s <| s_w := w3 |>) = (Val err, s1) ∧
    consume srv s = (Val true, s2) ∧
    (∀ e, err = Some e → ∃ ep, Mq.ec_producer ec = Some ep ∧ s_w s2 =
        (kafka_commit msg (let '(now, w) := clk_now (s_w s1) in (kafka_write (ep_dlqTopic ep) (Mq.letter ep msg now) w).2)).2) ∧
    ∀ acts st, history srv acts (mkSystem s2 (sy_batch st0) (sy_writer st0) (sy_closing st0)) st → Forall modest_action acts →
      grows t0 (orders_of (s_w (sy_s st))) ∧
      (err = None → ∃ row, orders_of (s_w (sy_s st)) !! o_OrderNo o = Some row ∧
        o_OrderNo row = o_OrderNo o ∧ (t0 !! o_OrderNo o = None → o_UserID row = o_UserID o)).
Proof.
  intros s ec Hr Hs Hmax E1 E2 E3 Hv Ho traceID ctx. destruct (running_ok _ _ _ Hr) as (search & Hw & _).
  assert (H3 : ready t0 (s <| s_w := w3 |>)).
  { pose proof (ready_apart t0 _ _ srv Hw _ t0 s ctx_err_apart Hs) as H1. rewrite E1 in H1. cbn [snd] in H1.
    pose proof (ready_apart t0 _ _ srv Hw _ t0 _ rate_apart H1) as H2. rewrite s_w_set, E2, s_w_set_set in H2. cbn [snd] in H2.
    pose proof (ready_apart t0 _ _ srv Hw _ t0 _ fetch_apart H2) as H4. rewrite s_w_set, E3, s_w_set_set in H4. exact H4. }
  pose proof (retry_stores t0 _ _ srv Hw (orders srv) ctx (k_Key msg) (k_Value msg) o
    (Z.to_nat (Mq.ec_maxRetries ec + 1)) true (100 * Millisecond) None t0 _ Hv Ho H3) as (err & s1 & t1 & E & G1 & H1 & Hst).
  exists err, s1. eexists. split; [exact E|].
  pose proof (Mq.settle_run ec ctx msg err s1) as Hset. cbv zeta in Hset.
  assert (Hc : consume srv s = (_ ← match err, Mq.ec_producer ec with
      | Some _, Some ep => Mq.SendToDLQ ep ctx (k_Key msg) (Mq.PBytes (k_Value msg)) | _, _ => mret None end;
    _ ← world (kafka_commit msg); mret true : M bool) s1).
  { unfold consume. rewrite (Mq.consume_once_run _ _ _ _ w1 w2 w3 msg) by done. fold traceID ctx ec. rewrite bind_run.
    unfold Mq.processWithRetry at 1. by rewrite E. }
  split; [by rewrite Hc, Hset|]. split.
  - intros e ->. destruct Hw as (_ & _ & _ & _ & _ & _ & _ & _ & [ep Hep]). fold ec in Hep. exists ep. split; [done|]. by rewrite Hep.
  - intros acts st Hh Ha.
    assert (Hl : lasts t1 (_ ← match err, Mq.ec_producer ec with
        | Some _, Some ep => Mq.SendToDLQ ep ctx (k_Key msg) (Mq.PBytes (k_Value msg)) | _, _ => mret None end;
      _ ← world (kafka_commit msg); mret true : M bool)) by exact (lasts_settle t1 ec ctx msg err).
    destruct (Hl s1) as [H2 _]; [by exists t1|]. rewrite Hset in H2.
    destruct (history_lasting t1 _ _ srv Hw acts _ st Hh Ha H2) as (t2 & G2 & [[Hok Htab] _]).
    assert (orders_of (s_w (sy_s st)) = t2) as -> by apply Htab. split; [by etrans|]. intros ->.
    destruct Hst as [[Hz _]|(row & Hrow & Hu)]; [done|lia|].
    destruct (G2 _ _ Hrow) as (row2 & Hrow2 & _ & Eu & _). exists row2. split; [done|].
    split; [by destruct (Hok _ _ (proj1 Ho) Hrow2)|]. rewrite Eu. exact Hu.
Qed.

End properties.

(** ** Witnesses: a created order looked up later in the life of the process *)

(** The server that the configuration gives in a world, and its state. *)
Definition is_val {A} (r : res A) : bool := match r with Val _ => true | _ => false end.
Definition server_over (w : dworld) : Server := match (setup demo_cfg (demo_with w)).1 with Val srv => srv | _ => demo_srv end.
Definition start_over (w : dworld) : system := mkSystem (setup demo_cfg (demo_with w)).2 [] true false.

Lemma start_running w :
  is_val (setup demo_cfg (demo_with w)).1 = true → ticking (setup demo_cfg (demo_with w)).2 = true →
  running demo_cfg (server_over w) (start_over w).
Proof.
  intros E Et. exists (demo_with w), (setup demo_cfg (demo_with w)).2. split; [by repeat split|]. split; [discriminate|].
  split; [|split; [exact Et|constructor]]. unfold server_over. destruct (setup demo_cfg _) as [[srv|e|] s]; [reflexivity|discriminate E..].
Qed.

(** Over the empty world, and with the message of an order queued. *)
Definition demo_server : Server := server_over demo_w.
Definition demo_start : system := start_over demo_w.
Definition queued_msg : kafka_message := mkMsg "7" demo_message [].
Definition queued_w : dworld := demo_w <| dw_inbox := [queued_msg] |>.
Definition queued_server : Server := server_over queued_w.
Definition queued_start : system := start_over queued_w.

Lemma demo_start_running : running demo_cfg demo_server demo_start.
Proof. apply start_running; vm_compute; reflexivity. Qed.

Lemma queued_start_running : running demo_cfg queued_server queued_start.
Proof. apply start_running; vm_compute; reflexivity. Qed.

Lemma demo_start_ready : ready ∅ (sy_s demo_start).
Proof.
  apply fresh_ready; [|vm_compute; reflexivity..|].
  { assert (E : dw_inbox (s_w (sy_s demo_start)) = []) by (vm_compute; reflexivity). rewrite E. constructor. }
  assert (E : s_hk (sy_s demo_start) = new_detector (Config.HotKey demo_cfg)) by (vm_compute; reflexivity).
  rewrite E. by apply HK.New_usable.
Qed.

Lemma queued_start_ready : ready ∅ (sy_s queued_start).
Proof.
  apply fresh_ready; [|vm_compute; reflexivity..|].
  - assert (E : dw_inbox (s_w (sy_s queued_start)) = [queued_msg]) by (vm_compute; reflexivity). rewrite E.
    apply Forall_singleton. unfold fit. change (k_Value queued_msg) with demo_message. rewrite demo_event.
    intros o [= <-]. exact demo_order_storable.
  - assert (E : s_hk (sy_s queued_start) = new_detector (Config.HotKey demo_cfg)) by (vm_compute; reflexivity).
    rewrite E. by apply HK.New_usable.
Qed.

Lemma demo_modest : modest (g_Body demo_post).
Proof.
  intros req E. assert (E0 : cor_UserID (Decode dec_order_req zero_order_req (g_Body demo_post)).1 = 7) by (vm_compute; reflexivity).
  rewrite E in E0. cbn [fst] in E0. rewrite E0. lia.
Qed.

(** The order created, the breaker's window reset, another order created, the
    detector cleaned. *)
Definition demo_created : system := after demo_server EpCreateOrderSync demo_post demo_start.
Definition demo_window : system := windowed demo_created.
Definition demo_again : system := after demo_server EpCreateOrder demo_post demo_window.
Definition demo_later : system := cleaned demo_again.
Definition demo_acts : list action := [AWindow; ARequest EpCreateOrder demo_post; ACleanup].

Lemma demo_later_history : history demo_server demo_acts demo_created demo_later.
Proof.
  exact (history_cons demo_server _ _ demo_created demo_window demo_later (window_step demo_server demo_created)
    (history_cons demo_server _ _ demo_window demo_again demo_later
      (request_step demo_server EpCreateOrder demo_post demo_window (conj eq_refl eq_refl))
      (history_cons demo_server _ _ demo_again demo_later demo_later (cleanup_step demo_server demo_again)
        (history_nil demo_server demo_later)))).
Qed.

Lemma demo_acts_modest : Forall modest_action demo_acts.
Proof. apply Forall_cons. split; [exact I|]. apply Forall_cons. split; [exact demo_modest|]. apply Forall_cons. split; [exact I|constructor]. Qed.

Lemma created_rows_last_witness :
  ∃ row, orders_of (s_w (sy_s demo_later)) !! demo_no = Some row ∧ o_OrderNo row = demo_no ∧ o_UserID row = 7.
Proof.
  set (r := serve demo_server new_uuid EpCreateOrderSync demo_post (sy_s demo_start)).
  assert (Er : r = (Val tt, (r.2.1, (sy_s demo_created)))).
  { assert (E1 : r.1 = Val tt) by (vm_compute; reflexivity). rewrite <-E1. unfold demo_created, after. fold r.
    cbn [sy_s]. rewrite <-(surjective_pairing r.2). apply surjective_pairing. }
  assert (Ew : g_Writes r.2.1 = [(200, BApi (mkResp 200 "order created" (Some (DCreated demo_no "sync")) "t1"))])
    by (vm_compute; reflexivity).
  destruct (created_rows_last demo_cfg demo_server ∅ demo_start EpCreateOrderSync demo_post _ _ _ _ _ _ demo_later
    demo_start_running demo_start_ready (or_intror eq_refl) (conj eq_refl eq_refl) demo_modest Er Ew eq_refl
    demo_later_history demo_acts_modest) as (row & Hrow & En & Eu & _).
  exists row. split; [exact Hrow|]. split; [exact En|].
  rewrite Eu by apply lookup_empty. vm_compute. reflexivity.
Defined.

(** A worker consumes the queued message; the breaker's window is reset and
    the detector cleaned. *)
Definition queued_consumed : system := mkSystem (consume queued_server (sy_s queued_start)).2 [] true false.
Definition queued_later : system := cleaned (windowed queued_consumed).

Lemma queued_later_history : history queued_server [AWindow; ACleanup] queued_consumed queued_later.
Proof.
  exact (history_cons queued_server _ _ queued_consumed (windowed queued_consumed) queued_later
    (window_step queued_server queued_consumed)
    (history_cons queued_server _ _ (windowed queued_consumed) queued_later queued_later
      (cleanup_step queued_server (windowed queued_consumed)) (history_nil queued_server queued_later))).
Qed.

Lemma consumed_rows_last_witness :
  ∃ row, orders_of (s_w (sy_s queued_later)) !! demo_no = Some row ∧ o_OrderNo row = demo_no ∧ o_UserID row = 7.
Proof.
  destruct (consumed_rows_last demo_cfg queued_server ∅ queued_start (s_w (sy_s queued_start)) (s_w (sy_s queued_start))
    ((s_w (sy_s queued_start)) <| dw_inbox := [] |>) queued_msg demo_order queued_start_running queued_start_ready
    ltac:(vm_compute; discriminate) eq_refl eq_refl ltac:(vm_compute; reflexivity) demo_event demo_order_storable)
    as (err & s1 & s2 & E & Ec & _ & H).
  match type of E with ?x = _ => assert (En : x.1 = Val None) by (vm_compute; reflexivity); rewrite E in En end.
  injection En as ->.
  assert (Es : queued_consumed = mkSystem s2 [] true false) by (unfold queued_consumed; rewrite Ec; reflexivity).
  pose proof queued_later_history as Hh. rewrite Es in Hh.
  destruct (H [AWindow; ACleanup] queued_later Hh) as (_ & Hrow); [by repeat constructor|].
  destruct (Hrow eq_refl) as (row & Hr & Eo & Eu).
  exists row. split; [exact Hr|]. split; [exact Eo|].
  rewrite Eu by apply lookup_empty. vm_compute. reflexivity.
Defined.

End EndToEnd.
